(* ===== verification/_CoqProject ===== *)
-Q . S2P
Prelude.v
Schema.v
StateMachines.v
Tables.v
Database.v
PreparationStore.v
RunRecord.v
ExecutionStore.v
InputBundles.v
SubmissionTransitions.v
PublicationStore.v
OperatorDecisions.v
Admission.v
Notices.v
Queries.v
Runtime.v
ConnectorErrors.v
ConnectorSteps.v
Actions.v
GitHub.v
NoticeDelivery.v
ObjectStore.v
PreparationCommand.v
Statistics.v
StatisticsStore.v
RunList.v
StatisticsSpecs.v
Invariant.v
Preservation.v
PreparationSpecs.v
ExecutionSpecs.v
PublicationSpecs.v
OperatorSpecs.v
DatabaseSpecs.v
System.v
SystemSpecs.v
Scenario.v
Correctness.v
Fencing.v
PreparationProperties.v
SubmissionProperties.v
RecoveryProperties.v
Stranded.v
PublicationOutcomes.v
PublicationProperties.v
ConnectorOutcomes.v
ConnectorProperties.v
RunListProperties.v
StatisticsProperties.v
GitHubSpecs.v
NoticeOutcomes.v
Hub.v
NoticeProperties.v
CommandOutcomes.v
BundleOutcomes.v
BackoffOutcomes.v
CommandProperties.v
Catalog.v
CatalogStore.v
CatalogHistory.v
CatalogSpecs.v
CatalogCommits.v
CatalogProperties.v
CatalogQueries.v
CatalogServer.v
CatalogPages.v
CatalogRequests.v
Gateway.v
ExecutionClient.v
GatewayIdentity.v
GatewaySpecs.v
GatewayProperties.v
Suggestions.v
SuggestionSpecs.v
SuggestionProperties.v
PullReviews.v
ReviewProperties.v
DraftPulls.v
DraftNames.v
DraftProperties.v
