(* ===== verification/Prelude.v ===== *)
(** * Sec Review Bot: the coordination of review runs

    The repository runs security reviews of issues, pull requests and repositories.  A
    connector (apps/github-integration) admits a run on a trigger, prepares its input and
    publishes its result on GitHub; the Execution service runs the review; and between them
    the Review Runs service (services/review-runs) keeps the durable state of every run in
    PostgreSQL and decides who may do what next.  This library models that service, the
    routines of the connector that hold claims of it (the preparation pass, the publication
    protocol, the delivery of notices) with the parts of GitHub and of the object store they
    write to, and the network between them; and the memory catalog service
    (services/memory-catalog), which keeps what reviews taught in a database of its own; and the
    execution gateway (services/execution-gateway), which starts and describes runs in
    Temporal, with the client the Review Runs service reaches it through.
    Paths below are under src/; those without a prefix are under services/review-runs/src/.

    ** The program

    A run has a trunk row and three axes, each a small state machine with its own retry
    budget: preparation (the connector builds the input, under a claim lease), execution (the
    request is saved, submitted, observed) and publication (a set of steps, each with an
    effect on GitHub).  Workers take claims with fresh tokens; every write is fenced by the
    token, or by the status it expects; leases expire; what ran out of its budget is parked
    as disconnected until an operator resumes it or gives it up.  Every change of an axis
    appends an event in its transaction, and every failure or parked axis queues one notice
    for the requester.  A statistics queue follows the concluded executions.

    The memory catalog registers what extractors observed in reviews and keeps the revisions
    of the memory tree: a maintenance workflow consumes pending observations and commits a
    revision on the one it read, an operator edits, restores an older revision, or switches
    the maintenance off.  Whoever publishes reserves and confirms an intent first, so that a
    retry after a crash finds what it meant to do.

    ** Files and what they model

    Foundations: Prelude (this file: failures, the transaction monad with its weakest
    preconditions, SQL and ordering helpers, tactics), Schema (database/schema-versions: rows,
    enums, CHECK constraints), StateMachines (state-machines.generated.ts), Tables (UPDATE,
    the event log of persistence/review-run-events.ts, the outbox of
    persistence/run-notices.ts, the transitions of execution-skip.ts and publication-abandon.ts),
    Database (all runs, connector scoping, row locks).

    Stores, one definition per method, under its name: PreparationStore, RunRecord (run-record-projection.ts,
    shapes.ts), ExecutionStore (with review-run-store.ts), InputBundles
    (input-bundle-candidate-store.ts), SubmissionTransitions, PublicationStore (with
    publication-claim-store.ts), OperatorDecisions, Admission, Notices, Queries and RunList
    (review-run-queries.ts).  [fail] of publication-store.ts is [failPublication], [admit] is
    [admitIngress]; methods two stores share a name for carry the axis in theirs.

    Workers: Runtime (runtime/prepared-submission.ts, submission-recovery.ts,
    terminal-coordination.ts, coordinator.ts and one handler of server-runtime.ts), Statistics
    and StatisticsStore (statistics/).

    Connector: ConnectorErrors (http/server-surface.ts setErrorHandler;
    apps/github-integration/src/review-runs/publication-failure.ts and publication-claim.ts,
    utils/error-utils.ts), ConnectorSteps (reviews/shared/publication-step.ts and
    settle-exhausted-step.ts, the delivery loop of reviews/repositories/publish.ts,
    review-runs/publication-coordinator.ts, the request of review-runs/client.ts), Actions
    (asynchronous routines as an exception monad over the world they share: the rows, the
    remote state, the flag of the heartbeat, a trace of renewals and writes), GitHub (the
    class of GitHub's requests with its documented laws; github/comment-service.ts,
    repository-service.ts, github-app-metadata-service.ts, installation-client.ts,
    review-runs/preparation-failure.ts), NoticeDelivery
    (review-runs/run-notice-coordinator.ts, run-notice-reply.ts, run-notice-claim.ts),
    ObjectStore (the class of the object store with its laws; artifacts/input-storage.ts, the
    S3 store), PreparationCommand (review-runs/preparation-claim.ts and
    preparation-coordinator.ts, artifacts/input-bundle-publication.ts,
    triggers/preparation-command.ts, the dispatch of triggers/repository-review.ts),
    Suggestions (reviews/pull-requests/suggestion-service.ts and suggestion-comments.ts: from a
    mitigation patch to comments with suggestions), PullReviews (the reviews of
    github/comment-service.ts and the side effect of reviews/pull-requests/publish.ts, over the
    class of the requests of the pulls API), DraftPulls (reviews/shared/draft-pull-request.ts,
    branch-name.ts and branch-already-exists.ts, reviews/repo-path.ts, issues/draft-pr.ts,
    repositories/delivery-draft-pr.ts and delivery-title.ts, github/default-branch-service.ts,
    over the class of the requests for Git data).

    Memory catalog, paths under services/memory-catalog/src/: Catalog
    (contract-types-generated.ts, database/schema-versions), CatalogStore (catalog-store.ts, one
    definition per method), CatalogQueries (catalog-queries.ts), CatalogServer (server.ts: roles,
    routes, handlers, error answers).  A method is a function of the whole catalog; what a
    transaction reads before its first lock may be older, and is the argument [seen].

    Execution: Gateway (services/execution-gateway/src: temporal-execution-client.ts, server.ts,
    execution-api-validation.ts, execution.ts, over the class of what Temporal documents),
    ExecutionClient (execution-client.ts, and the lines of runtime/server-runtime.ts that hand
    its answers to the workers).  A routine is a function of the number of requests so far and
    of the state of Temporal; [env] is what others do there before each request, [net] what
    becomes of each HTTP request.  The requests for a list of statuses are made one after the
    other where the code makes them at once.

    ** How it is modelled

    A store method is a function from the rows of one run (or the whole database, for the
    claim queues) to a result with the new rows, or to the failure that rolls it back; an
    UPDATE re-checks the CHECK constraints of its table, so writing a row the schema forbids
    is a failure of the model, not an assumption.  [now] is the one clock_timestamp() of a
    transaction.  A method of several transactions, a worker routine and a connector routine
    are several such steps: [env i] is whatever other workers commit before the i-th one,
    [now i] its time, [net i] what the network does to it (delivered, request lost, answer
    lost), and what Execution, Langfuse and GitHub answer are arguments.  System makes every
    transaction of the stores a step of one transition system, so an interleaving of any
    number of connectors and workers, a crash between two transactions included, is a
    sequence of steps, and [reachable] is what such sequences reach from the empty database.

    ** What is proved

    Invariant states what holds of the rows of a run between transactions ([run_inv]: the
    CHECKs, the agreement of the axes, the budgets, ownership, the axis derived from its
    steps, candidates, the log, the notices) and how a transaction may change them
    ([evolves]); Preservation, PreparationSpecs, ExecutionSpecs, PublicationSpecs,
    OperatorSpecs, DatabaseSpecs and SystemSpecs prove it of every operation and lift it to
    the database, so that one lemma per operation gives preservation, progress of the audit
    log and the absence of constraint violations.  On top of it:

    - Correctness: what holds of every reachable database.  The machines of StateMachines are
      the abstract specification, and the recorded transitions refine them; concluded work
      stays concluded; publication only follows success; every failure is reported once; the
      budgets hold; the log is a faithful history; no transaction breaks a constraint.
    - Fencing: with a token that lost its claim, every operation that takes one writes nothing.
    - PreparationProperties, SubmissionProperties, RecoveryProperties, PublicationProperties
      (with the outcome lemmas of PublicationOutcomes): what each
      operation or routine answers and leaves, on every branch; queue order; termination of
      recovery; and where a publication can get stuck (Stranded).
    - ConnectorProperties (with ConnectorOutcomes): over a network that loses requests and
      answers, an effect needs a fresh claim and happens at most three times per step; how
      an undisturbed call and pass end; how refusals are classified.
    - Stranded also shows that only an operator's resume gives a publication step its attempts back.
    - NoticeProperties (with GitHubSpecs, NoticeOutcomes): a notice is answered by one call of
      the GitHub client however often its delivery is tried, and that call leaves as many
      comments as the client sends it; every write follows a renewal of the claim; how a
      pass ends.
    - CommandProperties (with CommandOutcomes, BundleOutcomes, BackoffOutcomes): a preparation
      pass ends and leaves no claim behind; what is submitted names a bundle that is in the
      store; recovery submits the first candidate whose bundle is there and passes over none;
      when a failed preparation is retried.
    - CatalogProperties (with CatalogHistory, CatalogSpecs, CatalogCommits): the abstract
      specification of the catalog is [history], an append-only list of commits with a
      pointer, a switch and the registered extractions; every operation is at most one step
      of it ([refines] is the simulation relation), nothing committed is taken back, every
      end of a creation is known, repeating a commit is answered with it when the database
      sorts ids as JavaScript does, and the switch is a ledger of generations.
    - CatalogRequests: what each token may write over HTTP, and repeated restores and switches.
    - CatalogPages: what follows a page of the catalog, and what its cursor loses.
    - GatewayIdentity: two requests with one fingerprint ask for the same, and requests that ask
      for the same have one fingerprint while the collation tells the keys of an object apart.
    - GatewayProperties (with GatewaySpecs): an answer to a submission is true of the run,
      however often it is sent and whatever is lost; what sending it again comes to; an
      observation reads the record; what an outage of Temporal does to a concluded run;
      and the recovery of a submission from the rows to Temporal and back.
    - SuggestionProperties (with SuggestionSpecs: what committing a suggestion does to a file,
      and patches as Git writes them): the suggestions of a hunk amount to it; where
      they are shown and what is lost when they are cut; a manifest accounts for its patch;
      patches and bodies of suggestions are read as they were written.
    - ReviewProperties: a run is reviewed by one call of the GitHub client; when the app approves.
    - DraftProperties: a draft pull request carries the result it was opened for, and a foreign
      branch is never presented as it; how an attempt ends; every write follows a renewal.
    - DraftNames: the paths of published changes are safe; branches have names Git accepts, of
      one run each.
    - RunListProperties: the cursor round trip, and pages that partition the list.
    - StatisticsProperties (with StatisticsSpecs): a statistics pass keeps its rows sound and
      accounts for every call, and it breaks only on readings that do not fit their columns.

    Theorems about [reachable] databases hold for every interleaving.  Those whose doc comment
    says "undisturbed" fix [env] to the identity, and then give the exact end of a routine.
    Theorems about the connector and the gateway take GitHub, the object store and Temporal
    through their classes and laws; Hub and GatewaySpecs implement them.  Scenario, Hub,
    GatewaySpecs, CatalogHistory, ReviewProperties and DraftProperties have the concrete runs,
    remote states and catalogs on which the witnesses evaluate the theorems.

    ** Bounds and fuel

    The budgets are the constants of the code: eight claims of a preparation, eight submission
    recoveries, three attempts and three reconciliations of a publication step.  [walk_pages]
    takes fuel; [pages_partition] gives it one more than the length of the list and proves
    that the walk ends by itself.  The searches over pages of GitHub take the number of pages
    as fuel; [marker_search_is_find] proves that enough of it is the whole search.  A
    statistics pass recurs on its own item limit, a claim poll on the list of its attempts.
    Counters and token counts are in Z: attempt counters are bounded by the budgets; token
    sums are exact below 2^53; what the statistics queue writes is checked against the ranges
    of its integer and bigint columns.  How often the GitHub client sends a request that
    creates something, its own retries included, is a field of the laws of GitHub
    ([comment_sends], [review_sends]).

    ** Parameters

    What is not in the repository is a parameter with the laws the code relies on: the URL
    parser, the SHA-256 fingerprint, ICU collation, the text of instants and [Date.parse], the
    decoding of bytes as UTF-8 and of bytes that are not, and the answers of Execution, Langfuse, GitHub
    and the object store; for the catalog also the collation of its database, [JSON.stringify]
    and [JSON.parse], and the number of the month of an instant; for the gateway the JSON
    schemas of the contract, [localeCompare], [JSON.stringify], the text of a value and
    which answers are over the byte budget of the client (bodies are values, carried
    unchanged).  [jsonb] values are in
    PostgreSQL's normal form.  The Review Runs stores order text by its bytes; so does
    JavaScript's sort of the catalog's ids, which are ASCII by the contract.

    ** Not modelled

    The HTTP routing and authentication of the Review Runs service, the schema validation of
    requests, the types of routes and options, SQL planning and indexes, and process wiring
    carry no coordination logic.  Of the
    connector, the triggers, what each workflow prepares (it is an argument of the preparation
    pass), the file store for bundles, workspace archives, rendering of results and
    the parsing of publication contexts are not modelled, nor are the interval timers of the heartbeats and
    the poll loops (the renewals around requests and single passes are).  The
    control-plane UI, the agents and the scripts are outside the core. *)

From stdpp Require Export base gmap sets list strings sorting.
From coqutil Require Export Datatypes.RecordSetters.
Export coqutil.Datatypes.RecordSetters.TriangleBracketNotations.

#[global] Open Scope Z_scope.

#[global] Arguments constant {_} _ /.

(** * Failures and transactions

    Every store method runs its queries on one client between BEGIN and
    COMMIT; a throw rolls everything back (database/transaction.ts).  A
    transaction is a function from the rows it may touch to either a result
    with the new rows, or the error that made it roll back. *)

(** What can abort a transaction: the constraints the schema declares, and
    the errors the code throws itself, the classes it tells apart by name. *)
Inductive failure :=
  | CheckViolation (table : string)
  | NumericOutOfRange (table : string)
  | ForeignKeyViolation (table : string)
  | UniqueViolation (constraint : string)
  | Thrown (message : string)
  | ThrownAs (class message : string)
  | HttpStatus (status_code : Z) (message : string)
  | Deterministic (code : string)
  | ExpiryUnreconcilable (reason : string).

#[export] Instance failure_eq_dec : EqDecision failure.
Proof. solve_decision. Defined.

(** The errors a caller is meant to see.  A CHECK or FOREIGN KEY violation is
    not one of them: it would mean that the code wrote a row its own schema
    forbids.  The one exception is [input_bundle_candidates]: the JSON of a
    reservation goes to that table as the caller sent it, and the table's CHECKs
    are its validation. *)
Definition benign (e : failure) : bool :=
  match e with
  | CheckViolation table => String.eqb table "input_bundle_candidates"
  | NumericOutOfRange _ | ForeignKeyViolation _ => false
  | _ => true
  end.

Inductive result (A : Type) :=
  | Ok (a : A)
  | Err (e : failure).
Arguments Ok {A} _.
Arguments Err {A} _.

Definition tx (S A : Type) : Type := S → result (A * S).

Declare Scope tx_scope.
Delimit Scope tx_scope with tx.
Bind Scope tx_scope with tx.

Section Tx.
Context {S : Type}.

Definition ret {A} (a : A) : tx S A := λ s, Ok (a, s).
Definition throw {A} (e : failure) : tx S A := λ _, Err e.
Definition read {A} (f : S → A) : tx S A := λ s, Ok (f s, s).

Definition bind {A B} (m : tx S A) (k : A → tx S B) : tx S B := λ s,
  match m s with
  | Ok (a, s') => k a s'
  | Err e => Err e
  end.

(** [transaction pool operation]: COMMIT keeps the new rows, ROLLBACK the old
    ones, and the error is rethrown to the caller. *)
Definition transaction {A} (m : tx S A) (s : S) : result A * S :=
  match m s with
  | Ok (a, s') => (Ok a, s')
  | Err e => (Err e, s)
  end.

(** SAVEPOINT / ROLLBACK TO SAVEPOINT around one statement group: only the
    error the handler recognises is caught, any other one propagates. *)
Definition savepoint {A} (m : tx S A) (handler : failure → option (tx S A)) :
    tx S A := λ s,
  match m s with
  | Ok r => Ok r
  | Err e => match handler e with
             | Some h => h s
             | None => Err e
             end
  end.
End Tx.

Notation "'let!' x := m 'in' k" := (bind m (λ x, k))
  (at level 10, x name, m at level 100, k at level 200,
   format "'[v' 'let!'  x  :=  m  'in' '/' k ']'") : tx_scope.
Notation "m1 ;;; m2" := (bind m1 (λ _, m2))
  (at level 100, right associativity, format "'[v' m1 ;;; '/' m2 ']'") : tx_scope.
#[global] Open Scope tx_scope.

(** * Weakest preconditions

    [wpe allowed m Q s]: from [s], [m] either establishes [Q] or rolls back with an
    allowed failure; [wp] allows the benign ones.  One such statement about an
    operation gives both the invariant it preserves and the absence of constraint
    violations; with nothing allowed ([wpt]) it says that the operation succeeds. *)
Definition wpe {S A} (allowed : failure → bool) (m : tx S A) (Q : A → S → Prop) (s : S) : Prop :=
  match m s with
  | Ok (a, s') => Q a s'
  | Err e => allowed e = true
  end.

Abbreviation wp := (wpe benign).
Abbreviation wpt := (wpe (λ _, false)).

Section WpRules.
Context {S : Type} {allowed : failure → bool}.
Implicit Types (s : S).
Abbreviation wpa := (wpe allowed).

Lemma wp_ret {A} (a : A) (Q : A → S → Prop) s : Q a s → wpa (ret a) Q s.
Proof. done. Qed.

Lemma wp_read {A} (f : S → A) (Q : A → S → Prop) s : Q (f s) s → wpa (read f) Q s.
Proof. done. Qed.

Lemma wp_throw {A} e (Q : A → S → Prop) s : allowed e = true → wpa (throw e) Q s.
Proof. done. Qed.

Lemma wp_bind {A B} (m : tx S A) (k : A → tx S B) (Q : B → S → Prop) s :
  wpa m (λ a, wpa (k a) Q) s → wpa (bind m k) Q s.
Proof. unfold wpe, bind. by destruct (m s) as [[a s']|e]. Qed.

Lemma wp_mono {A} (m : tx S A) (P Q : A → S → Prop) s :
  wpa m P s → (∀ a s', P a s' → Q a s') → wpa m Q s.
Proof. unfold wpe. destruct (m s) as [[a s']|e]; auto. Qed.

Lemma wp_if {A} (b : bool) (m1 m2 : tx S A) (Q : A → S → Prop) s :
  (b = true → wpa m1 Q s) → (b = false → wpa m2 Q s) →
  wpa (if b then m1 else m2) Q s.
Proof. destruct b; auto. Qed.

Lemma wp_savepoint {A} (m : tx S A) h (Q : A → S → Prop) s :
  wpa m Q s → (∀ e k, m s = Err e → h e = Some k → wpa k Q s) →
  wpa (savepoint m h) Q s.
Proof.
  unfold wpe, savepoint. destruct (m s) as [[a s']|e]; [done|]. intros Hb Hh.
  destruct (h e) as [k|] eqn:Hk; [|done]. by apply (Hh e).
Qed.

(** A [wp] against the predicate a transaction ends in, read off the committed
    or rolled-back rows. *)
Lemma wp_transaction {A} (m : tx S A) (Q : S → Prop) s :
  wpa m (λ _, Q) s → Q s → Q (transaction m s).2.
Proof. unfold wpe, transaction. by destruct (m s) as [[a s']|e]. Qed.

Lemma wp_transaction_allowed {A} (m : tx S A) (Q : A → S → Prop) s e :
  wpa m Q s → (transaction m s).1 = Err e → allowed e = true.
Proof.
  unfold wpe, transaction. destruct (m s) as [[a s']|e'] eqn:Hm; simpl; [done|].
  by intros ? [= ->].
Qed.

Lemma wpt_wp {A} (m : tx S A) (Q : A → S → Prop) s : wpt m Q s → wpa m Q s.
Proof. unfold wpe. by destruct (m s) as [[a s']|e]. Qed.

Lemma wpt_ok {A} (m : tx S A) (Q : A → S → Prop) s :
  wpt m Q s → ∃ a s', m s = Ok (a, s') ∧ Q a s'.
Proof. unfold wpe. destruct (m s) as [[a s']|e]; [by eauto|done]. Qed.
End WpRules.

(** * SQL helpers *)

(** A nullable comparison is only true when the column is not NULL. *)
Definition sql_eq {A} `{EqDecision A} (column : option A) (value : A) : bool :=
  bool_decide (column = Some value).

(** [column IS DISTINCT FROM value]: NULL is distinct from every value. *)
Definition sql_distinct {A} `{EqDecision A} (column : option A) (value : A) : bool :=
  bool_decide (column ≠ Some value).

Definition is_null {A} (column : option A) : bool :=
  match column with None => true | Some _ => false end.
Definition not_null {A} (column : option A) : bool := negb (is_null column).

Definition coalesce {A} (column : option A) (default : A) : A :=
  match column with Some a => a | None => default end.

(** [n * interval '1 millisecond'], in the microseconds of timestamptz. *)
Definition ms (n : Z) : Z := n * 1000.

(** [column <= clock_timestamp() - timeout]: false on NULL. *)
Definition lease_expired (claimed_at : option Z) (now timeout_ms : Z) : bool :=
  match claimed_at with
  | Some t => t <=? now - ms timeout_ms
  | None => false
  end.

(** [column > clock_timestamp() - timeout]: false on NULL. *)
Definition lease_live (claimed_at : option Z) (now timeout_ms : Z) : bool :=
  match claimed_at with
  | Some t => now - ms timeout_ms <? t
  | None => false
  end.

Lemma lease_live_expired t now timeout :
  lease_live t now timeout = true → lease_expired t now timeout = false.
Proof. destruct t; simpl; [|done]. rewrite Z.ltb_lt, Z.leb_gt. lia. Qed.

(** [===] on optional strings. *)
Definition opt_eqb (x y : option string) : bool :=
  match x, y with
  | None, None => true
  | Some a, Some b => String.eqb a b
  | _, _ => false
  end.

Lemma opt_eqb_eq x y : opt_eqb x y = true ↔ x = y.
Proof.
  destruct x as [a|], y as [b|]; simpl; try naive_solver.
  rewrite String.eqb_eq. naive_solver.
Qed.

Lemma sql_eq_true {A} `{EqDecision A} (c : option A) v :
  sql_eq c v = true ↔ c = Some v.
Proof. unfold sql_eq. by rewrite bool_decide_eq_true. Qed.

Lemma sql_eq_false {A} `{EqDecision A} (c : option A) v :
  sql_eq c v = false ↔ c ≠ Some v.
Proof. unfold sql_eq. by rewrite bool_decide_eq_false. Qed.

Lemma not_null_true {A} (c : option A) : not_null c = true ↔ is_Some c.
Proof. destruct c; split; naive_solver. Qed.

(** Every byte of a string. *)
Fixpoint all_chars (p : Ascii.ascii → bool) (s : string) : bool :=
  match s with
  | EmptyString => true
  | String a s' => p a && all_chars p s'
  end.

(** The bytes of the JS white-space character a UTF-8 string starts with, 0 when
    it starts with another one: the ASCII blanks, NBSP, OGHAM SPACE MARK, EN QUAD to
    HAIR SPACE, LS, PS, NNBSP, MMSP, IDEOGRAPHIC SPACE and BOM. *)
Definition js_space (s : string) : nat :=
  let code a := Z.of_N (Ascii.N_of_ascii a) in
  match s with
  | EmptyString => O
  | String a s1 =>
      let n := code a in
      if ((9 <=? n) && (n <=? 13)) || (n =? 32) then 1%nat
      else match s1 with
           | EmptyString => O
           | String b s2 =>
               let m := code b in
               if (n =? 194) && (m =? 160) then 2%nat
               else match s2 with
                    | EmptyString => O
                    | String c _ =>
                        let o := code c in
                        if ((n =? 225) && (m =? 154) && (o =? 128))
                           || ((n =? 226) && (m =? 128)
                               && (((128 <=? o) && (o <=? 138)) || (o =? 168) || (o =? 169)
                                   || (o =? 175)))
                           || ((n =? 226) && (m =? 129) && (o =? 159))
                           || ((n =? 227) && (m =? 128) && (o =? 128))
                           || ((n =? 239) && (m =? 187) && (o =? 191))
                        then 3%nat else O
                    end
           end
  end.

(** [/\s/.test(s)]. *)
Fixpoint has_whitespace (s : string) : bool :=
  match s with
  | EmptyString => false
  | String _ s' => Nat.ltb 0 (js_space s) || has_whitespace s'
  end.

(** [s.trim() === '']; [skip] bytes belong to a blank already recognised. *)
Fixpoint blank_from (skip : nat) (s : string) : bool :=
  match s with
  | EmptyString => true
  | String _ s' =>
      match skip with
      | S k => blank_from k s'
      | O => match js_space s with
             | O => false
             | S k => blank_from k s'
             end
      end
  end.
Definition blank (s : string) : bool := blank_from 0 s.

(** The first row of [ORDER BY ... LIMIT 1]: the least element of a list. *)
Fixpoint first_by {A} (le : A → A → bool) (l : list A) : option A :=
  match l with
  | [] => None
  | a :: l' => match first_by le l' with
               | None => Some a
               | Some b => if le a b then Some a else Some b
               end
  end.

Lemma first_by_elem {A} (le : A → A → bool) l a : first_by le l = Some a → a ∈ l.
Proof.
  revert a; induction l as [|b l IH]; intros a; simpl; [done|].
  destruct (first_by le l) as [c|]; [destruct (le b c)|]; intros [= <-];
    set_solver.
Qed.

Lemma first_by_None {A} (le : A → A → bool) l : first_by le l = None → l = [].
Proof.
  destruct l as [|b l]; simpl; [done|].
  by destruct (first_by le l) as [c|]; [destruct (le b c)|].
Qed.

(** The first row really is the least one. *)
Lemma first_by_least {A} (le : A → A → bool) l a :
  (∀ x y, le x y = true ∨ le y x = true) →
  (∀ x y z, le x y = true → le y z = true → le x z = true) →
  first_by le l = Some a → ∀ b, b ∈ l → le a b = true.
Proof.
  intros Htot Htr. revert a. induction l as [|x l IH]; intros a; simpl; [done|].
  destruct (first_by le l) as [c|] eqn:Hc.
  - destruct (le x c) eqn:Hxc; intros [= <-] b [->|Hb]%elem_of_cons.
    + by destruct (Htot x x).
    + eapply Htr; [exact Hxc|]. by apply IH.
    + destruct (Htot x c); [congruence|done].
    + by apply IH.
  - apply first_by_None in Hc as ->. intros [= <-] b Hb%list_elem_of_singleton. subst.
    by destruct (Htot x x).
Qed.

Lemma string_leb_trans x y z :
  String.leb x y = true → String.leb y z = true → String.leb x z = true.
Proof.
  revert y z. unfold String.leb. induction x as [|a x IH]; intros [|b y] [|c z]; simpl; try done.
  unfold Ascii.compare. intros H1 H2.
  destruct (N.compare_spec (Ascii.N_of_ascii a) (Ascii.N_of_ascii b)) as [E1|L1|L1]; try done;
  destruct (N.compare_spec (Ascii.N_of_ascii b) (Ascii.N_of_ascii c)) as [E2|L2|L2]; try done;
  destruct (N.compare_spec (Ascii.N_of_ascii a) (Ascii.N_of_ascii c)) as [E3|L3|L3]; try done; try lia.
  by apply (IH y).
Qed.

(** [ORDER BY]: insertion sort, stable for equal keys. *)
Fixpoint insert_by {A} (le : A → A → bool) (x : A) (l : list A) : list A :=
  match l with
  | [] => [x]
  | y :: l' => if le x y then x :: l else y :: insert_by le x l'
  end.
Definition sort_by {A} (le : A → A → bool) (l : list A) : list A :=
  foldr (insert_by le) [] l.

Lemma insert_by_perm {A} (le : A → A → bool) x l : insert_by le x l ≡ₚ x :: l.
Proof.
  induction l as [|y l IH]; simpl; [done|]. destruct (le x y); [done|].
  rewrite IH. constructor.
Qed.

Lemma sort_by_perm {A} (le : A → A → bool) l : sort_by le l ≡ₚ l.
Proof.
  induction l as [|x l IH]; simpl; [done|]. unfold sort_by in *. simpl.
  by rewrite insert_by_perm, IH.
Qed.

Lemma elem_of_sort_by {A} (le : A → A → bool) l x : x ∈ sort_by le l ↔ x ∈ l.
Proof. by rewrite sort_by_perm. Qed.

Lemma insert_by_sorted {A} (le : A → A → bool) x l :
  (∀ a b, le a b = true ∨ le b a = true) →
  Sorted (λ a b, le a b = true) l → Sorted (λ a b, le a b = true) (insert_by le x l).
Proof.
  intros Htot Hs. induction Hs as [|y l Hs IH Hy]; simpl; [by repeat constructor|].
  destruct (le x y) eqn:Hxy; [by repeat constructor|].
  constructor; [done|]. assert (Hyx : le y x = true) by (destruct (Htot x y); congruence).
  destruct l as [|z l]; simpl; [by constructor|].
  destruct (le x z); constructor; [done|]. by inversion Hy.
Qed.

Lemma sort_by_sorted {A} (le : A → A → bool) l :
  (∀ a b, le a b = true ∨ le b a = true) → Sorted (λ a b, le a b = true) (sort_by le l).
Proof.
  intros Htot. induction l as [|x l IH]; simpl; [constructor|].
  by apply insert_by_sorted.
Qed.

(** ** Collations *)

(** A total order on text, as a deterministic collation is one. *)
Record collation (le : string → string → bool) : Prop := {
  col_total a b : le a b = true ∨ le b a = true;
  col_trans a b c : le a b = true → le b c = true → le a c = true;
  col_antisym a b : le a b = true → le b a = true → a = b;
}.

Lemma sort_by_perm_eq le l l' : collation le → l ≡ₚ l' → sort_by le l = sort_by le l'.
Proof.
  intros [Htot Htr Has] Hp.
  assert (Transitive (λ a b, le a b = true)) by exact Htr.
  assert (AntiSymm (=) (λ a b, le a b = true)) by exact Has.
  apply (Sorted_unique (λ a b, le a b = true)); [by apply sort_by_sorted..|].
  by rewrite !sort_by_perm.
Qed.

Lemma bytewise : collation String.leb.
Proof.
  split.
  - apply String.leb_total.
  - intros a b c. apply string_leb_trans.
  - apply String.leb_antisym.
Qed.

(** * Automation *)

(** Turn the boolean guards of WHERE clauses into propositions. *)
Ltac destruct_guard :=
  repeat match goal with
  | H : _ && _ = true |- _ => apply andb_true_iff in H; destruct H
  | H : sql_eq _ _ = true |- _ => apply sql_eq_true in H
  | H : sql_eq _ _ = false |- _ => apply sql_eq_false in H
  | H : not_null _ = true |- _ => apply not_null_true in H; destruct H
  | H : bool_decide _ = true |- _ => apply bool_decide_eq_true in H
  | H : bool_decide _ = false |- _ => apply bool_decide_eq_false in H
  | H : (_ <=? _) = true |- _ => apply Z.leb_le in H
  | H : (_ <=? _) = false |- _ => apply Z.leb_gt in H
  | H : (_ <? _) = true |- _ => apply Z.ltb_lt in H
  | H : (_ <? _) = false |- _ => apply Z.ltb_ge in H
  | H : negb _ = true |- _ => apply negb_true_iff in H
  | H : negb _ = false |- _ => apply negb_false_iff in H
  end.

(** The shared hint databases of the development: [tx] steps through the
    transaction combinators, [rows] carries the facts about stored rows. *)
Create HintDb tx discriminated.
Create HintDb rows discriminated.
#[export] Hint Resolve wp_ret wp_read wp_throw wp_bind : tx.
#[export] Hint Resolve first_by_elem lease_live_expired : rows.
