(* ===== verification/Schema.v ===== *)
(** The coordination schema of the Review Runs service
    (services/review-runs/src/database/schema-versions/001_initial_coordination_schema.sql
    and the row types of the stores): statuses, rows, the CHECK constraints, and
    the rows one run owns.

    Every table has a foreign key to [review_runs (run_id, connector_id)], so the
    rows partition by run: [run_rows] is the part one run owns, and a child row's
    connector is the one of its run.  Timestamps are the microseconds of
    [timestamptz]; a transaction reads one value of [clock_timestamp()], the
    parameter [now] of the operations.  [jsonb] values are in the normal form
    PostgreSQL stores, so that [=] on them is equality. *)

From S2P Require Import Prelude.

(** * JSON values *)

#[warnings="-register-all"]
Inductive json :=
  | JNull
  | JBool (b : bool)
  | JNumber (n : Z)
  | JString (s : string)
  | JArray (l : list json)
  | JObject (fields : list (string * json)).

Definition json_dec : ∀ x y : json, {x = y} + {x ≠ y}.
Proof.
  fix IH 1. intros [|b|n|s|l|f] [|b'|n'|s'|l'|f']; try (right; congruence).
  - by left.
  - destruct (decide (b = b')); [left|right]; congruence.
  - destruct (decide (n = n')); [left|right]; congruence.
  - destruct (decide (s = s')); [left|right]; congruence.
  - destruct (@list_eq_dec json IH l l'); [left|right]; congruence.
  - assert (IH2 : ∀ p q : string * json, {p = q} + {p ≠ q}).
    { intros p. refine (match p with (k, v) => λ q, match q with (k', v') => _ end end).
      destruct (decide (k = k')); [|right; congruence].
      destruct (IH v v'); [left|right]; congruence. }
    destruct (@list_eq_dec (string * json) IH2 f f'); [left|right]; congruence.
Defined.

#[export] Instance json_eq_dec : EqDecision json := json_dec.

(** [value -> 'key']. *)
Definition json_get (key : string) (v : json) : option json :=
  match v with
  | JObject fields => snd <$> List.find (λ kv, bool_decide (kv.1 = key)) fields
  | _ => None
  end.

(** [jsonb_typeof(column) <> 'null']: NULL on a NULL column, hence not true. *)
Definition json_not_null (column : option json) : bool :=
  match column with
  | None | Some JNull => false
  | Some _ => true
  end.

(** [jsonb_typeof(value) = 'object']. *)
Definition json_is_object (v : json) : bool :=
  match v with JObject _ => true | _ => false end.

(** * Statuses *)

Module Prep.
Inductive status := pending | preparing | uncertain | disconnected | submitted | failed.
#[global] Instance status_eq_dec : EqDecision status.
Proof. solve_decision. Defined.
Definition text (s : status) : string :=
  match s with
  | pending => "pending" | preparing => "preparing" | uncertain => "uncertain"
  | disconnected => "disconnected" | submitted => "submitted" | failed => "failed"
  end.
Definition terminal (s : status) : bool :=
  match s with submitted | failed => true | _ => false end.
End Prep.

Module Exec.
Inductive status :=
  pending | queued | running | uncertain | disconnected | succeeded | skipped | failed.
#[global] Instance status_eq_dec : EqDecision status.
Proof. solve_decision. Defined.
Definition text (s : status) : string :=
  match s with
  | pending => "pending" | queued => "queued" | running => "running"
  | uncertain => "uncertain" | disconnected => "disconnected"
  | succeeded => "succeeded" | skipped => "skipped" | failed => "failed"
  end.
Definition terminal (s : status) : bool :=
  match s with succeeded | skipped | failed => true | _ => false end.
End Exec.

Module Pub.
Inductive status :=
  pending | publishing | uncertain | disconnected | published | failed | skipped.
#[global] Instance status_eq_dec : EqDecision status.
Proof. solve_decision. Defined.
Definition text (s : status) : string :=
  match s with
  | pending => "pending" | publishing => "publishing" | uncertain => "uncertain"
  | disconnected => "disconnected" | published => "published"
  | failed => "failed" | skipped => "skipped"
  end.
Definition terminal (s : status) : bool :=
  match s with published | failed | skipped => true | _ => false end.
(** [status IN ('publishing','uncertain','disconnected')]. *)
Definition owned (s : status) : bool :=
  match s with publishing | uncertain | disconnected => true | _ => false end.
End Pub.

Module Step.
Inductive status :=
  pending | running | uncertain | disconnected | succeeded | failed | terminal_failed.
#[global] Instance status_eq_dec : EqDecision status.
Proof. solve_decision. Defined.
End Step.

Module Candidate.
Inductive status := reserved | present | selected | abandoned.
#[global] Instance status_eq_dec : EqDecision status.
Proof. solve_decision. Defined.
End Candidate.

Module Notice.
Inductive status := pending | delivering | delivered | failed | superseded.
#[global] Instance status_eq_dec : EqDecision status.
Proof. solve_decision. Defined.
Inductive kind := failure | attention.
#[global] Instance kind_eq_dec : EqDecision kind.
Proof. solve_decision. Defined.
End Notice.

Inductive axis := preparation | execution | publication.
#[export] Instance axis_eq_dec : EqDecision axis.
Proof. solve_decision. Defined.

(** * Rows *)

Record run_row := {
  r_connector_id : string;
  r_workflow : string;
  r_source_platform : string;
  r_ingress_kind : option string;
  r_ingress_key : option string;
  r_created_at : Z;
}.

Record prep_row := {
  p_input_version : string;
  p_input : json;
  p_status : Prep.status;
  p_available_at : Z;
  p_claim_token : option string;
  p_claimed_at : option Z;
  p_attempt_count : Z;
  p_failure_code : option string;
  p_failure_message : option string;
  p_last_failure_code : option string;
  p_last_failure_message : option string;
  p_started_at : option Z;
  p_finished_at : option Z;
  p_disconnect_reason : option string;
  p_updated_at : Z;
}.

Record exec_row := {
  e_status : Exec.status;
  e_input : option json;
  e_started_at : option Z;
  e_finished_at : option Z;
  e_failure_code : option string;
  e_failure_message : option string;
  e_artifact_storage : option json;
  e_workflow_result : option json;
  e_claim_token : option string;
  e_claimed_at : option Z;
  e_attempt_count : Z;
  e_observed_at : Z;
  e_updated_at : Z;
}.

Record pub_row := {
  u_input : json;
  u_status : Pub.status;
  u_claim_token : option string;
  u_claimed_at : option Z;
  u_failure_code : option string;
  u_failure_message : option string;
  u_started_at : option Z;
  u_finished_at : option Z;
  u_updated_at : Z;
}.

Record step_row := {
  s_status : Step.status;
  s_attempt_count : Z;
  s_recovery_attempt_count : Z;
  s_last_attempt_at : option Z;
  s_claimed_by : option string;
  s_remote_object_id : option string;
  s_remote_object_url : option string;
  s_failure_code : option string;
  s_failure_message : option string;
  s_updated_at : Z;
}.

Record candidate_row := {
  c_reference : json;
  c_input : json;
  c_publish_context : json;
  c_reserved_by : string;
  c_status : Candidate.status;
  c_created_at : Z;
  c_updated_at : Z;
}.

Record event_row := {
  ev_id : Z;
  ev_axis : axis;
  ev_from : option string;
  ev_to : string;
  ev_reason : option string;
  ev_at : Z;
}.

Record notice_row := {
  n_kind : Notice.kind;
  n_source_event_id : Z;
  n_status : Notice.status;
  n_axis : axis;
  n_reason_code : option string;
  n_comment_url : option string;
  n_claim_token : option string;
  n_claimed_at : option Z;
  n_created_at : Z;
  n_updated_at : Z;
}.

(** The rows of one run.  [t_events] is newest first; [t_next_event] and
    [t_next_notice] are the identity sequences, as the transaction draws from them. *)
Record run_rows := {
  t_run : option run_row;
  t_prep : option prep_row;
  t_exec : option exec_row;
  t_pub : option pub_row;
  t_steps : gmap string step_row;
  t_candidates : gmap string candidate_row;
  t_events : list event_row;
  t_notices : gmap Z notice_row;
  t_next_event : Z;
  t_next_notice : Z;
}.

(** * CHECK constraints *)

Definition prep_check (p : prep_row) : bool :=
  (0 <=? p_attempt_count p)
  && (if decide (p_status p = Prep.preparing)
      then not_null (p_claim_token p) && not_null (p_claimed_at p)
      else is_null (p_claim_token p) && is_null (p_claimed_at p))
  && Bool.eqb (bool_decide (p_status p = Prep.disconnected)) (not_null (p_disconnect_reason p))
  && match p_status p with
     | Prep.pending => is_null (p_finished_at p)
     | Prep.preparing | Prep.uncertain | Prep.disconnected =>
         not_null (p_started_at p) && is_null (p_finished_at p)
     | _ => not_null (p_started_at p) && not_null (p_finished_at p)
     end.

Definition exec_check (e : exec_row) : bool :=
  (0 <=? e_attempt_count e)
  && ((is_null (e_claim_token e) && is_null (e_claimed_at e))
      || (bool_decide (e_status e = Exec.uncertain)
          && not_null (e_claim_token e) && not_null (e_claimed_at e)))
  && match e_status e with
     | Exec.pending | Exec.uncertain | Exec.disconnected =>
         is_null (e_started_at e) && is_null (e_finished_at e)
     | Exec.queued | Exec.running => not_null (e_started_at e) && is_null (e_finished_at e)
     | _ => not_null (e_finished_at e)
     end.

Definition pub_check (u : pub_row) : bool :=
  match u_status u with
  | Pub.pending => is_null (u_finished_at u)
  | Pub.publishing | Pub.uncertain | Pub.disconnected =>
      not_null (u_started_at u) && is_null (u_finished_at u)
  | Pub.skipped => not_null (u_finished_at u)
  | _ => not_null (u_started_at u) && not_null (u_finished_at u)
  end.

Definition step_check (s : step_row) : bool :=
  (0 <=? s_attempt_count s) && (0 <=? s_recovery_attempt_count s).

Definition notice_check (n : notice_row) : bool :=
  if decide (n_status n = Notice.delivering)
  then not_null (n_claim_token n) && not_null (n_claimed_at n)
  else is_null (n_claim_token n) && is_null (n_claimed_at n).

(** The columns whose CHECK lists the texts of a status are of that type here. *)
Definition run_check (r : run_row) : bool := String.eqb (r_source_platform r) "github".

Definition is_hex_lower (a : Ascii.ascii) : bool :=
  let n := Z.of_N (Ascii.N_of_ascii a) in
  ((48 <=? n) && (n <=? 57)) || ((97 <=? n) && (n <=? 102)).

(** [/^sha256:[0-9a-f]{64}$/]. *)
Definition valid_digest (s : string) : bool :=
  String.eqb (String.substring 0 7 s) "sha256:"
  && Nat.eqb (String.length s) 71
  && all_chars is_hex_lower (String.substring 7 64 s).

Definition candidate_check (digest : string) (c : candidate_row) : bool :=
  valid_digest digest
  && json_is_object (c_reference c) && json_is_object (c_input c)
  && json_is_object (c_publish_context c)
  && bool_decide (json_get "digest" (c_reference c) = Some (JString digest))
  && bool_decide (json_get "input_bundle" (c_input c) = Some (c_reference c)).
