(* ===== verification/StateMachines.v ===== *)
(** The declared lifecycle state machines
    (services/review-runs/src/state-machines.generated.ts, the TypeScript view of
    the contract's [x-state-machines] block).  The [details] texts, which the
    console shows on hover, are left out.  These machines are the abstract
    specification of the stores: [Invariant.v] and [Correctness.v] prove
    which of their edges the recorded transitions follow. *)

From S2P Require Import Prelude Schema.

Record state_transition := edge {
  tr_from : string;
  tr_to : string;
  tr_reason : option string;
  tr_label : string;
}.

Record state_machine := {
  sm_axis : axis;
  sm_order : Z;
  sm_title : string;
  sm_field : string;
  sm_initial : string;
  sm_terminal : list string;
  sm_states : list string;
  sm_transitions : list state_transition;
}.

Definition preparation_machine : state_machine := {|
  sm_axis := preparation; sm_order := 1; sm_title := "Preparation";
  sm_field := "preparation.status"; sm_initial := "pending";
  sm_terminal := ["submitted"; "failed"];
  sm_states := ["pending"; "preparing"; "uncertain"; "disconnected"; "submitted"; "failed"];
  sm_transitions :=
    [edge "pending" "preparing" None "claimed";
     edge "preparing" "submitted" None "input accepted";
     edge "preparing" "pending" None "retry";
     edge "preparing" "uncertain" None "claim lapsed";
     edge "uncertain" "preparing" None "reclaim to confirm";
     edge "preparing" "disconnected" (Some "EXECUTION_ALREADY_ADVANCED")
       "cannot be concluded automatically";
     edge "disconnected" "uncertain" (Some "PREPARATION_RESUMED_BY_OPERATOR")
       "resumed by an operator";
     edge "disconnected" "failed" (Some "PREPARATION_GIVEN_UP_BY_OPERATOR")
       "given up by an operator";
     edge "disconnected" "failed" (Some "EXECUTION_ALREADY_ADVANCED")
       "abandoned by an operator";
     edge "disconnected" "failed" (Some "PREPARATION_ABANDONED")
       "abandoned by an operator";
     edge "preparing" "failed" None "failed"] |}.

Definition execution_machine : state_machine := {|
  sm_axis := execution; sm_order := 2; sm_title := "Execution";
  sm_field := "execution.status"; sm_initial := "pending";
  sm_terminal := ["succeeded"; "skipped"; "failed"];
  sm_states := ["pending"; "queued"; "running"; "succeeded"; "skipped"; "uncertain";
                "disconnected"; "failed"];
  sm_transitions :=
    [edge "pending" "queued" None "input submitted";
     edge "pending" "skipped" None "preparation failed";
     edge "pending" "uncertain" (Some "SUBMISSION_STATE_UNCERTAIN") "submission unconfirmed";
     edge "uncertain" "uncertain" (Some "SUBMISSION_RECOVERY_CLAIMED") "replay claimed";
     edge "uncertain" "queued" None "replay accepted";
     edge "uncertain" "failed" None "replay rejected";
     edge "uncertain" "disconnected" (Some "SUBMISSION_RECOVERY_EXHAUSTED")
       "recovery disconnected";
     edge "disconnected" "uncertain" (Some "SUBMISSION_RECOVERY_RESUMED_BY_OPERATOR")
       "resumed by an operator";
     edge "disconnected" "failed" (Some "SUBMISSION_RECOVERY_ABANDONED_BY_OPERATOR")
       "given up by an operator";
     edge "queued" "running" None "execution started";
     edge "queued" "succeeded" None "execution succeeded";
     edge "running" "succeeded" None "execution succeeded";
     edge "queued" "failed" None "polling concluded failure";
     edge "running" "failed" None "polling concluded failure"] |}.

Definition publication_machine : state_machine := {|
  sm_axis := publication; sm_order := 3; sm_title := "Publication";
  sm_field := "publication.status"; sm_initial := "pending";
  sm_terminal := ["published"; "failed"; "skipped"];
  sm_states := ["pending"; "publishing"; "uncertain"; "disconnected"; "published";
                "failed"; "skipped"];
  sm_transitions :=
    [edge "pending" "publishing" None "publishing started";
     edge "publishing" "uncertain" None "a step may have taken effect";
     edge "uncertain" "publishing" None "step settled";
     edge "uncertain" "disconnected" None "reconciliation could not conclude";
     edge "disconnected" "pending" (Some "PUBLICATION_RESUMED_BY_OPERATOR")
       "resumed by an operator";
     edge "disconnected" "failed" (Some "PUBLICATION_ABANDONED_BY_OPERATOR")
       "given up by an operator";
     edge "publishing" "published" None "published";
     edge "publishing" "publishing" (Some "PUBLICATION_LEASE_EXPIRED")
       "publishing lease expired";
     edge "publishing" "pending" None "retryable failure";
     edge "publishing" "failed" None "terminal failure";
     edge "pending" "skipped" None "execution not published";
     edge "publishing" "skipped" (Some "PUBLICATION_ABANDONED") "execution failed"] |}.

Definition STATE_MACHINES : list state_machine :=
  [preparation_machine; execution_machine; publication_machine].

(** The machine for one axis, or None if the axis is unknown. *)
Definition stateMachine (a : axis) : option state_machine :=
  List.find (λ m, bool_decide (sm_axis m = a)) STATE_MACHINES.

(** An edge without a reason accepts any reason; one with a reason promises it. *)
Definition edge_matches (from to : string) (reason : option string)
    (t : state_transition) : bool :=
  String.eqb (tr_from t) from && String.eqb (tr_to t) to
  && match tr_reason t with None => true | r => opt_eqb r reason end.

Definition declared (a : axis) (from to : string) (reason : option string) : bool :=
  match stateMachine a with
  | Some m => existsb (edge_matches from to reason) (sm_transitions m)
  | None => false
  end.

Lemma stateMachine_total a : ∃ m, stateMachine a = Some m ∧ sm_axis m = a.
Proof. destruct a; eexists; (split; [reflexivity|done]). Qed.

(** No declared edge leaves a terminal state. *)
Lemma declared_not_terminal a m from to reason :
  stateMachine a = Some m → from ∈ sm_terminal m → declared a from to reason = false.
Proof.
  intros Hm Hin. unfold declared. rewrite Hm.
  destruct a; injection Hm as <-; simpl in Hin;
    rewrite !elem_of_cons in Hin; decompose [or] Hin; subst; try reflexivity.
  all: by match goal with H : _ ∈ [] |- _ => apply elem_of_nil in H end.
Qed.
