(* ===== verification/Tables.v ===== *)
(** SQL statements over the rows of one run, the append-only event log
    (persistence/review-run-events.ts) and the run-notice outbox writes that share
    its transaction (persistence/run-notices.ts).

    Each statement is a transaction on [run_rows]; an UPDATE re-checks the
    table's CHECK constraints and returns the row before and after, which is
    what RETURNING and the [WITH previous AS ...] idiom read. *)

From S2P Require Import Prelude Schema.

(** * Single-row tables *)

(** A table with one row per run, as the statements see it. *)
Class AxisTable (R : Type) := {
  table_name : string;
  row_of : run_rows → option R;
  put_row : R → run_rows → run_rows;
  row_check : R → bool;
}.

Class AxisTableLaws (R : Type) `{AxisTable R} := {
  row_of_put : ∀ r t, row_of (put_row r t) = Some r;
  put_row_of : ∀ r t, row_of t = Some r → put_row r t = t;
  put_put : ∀ r r' t, put_row r (put_row r' t) = put_row r t;
}.

#[export] Instance prep_table : AxisTable prep_row := {|
  table_name := "preparations"; row_of := t_prep; row_check := prep_check;
  put_row p t := t <| t_prep := Some p |> |}.
#[export] Instance exec_table : AxisTable exec_row := {|
  table_name := "executions"; row_of := t_exec; row_check := exec_check;
  put_row e t := t <| t_exec := Some e |> |}.
#[export] Instance pub_table : AxisTable pub_row := {|
  table_name := "publications"; row_of := t_pub; row_check := pub_check;
  put_row u t := t <| t_pub := Some u |> |}.

#[export] Instance prep_table_laws : AxisTableLaws prep_row.
Proof. split; try done. intros r []; simpl. by intros ->. Qed.
#[export] Instance exec_table_laws : AxisTableLaws exec_row.
Proof. split; try done. intros r []; simpl. by intros ->. Qed.
#[export] Instance pub_table_laws : AxisTableLaws pub_row.
Proof. split; try done. intros r []; simpl. by intros ->. Qed.

(** [UPDATE table SET ... WHERE run_id=$1 AND connector_id=$2 AND ...]. *)
Definition sql_update {R} `{AxisTable R} (where_ : R → bool) (set : R → R) :
    tx run_rows (option (R * R)) := λ t,
  match row_of t with
  | Some r => if where_ r
              then if row_check (set r) then Ok (Some (r, set r), put_row (set r) t)
                   else Err (CheckViolation table_name)
              else Ok (None, t)
  | None => Ok (None, t)
  end.

Section UpdateRules.
Context {R : Type} `{HT : AxisTable R}.

Lemma wp_sql_update {allowed} (where_ : R → bool) set (Q : option (R * R) → run_rows → Prop) t :
  (∀ r, row_of t = Some r → where_ r = true →
    row_check (set r) = true ∧ Q (Some (r, set r)) (put_row (set r) t)) →
  ((∀ r, row_of t = Some r → where_ r = false) → Q None t) →
  wpe allowed (sql_update where_ set) Q t.
Proof.
  intros H1 H2. unfold wpe, sql_update.
  destruct (row_of t) as [r|] eqn:Hr; [|apply H2; by intros ? [=]].
  destruct (where_ r) eqn:Hw; [|apply H2; congruence].
  destruct (H1 r eq_refl Hw) as [-> HQ]. done.
Qed.

(** An UPDATE that matches no row changes nothing. *)
Lemma sql_update_none (where_ : R → bool) set t :
  (∀ r, row_of t = Some r → where_ r = false) → sql_update where_ set t = Ok (None, t).
Proof.
  intros H. unfold sql_update. destruct (row_of t) as [r|]; [|done]. by rewrite (H r eq_refl).
Qed.

(** The row an UPDATE leaves satisfies the CHECKs. *)
Lemma sql_update_check (where_ : R → bool) set t o t' `{!AxisTableLaws R} :
  (∀ r, row_of t = Some r → row_check r = true) →
  sql_update where_ set t = Ok (o, t') →
  ∀ r, row_of t' = Some r → row_check r = true.
Proof.
  unfold sql_update. intros Hc. destruct (row_of t) as [r|] eqn:Hr.
  - destruct (where_ r); [|by intros [= <- <-]; rewrite Hr].
    destruct (row_check (set r)) eqn:Hs; [|done].
    intros [= <- <-] r'. rewrite row_of_put. by intros [= <-].
  - intros [= <- <-]. by rewrite Hr.
Qed.
End UpdateRules.

(** * Publication steps *)

(** [UPDATE publication_steps ... WHERE ... AND step_key=$n]. *)
Definition update_step (step_key : string) (where_ : step_row → bool)
    (set : step_row → step_row) : tx run_rows bool := λ t,
  match t_steps t !! step_key with
  | Some s => if where_ s
              then if step_check (set s)
                   then Ok (true, t <| t_steps ::= <[step_key := set s]> |>)
                   else Err (CheckViolation "publication_steps")
              else Ok (false, t)
  | None => Ok (false, t)
  end.

(** The same statement without a step key: every matching step of the run. *)
Definition update_steps (where_ : step_row → bool) (set : step_row → step_row) :
    tx run_rows unit := λ t,
  Ok (tt, t <| t_steps ::= fmap (λ s, if where_ s then set s else s) |>).

(** [EXISTS (SELECT 1 FROM publication_steps s WHERE ... AND p s)]. *)
Definition any_step (p : step_row → bool) (steps : gmap string step_row) : bool :=
  existsb (λ ks, p ks.2) (map_to_list steps).

Definition step_is (st : Step.status) (s : step_row) : bool :=
  bool_decide (s_status s = st).

Lemma any_step_true p steps :
  any_step p steps = true ↔ ∃ k s, steps !! k = Some s ∧ p s = true.
Proof.
  unfold any_step. rewrite existsb_exists. split.
  - intros [[k s] [Hin Hp]]. exists k, s. split; [|done].
    apply elem_of_map_to_list. by apply list_elem_of_In.
  - intros (k & s & Hk & Hp). exists (k, s). split; [|done].
    apply list_elem_of_In. by apply elem_of_map_to_list.
Qed.

Lemma any_step_false p steps :
  any_step p steps = false ↔ ∀ k s, steps !! k = Some s → p s = false.
Proof.
  rewrite <- not_true_iff_false, any_step_true. split.
  - intros Hn k s Hk. apply not_true_is_false. naive_solver.
  - intros H (k & s & Hk & Hp). by rewrite (H k s Hk) in Hp.
Qed.

Lemma wp_update_step {allowed} key where_ set (Q : bool → run_rows → Prop) t :
  (∀ s, t_steps t !! key = Some s → where_ s = true →
    step_check (set s) = true ∧ Q true (t <| t_steps ::= <[key := set s]> |>)) →
  ((∀ s, t_steps t !! key = Some s → where_ s = false) → Q false t) →
  wpe allowed (update_step key where_ set) Q t.
Proof.
  intros H1 H2. unfold wpe, update_step.
  destruct (t_steps t !! key) as [s|] eqn:Hs; [|apply H2; by intros ? [=]].
  destruct (where_ s) eqn:Hw; [|apply H2; congruence].
  by destruct (H1 s eq_refl Hw) as [-> ?].
Qed.

(** * Input bundle candidates *)

Definition candidates_selected (cs : gmap string candidate_row) : Z :=
  Z.of_nat (length (List.filter (λ kc, bool_decide (c_status kc.2 = Candidate.selected))
                      (map_to_list cs))).

(** [UPDATE input_bundle_candidates SET status=... WHERE ... AND where_], returning the
    row count.  Only the status and [updated_at] ever change, so no CHECK of the table
    is at stake, but the unique index on the selected candidate is. *)
Definition update_candidates (where_ : string → candidate_row → bool)
    (set : candidate_row → candidate_row) : tx run_rows Z := λ t,
  let updated := map_imap (λ d c, Some (if where_ d c then set c else c)) (t_candidates t) in
  if 1 <? candidates_selected updated
  then Err (UniqueViolation "input_bundle_candidates_one_selected_idx")
  else
    Ok (Z.of_nat (length (List.filter (λ kc, where_ kc.1 kc.2) (map_to_list (t_candidates t)))),
        t <| t_candidates := updated |>).

(** * The event log *)

(** Append one transition, in the transaction of the snapshot update. *)
Definition appendEvent (now : Z) (a : axis) (from : option string) (to : string)
    (reason : option string) : tx run_rows Z := λ t,
  match t_run t with
  | None => Err (ForeignKeyViolation "review_run_events")
  | Some _ =>
      Ok (t_next_event t,
          t <| t_events ::= cons {| ev_id := t_next_event t; ev_axis := a; ev_from := from;
                                    ev_to := to; ev_reason := reason; ev_at := now |} |>
            <| t_next_event ::= Z.succ |>)
  end.

Lemma wp_appendEvent {allowed} now a from to reason (Q : Z → run_rows → Prop) t :
  is_Some (t_run t) →
  Q (t_next_event t)
    (t <| t_events ::= cons {| ev_id := t_next_event t; ev_axis := a; ev_from := from;
                               ev_to := to; ev_reason := reason; ev_at := now |} |>
       <| t_next_event ::= Z.succ |>) →
  wpe allowed (appendEvent now a from to reason) Q t.
Proof. unfold wpe, appendEvent. by intros [r ->]. Qed.

(** ORDER BY occurred_at, event_id. *)
Definition event_le (x y : event_row) : bool :=
  (ev_at x <? ev_at y) || ((ev_at x =? ev_at y) && (ev_id x <=? ev_id y)).

(** The ordered event list of one run, oldest first. *)
Definition listEvents (t : run_rows) : list event_row :=
  sort_by event_le (t_events t).

(** * The notice outbox *)

Definition queueRunNotice (now : Z) (source_event_id : Z) (kind : Notice.kind)
    (a : axis) (reason_code : option string) : tx run_rows unit := λ t,
  if existsb (λ kn, n_source_event_id kn.2 =? source_event_id) (map_to_list (t_notices t))
  then Ok (tt, t)
  else if existsb (λ e, ev_id e =? source_event_id) (t_events t)
  then Ok (tt, t <| t_notices ::= <[t_next_notice t :=
             {| n_kind := kind; n_source_event_id := source_event_id;
                n_status := Notice.pending; n_axis := a; n_reason_code := reason_code;
                n_comment_url := None; n_claim_token := None; n_claimed_at := None;
                n_created_at := now; n_updated_at := now |}]> |>
             <| t_next_notice ::= Z.succ |>)
  else Err (ForeignKeyViolation "run_notices").

(** The CASE-free form of the UPDATE's SET and WHERE. *)
Definition supersede_notice (now : Z) (a : axis) (n : notice_row) : notice_row :=
  if bool_decide (n_axis n = a) && bool_decide (n_kind n = Notice.attention)
     && (bool_decide (n_status n = Notice.pending)
         || bool_decide (n_status n = Notice.delivering))
  then n <| n_status := Notice.superseded |> <| n_claim_token := None |>
         <| n_claimed_at := None |> <| n_updated_at := now |>
  else n.

(** Make an undelivered attention notice historical when its axis is resumed. *)
Definition supersedeRunAttentionNotices (now : Z) (a : axis) : tx run_rows unit := λ t,
  Ok (tt, t <| t_notices ::= fmap (supersede_notice now a) |>).

Lemma wp_supersede {allowed} now a (Q : unit → run_rows → Prop) t :
  Q tt (t <| t_notices ::= fmap (supersede_notice now a) |>) →
  wpe allowed (supersedeRunAttentionNotices now a) Q t.
Proof. done. Qed.

(** * Transitions that more than one axis shares

    Concluding an execution that never ran (persistence/execution-skip.ts) and a publication
    that can never publish (persistence/publication-abandon.ts). *)

(** Mark the pending execution of the run as skipped.  The code takes a list of
    run ids; both callers pass exactly one, and compare the ids it returns with
    the one they asked for.  The result says whether this run was moved. *)
Definition skipPendingExecutions (now : Z) : tx run_rows bool :=
  let! moved := sql_update (λ e : exec_row, bool_decide (e_status e = Exec.pending))
    (λ e, e <| e_status := Exec.skipped |>
            <| e_failure_code := None |> <| e_failure_message := None |>
            <| e_finished_at := Some now |>
            <| e_observed_at := now |> <| e_updated_at := now |>) in
  ret (match moved with Some _ => true | None => false end).

(** [status IN ('reserved','present')] becomes [abandoned]. *)
Definition abandonOpenCandidates (now : Z) : tx run_rows unit :=
  update_candidates
    (λ _ c, bool_decide (c_status c = Candidate.reserved)
            || bool_decide (c_status c = Candidate.present))
    (λ c, c <| c_status := Candidate.abandoned |> <| c_updated_at := now |>) ;;;
  ret tt.

Definition releaseStepClaims (now : Z) : tx run_rows unit :=
  update_steps (λ s, not_null (s_claimed_by s))
    (λ s, s <| s_claimed_by := None |> <| s_updated_at := now |>).

Definition skipPublication (now : Z) : tx run_rows (option (pub_row * pub_row)) :=
  sql_update
    (λ u : pub_row, bool_decide (u_status u = Pub.pending)
                    || bool_decide (u_status u = Pub.publishing))
    (λ u, u <| u_status := Pub.skipped |>
            <| u_claim_token := None |> <| u_claimed_at := None |>
            <| u_finished_at := Some now |>
            <| u_failure_code := None |> <| u_failure_message := None |>
            <| u_updated_at := now |>).

(** Converge a publication that has not concluded to [skipped]; returns the
    status it had, or None when it was already concluded. *)
Definition abandonInFlightPublication (now : Z) : tx run_rows (option Pub.status) :=
  abandonOpenCandidates now ;;;
  let! result := skipPublication now in
  match result with
  | None => ret None
  | Some (previous, _) =>
      releaseStepClaims now ;;;
      ret (Some (u_status previous))
  end.

(** The batch form, called with one run id: each moved run with its previous
    status, as the entries of the returned Map. *)
Definition abandonInFlightPublications (now : Z) (runId : string) :
    tx run_rows (list (string * Pub.status)) :=
  abandonOpenCandidates now ;;;
  let! result := skipPublication now in
  let moved := match result with
               | Some (previous, _) => [(runId, u_status previous)]
               | None => []
               end in
  (if decide (0 < length moved)%nat then releaseStepClaims now else ret tt) ;;;
  ret moved.

(** The publication event every caller of the above appends when it moved. *)
Definition appendPublicationAbandoned (now : Z) (from : option Pub.status) : tx run_rows unit :=
  match from with
  | Some s =>
      appendEvent now publication (Some (Pub.text s)) "skipped" (Some "PUBLICATION_ABANDONED") ;;;
      ret tt
  | None => ret tt
  end.
