(* ===== verification/Database.v ===== *)
(** The whole database, and how a transaction sees the rows of one run
    (persistence/review-run-store.ts constructs every store with the same
    connector, whose id fences all reads and writes). *)

From S2P Require Import Prelude Schema Tables.

Record store_config := {
  connector_id : string;
  source_platform : string;
  claim_timeout_ms : Z;
}.

(** The constructor's [Math.max(0, claimTimeoutMs)]. *)
Definition make_config (connector platform : string) (claimTimeoutMs : Z) : store_config :=
  {| connector_id := connector; source_platform := platform;
     claim_timeout_ms := Z.max 0 claimTimeoutMs |}.

Definition DEFAULT_CLAIM_TIMEOUT_MS : Z := 10 * 60 * 1000.

Record db := {
  d_runs : gmap string run_rows;
  d_next_event : Z;
  d_next_notice : Z;
}.

Definition empty_db : db := {| d_runs := ∅; d_next_event := 1; d_next_notice := 1 |}.

(** No visible row at all: what every statement sees for a run that does not
    exist or belongs to another connector. *)
Definition no_rows (next_event next_notice : Z) : run_rows := {|
  t_run := None; t_prep := None; t_exec := None; t_pub := None; t_steps := ∅;
  t_candidates := ∅; t_events := []; t_notices := ∅;
  t_next_event := next_event; t_next_notice := next_notice |}.

(** [run_id=$1 AND connector_id=$2]. *)
Definition visible (connector : string) (t : run_rows) : bool :=
  match t_run t with
  | Some r => String.eqb (r_connector_id r) connector
  | None => false
  end.

Definition scope (connector : string) (runId : string) (d : db) : run_rows :=
  match d_runs d !! runId with
  | Some t => if visible connector t
              then t <| t_next_event := d_next_event d |> <| t_next_notice := d_next_notice d |>
              else no_rows (d_next_event d) (d_next_notice d)
  | None => no_rows (d_next_event d) (d_next_notice d)
  end.

(** Write the rows of a run back.  Rows without a trunk cannot exist. *)
Definition commit_run (runId : string) (t : run_rows) (d : db) : db :=
  match t_run t with
  | Some _ => {| d_runs := <[runId := t]> (d_runs d);
                 d_next_event := t_next_event t; d_next_notice := t_next_notice t |}
  | None => d
  end.

(** Run statements that only touch the rows of one run. *)
Definition in_run {A} (cfg : store_config) (runId : string) (m : tx run_rows A) : tx db A :=
  λ d, match m (scope (connector_id cfg) runId d) with
       | Ok (a, t) => Ok (a, commit_run runId t d)
       | Err e => Err e
       end.

(** The runs of a connector that satisfy a condition and are not skipped by
    [FOR UPDATE ... SKIP LOCKED]. *)
Definition select_runs (cfg : store_config) (locked : string → bool)
    (where_ : run_rows → bool) (d : db) : list (string * run_rows) :=
  List.filter (λ kt, visible (connector_id cfg) kt.2 && negb (locked kt.1) && where_ kt.2)
    (map_to_list (d_runs d)).

(** ORDER BY <timestamp>, run_id. *)
Definition order_by (key : run_rows → Z) (x y : string * run_rows) : bool :=
  (key x.2 <? key y.2) || ((key x.2 =? key y.2) && String.leb x.1 y.1).

Lemma order_by_true key (x y : string * run_rows) :
  order_by key x y = true ↔
  key x.2 < key y.2 ∨ key x.2 = key y.2 ∧ String.leb x.1 y.1 = true.
Proof. unfold order_by. by rewrite orb_true_iff, andb_true_iff, Z.ltb_lt, Z.eqb_eq. Qed.

Lemma order_by_total key (x y : string * run_rows) :
  order_by key x y = true ∨ order_by key y x = true.
Proof.
  rewrite !order_by_true. destruct (String.leb_total x.1 y.1);
    destruct (Ztrichotomy_inf (key x.2) (key y.2)) as [[?|?]|?]; lia || auto.
Qed.

Lemma order_by_trans key (x y z : string * run_rows) :
  order_by key x y = true → order_by key y z = true → order_by key x z = true.
Proof.
  rewrite !order_by_true. intros [?|[? H1]] [?|[? H2]]; [left; lia..|].
  right. split; [lia|]. by eapply string_leb_trans.
Qed.

Lemma elem_of_select_runs cfg locked w d k t :
  (k, t) ∈ select_runs cfg locked w d ↔
  d_runs d !! k = Some t ∧ visible (connector_id cfg) t = true ∧ locked k = false ∧ w t = true.
Proof.
  unfold select_runs. rewrite list_elem_of_In, filter_In, <- list_elem_of_In.
  rewrite elem_of_map_to_list. simpl. rewrite !andb_true_iff, negb_true_iff. naive_solver.
Qed.

Lemma visible_run connector t : visible connector t = true → is_Some (t_run t).
Proof. unfold visible. destruct (t_run t); [by eexists|done]. Qed.

Lemma scope_visible cfg runId d t :
  d_runs d !! runId = Some t → visible (connector_id cfg) t = true →
  scope (connector_id cfg) runId d =
    t <| t_next_event := d_next_event d |> <| t_next_notice := d_next_notice d |>.
Proof. intros Ht Hv. unfold scope. by rewrite Ht, Hv. Qed.

Lemma wp_in_run {A allowed} cfg runId (m : tx run_rows A) (Q : A → db → Prop) d :
  wpe allowed m (λ a t, Q a (commit_run runId t d)) (scope (connector_id cfg) runId d) →
  wpe allowed (in_run cfg runId m) Q d.
Proof. unfold wpe, in_run. by destruct (m _) as [[a t]|e]. Qed.
