(* ===== verification/PreparationStore.v ===== *)
(** Durable preparation work (persistence/preparation-store.ts): claim leases,
    recoverable input checkpoints, retry and lease expiry. *)

From S2P Require Import Prelude Schema Tables Database.

Definition MAX_PREPARATION_ATTEMPTS : Z := 8.
Definition SUBMISSION_STATE_UNCERTAIN : string := "SUBMISSION_STATE_UNCERTAIN".

Record PreparationWork := {
  w_run_id : string;
  w_workflow : string;
  w_input_version : string;
  w_input : json;
  w_claim_token : string;
  w_attempt_count : Z;
}.

Record error_info := { err_code : option string; err_message : string }.

Record PreparationExpiryResult := {
  concluded : Z;
  blocked : list (string * string);
}.

(** [status='preparing' AND claim_token=$token]. *)
Definition holds_preparation (token : string) (p : prep_row) : bool :=
  bool_decide (p_status p = Prep.preparing) && sql_eq (p_claim_token p) token.

Section PreparationStore.
Context (cfg : store_config) (now : Z).

Definition renewClaim (token : string) : tx run_rows bool :=
  let! result := sql_update
    (λ p : prep_row, holds_preparation token p
                     && lease_live (p_claimed_at p) now (claim_timeout_ms cfg))
    (λ p, p <| p_claimed_at := Some now |> <| p_updated_at := now |>) in
  ret (match result with Some _ => true | None => false end).

(** The WHERE clause of the candidate query. *)
Definition claimable (t : run_rows) : bool :=
  match t_prep t, t_exec t with
  | Some p, Some e =>
      (bool_decide (p_status p = Prep.pending) || bool_decide (p_status p = Prep.uncertain))
      && (p_available_at p <=? now)
      && bool_decide (e_status e = Exec.pending)
  | _, _ => false
  end.

(** Claim the selected row; [token] is the fresh UUID. *)
Definition claimCandidate (runId token : string) : tx run_rows (option PreparationWork) :=
  let! row := read t_prep in
  let! run := read t_run in
  match row, run with
  | Some work, Some r =>
      let! claimed := sql_update
        (λ p : prep_row, bool_decide (p_status p = p_status work))
        (λ p, p <| p_status := Prep.preparing |> <| p_claim_token := Some token |>
                <| p_claimed_at := Some now |>
                <| p_attempt_count := p_attempt_count p + 1 |>
                <| p_failure_code := None |> <| p_failure_message := None |>
                <| p_started_at := Some (coalesce (p_started_at p) now) |>
                <| p_updated_at := now |>) in
      match claimed with
      | None => throw (Thrown "Preparation could not be claimed.")
      | Some _ =>
          appendEvent now preparation (Some (Prep.text (p_status work))) "preparing" None ;;;
          ret (Some {| w_run_id := runId; w_workflow := r_workflow r;
                       w_input_version := p_input_version work; w_input := p_input work;
                       w_claim_token := token;
                       w_attempt_count := p_attempt_count work + 1 |})
      end
  | _, _ => ret None
  end.

Definition prep_updated_at (t : run_rows) : Z :=
  match t_prep t with Some p => p_updated_at p | None => 0 end.

(** [locked] are the runs another transaction holds a row lock on. *)
Definition claimNext (locked : string → bool) (token : string) :
    tx db (option PreparationWork) :=
  let! candidate := read (λ d, first_by (order_by prep_updated_at)
                                 (select_runs cfg locked claimable d)) in
  match candidate with
  | None => ret None
  | Some (runId, _) => in_run cfg runId (claimCandidate runId token)
  end.

Definition checkpointInput (token : string) (input : json) : tx run_rows unit :=
  let! result := sql_update (holds_preparation token)
    (λ p, p <| p_input := input |> <| p_updated_at := now |>) in
  match result with
  | Some _ => ret tt
  | None => throw (Thrown "Preparation claim was lost before checkpointing input.")
  end.

Definition heartbeatIntervalMs : Z :=
  Z.max 1 (Z.min 60000 (claim_timeout_ms cfg / 3)).

(** Conclude one expired row, in the caller's transaction. *)
Definition concludeExpiry (runId : string) (attemptCount : Z) : tx run_rows unit :=
  let exhausted := MAX_PREPARATION_ATTEMPTS <=? attemptCount in
  let! expired := sql_update
    (λ p : prep_row, bool_decide (p_status p = Prep.preparing))
    (λ p, p <| p_status := if exhausted then Prep.failed else Prep.uncertain |>
            <| p_claim_token := None |> <| p_claimed_at := None |>
            <| p_available_at := now |>
            <| p_failure_code :=
                 if exhausted
                 then Some (coalesce (p_last_failure_code p) "PREPARATION_RETRY_EXHAUSTED")
                 else None |>
            <| p_failure_message :=
                 if exhausted
                 then Some (coalesce (p_last_failure_message p)
                   "Preparation claim lease expired after the retry budget was exhausted.")
                 else None |>
            <| p_finished_at := if exhausted then Some now else None |>
            <| p_updated_at := now |>) in
  match expired with
  | None => throw (Thrown "Expired preparation could not be concluded.")
  | Some (_, row) =>
      let reason := if bool_decide (p_status row = Prep.failed)
                    then p_failure_code row else None in
      let! preparationEventId := appendEvent now preparation (Some "preparing")
                                   (Prep.text (p_status row)) reason in
      if negb (bool_decide (p_status row = Prep.failed)) then ret tt
      else
        let! skipped := skipPendingExecutions now in
        if negb skipped then throw (ExpiryUnreconcilable "EXECUTION_ALREADY_ADVANCED")
        else
          let! abandoned := abandonInFlightPublications now runId in
          queueRunNotice now preparationEventId Notice.failure preparation
            (p_failure_code row) ;;;
          appendEvent now execution (Some "pending") "skipped" None ;;;
          appendPublicationAbandoned now (snd <$> head abandoned)
  end.

(** The handler of [ExpiryUnreconcilableError], after ROLLBACK TO SAVEPOINT:
    park the row for an operator. *)
Definition disconnectExpired (reason : string) : tx run_rows unit :=
  let! disconnected := sql_update
    (λ p : prep_row, bool_decide (p_status p = Prep.preparing))
    (λ p, p <| p_status := Prep.disconnected |> <| p_disconnect_reason := Some reason |>
            <| p_claim_token := None |> <| p_claimed_at := None |>
            <| p_updated_at := now |>) in
  match disconnected with
  | None => ret tt
  | Some _ =>
      let! eventId := appendEvent now preparation (Some "preparing") "disconnected"
                        (Some reason) in
      queueRunNotice now eventId Notice.attention preparation (Some reason)
  end.

(** One iteration of the expiry loop: None when concluded, the reason when blocked. *)
Definition expireOne (runId : string) (attemptCount : Z) : tx run_rows (option string) :=
  savepoint
    (concludeExpiry runId attemptCount ;;; ret None)
    (λ e, match e with
          | ExpiryUnreconcilable reason =>
              Some (disconnectExpired reason ;;; ret (Some reason))
          | _ => None
          end).

Definition expired_lease (t : run_rows) : bool :=
  match t_prep t with
  | Some p => bool_decide (p_status p = Prep.preparing)
              && lease_expired (p_claimed_at p) now (claim_timeout_ms cfg)
  | None => false
  end.

Definition prep_attempts (t : run_rows) : Z :=
  match t_prep t with Some p => p_attempt_count p | None => 0 end.

Fixpoint expireEach (candidates : list (string * Z)) (acc : PreparationExpiryResult) :
    tx db PreparationExpiryResult :=
  match candidates with
  | [] => ret acc
  | (runId, attempts) :: rest =>
      let! outcome := in_run cfg runId (expireOne runId attempts) in
      match outcome with
      | None => expireEach rest {| concluded := concluded acc + 1; blocked := blocked acc |}
      | Some reason =>
          expireEach rest {| concluded := concluded acc;
                             blocked := blocked acc ++ [(runId, reason)] |}
      end
  end.

Definition expireStale (locked : string → bool) : tx db PreparationExpiryResult :=
  let! candidates := read (λ d,
    (λ kt, (kt.1, prep_attempts kt.2)) <$>
      sort_by (order_by prep_updated_at) (select_runs cfg locked expired_lease d)) in
  expireEach candidates {| concluded := 0; blocked := [] |}.

(** [fail]: schedule a retry while the budget allows it, else end the
    preparation and conclude the execution axis with it. *)
Definition scheduleRetry (token : string) (error : error_info) (retryAfterMs : Z) :
    tx run_rows bool :=
  let! retry := sql_update
    (λ p : prep_row, holds_preparation token p
                     && (p_attempt_count p <? MAX_PREPARATION_ATTEMPTS))
    (λ p, p <| p_status := Prep.pending |> <| p_claim_token := None |>
            <| p_claimed_at := None |>
            <| p_available_at := now + ms (Z.max 0 retryAfterMs) |>
            <| p_failure_code := err_code error |>
            <| p_failure_message := Some (err_message error) |>
            <| p_last_failure_code := err_code error |>
            <| p_last_failure_message := Some (err_message error) |>
            <| p_updated_at := now |>) in
  match retry with
  | None => ret false
  | Some _ =>
      appendEvent now preparation (Some "preparing") "pending" (err_code error) ;;;
      ret true
  end.

Definition closePreparation (token : string) (error : error_info) : tx run_rows bool :=
  let! prepared := sql_update (holds_preparation token)
    (λ p, p <| p_status := Prep.failed |> <| p_claim_token := None |>
            <| p_claimed_at := None |>
            <| p_failure_code := err_code error |>
            <| p_failure_message := Some (err_message error) |>
            <| p_last_failure_code := err_code error |>
            <| p_last_failure_message := Some (err_message error) |>
            <| p_finished_at := Some now |> <| p_updated_at := now |>) in
  ret (match prepared with Some _ => true | None => false end).

Definition markExecutionUncertain (error : error_info) : tx run_rows bool :=
  let! result := sql_update
    (λ e : exec_row, bool_decide (e_status e = Exec.pending))
    (λ e, e <| e_status := Exec.uncertain |>
            <| e_failure_code := err_code error |>
            <| e_failure_message := Some (err_message error) |>
            <| e_observed_at := now |> <| e_updated_at := now |>) in
  ret (match result with Some _ => true | None => false end).

(** The terminal half of [fail], after the preparation row was closed. *)
Definition concludeFailure (error : error_info) : tx run_rows unit :=
  let submissionUncertain :=
    opt_eqb (err_code error) (Some SUBMISSION_STATE_UNCERTAIN) in
  (if submissionUncertain
   then let! moved := markExecutionUncertain error in
        if moved then ret tt
        else throw (Thrown "Preparation claim was lost before failing review run.")
   else let! skipped := skipPendingExecutions now in
        if skipped then ret tt
        else throw (Thrown "Execution was not pending when preparation failed.")) ;;;
  let! skippedPublicationFrom :=
    (if submissionUncertain then ret None else abandonInFlightPublication now) in
  let! preparationEventId := appendEvent now preparation (Some "preparing") "failed"
                               (err_code error) in
  (if submissionUncertain then ret tt
   else queueRunNotice now preparationEventId Notice.failure preparation (err_code error)) ;;;
  appendEvent now execution (Some "pending")
    (if submissionUncertain then "uncertain" else "skipped")
    (if submissionUncertain then Some SUBMISSION_STATE_UNCERTAIN else None) ;;;
  appendPublicationAbandoned now skippedPublicationFrom.

(** The answer is [retry_scheduled]. *)
Definition fail (token : string) (error : error_info) (retry : bool) (retryAfterMs : Z) :
    tx run_rows bool :=
  let! scheduled := (if retry then scheduleRetry token error retryAfterMs else ret false) in
  if scheduled then ret true
  else
    let! closed := closePreparation token error in
    if negb closed then ret false
    else concludeFailure error ;;; ret false.
End PreparationStore.
