(* ===== verification/RunRecord.v ===== *)
(** The cross-axis run record (persistence/run-record-projection.ts) and the
    artifact-storage narrowing it applies (shapes.ts). *)

From S2P Require Import Prelude Schema Tables Database.

(** The Execution API's loose artifact storage: [artifact], [error_code] and
    [message] may be absent or null. *)
Record artifact_storage := {
  as_status : string;
  as_artifact : option json;
  as_error_code : option string;
  as_message : option string;
}.

(** Narrow a storage value to the contract's shape, as the [jsonb] object that
    is stored (keys in [jsonb] order). *)
Definition normalizeArtifactStorage (storage : artifact_storage) : result json :=
  if String.eqb (as_status storage) "available" then
    match as_artifact storage with
    | None | Some JNull =>
        Err (Thrown "available artifact storage record without its artifact reference")
    | Some artifact => Ok (JObject [("status", JString "available"); ("artifact", artifact)])
    end
  else
    Ok (JObject ([("status", JString (as_status storage))]
                 ++ match as_message storage with
                    | None => [] | Some m => [("message", JString m)] end
                 ++ match as_error_code storage with
                    | None => [] | Some c => [("error_code", JString c)] end)).

(** Read a stored value back as the loose type. *)
Definition string_field (key : string) (v : json) : option string :=
  match json_get key v with Some (JString s) => Some s | _ => None end.

Definition storage_of_json (v : json) : artifact_storage := {|
  as_status := coalesce (string_field "status" v) "";
  as_artifact := match json_get "artifact" v with Some JNull => None | a => a end;
  as_error_code := string_field "error_code" v;
  as_message := string_field "message" v |}.

(** [iso]: microseconds to the milliseconds of a JS Date. *)
Definition iso (t : Z) : Z := t / 1000.

Record axis_summary (S : Type) := {
  sum_status : S;
  sum_started_at : option Z;
  sum_finished_at : option Z;
  sum_updated_at : Z;
}.
Arguments sum_status {S} _. Arguments sum_started_at {S} _.
Arguments sum_finished_at {S} _. Arguments sum_updated_at {S} _.

Record ReviewRunRecord := {
  rec_run_id : string;
  rec_workflow : string;
  rec_source_platform : string;
  rec_connector_id : string;
  rec_publish_context : json;
  rec_execution_input : option json;
  rec_preparation : axis_summary Prep.status;
  rec_attempt_count : Z;
  rec_prep_failure_code : option string;
  rec_disconnect_reason : option string;
  rec_execution : axis_summary Exec.status;
  rec_publication : axis_summary Pub.status;
  rec_created_at : Z;
  rec_failure_code : option string;
  rec_failure_message : option string;
  rec_artifact_storage : option json;
  rec_notices : list (Z * notice_row);
  rec_ingress_kind : option string;
  rec_ingress_key : option string;
}.

(** ORDER BY created_at, notice_id. *)
Definition notice_le (x y : Z * notice_row) : bool :=
  (n_created_at x.2 <? n_created_at y.2)
  || ((n_created_at x.2 =? n_created_at y.2) && (x.1 <=? y.1)).

Definition or_else {A} (x y : option A) : option A :=
  match x with Some _ => x | None => y end.

(** [trunk.ingress_kind ? ... : {}]: an empty string is left out as well. *)
Definition truthy (s : option string) : option string :=
  match s with Some "" => None | _ => s end.

(** [rowToRecord] on the row RUN_SELECT joins: publications is an inner join, so
    without its row there is no record at all (None); a missing executions or
    preparations row is reported as corruption. *)
Definition rowToRecord (runId : string) (t : run_rows) : option (result ReviewRunRecord) :=
  match t_run t, t_pub t with
  | Some r, Some u => Some (
      match t_exec t, t_prep t with
      | None, _ => Err (Thrown "run has no executions row")
      | _, None => Err (Thrown "run has no preparations row")
      | Some e, Some p =>
          let storage := match e_artifact_storage e with
                         | None | Some JNull => Ok None
                         | Some v => match normalizeArtifactStorage (storage_of_json v) with
                                     | Ok v' => Ok (Some v')
                                     | Err err => Err err
                                     end
                         end in
          let publicationFailure := bool_decide (u_status u = Pub.failed) in
          match storage with
          | Err err => Err err
          | Ok artifact => Ok {|
              rec_run_id := runId;
              rec_workflow := r_workflow r;
              rec_source_platform := r_source_platform r;
              rec_connector_id := r_connector_id r;
              rec_publish_context := u_input u;
              rec_execution_input := match e_input e with Some JNull => None | i => i end;
              rec_preparation := {|
                sum_status := p_status p; sum_started_at := iso <$> p_started_at p;
                sum_finished_at := iso <$> p_finished_at p;
                sum_updated_at := iso (p_updated_at p) |};
              rec_attempt_count := p_attempt_count p;
              rec_prep_failure_code := p_failure_code p;
              rec_disconnect_reason := p_disconnect_reason p;
              rec_execution := {|
                sum_status := e_status e; sum_started_at := iso <$> e_started_at e;
                sum_finished_at := iso <$> e_finished_at e;
                sum_updated_at := iso (e_observed_at e) |};
              rec_publication := {|
                sum_status := u_status u; sum_started_at := iso <$> u_started_at u;
                sum_finished_at := iso <$> u_finished_at u;
                sum_updated_at := iso (u_updated_at u) |};
              rec_created_at := iso (r_created_at r);
              rec_failure_code :=
                if publicationFailure then u_failure_code u
                else or_else (e_failure_code e) (p_failure_code p);
              rec_failure_message :=
                if publicationFailure then u_failure_message u
                else or_else (e_failure_message e) (p_failure_message p);
              rec_artifact_storage := artifact;
              rec_notices := sort_by notice_le (map_to_list (t_notices t));
              rec_ingress_kind := truthy (r_ingress_kind r);
              rec_ingress_key := truthy (r_ingress_key r) |}
          end
      end)
  | _, _ => None
  end.

(** A stored artifact storage that can be read back. *)
Definition storage_ok (column : option json) : bool :=
  match column with
  | None | Some JNull => true
  | Some v => match normalizeArtifactStorage (storage_of_json v) with
              | Ok _ => true
              | Err _ => false
              end
  end.
#[global] Arguments storage_ok : simpl never.

(** What was narrowed once can be narrowed again. *)
Lemma normalize_storage_ok s v : normalizeArtifactStorage s = Ok v → storage_ok (Some v) = true.
Proof.
  unfold normalizeArtifactStorage. destruct (String.eqb (as_status s) "available") eqn:Hs.
  - destruct (as_artifact s) as [[]|]; intros [= <-]; done.
  - intros [= <-]. unfold storage_ok, normalizeArtifactStorage. simpl. by rewrite Hs.
Qed.

(** [findRunRecord] on the transaction's client. *)
Definition findRunRecord (runId : string) : tx run_rows (option ReviewRunRecord) := λ t,
  match rowToRecord runId t with
  | None => Ok (None, t)
  | Some (Ok r) => Ok (Some r, t)
  | Some (Err e) => Err e
  end.

(** The tail every operator decision shares: the record must still be there. *)
Definition requireRecord (runId : string) : tx run_rows ReviewRunRecord :=
  let! record := findRunRecord runId in
  match record with
  | Some r => ret r
  | None => throw (Thrown "Review run disappeared during the decision.")
  end.

(** The only failure a row can be refused with is its own corruption. *)
Lemma rowToRecord_benign runId t e : rowToRecord runId t = Some (Err e) → benign e = true.
Proof.
  unfold rowToRecord, normalizeArtifactStorage. repeat case_match; intros; simplify_eq/=; done.
Qed.

Lemma wp_findRunRecord runId (Q : option ReviewRunRecord → run_rows → Prop) t :
  (∀ record, Q record t) → wp (findRunRecord runId) Q t.
Proof.
  intros HQ. unfold wpe, findRunRecord.
  destruct (rowToRecord runId t) as [[r|e]|] eqn:Hr; [done|by eapply rowToRecord_benign|done].
Qed.

Lemma wp_requireRecord runId (Q : ReviewRunRecord → run_rows → Prop) t :
  (∀ record, Q record t) → wp (requireRecord runId) Q t.
Proof.
  intros HQ. apply wp_bind, wp_findRunRecord. intros [r|]; [by apply wp_ret|by apply wp_throw].
Qed.
