(* ===== verification/ExecutionStore.v ===== *)
(** The execution axis (persistence/execution-store.ts), and the terminal failure
    that also skips publication (persistence/review-run-store.ts). *)

From S2P Require Import Prelude Schema Tables Database RunRecord PreparationStore.

Definition exec_active (e : exec_row) : bool :=
  bool_decide (e_status e = Exec.queued) || bool_decide (e_status e = Exec.running).

(** [storage === undefined ? null : JSON.stringify(normalize(storage))]: the
    narrowing throws before the statement runs. *)
Definition storage_column (storage : option artifact_storage) : tx run_rows (option json) :=
  match storage with
  | None => ret None
  | Some s => match normalizeArtifactStorage s with
              | Ok v => ret (Some v)
              | Err e => throw e
              end
  end.

Section ExecutionStore.
Context (cfg : store_config) (now : Z).

(** Writes [observed_at] only. *)
Definition touchObservation : tx run_rows unit :=
  sql_update exec_active (λ e, e <| e_observed_at := now |>) ;;; ret tt.

Definition markRunning : tx run_rows bool :=
  let! result := sql_update (λ e : exec_row, bool_decide (e_status e = Exec.queued))
    (λ e, e <| e_status := Exec.running |> <| e_observed_at := now |>
            <| e_updated_at := now |>) in
  match result with
  | None => ret false
  | Some _ => appendEvent now execution (Some "queued") "running" None ;;; ret true
  end.

Definition recordArtifactStorage (storage : option artifact_storage) : tx run_rows unit :=
  match storage with
  | None => ret tt
  | Some _ =>
      let! column := storage_column storage in
      sql_update (λ _ : exec_row, true)
        (λ e, e <| e_artifact_storage := column |> <| e_updated_at := now |>) ;;;
      ret tt
  end.

Definition recordExecutionSuccess (workflowResult : option json)
    (storage : option artifact_storage) : tx run_rows bool :=
  let! column := storage_column storage in
  let! result := sql_update exec_active
    (λ e, e <| e_status := Exec.succeeded |> <| e_workflow_result := workflowResult |>
            <| e_artifact_storage := column |>
            <| e_failure_code := None |> <| e_failure_message := None |>
            <| e_finished_at := Some now |>
            <| e_observed_at := now |> <| e_updated_at := now |>) in
  match result with
  | None => ret false
  | Some (previous, _) =>
      appendEvent now execution (Some (Exec.text (e_status previous))) "succeeded" None ;;;
      ret true
  end.

(** [claim_token IS NULL OR claimed_at <= now - timeout]. *)
Definition recovery_claimable (e : exec_row) : bool :=
  bool_decide (e_status e = Exec.uncertain)
  && (is_null (e_claim_token e)
      || lease_expired (e_claimed_at e) now (claim_timeout_ms cfg)).

Definition claimSubmissionRecovery (token : string) : tx run_rows (option string) :=
  let! result := sql_update recovery_claimable
    (λ e, e <| e_claim_token := Some token |> <| e_claimed_at := Some now |>
            <| e_updated_at := now |>) in
  match result with
  | None => ret None
  | Some _ =>
      appendEvent now execution (Some "uncertain") "uncertain"
        (Some "SUBMISSION_RECOVERY_CLAIMED") ;;;
      ret (Some token)
  end.

Definition submissionRecoveryAttemptCount : tx run_rows (option Z) :=
  read (λ t, e_attempt_count <$> t_exec t).

Definition resumeDisconnectedSubmissionRecoveryOn : tx run_rows bool :=
  let! result := sql_update (λ e : exec_row, bool_decide (e_status e = Exec.disconnected))
    (λ e, e <| e_status := Exec.uncertain |> <| e_claim_token := None |>
            <| e_claimed_at := None |> <| e_attempt_count := 0 |>
            <| e_updated_at := now |>) in
  match result with
  | None => ret false
  | Some _ =>
      appendEvent now execution (Some "disconnected") "uncertain"
        (Some "SUBMISSION_RECOVERY_RESUMED_BY_OPERATOR") ;;;
      supersedeRunAttentionNotices now execution ;;;
      ret true
  end.

Definition disconnectExhaustedSubmissionRecovery (maxAttempts : Z) : tx run_rows bool :=
  let! result := sql_update
    (λ e, recovery_claimable e && (maxAttempts <=? e_attempt_count e))
    (λ e, e <| e_status := Exec.disconnected |> <| e_claim_token := None |>
            <| e_claimed_at := None |> <| e_updated_at := now |>) in
  match result with
  | None => ret false
  | Some _ =>
      let! eventId := appendEvent now execution (Some "uncertain") "disconnected"
                        (Some "SUBMISSION_RECOVERY_EXHAUSTED") in
      queueRunNotice now eventId Notice.attention execution
        (Some "SUBMISSION_RECOVERY_EXHAUSTED") ;;;
      ret true
  end.

(** [status='uncertain' AND claim_token=$token]. *)
Definition holds_recovery (token : string) (e : exec_row) : bool :=
  bool_decide (e_status e = Exec.uncertain) && sql_eq (e_claim_token e) token.

Definition recordUnknownRecoveryOutcome (token : string) : tx run_rows bool :=
  let! result := sql_update (holds_recovery token)
    (λ e, e <| e_attempt_count := e_attempt_count e + 1 |> <| e_updated_at := now |>) in
  ret (match result with Some _ => true | None => false end).

(** [ReviewRunStore.failExecution]. *)
Definition failExecution (error : error_info) (storage : option artifact_storage) :
    tx run_rows bool :=
  let! column := storage_column storage in
  let! run := sql_update exec_active
    (λ e, e <| e_status := Exec.failed |> <| e_claim_token := None |>
            <| e_claimed_at := None |>
            <| e_failure_code := err_code error |>
            <| e_failure_message := Some (err_message error) |>
            <| e_artifact_storage := column |>
            <| e_finished_at := Some now |>
            <| e_observed_at := now |> <| e_updated_at := now |>) in
  match run with
  | None => ret false
  | Some (previous, _) =>
      let! fromStatus := abandonInFlightPublication now in
      let! executionEventId := appendEvent now execution
        (Some (Exec.text (e_status previous))) "failed" (err_code error) in
      queueRunNotice now executionEventId Notice.failure execution (err_code error) ;;;
      appendPublicationAbandoned now fromStatus ;;;
      ret true
  end.
End ExecutionStore.
