(* ===== verification/InputBundles.v ===== *)
(** Input-publication intents (persistence/input-bundle-candidate-store.ts):
    reserve before the upload, confirm presence, select with the submission. *)

From S2P Require Import Prelude Schema Tables Database PreparationStore.

(** * The artifact reference *)

Record artifact_reference := {
  ref_digest : string;
  ref_uri : string;
  ref_media_type : string;
  ref_size_bytes : Z;
}.

(** [JSON.stringify(ref)] as [jsonb]. *)
Definition reference_json (r : artifact_reference) : json :=
  JObject [("uri", JString (ref_uri r)); ("digest", JString (ref_digest r));
           ("media_type", JString (ref_media_type r)); ("size_bytes", JNumber (ref_size_bytes r))].

Record publication_intent := {
  in_reference : artifact_reference;
  in_input : json;
  in_publish_context : json;
}.

(** What the platform's URL parser returns, as far as the code reads it. *)
Record url := {
  url_protocol : string;
  url_search : string;
  url_hash : string;
  url_username : string;
  url_password : string;
  url_port : string;
  url_pathname : string;
}.

Definition MAX_SAFE_INTEGER : Z := 2 ^ 53 - 1.

Definition valid_reference (r : artifact_reference) : bool :=
  valid_digest (ref_digest r)
  && String.eqb (ref_media_type r) "application/tar+zstd"
  && (ref_size_bytes r <=? MAX_SAFE_INTEGER)
  && (0 <=? ref_size_bytes r).

Definition input_bundle_path (runId digest : string) : string :=
  ("/runs/" ++ runId ++ "/input/" ++ String.substring 7 64 digest ++ "/input-bundle.v1.tar.zst")%string.

(** * The store *)

Section InputBundles.
Context (cfg : store_config) (now : Z).
(** [new URL(uri)]; None when it throws. *)
Context (parse_url : string → option url).

(** The checks [reserve] makes before its transaction. *)
Definition reference_error (runId : string) (r : artifact_reference) : option failure :=
  if negb (valid_reference r) then Some (Thrown "Invalid input bundle reference.")
  else if has_whitespace (ref_uri r) then Some (Thrown "Invalid input bundle URI.")
  else match parse_url (ref_uri r) with
       | None => Some (Thrown "Invalid URL")
       | Some u =>
           if negb (String.eqb (url_protocol u) "s3:" || String.eqb (url_protocol u) "file:")
              || negb (String.eqb (url_search u) "") || negb (String.eqb (url_hash u) "")
              || negb (String.eqb (url_username u) "") || negb (String.eqb (url_password u) "")
              || negb (String.eqb (url_port u) "")
           then Some (Thrown "Invalid input bundle URI.")
           else if String.eqb (url_protocol u) "s3:"
                   && negb (String.eqb (url_pathname u)
                              (input_bundle_path runId (ref_digest r)))
           then Some (Thrown "Input bundle URI does not match its run and digest.")
           else None
       end.

(** Lock the preparation row, then evaluate the lease. *)
Definition requirePreparationClaim (token : string) : tx run_rows unit :=
  let! row := read t_prep in
  match row with
  | Some p =>
      if holds_preparation token p && lease_live (p_claimed_at p) now (claim_timeout_ms cfg)
      then ret tt else throw (Thrown "Preparation claim was lost.")
  | None => throw (Thrown "Preparation claim was lost.")
  end.

(** INSERT ... ON CONFLICT (run_id,digest) DO UPDATE ... WHERE same intent. *)
Definition upsert_candidate (token : string) (i : publication_intent) :
    tx run_rows candidate_row := λ t,
  let digest := ref_digest (in_reference i) in
  let fresh := {| c_reference := reference_json (in_reference i); c_input := in_input i;
                  c_publish_context := in_publish_context i; c_reserved_by := token;
                  c_status := Candidate.reserved; c_created_at := now; c_updated_at := now |} in
  if negb (candidate_check digest fresh) then Err (CheckViolation "input_bundle_candidates")
  else match t_candidates t !! digest with
       | None => Ok (fresh, t <| t_candidates ::= <[digest := fresh]> |>)
       | Some c =>
           if bool_decide (c_reference c = c_reference fresh)
              && bool_decide (c_input c = c_input fresh)
              && bool_decide (c_publish_context c = c_publish_context fresh)
           then let c' := if bool_decide (c_status c = Candidate.abandoned)
                          then c <| c_status := Candidate.reserved |> <| c_updated_at := now |>
                          else c in
                Ok (c', t <| t_candidates ::= <[digest := c']> |>)
           else Err (Thrown "Input bundle reservation conflicts with an immutable intent.")
       end.

Definition reserve (runId token : string) (i : publication_intent) :
    tx run_rows candidate_row :=
  match reference_error runId (in_reference i) with
  | Some e => throw e
  | None => requirePreparationClaim token ;;; upsert_candidate token i
  end.

(** ORDER BY (status='selected') DESC, created_at, digest. *)
Definition candidate_le (x y : string * candidate_row) : bool :=
  let sx := bool_decide (c_status x.2 = Candidate.selected) in
  let sy := bool_decide (c_status y.2 = Candidate.selected) in
  if Bool.eqb sx sy
  then (c_created_at x.2 <? c_created_at y.2)
       || ((c_created_at x.2 =? c_created_at y.2) && String.leb x.1 y.1)
  else sx.

Definition list_candidates (token : string) : tx run_rows (list (string * candidate_row)) :=
  requirePreparationClaim token ;;;
  read (λ t, sort_by candidate_le
    (List.filter (λ kc, negb (bool_decide (c_status kc.2 = Candidate.abandoned)))
       (map_to_list (t_candidates t)))).

(** [settled] is 'present' or 'abandoned'. *)
Definition settle (token digest : string) (settled : Candidate.status) :
    tx run_rows candidate_row :=
  requirePreparationClaim token ;;;
  λ t, match t_candidates t !! digest with
       | Some c =>
           if bool_decide (c_status c = Candidate.reserved)
              || bool_decide (c_status c = Candidate.present)
              || bool_decide (c_status c = settled)
           then let c' := if bool_decide (c_status c = settled) then c
                          else c <| c_status := settled |> <| c_updated_at := now |> in
                Ok (c', t <| t_candidates ::= <[digest := c']> |>)
           else Err (Thrown "Input bundle candidate cannot make this transition.")
       | None => Err (Thrown "Input bundle candidate cannot make this transition.")
       end.
End InputBundles.
