(* ===== verification/SubmissionTransitions.v ===== *)
(** The cross-axis transitions around Execution submission
    (persistence/submission-transition-store.ts). *)

From S2P Require Import Prelude Schema Tables Database RunRecord PreparationStore.
From S2P Require Import ExecutionStore InputBundles.

Section SubmissionTransitions.
Context (cfg : store_config) (now : Z).

(** [reference=.. AND input=.. AND publish_context=.. AND status IN
    ('present','selected')], and no other candidate is selected. *)
Definition candidate_matches (input context : json)
    (candidates : gmap string candidate_row) (digest : string) (c : candidate_row) : bool :=
  bool_decide (c_reference c = coalesce (json_get "input_bundle" input) JNull)
  && bool_decide (c_input c = input)
  && bool_decide (c_publish_context c = context)
  && (bool_decide (c_status c = Candidate.present)
      || bool_decide (c_status c = Candidate.selected))
  && negb (existsb (λ kc, bool_decide (c_status kc.2 = Candidate.selected)
                          && negb (String.eqb kc.1 digest))
             (map_to_list candidates)).

Definition savePreparedSubmission (token : string) (context input : json) :
    tx run_rows unit :=
  requirePreparationClaim cfg now token ;;;
  let! candidates := read t_candidates in
  let! selected := update_candidates (candidate_matches input context candidates)
    (λ c, if bool_decide (c_status c = Candidate.selected) then c
          else c <| c_status := Candidate.selected |> <| c_updated_at := now |>) in
  if negb (selected =? 1)
  then throw (Thrown "Prepared input has no matching published candidate.")
  else
    let! execution := sql_update
      (λ e : exec_row, bool_decide (e_status e = Exec.pending)
                       && (is_null (e_input e) || sql_eq (e_input e) input))
      (λ e, e <| e_input := Some input |> <| e_updated_at := now |>) in
    let! publication := sql_update
      (λ u : pub_row, bool_decide (u_status u = Pub.pending))
      (λ u, u <| u_input := context |> <| u_updated_at := now |>) in
    match execution, publication with
    | Some _, Some _ => abandonOpenCandidates now
    | _, _ => throw (Thrown "Run cannot save prepared submission outside pending.")
    end.

Definition markQueued (token : string) (context : json) : tx run_rows unit :=
  let! run := read t_run in
  match run with
  | None => throw (HttpStatus 404 "Review run does not exist")
  | Some _ =>
      let! publication := sql_update
        (λ u : pub_row, bool_decide (u_status u = Pub.pending))
        (λ u, u <| u_input := context |> <| u_updated_at := now |>) in
      let! prep := read t_prep in
      let! execution' := sql_update
        (λ e : exec_row, bool_decide (e_status e = Exec.pending)
           && match prep with Some p => holds_preparation token p | None => false end)
        (λ e, e <| e_status := Exec.queued |>
                <| e_started_at := Some (coalesce (e_started_at e) now) |>
                <| e_failure_code := None |> <| e_failure_message := None |>
                <| e_observed_at := now |> <| e_updated_at := now |>) in
      match publication, execution' with
      | Some _, Some _ =>
          let! preparation' := sql_update (holds_preparation token)
            (λ p, p <| p_status := Prep.submitted |> <| p_claim_token := None |>
                    <| p_claimed_at := None |> <| p_finished_at := Some now |>
                    <| p_updated_at := now |>) in
          match preparation' with
          | None => throw (Thrown "Preparation lost its claim before the queued transition completed.")
          | Some _ =>
              appendEvent now execution (Some "pending") "queued" None ;;;
              appendEvent now preparation (Some "preparing") "submitted" None ;;;
              ret tt
          end
      | _, _ => throw (Thrown "Review run cannot transition from pending to queued.")
      end
  end.

Definition completeSubmissionRecovery (token : string) : tx run_rows bool :=
  let! pub := read t_pub in
  let! result := sql_update
    (λ e, holds_recovery token e
          && match pub with Some u => bool_decide (u_status u = Pub.pending) | None => false end)
    (λ e, e <| e_status := Exec.queued |> <| e_claim_token := None |>
            <| e_claimed_at := None |>
            <| e_started_at := Some (coalesce (e_started_at e) now) |>
            <| e_failure_code := None |> <| e_failure_message := None |>
            <| e_observed_at := now |> <| e_updated_at := now |>) in
  match result with
  | None => ret false
  | Some _ => appendEvent now execution (Some "uncertain") "queued" None ;;; ret true
  end.

Definition failSubmissionRecovery (token : string) (error : error_info) : tx run_rows bool :=
  let! result := sql_update (holds_recovery token)
    (λ e, e <| e_status := Exec.failed |> <| e_claim_token := None |>
            <| e_claimed_at := None |>
            <| e_failure_code := err_code error |>
            <| e_failure_message := Some (err_message error) |>
            <| e_finished_at := Some now |>
            <| e_observed_at := now |> <| e_updated_at := now |>) in
  match result with
  | None => ret false
  | Some _ =>
      let! publicationFrom := abandonInFlightPublication now in
      let! executionEventId := appendEvent now execution (Some "uncertain") "failed"
                                 (err_code error) in
      queueRunNotice now executionEventId Notice.failure execution (err_code error) ;;;
      appendPublicationAbandoned now publicationFrom ;;;
      ret true
  end.
End SubmissionTransitions.
