(* ===== verification/PublicationStore.v ===== *)
(** The publication axis and its steps (persistence/publication-store.ts), and the
    claims on publishable work (persistence/publication-claim-store.ts). *)

From S2P Require Import Prelude Schema Tables Database RunRecord PreparationStore.

Definition MAX_PUBLICATION_STEP_ATTEMPTS : Z := 3.
Definition MAX_PUBLICATION_STEP_RECOVERY_ATTEMPTS : Z := 3.

(** PUBLICATION_STEP_ERROR_CODES (errors.ts). *)
Definition set_duplicate : string := "PUBLICATION_STEP_SET_DUPLICATE".
Definition set_changed : string := "PUBLICATION_STEP_SET_CHANGED".
Definition retry_exhausted : string := "PUBLICATION_STEP_RETRY_EXHAUSTED".
Definition not_claimable : string := "PUBLICATION_STEP_NOT_CLAIMABLE".

Record remote_object := { remote_id : option string; remote_url : option string }.

Definition isStepExhausted (s : step_row) : bool :=
  MAX_PUBLICATION_STEP_ATTEMPTS <=? s_attempt_count s.

(** [status IN ('publishing','uncertain','disconnected') AND claim_token=$token]. *)
Definition owns_publication (token : string) (u : pub_row) : bool :=
  Pub.owned (u_status u) && sql_eq (u_claim_token u) token.

(** The CASE of the [derived] CTE: the strongest step-level uncertainty. *)
Definition derived_status (steps : gmap string step_row) (s : Pub.status) : Pub.status :=
  if any_step (step_is Step.disconnected) steps then Pub.disconnected
  else if any_step (step_is Step.uncertain) steps then Pub.uncertain
  else match s with
       | Pub.uncertain | Pub.disconnected => Pub.publishing
       | _ => s
       end.

(** * Claims *)

(** [status='succeeded' AND jsonb_typeof(workflow_result) <> 'null']. *)
Definition publishable (t : run_rows) : bool :=
  match t_exec t with
  | Some e => bool_decide (e_status e = Exec.succeeded) && json_not_null (e_workflow_result e)
  | None => false
  end
  && negb (any_step (step_is Step.disconnected) (t_steps t)).

Section PublicationClaims.
Context (cfg : store_config) (now : Z).

Definition lease_available (u : pub_row) : bool :=
  match u_status u with
  | Pub.pending => true
  | Pub.publishing | Pub.uncertain => lease_expired (u_claimed_at u) now (claim_timeout_ms cfg)
  | _ => false
  end.

Definition claim_publishing (token : string) (u : pub_row) : pub_row :=
  u <| u_status := Pub.publishing |> <| u_claim_token := Some token |>
    <| u_claimed_at := Some now |>
    <| u_started_at := Some (coalesce (u_started_at u) now) |>
    <| u_failure_code := None |> <| u_failure_message := None |>
    <| u_updated_at := now |>.

Definition appendClaimEvent (from : Pub.status) : tx run_rows unit :=
  appendEvent now publication (Some (Pub.text from)) "publishing"
    (match from with
     | Pub.publishing | Pub.uncertain => Some "PUBLICATION_LEASE_EXPIRED"
     | _ => None
     end) ;;;
  ret tt.

(** Claim one known run. *)
Definition claim (token : string) : tx run_rows (option string) :=
  let! ready := read publishable in
  let! result := sql_update (λ u : pub_row, ready && lease_available u)
                   (claim_publishing token) in
  match result with
  | None => ret None
  | Some (previous, _) => appendClaimEvent (u_status previous) ;;; ret (Some token)
  end.

Definition pub_claimable (t : run_rows) : bool :=
  publishable t && match t_pub t with Some u => lease_available u | None => false end.

Definition pub_updated_at (t : run_rows) : Z :=
  match t_pub t with Some u => u_updated_at u | None => 0 end.

Record PublicationWork := {
  pw_record : ReviewRunRecord;
  pw_workflow_result : json;
  pw_claim_token : string;
}.

(** The second half of [claimNextOnce]: the UPDATE restates every condition. *)
Definition claimSelected (runId : string) (selected : Pub.status) (token : string) :
    tx run_rows (option PublicationWork) :=
  let! ready := read publishable in
  let! claimed := sql_update
    (λ u : pub_row, bool_decide (u_status u = selected) && ready && lease_available u)
    (claim_publishing token) in
  match claimed with
  | None => throw (Thrown "Publication work changed while being claimed")
  | Some _ =>
      appendClaimEvent selected ;;;
      let! record := findRunRecord runId in
      let! result := read (λ t, e ← t_exec t; e_workflow_result e) in
      match record, result with
      | Some r, Some v => ret (Some {| pw_record := r; pw_workflow_result := v;
                                       pw_claim_token := token |})
      | _, _ => throw (Thrown "Claimed publication work is incomplete")
      end
  end.

Definition claimNextOnce (locked : string → bool) (token : string) :
    tx db (option PublicationWork) :=
  let! candidate := read (λ d, first_by (λ x y, pub_updated_at x.2 <=? pub_updated_at y.2)
                                 (select_runs cfg locked pub_claimable d)) in
  match candidate with
  | None => ret None
  | Some (runId, t) =>
      in_run cfg runId
        (claimSelected runId (match t_pub t with Some u => u_status u | None => Pub.pending end)
           token)
  end.
End PublicationClaims.

(** [claimNext]: poll until work arrives or the bounded wait is over.  [polls] are
    the attempts with the Date.now() each is followed by. *)
Definition boundedWaitMs (waitMs : Z) : Z :=
  if 0 <? waitMs then Z.min waitMs 30000 else 0.

Fixpoint pollClaims {A} (deadline : Z) (polls : list (Z * option A)) : option A :=
  match polls with
  | [] => None
  | (date_now, work) :: rest =>
      match work with
      | Some w => Some w
      | None => if deadline <=? date_now then None else pollClaims deadline rest
      end
  end.

(** * The store *)

Section PublicationStore.
Context (cfg : store_config) (now : Z).

(** Re-derive the axis from its steps, and audit a real change. *)
Definition derivePublicationStatus : tx run_rows unit :=
  let! steps := read t_steps in
  let! result := sql_update
    (λ u : pub_row, Pub.owned (u_status u)
                    && negb (bool_decide (u_status u = derived_status steps (u_status u))))
    (λ u, u <| u_status := derived_status steps (u_status u) |> <| u_updated_at := now |>) in
  match result with
  | None => ret tt
  | Some (from, changed) =>
      let! eventId := appendEvent now publication (Some (Pub.text (u_status from)))
                        (Pub.text (u_status changed)) None in
      if bool_decide (u_status changed = Pub.disconnected)
      then queueRunNotice now eventId Notice.attention publication
             (Some "PUBLICATION_RECOVERY_EXHAUSTED")
      else ret tt
  end.

Definition pubHeartbeatIntervalMs : Z :=
  Z.max 100 (Z.min 30000 (claim_timeout_ms cfg / 3)).

Definition renewPublicationClaim (token : string) : tx run_rows bool :=
  let! result := sql_update (owns_publication token)
    (λ u, u <| u_claimed_at := Some now |> <| u_updated_at := now |>) in
  ret (match result with Some _ => true | None => false end).

(** Both budgets of a parked step are refilled. *)
Definition reset_step (s : step_row) : step_row :=
  s <| s_status := Step.pending |> <| s_claimed_by := None |>
    <| s_attempt_count := 0 |> <| s_recovery_attempt_count := 0 |>
    <| s_updated_at := now |>.

Definition resumeDisconnectedOn : tx run_rows bool :=
  let! result := sql_update (λ u : pub_row, bool_decide (u_status u = Pub.disconnected))
    (λ u, u <| u_status := Pub.pending |> <| u_claim_token := None |>
            <| u_claimed_at := None |> <| u_updated_at := now |>) in
  match result with
  | None => ret false
  | Some (previous, _) =>
      update_steps (step_is Step.disconnected) reset_step ;;;
      appendEvent now publication (Some (Pub.text (u_status previous))) "pending"
        (Some "PUBLICATION_RESUMED_BY_OPERATOR") ;;;
      supersedeRunAttentionNotices now publication ;;;
      ret true
  end.

Definition complete (token : string) : tx run_rows bool :=
  let! steps := read t_steps in
  let! result := sql_update
    (λ u, owns_publication token u
          && negb (any_step (λ s, negb (step_is Step.succeeded s)) steps))
    (λ u, u <| u_status := Pub.published |> <| u_claim_token := None |>
            <| u_finished_at := Some now |>
            <| u_failure_code := None |> <| u_failure_message := None |>
            <| u_updated_at := now |>) in
  match result with
  | None => ret false
  | Some _ => appendEvent now publication (Some "publishing") "published" None ;;; ret true
  end.

Definition failPublication (token : string) (error : error_info) (retry : bool) :
    tx run_rows bool :=
  let toStatus := if retry then Pub.pending else Pub.failed in
  let! result := sql_update (owns_publication token)
    (λ u, u <| u_status := toStatus |> <| u_claim_token := None |>
            <| u_failure_code := err_code error |>
            <| u_failure_message := Some (err_message error) |>
            <| u_finished_at := if bool_decide (toStatus = Pub.failed) then Some now else None |>
            <| u_updated_at := now |>) in
  match result with
  | None => ret false
  | Some _ =>
      let! eventId := appendEvent now publication (Some "publishing") (Pub.text toStatus)
                        (err_code error) in
      (if bool_decide (toStatus = Pub.failed)
       then queueRunNotice now eventId Notice.failure publication (err_code error)
       else ret tt) ;;;
      ret true
  end.

Definition fresh_step : step_row := {|
  s_status := Step.pending; s_attempt_count := 0; s_recovery_attempt_count := 0;
  s_last_attempt_at := None; s_claimed_by := None; s_remote_object_id := None;
  s_remote_object_url := None; s_failure_code := None; s_failure_message := None;
  s_updated_at := now |}.

(** Lock the publication that owns this claim token, or answer false. *)
Definition lockPublicationOwnership (token : string) : tx run_rows bool :=
  read (λ t, match t_pub t with Some u => owns_publication token u | None => false end).

Definition insert_steps (keys : list string) : tx run_rows unit := λ t,
  Ok (tt, t <| t_steps := foldr (λ k m, <[k := fresh_step]> m) (t_steps t) keys |>).

(** [new Set(stepKeys)].size <> stepKeys.length throws; an empty set is created,
    a stored one must be the same set. *)
Definition initializePublicationSteps (token : string) (stepKeys : list string) :
    tx run_rows unit :=
  if negb (bool_decide (NoDup stepKeys)) then throw (Deterministic set_duplicate)
  else
    let! owned := lockPublicationOwnership token in
    if negb owned then throw (Thrown "Publication claim was lost before steps were initialized")
    else
      let! existing := read t_steps in
      if bool_decide (existing = ∅) then insert_steps stepKeys
      else if bool_decide (dom existing = list_to_set stepKeys) then ret tt
      else throw (Deterministic set_changed).

(** ORDER BY step_key. *)
Definition listPublicationSteps : tx run_rows (list (string * step_row)) :=
  read (λ t, sort_by (λ x y, String.leb x.1 y.1) (map_to_list (t_steps t))).

(** A step this token may start an attempt on. *)
Definition step_claimable (token : string) (s : step_row) : bool :=
  (s_attempt_count s + 1 <=? MAX_PUBLICATION_STEP_ATTEMPTS)
  && (step_is Step.pending s
      || (step_is Step.running s && sql_distinct (s_claimed_by s) token)
      || step_is Step.failed s).

Definition claimPublicationStep (token stepKey : string) : tx run_rows bool :=
  let! owned := lockPublicationOwnership token in
  if negb owned then ret false
  else update_step stepKey (step_claimable token)
    (λ s, s <| s_status := Step.running |> <| s_claimed_by := Some token |>
            <| s_attempt_count := s_attempt_count s + 1 |>
            <| s_last_attempt_at := Some now |> <| s_updated_at := now |>).

(** The second transaction of [requirePublicationStepClaim]: is the refused step
    an exhausted one that has to be reconciled? *)
Definition classifyRefusedClaim (token stepKey : string) : tx run_rows bool :=
  let! owned := lockPublicationOwnership token in
  let! steps := listPublicationSteps in
  let current := snd <$> List.find (λ ks, String.eqb ks.1 stepKey) steps in
  let needsReconciliation :=
    match current with
    | Some s => owned && isStepExhausted s
                && (step_is Step.failed s || step_is Step.running s || step_is Step.uncertain s)
    | None => false
    end in
  let settled := match current with Some s => step_is Step.uncertain s | None => false end in
  (if needsReconciliation && negb settled
   then update_step stepKey
          (λ s, (step_is Step.failed s || step_is Step.running s)
                && (MAX_PUBLICATION_STEP_ATTEMPTS <=? s_attempt_count s))
          (λ s, s <| s_status := Step.uncertain |> <| s_claimed_by := None |>
                  <| s_updated_at := now |>)
   else ret false) ;;;
  derivePublicationStatus ;;;
  ret needsReconciliation.

(** Two transactions: the claim, and on a refusal the classification, whose writes
    commit before the error is thrown to the caller. *)
Definition requirePublicationStepClaim (token stepKey : string) (t : run_rows) :
    result unit * run_rows :=
  let (claimed, t1) := transaction (claimPublicationStep token stepKey) t in
  match claimed with
  | Err e => (Err e, t1)
  | Ok true => (Ok tt, t1)
  | Ok false =>
      let (exhausted, t2) := transaction (classifyRefusedClaim token stepKey) t1 in
      match exhausted with
      | Err e => (Err e, t2)
      | Ok true => (Err (Deterministic retry_exhausted), t2)
      | Ok false => (Err (Deterministic not_claimable), t2)
      end
  end.

(** [found] is the remote object the connector saw, None when it saw nothing. *)
Definition settleExhaustedPublicationStep (token stepKey : string)
    (found : option remote_object) : tx run_rows bool :=
  let! owned := lockPublicationOwnership token in
  if negb owned then ret false
  else
    let! moved := update_step stepKey
      (λ s, step_is Step.uncertain s && (MAX_PUBLICATION_STEP_ATTEMPTS <=? s_attempt_count s))
      (λ s, match found with
            | Some remote =>
                s <| s_status := Step.succeeded |> <| s_claimed_by := None |>
                  <| s_remote_object_id := remote_id remote |>
                  <| s_remote_object_url := remote_url remote |>
                  <| s_failure_code := None |> <| s_failure_message := None |>
                  <| s_updated_at := now |>
            | None =>
                s <| s_status := Step.terminal_failed |> <| s_claimed_by := None |>
                  <| s_updated_at := now |>
            end) in
    if negb moved then ret false
    else derivePublicationStatus ;;; ret true.

Definition completePublicationStep (token stepKey : string) (remote : remote_object) :
    tx run_rows bool :=
  let! owned := lockPublicationOwnership token in
  if negb owned then ret false
  else update_step stepKey (step_is Step.running)
    (λ s, s <| s_status := Step.succeeded |> <| s_claimed_by := None |>
            <| s_remote_object_id := remote_id remote |>
            <| s_remote_object_url := remote_url remote |>
            <| s_failure_code := None |> <| s_failure_message := None |>
            <| s_updated_at := now |>).

(** [retry] is the optional [options.retry]: only an explicit false is terminal, and
    only an explicit true spends the reconciliation budget of an uncertain step. *)
Definition failed_step (error : error_info) (retry : option bool) (s : step_row) : step_row :=
  let reconciling := step_is Step.uncertain s && bool_decide (retry = Some true) in
  s <| s_status :=
         if reconciling
         then if MAX_PUBLICATION_STEP_RECOVERY_ATTEMPTS <=? s_recovery_attempt_count s + 1
              then Step.disconnected else Step.uncertain
         else if bool_decide (retry = Some false) then Step.terminal_failed else Step.failed |>
    <| s_claimed_by := None |>
    <| s_recovery_attempt_count :=
         if reconciling then s_recovery_attempt_count s + 1 else s_recovery_attempt_count s |>
    <| s_failure_code := err_code error |>
    <| s_failure_message := Some (err_message error) |>
    <| s_updated_at := now |>.

Definition failPublicationStep (token stepKey : string) (error : error_info)
    (retry : option bool) : tx run_rows bool :=
  let terminal := bool_decide (retry = Some false) in
  let! owned := lockPublicationOwnership token in
  if negb owned then ret false
  else
    let! moved := update_step stepKey
      (λ s, step_is Step.running s || step_is Step.uncertain s)
      (failed_step error retry) in
    if negb moved then ret false
    else
      derivePublicationStatus ;;;
      if negb terminal then ret true
      else
        let! publication' := sql_update (owns_publication token)
          (λ u, u <| u_status := Pub.failed |> <| u_claim_token := None |>
                  <| u_claimed_at := None |>
                  <| u_failure_code := err_code error |>
                  <| u_failure_message := Some (err_message error) |>
                  <| u_finished_at := Some now |> <| u_updated_at := now |>) in
        match publication' with
        | None => throw (Thrown "Publication changed while its terminal step failed.")
        | Some (previous, _) =>
            let! eventId := appendEvent now publication
              (Some (Pub.text (u_status previous))) "failed" (err_code error) in
            queueRunNotice now eventId Notice.failure publication (err_code error) ;;;
            ret true
        end.
End PublicationStore.
