(* ===== verification/OperatorDecisions.v ===== *)
(** The operator's decisions on parked runs (persistence/operator-decision-store.ts). *)

From S2P Require Import Prelude Schema Tables Database RunRecord PreparationStore.
From S2P Require Import ExecutionStore PublicationStore.

Section OperatorDecisions.
Context (now : Z) (runId : string).

Definition notDisconnected : failure := HttpStatus 409 "not a disconnected axis".

Definition abandonBlockedPreparation (reason : string) : tx run_rows ReviewRunRecord :=
  if blank reason then throw (HttpStatus 400 "An abandonment reason is required.")
  else
    let! row := read t_prep in
    match row with
    | Some p =>
        if negb (bool_decide (p_status p = Prep.disconnected)) then throw notDisconnected
        else
          let abandonCode := coalesce (p_disconnect_reason p) "EXECUTION_ALREADY_ADVANCED" in
          let! failed := sql_update
            (λ p : prep_row, bool_decide (p_status p = Prep.disconnected))
            (λ p, p <| p_status := Prep.failed |> <| p_claim_token := None |>
                    <| p_claimed_at := None |>
                    <| p_failure_code := Some abandonCode |>
                    <| p_failure_message := Some reason |>
                    <| p_last_failure_code := Some abandonCode |>
                    <| p_last_failure_message := Some reason |>
                    <| p_finished_at := Some now |> <| p_disconnect_reason := None |>
                    <| p_updated_at := now |>) in
          match failed with
          | None => throw (HttpStatus 409 "disconnected but its state changed")
          | Some _ =>
              let! preparationEventId := appendEvent now preparation (Some "disconnected")
                                           "failed" (Some abandonCode) in
              queueRunNotice now preparationEventId Notice.failure preparation
                (Some abandonCode) ;;;
              let! stoppedExecution := sql_update
                (λ e, exec_active e || bool_decide (e_status e = Exec.uncertain))
                (λ e, e <| e_status := Exec.failed |> <| e_claim_token := None |>
                        <| e_claimed_at := None |>
                        <| e_failure_code := Some abandonCode |>
                        <| e_failure_message := Some reason |>
                        <| e_finished_at := Some (coalesce (e_finished_at e) now) |>
                        <| e_observed_at := now |> <| e_updated_at := now |>) in
              match stoppedExecution with
              | Some (previous, _) =>
                  appendEvent now execution (Some (Exec.text (e_status previous))) "failed"
                    (Some abandonCode) ;;; ret tt
              | None => ret tt
              end ;;;
              let! publicationFrom := abandonInFlightPublication now in
              appendPublicationAbandoned now publicationFrom ;;;
              requireRecord runId
          end
    | None => throw notDisconnected
    end.

Definition resumeDisconnectedPreparation : tx run_rows ReviewRunRecord :=
  let! resumed := sql_update (λ p : prep_row, bool_decide (p_status p = Prep.disconnected))
    (λ p, p <| p_status := Prep.uncertain |> <| p_disconnect_reason := None |>
            <| p_attempt_count := 0 |> <| p_available_at := now |>
            <| p_updated_at := now |>) in
  match resumed with
  | None => throw notDisconnected
  | Some _ =>
      appendEvent now preparation (Some "disconnected") "uncertain"
        (Some "PREPARATION_RESUMED_BY_OPERATOR") ;;;
      supersedeRunAttentionNotices now preparation ;;;
      requireRecord runId
  end.

Definition resumeDisconnectedExecution : tx run_rows ReviewRunRecord :=
  let! resumed := resumeDisconnectedSubmissionRecoveryOn now in
  if resumed then requireRecord runId else throw notDisconnected.

Definition resumeDisconnectedPublication : tx run_rows ReviewRunRecord :=
  let! resumed := resumeDisconnectedOn now in
  if resumed then requireRecord runId else throw notDisconnected.

Definition giveUpDisconnectedPreparation (reason : string) : tx run_rows ReviewRunRecord :=
  let code := "PREPARATION_GIVEN_UP_BY_OPERATOR" in
  let! gaveUp := sql_update (λ p : prep_row, bool_decide (p_status p = Prep.disconnected))
    (λ p, p <| p_status := Prep.failed |> <| p_claim_token := None |>
            <| p_claimed_at := None |>
            <| p_failure_code := Some code |> <| p_failure_message := Some reason |>
            <| p_last_failure_code := Some code |> <| p_last_failure_message := Some reason |>
            <| p_finished_at := Some now |> <| p_disconnect_reason := None |>
            <| p_updated_at := now |>) in
  match gaveUp with
  | None => throw notDisconnected
  | Some _ =>
      let! eventId := appendEvent now preparation (Some "disconnected") "failed" (Some code) in
      queueRunNotice now eventId Notice.failure preparation (Some code) ;;;
      let! publicationFrom := abandonInFlightPublication now in
      appendPublicationAbandoned now publicationFrom ;;;
      requireRecord runId
  end.

Definition giveUpDisconnectedExecution (reason : string) : tx run_rows ReviewRunRecord :=
  let code := "SUBMISSION_RECOVERY_ABANDONED_BY_OPERATOR" in
  let! gaveUp := sql_update (λ e : exec_row, bool_decide (e_status e = Exec.disconnected))
    (λ e, e <| e_status := Exec.failed |> <| e_claim_token := None |>
            <| e_claimed_at := None |>
            <| e_failure_code := Some code |> <| e_failure_message := Some reason |>
            <| e_finished_at := Some (coalesce (e_finished_at e) now) |>
            <| e_observed_at := now |> <| e_updated_at := now |>) in
  match gaveUp with
  | None => throw notDisconnected
  | Some _ =>
      let! eventId := appendEvent now execution (Some "disconnected") "failed" (Some code) in
      queueRunNotice now eventId Notice.failure execution (Some code) ;;;
      let! publicationFrom := abandonInFlightPublication now in
      appendPublicationAbandoned now publicationFrom ;;;
      requireRecord runId
  end.

Definition giveUpDisconnectedPublication (reason : string) : tx run_rows ReviewRunRecord :=
  let code := "PUBLICATION_ABANDONED_BY_OPERATOR" in
  let! gaveUp := sql_update (λ u : pub_row, bool_decide (u_status u = Pub.disconnected))
    (λ u, u <| u_status := Pub.failed |> <| u_claim_token := None |>
            <| u_claimed_at := None |>
            <| u_failure_code := Some code |> <| u_failure_message := Some reason |>
            <| u_finished_at := Some (coalesce (u_finished_at u) now) |>
            <| u_updated_at := now |>) in
  match gaveUp with
  | None => throw notDisconnected
  | Some _ =>
      let! eventId := appendEvent now publication (Some "disconnected") "failed" (Some code) in
      queueRunNotice now eventId Notice.failure publication (Some code) ;;;
      requireRecord runId
  end.

(** The axis dispatch of [resumeDisconnectedRun] and [giveUpDisconnectedRun]: the
    record is read outside the deciding transaction. *)
Definition resume_choice (run : ReviewRunRecord) : option (tx run_rows ReviewRunRecord) :=
  if bool_decide (sum_status (rec_preparation run) = Prep.disconnected) then
    if bool_decide (sum_status (rec_execution run) = Exec.pending)
    then Some resumeDisconnectedPreparation else None
  else if bool_decide (sum_status (rec_execution run) = Exec.disconnected)
  then Some resumeDisconnectedExecution
  else if bool_decide (sum_status (rec_publication run) = Pub.disconnected)
  then Some resumeDisconnectedPublication
  else None.

Definition give_up_choice (reason : string) (run : ReviewRunRecord) :
    option (tx run_rows ReviewRunRecord) :=
  if bool_decide (sum_status (rec_preparation run) = Prep.disconnected)
  then Some (giveUpDisconnectedPreparation reason)
  else if bool_decide (sum_status (rec_execution run) = Exec.disconnected)
  then Some (giveUpDisconnectedExecution reason)
  else if bool_decide (sum_status (rec_publication run) = Pub.disconnected)
  then Some (giveUpDisconnectedPublication reason)
  else None.

(** [seen] are the rows the undecided read found; the decision runs on the rows as
    they are by then. *)
Definition decide_run (choice : ReviewRunRecord → option (tx run_rows ReviewRunRecord))
    (seen : run_rows) : tx run_rows ReviewRunRecord :=
  match rowToRecord runId seen with
  | None => throw (HttpStatus 404 "Review run does not exist")
  | Some (Err e) => throw e
  | Some (Ok run) => match choice run with
                     | Some m => m
                     | None => throw (HttpStatus 409 "no resumable disconnected axis")
                     end
  end.

Definition resumeDisconnectedRun (seen : run_rows) : tx run_rows ReviewRunRecord :=
  decide_run resume_choice seen.

Definition giveUpDisconnectedRun (reason : string) (seen : run_rows) :
    tx run_rows ReviewRunRecord :=
  if blank reason then throw (HttpStatus 400 "A reason is required.")
  else decide_run (give_up_choice reason) seen.
End OperatorDecisions.
