(* ===== verification/Admission.v ===== *)
(** Admission of a run aggregate (persistence/review-run-admission-store.ts): the
    trunk, the three axes, the initial preparation claim, the initial events, and
    ingress-key idempotency. *)

From S2P Require Import Prelude Schema Tables Database RunRecord.

Definition INGRESS_IDENTITY_CONSTRAINT : string :=
  "review_runs_connector_id_ingress_kind_ingress_key_key".

Record CreateReviewRunArgs := {
  a_run_id : string;
  a_workflow : string;
  a_publish_context : json;
  a_execution_input : option json;
  a_ingress_kind : option string;
  a_ingress_key : option string;
  a_preparation_input : option json;
  a_preparation_input_version : option string;
}.

Record ReviewRunAdmission := {
  ad_record : ReviewRunRecord;
  ad_created : bool;
  ad_preparation_token : option string;
}.

(** UNIQUE (connector_id, ingress_kind, ingress_key): NULLs are distinct. *)
Definition same_ingress (connector kind key : string) (t : run_rows) : bool :=
  match t_run t with
  | Some r => String.eqb (r_connector_id r) connector
              && sql_eq (r_ingress_kind r) kind && sql_eq (r_ingress_key r) key
  | None => false
  end.

Definition find_ingress (connector kind key : string) (d : db) : option (string * run_rows) :=
  List.find (λ kt, same_ingress connector kind key kt.2) (map_to_list (d_runs d)).

Section Admission.
Context (cfg : store_config) (now : Z).

Definition admitted_run (a : CreateReviewRunArgs) : run_row := {|
  r_connector_id := connector_id cfg; r_workflow := a_workflow a;
  r_source_platform := source_platform cfg; r_ingress_kind := a_ingress_kind a;
  r_ingress_key := a_ingress_key a; r_created_at := now |}.

Definition admitted_exec (a : CreateReviewRunArgs) : exec_row := {|
  e_status := Exec.pending; e_input := a_execution_input a; e_started_at := None;
  e_finished_at := None; e_failure_code := None; e_failure_message := None;
  e_artifact_storage := None; e_workflow_result := None; e_claim_token := None;
  e_claimed_at := None; e_attempt_count := 0; e_observed_at := now; e_updated_at := now |}.

Definition admitted_prep (a : CreateReviewRunArgs) (token : string) : prep_row := {|
  p_input_version := coalesce (a_preparation_input_version a) "direct-v1";
  p_input := coalesce (a_preparation_input a) (JObject []);
  p_status := Prep.preparing; p_available_at := now; p_claim_token := Some token;
  p_claimed_at := Some now; p_attempt_count := 1; p_failure_code := None;
  p_failure_message := None; p_last_failure_code := None; p_last_failure_message := None;
  p_started_at := Some now; p_finished_at := None; p_disconnect_reason := None;
  p_updated_at := now |}.

Definition admitted_pub (a : CreateReviewRunArgs) : pub_row := {|
  u_input := a_publish_context a; u_status := Pub.pending; u_claim_token := None;
  u_claimed_at := None; u_failure_code := None; u_failure_message := None;
  u_started_at := None; u_finished_at := None; u_updated_at := now |}.

(** The four INSERTs, on a run that has no rows yet. *)
Definition insert_aggregate (a : CreateReviewRunArgs) (token : string) : tx run_rows unit := λ t,
  if negb (run_check (admitted_run a)) then Err (CheckViolation "review_runs")
  else if negb (exec_check (admitted_exec a)) then Err (CheckViolation "executions")
  else if negb (prep_check (admitted_prep a token)) then Err (CheckViolation "preparations")
  else if negb (pub_check (admitted_pub a)) then Err (CheckViolation "publications")
  else Ok (tt, t <| t_run := Some (admitted_run a) |> <| t_exec := Some (admitted_exec a) |>
                 <| t_prep := Some (admitted_prep a token) |>
                 <| t_pub := Some (admitted_pub a) |>).

Definition admission_events : tx run_rows unit :=
  appendEvent now execution None "pending" None ;;;
  appendEvent now preparation None "preparing" None ;;;
  appendEvent now publication None "pending" None ;;;
  ret tt.

Definition ingress_taken (a : CreateReviewRunArgs) (d : db) : bool :=
  match a_ingress_kind a, a_ingress_key a with
  | Some kind, Some key => bool_decide (is_Some (find_ingress (connector_id cfg) kind key d))
  | _, _ => false
  end.

Definition read_admitted (a : CreateReviewRunArgs) (token : string) :
    tx run_rows ReviewRunAdmission :=
  let! record := findRunRecord (a_run_id a) in
  match record with
  | Some r => ret {| ad_record := r; ad_created := true; ad_preparation_token := Some token |}
  | None => throw (Thrown "Execution run was not persisted")
  end.

(** [insertWith]: the trunk's unique constraints, then the aggregate. *)
Definition insertWith (a : CreateReviewRunArgs) (token : string) : tx db ReviewRunAdmission :=
  λ d,
  if bool_decide (is_Some (d_runs d !! a_run_id a)) then Err (UniqueViolation "review_runs_pkey")
  else if ingress_taken a d then Err (UniqueViolation INGRESS_IDENTITY_CONSTRAINT)
  else in_run cfg (a_run_id a)
    (insert_aggregate a token ;;; admission_events ;;; read_admitted a token) d.

Definition create (a : CreateReviewRunArgs) (token : string) (d : db) :
    result ReviewRunAdmission * db :=
  transaction (insertWith a token) d.

(** The record of a replayed identity. *)
Definition replay (kt : string * run_rows) : result ReviewRunAdmission :=
  match rowToRecord kt.1 kt.2 with
  | Some (Ok r) => Ok {| ad_record := r; ad_created := false; ad_preparation_token := None |}
  | Some (Err e) => Err e
  | None => Err (Thrown "ingress replay lost a concurrent admission that rolled back")
  end.

(** [ReviewRunAdmissionStore.admit]: [seen] is what the SELECT ... FOR UPDATE read; the INSERT runs on the
    rows as they are by then, so a concurrent winner surfaces as a conflict on the
    ingress constraint, and is then read back. *)
Definition admitIngress (kind key : string) (a : CreateReviewRunArgs) (token : string)
    (seen d : db) : result ReviewRunAdmission * db :=
  match find_ingress (connector_id cfg) kind key seen with
  | Some kt => (replay kt, d)
  | None =>
      let a' := {| a_run_id := a_run_id a; a_workflow := a_workflow a;
                   a_publish_context := a_publish_context a;
                   a_execution_input := a_execution_input a;
                   a_ingress_kind := Some kind; a_ingress_key := Some key;
                   a_preparation_input := a_preparation_input a;
                   a_preparation_input_version := a_preparation_input_version a |} in
      match transaction (insertWith a' token) d with
      | (Err (UniqueViolation c), d') =>
          if String.eqb c INGRESS_IDENTITY_CONSTRAINT
          then match find_ingress (connector_id cfg) kind key d' with
               | Some kt => (replay kt, d')
               | None => (Err (Thrown "ingress replay lost a concurrent admission that rolled back"), d')
               end
          else (Err (UniqueViolation c), d')
      | outcome => outcome
      end
  end.
End Admission.
