(* ===== verification/Notices.v ===== *)
(** Delivery of run notices (persistence/run-notices.ts, [RunNoticeStore]). *)

From S2P Require Import Prelude Schema Tables Database.

Record RunNoticeWork := {
  nw_notice_id : Z;
  nw_run_id : string;
  nw_input : json;
  nw_kind : Notice.kind;
  nw_axis : axis;
  nw_reason_code : option string;
  nw_claim_token : string;
}.

(** [UPDATE run_notices SET ... WHERE notice_id=$1 AND ...] among the rows of a run. *)
Definition update_notice (notice_id : Z) (where_ : notice_row → bool)
    (set : notice_row → notice_row) : tx run_rows bool := λ t,
  match t_notices t !! notice_id with
  | Some n => if where_ n
              then if notice_check (set n)
                   then Ok (true, t <| t_notices ::= <[notice_id := set n]> |>)
                   else Err (CheckViolation "run_notices")
              else Ok (false, t)
  | None => Ok (false, t)
  end.

(** [status='delivering' AND claim_token=$token]. *)
Definition holds_notice (token : string) (n : notice_row) : bool :=
  bool_decide (n_status n = Notice.delivering) && sql_eq (n_claim_token n) token.

Section Notices.
Context (cfg : store_config) (now : Z).

Definition notice_claimable (n : notice_row) : bool :=
  bool_decide (n_status n = Notice.pending)
  || (bool_decide (n_status n = Notice.delivering)
      && lease_expired (n_claimed_at n) now (claim_timeout_ms cfg)).

(** The claimable notices of the connector, with the run that owns them. *)
Definition claimable_notices (locked : Z → bool) (d : db) :
    list (string * run_rows * (Z * notice_row)) :=
  List.filter (λ x, negb (locked x.2.1) && notice_claimable x.2.2)
    (mjoin ((λ kt, (λ n, (kt, n)) <$> map_to_list (t_notices kt.2)) <$>
              select_runs cfg (λ _, false) (λ _, true) d)).

(** ORDER BY updated_at, run_id. *)
Definition notice_order (x y : string * run_rows * (Z * notice_row)) : bool :=
  (n_updated_at x.2.2 <? n_updated_at y.2.2)
  || ((n_updated_at x.2.2 =? n_updated_at y.2.2) && String.leb x.1.1 y.1.1).

Definition claimNotice (runId : string) (notice_id : Z) (seen : notice_row) (token : string) :
    tx run_rows (option RunNoticeWork) :=
  let! prep := read t_prep in
  let! claimed := update_notice notice_id
    (λ n, bool_decide (n_status n = n_status seen) && notice_claimable n)
    (λ n, n <| n_status := Notice.delivering |> <| n_claim_token := Some token |>
            <| n_claimed_at := Some now |> <| n_updated_at := now |>) in
  if negb claimed then throw (Thrown "Run notice could not be claimed.")
  else ret (Some {| nw_notice_id := notice_id; nw_run_id := runId;
                    nw_input := match prep with Some p => p_input p | None => JObject [] end;
                    nw_kind := n_kind seen; nw_axis := n_axis seen;
                    nw_reason_code := n_reason_code seen; nw_claim_token := token |}).

Definition claimNextNotice (locked : Z → bool) (token : string) :
    tx db (option RunNoticeWork) :=
  let! candidate := read (λ d, first_by notice_order (claimable_notices locked d)) in
  match candidate with
  | None => ret None
  | Some (runId, _, (notice_id, n)) => in_run cfg runId (claimNotice runId notice_id n token)
  end.

(** [complete]: a delivery carries the comment URL, a failed one must not. *)
Definition completeNotice (notice_id : Z) (token : string) (delivered : bool)
    (commentUrl : option string) : tx run_rows bool :=
  if delivered && is_null commentUrl
  then throw (Thrown "Run notice cannot be delivered without a comment_url.")
  else if negb delivered && not_null commentUrl
  then throw (Thrown "Run notice cannot carry a comment_url when delivery failed.")
  else update_notice notice_id (holds_notice token)
    (λ n, n <| n_status := if delivered then Notice.delivered else Notice.failed |>
            <| n_claim_token := None |> <| n_claimed_at := None |>
            <| n_comment_url := commentUrl |> <| n_updated_at := now |>).

Definition renewNoticeClaim (notice_id : Z) (token : string) : tx run_rows bool :=
  update_notice notice_id (holds_notice token)
    (λ n, n <| n_claimed_at := Some now |> <| n_updated_at := now |>).

Definition noticeHeartbeatIntervalMs : Z :=
  Z.max 1 (Z.min 60000 (claim_timeout_ms cfg / 3)).
End Notices.
