(* ===== verification/Queries.v ===== *)
(** The coordination queues and single-run read of the read model
    (persistence/review-run-queries.ts). *)

From S2P Require Import Prelude Schema Tables Database RunRecord ExecutionStore.

Record DroppedRunRow := { dr_run_id : string; dr_error : failure }.

Record RunRowsProjection := {
  pr_runs : list ReviewRunRecord;
  pr_dropped : list DroppedRunRow;
}.

(** [projectRunRows]: a row that cannot be represented is reported, not fatal. *)
Fixpoint projectRunRows (rows : list (string * run_rows)) : RunRowsProjection :=
  match rows with
  | [] => {| pr_runs := []; pr_dropped := [] |}
  | (runId, t) :: rest =>
      let p := projectRunRows rest in
      match rowToRecord runId t with
      | Some (Ok r) => {| pr_runs := r :: pr_runs p; pr_dropped := pr_dropped p |}
      | Some (Err e) => {| pr_runs := pr_runs p;
                           pr_dropped := {| dr_run_id := runId; dr_error := e |} :: pr_dropped p |}
      | None => p
      end
  end.

Record ParkedRun := {
  pk_run_id : string;
  pk_axis : axis;
  pk_reason : option string;
  pk_parked_at : Z;
}.

Section Queries.
Context (cfg : store_config) (now : Z).

Definition runExists (runId : string) (d : db) : bool :=
  not_null (t_run (scope (connector_id cfg) runId d)).

(** [getRun]: corruption goes to [onDroppedRunRow] and reads as no run. *)
Definition getRun (runId : string) (d : db) :
    option ReviewRunRecord * list DroppedRunRow :=
  match rowToRecord runId (scope (connector_id cfg) runId d) with
  | None => (None, [])
  | Some (Ok r) => (Some r, [])
  | Some (Err e) => (None, [{| dr_run_id := runId; dr_error := e |}])
  end.

Definition exec_updated_at (t : run_rows) : Z :=
  match t_exec t with Some e => e_updated_at e | None => 0 end.

(** ORDER BY e.updated_at. *)
Definition by_exec_updated (x y : string * run_rows) : bool :=
  exec_updated_at x.2 <=? exec_updated_at y.2.

Definition recoverable (t : run_rows) : bool :=
  match t_exec t with Some e => recovery_claimable cfg now e | None => false end.

Definition listSubmissionRecoveries (d : db) : RunRowsProjection :=
  projectRunRows (sort_by by_exec_updated (select_runs cfg (λ _, false) recoverable d)).

Definition active (t : run_rows) : bool :=
  match t_exec t with Some e => exec_active e | None => false end.

Definition listActiveRuns (d : db) : RunRowsProjection :=
  projectRunRows (sort_by by_exec_updated (select_runs cfg (λ _, false) active d)).

(** The latest event that disconnected an axis, else the row's own mtime. *)
Definition parked_at (a : axis) (updated_at : Z) (t : run_rows) : Z :=
  coalesce (foldr (λ e acc, match acc with
                  | Some m => Some (Z.max m (ev_at e))
                  | None => Some (ev_at e)
                  end) None
    (List.filter (λ e, bool_decide (ev_axis e = a) && String.eqb (ev_to e) "disconnected")
       (t_events t))) updated_at.

Definition parked_of_run (kt : string * run_rows) : list ParkedRun :=
  let (runId, t) := kt in
  match t_prep t with
  | Some p => if bool_decide (p_status p = Prep.disconnected)
              then [{| pk_run_id := runId; pk_axis := preparation;
                       pk_reason := p_disconnect_reason p;
                       pk_parked_at := parked_at preparation (p_updated_at p) t |}] else []
  | None => []
  end
  ++ match t_exec t with
     | Some e => if bool_decide (e_status e = Exec.disconnected)
                 then [{| pk_run_id := runId; pk_axis := execution;
                          pk_reason := Some "SUBMISSION_RECOVERY_EXHAUSTED";
                          pk_parked_at := parked_at execution (e_updated_at e) t |}] else []
     | None => []
     end
  ++ match t_pub t with
     | Some u => if bool_decide (u_status u = Pub.disconnected)
                 then [{| pk_run_id := runId; pk_axis := publication;
                          pk_reason := Some "PUBLICATION_RECONCILIATION_EXHAUSTED";
                          pk_parked_at := parked_at publication (u_updated_at u) t |}] else []
     | None => []
     end.

(** ORDER BY parked_at, run_id. *)
Definition parked_le (x y : ParkedRun) : bool :=
  (pk_parked_at x <? pk_parked_at y)
  || ((pk_parked_at x =? pk_parked_at y) && String.leb (pk_run_id x) (pk_run_id y)).

Definition listParkedRuns (d : db) : list ParkedRun :=
  sort_by parked_le
    (mjoin (parked_of_run <$> select_runs cfg (λ _, false) (λ _, true) d)).
End Queries.
