(* ===== verification/Runtime.v ===== *)
(** The worker routines around the stores (runtime/prepared-submission.ts,
    runtime/submission-recovery.ts, runtime/terminal-coordination.ts,
    runtime/coordinator.ts).

    A routine is several transactions with calls to the Execution service between
    them.  [env i] is whatever other workers commit to the run before the routine's
    [i]-th transaction, [now i] the time of that transaction, and the answers of the
    Execution service are arguments. *)

From S2P Require Import Prelude Schema Tables Database RunRecord PreparationStore.
From S2P Require Import ExecutionStore InputBundles SubmissionTransitions Queries.

(** What a catch block can read off a thrown value. *)
Record caught := {
  caught_uncertain : bool;  (** [instanceof ExecutionSubmissionUncertainError] *)
  caught_code : option string;
  caught_message : string;
}.

Section Process.
Context (cfg : store_config) (now : nat → Z) (env : nat → run_rows → run_rows).
(** How a failed transaction looks to JavaScript: the driver's errors are its own. *)
Context (thrown : failure → caught).

Definition call {A} (i : nat) (m : Z → tx run_rows A) (t : run_rows) : result A * run_rows :=
  transaction (m (now i)) (env i t).

(** ** prepared-submission.ts *)

Inductive submit_answer :=
  | Accepted
  | Refused (error : caught).

Inductive submitted :=
  | Queued (workflow : string)
  | RunNotFound
  | SubmissionThrew (error : caught).

(** The error the cleanup records. *)
Definition submission_error (executionAccepted : bool) (e : caught) : error_info := {|
  err_code := Some (if executionAccepted || caught_uncertain e
                    then SUBMISSION_STATE_UNCERTAIN
                    else coalesce (caught_code e) "REVIEW_START_FAILED");
  err_message := caught_message e |}.

(** The catch block: best-effort cleanup, then the original error. *)
Definition abandonSubmission (token : string) (submissionStarted executionAccepted : bool)
    (e : caught) (t : run_rows) : submitted * run_rows :=
  (SubmissionThrew e,
   (call 2 (λ n, fail n token (submission_error executionAccepted e) (negb submissionStarted) 0)
      t).2).

Definition submitPreparedRun (runId token : string) (context input : json)
    (submit : string → json → submit_answer) (t : run_rows) : submitted * run_rows :=
  match rowToRecord runId t with
  | None | Some (Err _) => (RunNotFound, t)
  | Some (Ok run) =>
      let (saved, t1) := call 0 (λ n, savePreparedSubmission cfg n token context input) t in
      match saved with
      | Err f => abandonSubmission token false false (thrown f) t1
      | Ok _ =>
          match submit (rec_workflow run) input with
          | Refused e => abandonSubmission token true false e t1
          | Accepted =>
              let (queued, t2) := call 1 (λ n, markQueued n token context) t1 in
              match queued with
              | Err f => abandonSubmission token true true (thrown f) t2
              | Ok _ => (Queued (rec_workflow run), t2)
              end
          end
      end
  end.

(** ** submission-recovery.ts *)

Definition MAX_SUBMISSION_RECOVERY_ATTEMPTS : Z := 8.

Inductive recovery_result :=
  | ClaimUnavailable | InputMissing | Recovered | ClaimLost | Deferred | Disconnected
  | RecoveryFailed | RecoveryThrew (f : failure).

(** A store call whose answer the routine ignores, then [k]. *)
Definition then_ {A} (r : result A * run_rows) (k : A → recovery_result) :
    recovery_result * run_rows :=
  match r with
  | (Ok a, t) => (k a, t)
  | (Err f, t) => (RecoveryThrew f, t)
  end.

(** [classifyError] as the server builds it. *)
Definition classified (e : caught) : error_info := submission_error false e.

Definition missing_input_error : error_info := {|
  err_code := Some "SUBMISSION_RECOVERY_INPUT_MISSING";
  err_message := "The persisted Execution input is missing; this submission cannot be recovered." |}.

(** A throwing [completeSubmissionRecovery] is inside the try: it is classified like
    an answer of the Execution service. *)
Definition settleRefusal (token : string) (e : caught) (t : run_rows) :
    recovery_result * run_rows :=
  if caught_uncertain e
  then then_ (call 2 (λ n, recordUnknownRecoveryOutcome n token) t) (λ _, Deferred)
  else then_ (call 2 (λ n, failSubmissionRecovery n token (classified e)) t)
         (λ _, RecoveryFailed).

Definition recoverReviewRunSubmission (token : string) (run : ReviewRunRecord)
    (submit : string → json → submit_answer) (t : run_rows) : recovery_result * run_rows :=
  let (claimed, t1) := call 0 (λ n, claimSubmissionRecovery cfg n token) t in
  match claimed with
  | Err f => (RecoveryThrew f, t1)
  | Ok None => (ClaimUnavailable, t1)
  | Ok (Some claimToken) =>
      match rec_execution_input run with
      | None =>
          then_ (call 1 (λ n, failSubmissionRecovery n claimToken missing_input_error) t1)
            (λ _, InputMissing)
      | Some input =>
          match submit (rec_workflow run) input with
          | Refused e => settleRefusal claimToken e t1
          | Accepted =>
              let (completed, t2) := call 1 (λ n, completeSubmissionRecovery n claimToken) t1 in
              match completed with
              | Ok true => (Recovered, t2)
              | Ok false => (ClaimLost, t2)
              | Err f => settleRefusal claimToken (thrown f) t2
              end
          end
      end
  end.

Definition concludeExhaustedSubmissionRecovery (t : run_rows) :
    option recovery_result * run_rows :=
  match e_attempt_count <$> t_exec (env 0 t) with
  | None => (None, env 0 t)
  | Some attempts =>
      if attempts <? MAX_SUBMISSION_RECOVERY_ATTEMPTS then (None, env 0 t)
      else let (r, t1) := call 1 (λ n, disconnectExhaustedSubmissionRecovery cfg n
                                         MAX_SUBMISSION_RECOVERY_ATTEMPTS) (env 0 t) in
           match r with
           | Ok true => (Some Disconnected, t1)
           | Ok false => (None, t1)
           | Err f => (Some (RecoveryThrew f), t1)
           end
  end.

(** ** terminal-coordination.ts *)

(** An Execution status as the client validated it.  [st_result] is the own
    property [result]; [st_error] the optional error with its optional fields. *)
Record execution_status := {
  st_status : string;
  st_error : option (option string * option string);
  st_storage : option artifact_storage;
  st_result : option json;
}.

(** [errorInfo]. *)
Definition errorInfo (e : caught) : error_info := {|
  err_code := Some (coalesce (caught_code e) "EXECUTION_FAILED");
  err_message := caught_message e |}.

Inductive observation := Active | Succeeded | Failed | PollRetry | ObservationThrew (f : failure).

Inductive observation_event_kind := PollRetryEvent | StateChanged | TerminalRecorded.
Record observation_event := {
  oe_kind : observation_event_kind;
  oe_from : Exec.status;
  oe_to : observation;
  oe_error_code : option string;
}.

Definition failure_of_status (runId : string) (s : execution_status) : error_info :=
  match st_error s with
  | None => {| err_code := Some "EXECUTION_FAILED";
               err_message := "Execution run failed without an error: " +:+ runId |}
  | Some (code, message) => {| err_code := Some (coalesce code "EXECUTION_FAILED");
                               err_message := coalesce message "Execution failed." |}
  end.

(** [answer] is what [getStatus] returned or threw, with the verdict of
    [isTerminalPollingError] on the error. *)
Definition observeExecutionRun (run : ReviewRunRecord)
    (answer : execution_status + (caught * bool)) (t : run_rows) :
    observation * option observation_event * run_rows :=
  let event kind to code := Some {| oe_kind := kind; oe_from := sum_status (rec_execution run);
                                    oe_to := to; oe_error_code := code |} in
  match answer with
  | inr (e, terminal) =>
      if negb terminal then (PollRetry, event PollRetryEvent PollRetry None, t)
      else match call 0 (λ n, failExecution n (errorInfo e) None) t with
           | (Ok _, t1) => (Failed, event TerminalRecorded Failed (err_code (errorInfo e)), t1)
           | (Err f, t1) => (ObservationThrew f, None, t1)
           end
  | inl s =>
      if String.eqb (st_status s) "running" then
        match call 0 markRunning t with
        | (Err f, t1) => (ObservationThrew f, None, t1)
        | (Ok true, t1) => (Active, event StateChanged Active None, t1)
        | (Ok false, t1) =>
            match call 1 touchObservation t1 with
            | (Ok _, t2) => (Active, None, t2)
            | (Err f, t2) => (ObservationThrew f, None, t2)
            end
        end
      else if negb (String.eqb (st_status s) "succeeded") && negb (String.eqb (st_status s) "failed")
      then match call 0 touchObservation t with
           | (Ok _, t1) => (Active, None, t1)
           | (Err f, t1) => (ObservationThrew f, None, t1)
           end
      else if String.eqb (st_status s) "failed" then
        match call 0 (λ n, failExecution n (failure_of_status (rec_run_id run) s) (st_storage s)) t with
        | (Err f, t1) => (ObservationThrew f, None, t1)
        | (Ok false, t1) => (Failed, None, t1)
        | (Ok true, t1) =>
            (Failed, event TerminalRecorded Failed
               (Some (coalesce (st_error s ≫= fst) "EXECUTION_FAILED")), t1)
        end
      else match st_result s with
           | None =>
               match call 0 (λ n, failExecution n
                 {| err_code := Some "EXECUTION_RESULT_MISSING";
                    err_message := "Execution succeeded without a workflow result." |} None) t with
               | (Err f, t1) => (ObservationThrew f, None, t1)
               | (Ok _, t1) =>
                   (Failed, event TerminalRecorded Failed (Some "EXECUTION_RESULT_MISSING"), t1)
               end
           | Some result =>
               match call 0 (λ n, recordExecutionSuccess n (Some result) (st_storage s)) t with
               | (Err f, t1) => (ObservationThrew f, None, t1)
               | (Ok false, t1) => (Succeeded, None, t1)
               | (Ok true, t1) => (Succeeded, event TerminalRecorded Succeeded None, t1)
               end
           end
  end.
End Process.

(** The [recoverSubmission] handler the server gives to a coordination pass
    (runtime/server-runtime.ts): park an exhausted recovery, else try once more. *)
Definition recoverSubmission (cfg : store_config) (now : nat → Z) (env : nat → run_rows → run_rows)
    (thrown : failure → caught) (token : string) (run : ReviewRunRecord)
    (submit : string → json → submit_answer) (t : run_rows) : recovery_result * run_rows :=
  match concludeExhaustedSubmissionRecovery cfg now env t with
  | (Some exhausted, t1) => (exhausted, t1)
  | (None, t1) => recoverReviewRunSubmission cfg (λ i, now (2 + i)%nat) (λ i, env (2 + i)%nat)
                    thrown token run submit t1
  end.

(** ** coordinator.ts *)

(** One report of a coordination pass. *)
Inductive report :=
  | Blocked (runId reason : string)
  | DroppedRow (dropped : DroppedRunRow)
  | RecoveredRun (runId : string)
  | ObservedRun (runId : string).

Section Coordinator.
Context (cfg : store_config) (now : Z) (locked : string → bool).
(** The handlers; an exception that escapes one of them ends the pass. *)
Context (recoverSubmission : ReviewRunRecord → db → result unit * db).
Context (readExecutionStatuses : list ReviewRunRecord → result (string → option string)).
Context (observeActiveRun : ReviewRunRecord → (string → option string) → db → result unit * db).

Fixpoint for_each (mark : string → report) (handler : ReviewRunRecord → db → result unit * db)
    (runs : list ReviewRunRecord) (acc : list report) (d : db) :
    result (list report) * db :=
  match runs with
  | [] => (Ok acc, d)
  | run :: rest =>
      match handler run d with
      | (Ok _, d') => for_each mark handler rest (acc ++ [mark (rec_run_id run)]) d'
      | (Err e, d') => (Err e, d')
      end
  end.

Definition coordinateReviewRunsOnce (d : db) : result (list report) * db :=
  match transaction (expireStale cfg now locked) d with
  | (Err e, d1) => (Err e, d1)
  | (Ok expiry, d1) =>
      let recoveries := listSubmissionRecoveries cfg now d1 in
      let reports := ((λ b, Blocked b.1 b.2) <$> blocked expiry)
                     ++ (DroppedRow <$> pr_dropped recoveries) in
      match for_each RecoveredRun recoverSubmission (pr_runs recoveries) reports d1 with
      | (Err e, d2) => (Err e, d2)
      | (Ok reports2, d2) =>
          let active := listActiveRuns cfg d2 in
          let reports3 := reports2 ++ (DroppedRow <$> pr_dropped active) in
          match pr_runs active with
          | [] => (Ok reports3, d2)
          | runs =>
              match readExecutionStatuses runs with
              | Err e => (Err e, d2)
              | Ok statuses =>
                  for_each ObservedRun (λ run, observeActiveRun run statuses) runs reports3 d2
              end
          end
      end
  end.
End Coordinator.

(** The polling loop: at most one pass at a time, drained on stop. *)
Record loop_state := { lp_stopped : bool; lp_active : bool }.

Inductive loop_event := Tick | PassEnds | Stop.

(** The new state, and whether [runOnce] was called. *)
Definition loop_step (s : loop_state) (e : loop_event) : loop_state * bool :=
  match e with
  | Tick => if lp_stopped s || lp_active s then (s, false)
            else ({| lp_stopped := false; lp_active := true |}, true)
  | PassEnds => ({| lp_stopped := lp_stopped s; lp_active := false |}, false)
  | Stop => ({| lp_stopped := true; lp_active := lp_active s |}, false)
  end.

Fixpoint loop_run (s : loop_state) (es : list loop_event) : loop_state * Z :=
  match es with
  | [] => (s, 0)
  | e :: rest => let (s', started) := loop_step s e in
                 let (s'', n) := loop_run s' rest in
                 (s'', n + if started then 1 else 0)
  end.
