(* ===== verification/ConnectorErrors.v ===== *)
(** How a failure of the store reaches the GitHub connector, and what the connector makes of
    it: the error handler of the HTTP surface (services/review-runs, http/server-surface.ts),
    the client's error (apps/github-integration, review-runs/client.ts) and the
    classification of publication failures (review-runs/publication-failure.ts). *)

From S2P Require Import Prelude Schema Tables PublicationStore.

(** * The HTTP surface *)

(** The part of an error response a caller can classify by. *)
Record http_reply := { http_status : Z; http_code : option string }.

(** ERROR_RESPONSE_CODES_FROM_CONTRACT. *)
Definition errorCodeEnum : list string :=
  ["INVALID_BODY"; "INVALID_PATH_PARAMETER"; "INVALID_QUERY"; not_claimable; retry_exhausted;
   set_changed; set_duplicate].

(** The SQLSTATE the driver puts on a constraint violation. *)
Definition sqlstate (f : failure) : option string :=
  match f with
  | CheckViolation _ => Some "23514"
  | ForeignKeyViolation _ => Some "23503"
  | UniqueViolation _ => Some "23505"
  | NumericOutOfRange _ => Some "22003"
  | _ => None
  end.

(** What the handler reads off a thrown value. *)
Record surface_error := {
  se_deterministic : option string; (** the code, of a DeterministicReviewRunError *)
  se_name : string;
  se_code : option string;
  se_status_code : option Z;
  se_validation_context : option string;
}.

Definition has_code (e : surface_error) (code : string) : bool := opt_eqb (se_code e) (Some code).

(** [setErrorHandler], without the text of the message. *)
Definition errorHandler (e : surface_error) : http_reply :=
  match se_deterministic e with
  | Some code => {| http_status := 409; http_code := Some code |}
  | None =>
      if String.eqb (se_name e) "Unauthorized" then {| http_status := 401; http_code := None |}
      else if has_code e "22007" || has_code e "22008"
      then {| http_status := 400; http_code := Some "INVALID_QUERY" |}
      else if has_code e "FST_ERR_CTP_BODY_TOO_LARGE" then {| http_status := 413; http_code := None |}
      else if has_code e "FST_ERR_CTP_INVALID_JSON_BODY"
      then {| http_status := 400; http_code := Some "INVALID_BODY" |}
      else if has_code e "FST_ERR_VALIDATION"
      then {| http_status := 400;
              http_code := Some (if opt_eqb (se_validation_context e) (Some "body") then "INVALID_BODY"
                                 else if opt_eqb (se_validation_context e) (Some "params")
                                 then "INVALID_PATH_PARAMETER" else "INVALID_QUERY") |}
      else {| http_status := coalesce (se_status_code e) 500;
              http_code := match se_code e with
                           | Some code => if bool_decide (code ∈ errorCodeEnum) then Some code else None
                           | None => None
                           end |}
  end.

(** The error a store method throws for a failure. *)
Definition thrown_by_store (f : failure) : surface_error := {|
  se_deterministic := match f with Deterministic code => Some code | _ => None end;
  se_name := "Error";
  se_code := sqlstate f;
  se_status_code := match f with HttpStatus n _ => Some n | _ => None end;
  se_validation_context := None |}.

Definition error_reply (f : failure) : http_reply := errorHandler (thrown_by_store f).

(** * Errors in the connector *)

(** What the connector's code reads off a thrown value: whether it is a
    PublicationClaimLostError, whether it is a DeterministicExecutionPublishError, and the
    fields [errorCode] and [asErrorWithResponse] look at. *)
Record thrown_error := {
  te_claim_lost : bool;
  te_deterministic : bool;
  te_code : option string;
  te_status : option Z;
  te_message : string;
  te_retry_after : option string;
  te_rate_remaining : option string;
  te_response_message : option string;
}.

(** PublicationClaimLostError. *)
Definition claim_lost_error (runId : string) : thrown_error := {|
  te_claim_lost := true; te_deterministic := false; te_code := None; te_status := None;
  te_message := "Publication claim is no longer provably owned for review run " +:+ runId +:+ ".";
  te_retry_after := None; te_rate_remaining := None; te_response_message := None |}.

(** The error [HttpReviewRunsClient.request] throws for a reply that is not ok. *)
Definition client_error (message : string) (r : http_reply) : thrown_error := {|
  te_claim_lost := false; te_deterministic := false; te_code := http_code r;
  te_status := Some (http_status r); te_message := message;
  te_retry_after := None; te_rate_remaining := None; te_response_message := None |}.

(** [toLowerCase], for the ASCII letters: the others whose lower case has an ASCII letter in it
    (the Kelvin sign, the dotted I) complete none of the words that are searched for. *)
Definition lower_ascii (a : Ascii.ascii) : Ascii.ascii :=
  let n := Ascii.N_of_ascii a in
  if ((65 <=? n) && (n <=? 90))%N then Ascii.ascii_of_N (n + 32)%N else a.

Fixpoint toLowerCase (s : string) : string :=
  match s with
  | EmptyString => EmptyString
  | String a s' => String (lower_ascii a) (toLowerCase s')
  end.

(** [s.includes(sub)]. *)
Fixpoint includes (sub s : string) : bool :=
  String.prefix sub s || match s with EmptyString => false | String _ s' => includes sub s' end.

Definition isRateLimitOrAbuseLimit (e : thrown_error) : bool :=
  let message := toLowerCase (te_message e +:+ " " +:+ coalesce (te_response_message e) "") in
  not_null (te_retry_after e)
  || opt_eqb (te_rate_remaining e) (Some "0")
  || includes "rate limit" message || includes "abuse" message.

(** ** publication-failure.ts *)

Inductive failure_scope := StepScope | PublicationScope.

Record classification := {
  cl_retry : bool;
  cl_scope : failure_scope;
  cl_code : option string;
  cl_reason : string;
}.

Definition DETERMINISTIC_REVIEW_RUNS_PUBLICATION_CODES : list string :=
  [set_duplicate; set_changed; not_claimable].

Definition isTransportFault (e : thrown_error) : bool :=
  match te_status e with None => true | Some n => 500 <=? n end.

Definition isPublicationStepExhausted (e : thrown_error) : bool :=
  opt_eqb (te_code e) (Some retry_exhausted).

Definition classifyPublicationFailure (e : thrown_error) : classification :=
  if te_deterministic e then
    {| cl_retry := false; cl_scope := StepScope; cl_code := te_code e;
       cl_reason := "deterministic-publish-result" |}
  else if isPublicationStepExhausted e then
    let retry := isTransportFault e in
    {| cl_retry := retry; cl_scope := if retry then PublicationScope else StepScope;
       cl_code := te_code e; cl_reason := "publication-step-retry-exhausted" |}
  else if match te_code e with
          | Some code => bool_decide (code ∈ DETERMINISTIC_REVIEW_RUNS_PUBLICATION_CODES)
          | None => false
          end then
    {| cl_retry := false; cl_scope := StepScope; cl_code := te_code e;
       cl_reason := "review-runs-deterministic-publication-fault" |}
  else match te_status e with
  | None => {| cl_retry := true; cl_scope := PublicationScope; cl_code := te_code e;
               cl_reason := "unknown-publish-error" |}
  | Some status =>
      if (500 <=? status) || (status =? 408) || (status =? 409) || (status =? 429) then
        {| cl_retry := true; cl_scope := PublicationScope; cl_code := te_code e;
           cl_reason := "github-transient-response" |}
      else if (status =? 403) && isRateLimitOrAbuseLimit e then
        {| cl_retry := true; cl_scope := PublicationScope; cl_code := te_code e;
           cl_reason := "github-rate-limited" |}
      else if (status =? 401) || (status =? 403) then
        {| cl_retry := false; cl_scope := PublicationScope;
           cl_code := Some (coalesce (te_code e) "GITHUB_AUTH_REJECTED");
           cl_reason := "github-auth-rejected" |}
      else if status =? 404 then
        {| cl_retry := false; cl_scope := StepScope;
           cl_code := Some (coalesce (te_code e) "GITHUB_NOT_FOUND");
           cl_reason := "github-not-found" |}
      else if status =? 422 then
        {| cl_retry := false; cl_scope := StepScope;
           cl_code := Some (coalesce (te_code e) "GITHUB_VALIDATION_REJECTED");
           cl_reason := "github-validation-rejected" |}
      else if (400 <=? status) && (status <? 500) then
        {| cl_retry := false; cl_scope := StepScope;
           cl_code := Some (coalesce (te_code e) "GITHUB_PUBLISH_REJECTED");
           cl_reason := "github-deterministic-response" |}
      else
        {| cl_retry := true; cl_scope := PublicationScope; cl_code := te_code e;
           cl_reason := "github-unclassified-response" |}
  end.
