(* ===== verification/ConnectorSteps.v ===== *)
(** The publication steps as the GitHub connector drives them (apps/github-integration:
    reviews/shared/publication-step.ts, reviews/shared/settle-exhausted-step.ts, the
    delivery steps of reviews/repositories/publish.ts) and the pass around them
    (review-runs/publication-coordinator.ts).

    Every store call crosses the network.  [now i] is the time of the [i]-th call of a
    routine, [env i] what other workers commit before it, and [net i] what the network
    does to it; what GitHub answers is an argument.  [lost] is the flag of the heartbeat. *)

From S2P Require Import Prelude Schema Tables Database RunRecord PreparationStore.
From S2P Require Import PublicationStore ConnectorErrors.

(** What becomes of one request. *)
Inductive transport :=
  | Delivered
  | RequestLost (error : thrown_error)   (** the service never saw it *)
  | ResponseLost (error : thrown_error). (** it was served, the answer did not arrive *)

(** What the connector does on GitHub. *)
Inductive remote_action := Looked | Acted.

(** An exception, or a value. *)
Definition outcome_of (A : Type) : Type := A + thrown_error.

Record step_run := {
  sr_remote : remote_object;
  sr_already_succeeded : bool;
  sr_reconciled : bool;
  sr_previous_attempts : Z;
}.

(** SettleExhaustedOutcome. *)
Inductive settled := RecordedSuccess (remote : remote_object) | RecordedFailure | NotOwned.

Section Protocol.
Context (now : nat → Z) (env : nat → run_rows → run_rows) (net : nat → transport).
(** The text of an error envelope. *)
Context (message_of : failure → string).

Definition served (f : failure) : thrown_error := client_error (message_of f) (error_reply f).

(** One request of the client. *)
Definition request {A} (i : nat) (m : Z → run_rows → result A * run_rows) (t : run_rows) :
    outcome_of A * run_rows :=
  let t1 := env i t in
  match net i with
  | RequestLost e => (inr e, t1)
  | Delivered => match m (now i) t1 with
                 | (Ok a, t2) => (inl a, t2)
                 | (Err f, t2) => (inr (served f), t2)
                 end
  | ResponseLost e => (inr e, (m (now i) t1).2)
  end.

(** A handler that is one transaction. *)
Definition serve {A} (m : Z → tx run_rows A) : Z → run_rows → result A * run_rows :=
  λ n, transaction (m n).

(** [listInternalPublicationSteps]: 404 without a run, as [getRun] reads it, then the steps. *)
Definition list_steps (runId : string) (n : Z) (t : run_rows) :
    result (list (string * step_row)) * run_rows :=
  match rowToRecord runId t with
  | Some (Ok _) => transaction listPublicationSteps t
  | _ => (Err (HttpStatus 404 "run_not_found"), t)
  end.

(** ** The heartbeat *)

(** [renewSerially]: ownership that was ever uncertain stays lost. *)
Definition renewSerially (i : nat) (runId token : string) (lost : bool) (t : run_rows) :
    outcome_of unit * (bool * run_rows) :=
  if lost then (inr (claim_lost_error runId), (true, t))
  else match request i (serve (λ n, renewPublicationClaim n token)) t with
       | (inl true, t1) => (inl tt, (false, t1))
       | (_, t1) => (inr (claim_lost_error runId), (true, t1))
       end.

(** ** settle-exhausted-step.ts *)

Definition settleExhaustedStep (i : nat) (token stepKey : string)
    (find : outcome_of (option remote_object)) (t : run_rows) : outcome_of settled * run_rows :=
  match find with
  | inr e => (inr e, t)
  | inl found =>
      match request i (serve (λ n, settleExhaustedPublicationStep n token stepKey found)) t with
      | (inr e, t1) => (inr e, t1)
      | (inl false, t1) => (inl NotOwned, t1)
      | (inl true, t1) => (inl match found with
                               | None => RecordedFailure
                               | Some remote => RecordedSuccess remote
                               end, t1)
      end
  end.

(** ** publication-step.ts *)

(** The catch block around the effect. *)
Definition fail_attempt (i : nat) (token stepKey : string) (e : thrown_error) (t : run_rows) :
    outcome_of step_run * run_rows :=
  if te_claim_lost e then (inr e, t)
  else let failure := classifyPublicationFailure e in
       match request i (serve (λ n, failPublicationStep n token stepKey
               {| err_code := cl_code failure; err_message := te_message e |}
               (Some (cl_retry failure)))) t with
       | (inl _, t1) => (inr e, t1)
       | (inr e', t1) => (inr e', t1)
       end.

(** The attempt itself, after the step was claimed: the claim is asserted, the effect is
    performed, its completion recorded. *)
Definition attempt_step (runId token stepKey : string) (previous : Z)
    (effect : outcome_of (option remote_object)) (lost : bool) (t : run_rows) :
    outcome_of step_run * list remote_action * (bool * run_rows) :=
  match renewSerially 2 runId token lost t with
  | (inr e, (lost1, t1)) => let (r, t2) := fail_attempt 4 token stepKey e t1 in (r, [], (lost1, t2))
  | (inl _, (lost1, t1)) =>
      match effect with
      | inr e => let (r, t2) := fail_attempt 4 token stepKey e t1 in (r, [Acted], (lost1, t2))
      | inl created =>
          let remote := coalesce created {| remote_id := None; remote_url := None |} in
          match request 3 (serve (λ n, completePublicationStep n token stepKey remote)) t1 with
          | (inl true, t2) =>
              (inl {| sr_remote := remote; sr_already_succeeded := false;
                      sr_reconciled := false; sr_previous_attempts := previous |},
               [Acted], (lost1, t2))
          | (inl false, t2) =>
              let (r, t3) := fail_attempt 4 token stepKey (claim_lost_error runId) t2 in
              (r, [Acted], (lost1, t3))
          | (inr e, t2) =>
              let (r, t3) := fail_attempt 4 token stepKey e t2 in (r, [Acted], (lost1, t3))
          end
      end
  end.

(** The claim, and what an exhausted one becomes. *)
Definition claim_and_run (runId token stepKey : string) (previous : Z)
    (find effect : outcome_of (option remote_object)) (lost : bool) (t : run_rows) :
    outcome_of step_run * list remote_action * (bool * run_rows) :=
  match request 1 (λ n, requirePublicationStepClaim n token stepKey) t with
  | (inl _, t1) => attempt_step runId token stepKey previous effect lost t1
  | (inr e, t1) =>
      if negb (isPublicationStepExhausted e) then (inr e, [], (lost, t1))
      else match settleExhaustedStep 5 token stepKey find t1 with
           | (inl (RecordedSuccess remote), t2) =>
               (inl {| sr_remote := remote; sr_already_succeeded := true;
                       sr_reconciled := true; sr_previous_attempts := previous |},
                [Looked], (lost, t2))
           | (inl _, t2) => (inr e, [Looked], (lost, t2))
           | (inr e', t2) => (inr e', [Looked], (lost, t2))
           end
  end.

Definition recordedRemote (s : step_row) : remote_object :=
  {| remote_id := s_remote_object_id s; remote_url := s_remote_object_url s |}.

Definition runPublicationStep (runId token stepKey : string)
    (find effect : outcome_of (option remote_object)) (lost : bool) (t : run_rows) :
    outcome_of step_run * list remote_action * (bool * run_rows) :=
  match request 0 (list_steps runId) t with
  | (inr e, t1) => (inr e, [], (lost, t1))
  | (inl steps, t1) =>
      let step := snd <$> List.find (λ ks, String.eqb ks.1 stepKey) steps in
      let previous := match step with Some s => s_attempt_count s | None => 0 end in
      match step with
      | Some s =>
          if step_is Step.succeeded s
          then (inl {| sr_remote := recordedRemote s; sr_already_succeeded := true;
                       sr_reconciled := false; sr_previous_attempts := previous |},
                [], (lost, t1))
          else claim_and_run runId token stepKey previous find effect lost t1
      | None => claim_and_run runId token stepKey previous find effect lost t1
      end
  end.

(** ** Deliveries (reviews/repositories/publish.ts) *)

(** [publishOrReconcileDeliveryDraftPr]: a failure is left to the batch to record. *)
Definition publishOrReconcileDelivery (runId token stepKey : string)
    (find : outcome_of (option remote_object)) (effect : outcome_of remote_object)
    (lost : bool) (t : run_rows) :
    outcome_of remote_object * list remote_action * (bool * run_rows) :=
  match request 1 (λ n, requirePublicationStepClaim n token stepKey) t with
  | (inr e, t1) =>
      if negb (isPublicationStepExhausted e) then (inr e, [], (lost, t1))
      else match settleExhaustedStep 5 token stepKey find t1 with
           | (inl (RecordedSuccess remote), t2) => (inl remote, [Looked], (lost, t2))
           | (inl _, t2) => (inr e, [Looked], (lost, t2))
           | (inr e', t2) => (inr e', [Looked], (lost, t2))
           end
  | (inl _, t1) =>
      match renewSerially 2 runId token lost t1 with
      | (inr e, (lost1, t2)) => (inr e, [], (lost1, t2))
      | (inl _, (lost1, t2)) =>
          match effect with
          | inr e => (inr e, [Acted], (lost1, t2))
          | inl remote =>
              match request 3 (serve (λ n, completePublicationStep n token stepKey remote)) t2 with
              | (inl true, t3) => (inl remote, [Acted], (lost1, t3))
              | (inl false, t3) => (inr (claim_lost_error runId), [Acted], (lost1, t3))
              | (inr e, t3) => (inr e, [Acted], (lost1, t3))
              end
          end
      end
  end.

(** The error the batch throws when the whole publication has to stop: an Error whose
    cause is the original one, with neither code nor status. *)
Definition delivery_error (message : string) : thrown_error := {|
  te_claim_lost := false; te_deterministic := false; te_code := None; te_status := None;
  te_message := message; te_retry_after := None; te_rate_remaining := None;
  te_response_message := None |}.

(** One turn of the delivery loop: the remote object it published or found recorded,
    None when it goes on to the next delivery without one. *)
Definition publish_delivery (runId token stepKey deliveryId : string) (persisted : option step_row)
    (find : outcome_of (option remote_object)) (effect : outcome_of remote_object)
    (lost : bool) (t : run_rows) :
    outcome_of (option remote_object) * list remote_action * (bool * run_rows) :=
  let recorded := match persisted with
                  | Some s =>
                      if step_is Step.succeeded s
                      then match s_remote_object_id s, s_remote_object_url s with
                           | Some id, Some url =>
                               if String.eqb id "" || String.eqb url "" then None
                               else Some (recordedRemote s)
                           | _, _ => None
                           end
                      else None
                  | None => None
                  end in
  if match persisted with Some s => step_is Step.terminal_failed s | None => false end
  then (inl None, [], (lost, t))
  else match recorded with
  | Some remote => (inl (Some remote), [], (lost, t))
  | None =>
      let '(r, actions, (lost1, t1)) :=
        publishOrReconcileDelivery runId token stepKey find effect lost t in
      match r with
      | inl remote => (inl (Some remote), actions, (lost1, t1))
      | inr e =>
          if te_claim_lost e then (inr e, actions, (lost1, t1))
          else
            let failure := classifyPublicationFailure e in
            match request 4 (serve (λ n, failPublicationStep n token stepKey
                    {| err_code := cl_code failure; err_message := te_message e |}
                    (Some (cl_retry failure)))) t1 with
            | (inr e', t2) => (inr e', actions, (lost1, t2))
            | (inl _, t2) =>
                match cl_scope failure with
                | PublicationScope =>
                    (inr (delivery_error ("Failed to publish repository delivery "
                            +:+ deliveryId +:+ ": " +:+ te_message e)), actions, (lost1, t2))
                | StepScope => (inl None, actions, (lost1, t2))
                end
            end
      end
  end.
End Protocol.

(** ** publication-coordinator.ts *)

Inductive pass_result :=
  | PassClaimLost
  | PassCompleted
  | PassFailed (retry committed : bool)
  | PassThrew (error : thrown_error).

Section Pass.
Context (now : nat → Z) (env : nat → run_rows → run_rows) (net : nat → transport).
Context (message_of : failure → string).

(** The publisher of the workflow, with the heartbeat flag it starts and ends with. *)
Definition publisher : Type :=
  bool → run_rows → outcome_of unit * list remote_action * (bool * run_rows).

(** [withPublicationHeartbeat]: whether the operation ended under a claim that was never in
    doubt. *)
Definition withPublicationHeartbeat (runId token : string) (operation : publisher)
    (t : run_rows) : outcome_of bool * list remote_action * run_rows :=
  match renewSerially now env net message_of 0 runId token false t with
  | (inr _, (_, t1)) => (inl false, [], t1)
  | (inl _, (lost, t1)) =>
      match request now env net message_of 1 (λ _ t, (Ok tt, t)) t1 with
      | (inr e, t2) => (inr e, [], t2)
      | (inl _, t2) =>
          let '(r, actions, (lost1, t3)) := operation lost t2 in
          match r with
          | inr e => (inr e, actions, t3)
          | inl _ => match renewSerially now env net message_of 2 runId token lost1 t3 with
                     | (inr _, (_, t4)) => (inl false, actions, t4)
                     | (inl _, (lost2, t4)) => (inl (negb lost2), actions, t4)
                     end
          end
      end
  end.

(** The catch block of the pass. *)
Definition fail_pass (i : nat) (token : string) (e : thrown_error) (t : run_rows) :
    pass_result * run_rows :=
  if te_claim_lost e then (PassClaimLost, t)
  else
    let c := classifyPublicationFailure e in
    match request now env net message_of i (serve (λ n, failPublication n token
            {| err_code := match te_code e with Some code => Some code | None => cl_code c end;
               err_message := te_message e |} (cl_retry c))) t with
    | (inl committed, t1) => (PassFailed (cl_retry c) committed, t1)
    | (inr e', t1) => (PassThrew e', t1)
    end.

Definition incomplete_error : error_info := {|
  err_code := Some "PUBLICATION_STEPS_INCOMPLETE";
  err_message := "Publication completed without all required steps succeeding." |}.

(** [publishReviewRunsOnce] on the work it claimed. *)
Definition publish_claimed (runId token : string) (operation : publisher) (t : run_rows) :
    pass_result * list remote_action * run_rows :=
  let '(owned, actions, t1) := withPublicationHeartbeat runId token operation t in
  match owned with
  | inr e => let (r, t2) := fail_pass 5 token e t1 in (r, actions, t2)
  | inl false => (PassClaimLost, actions, t1)
  | inl true =>
      match request now env net message_of 3 (serve (λ n, complete n token)) t1 with
      | (inr e, t2) => let (r, t3) := fail_pass 5 token e t2 in (r, actions, t3)
      | (inl true, t2) => (PassCompleted, actions, t2)
      | (inl false, t2) =>
          match request now env net message_of 4
                  (serve (λ n, failPublication n token incomplete_error false)) t2 with
          | (inl committed, t3) => (PassFailed false committed, actions, t3)
          | (inr e, t3) => let (r, t4) := fail_pass 5 token e t3 in (r, actions, t4)
          end
      end
  end.
End Pass.
