(* ===== verification/Actions.v ===== *)
(** The asynchronous routines of the GitHub connector that talk to the service and to GitHub
    in turn: an exception monad over the world they share with everybody else.

    Before each request the others act ([env]); the store is reached over the network of
    [ConnectorSteps]; GitHub is whatever implements the class of [GitHub.v].  A loop that
    does not end within its fuel has no outcome ([None]). *)

From S2P Require Import Prelude Schema Tables Database PublicationStore ConnectorErrors ConnectorSteps.

(** The class of an exception, as far as the connector asks for it by [instanceof]. *)
Inductive error_class :=
  | PlainError
  | InvalidPreparationInputError
  | InvalidRunNoticeInputError
  | RunNoticeClaimLostError
  | SetupDeclarationError
  | ReviewRunsSubmissionError
  | PreparationClaimLostError
  | RepositoryReviewDispatchValidationError.
#[export] Instance error_class_eq_dec : EqDecision error_class.
Proof. solve_decision. Defined.

Record raised := { ra_class : error_class; ra_error : thrown_error }.

(** [new Error(message)], or of a subclass. *)
Definition error_of (message : string) : thrown_error := {|
  te_claim_lost := false; te_deterministic := false; te_code := None; te_status := None;
  te_message := message; te_retry_after := None; te_rate_remaining := None;
  te_response_message := None |}.

Definition raised_plain (e : thrown_error) : raised := {| ra_class := PlainError; ra_error := e |}.

Definition raised_as (class : error_class) (message : string) : raised :=
  {| ra_class := class; ra_error := error_of message |}.

(** What a routine did that matters to others: a renewal of its claim that was confirmed, with
    the rows it left, and a write elsewhere. *)
Inductive event := Renewed (t : run_rows) | Wrote.

Section Actions.
Context {G : Type}.

Record world := {
  w_calls : nat;
  w_remote : G;
  w_rows : run_rows;
  w_lost : bool;     (** the flag of the heartbeat *)
  w_trace : list event; (** newest first *)
}.

Definition act (A : Type) : Type := world → option ((A + raised) * world).

Definition pure {A} (a : A) : act A := λ w, Some (inl a, w).
Definition raise {A} (e : raised) : act A := λ w, Some (inr e, w).

Definition andThen {A B} (m : act A) (k : A → act B) : act B := λ w,
  match m w with
  | Some (inl a, w') => k a w'
  | Some (inr e, w') => Some (inr e, w')
  | None => None
  end.

(** [try { m } catch (e) { h(e) }]. *)
Definition catch {A} (m : act A) (h : raised → act A) : act A := λ w,
  match m w with
  | Some (inr e, w') => h e w'
  | r => r
  end.

(** A value computed without a request, that may have thrown. *)
Definition computed {A} (r : A + raised) : act A := λ w, Some (r, w).

(** ** Rules *)

(** However [m] ends from [w], [Q] holds of a value and [E] of an exception. *)
Definition ends {A} (m : act A) (Q : A → world → Prop) (E : raised → world → Prop) (w : world) : Prop :=
  match m w with
  | Some (inl a, w') => Q a w'
  | Some (inr e, w') => E e w'
  | None => True
  end.

Lemma ends_pure {A} (a : A) Q E w : Q a w → ends (pure a) Q E w.
Proof. done. Qed.

Lemma ends_raise {A} e (Q : A → world → Prop) E w : E e w → ends (raise e) Q E w.
Proof. done. Qed.

Lemma ends_then {A B} (m : act A) (k : A → act B) Q E w :
  ends m (λ a, ends (k a) Q E) E w → ends (andThen m k) Q E w.
Proof. unfold ends, andThen. by destruct (m w) as [[[]]|]. Qed.

Lemma ends_catch {A} (m : act A) h Q E w :
  ends m Q (λ e, ends (h e) Q E) w → ends (catch m h) Q E w.
Proof. unfold ends, catch. by destruct (m w) as [[[]]|]. Qed.

Lemma ends_computed {A} (r : A + raised) Q E w :
  (∀ a, r = inl a → Q a w) → (∀ e, r = inr e → E e w) → ends (computed r) Q E w.
Proof. unfold ends, computed. destruct r; eauto. Qed.

Lemma ends_mono {A} (m : act A) (Q Q' : A → world → Prop) (E E' : raised → world → Prop) w :
  ends m Q E w → (∀ a w', Q a w' → Q' a w') → (∀ e w', E e w' → E' e w') → ends m Q' E' w.
Proof. unfold ends. destruct (m w) as [[[]]|]; eauto. Qed.

Lemma ends_and {A} (m : act A) (Q Q' : A → world → Prop) (E E' : raised → world → Prop) w :
  ends m Q E w → ends m Q' E' w → ends m (λ a w', Q a w' ∧ Q' a w') (λ e w', E e w' ∧ E' e w') w.
Proof. unfold ends. destruct (m w) as [[[]]|]; eauto. Qed.

Lemma then_value {A B} (m : act A) (k : A → act B) a w w' :
  m w = Some (inl a, w') → andThen m k w = k a w'.
Proof. unfold andThen. by intros ->. Qed.
Lemma then_raised {A B} (m : act A) (k : A → act B) e w w' :
  m w = Some (inr e, w') → andThen m k w = Some (inr e, w').
Proof. unfold andThen. by intros ->. Qed.
Lemma then_stuck {A B} (m : act A) (k : A → act B) w : m w = None → andThen m k w = None.
Proof. unfold andThen. by intros ->. Qed.

(** A property of the world no end of [m] breaks. *)
Definition keeps_world {A} (I : world → Prop) (m : act A) : Prop :=
  ∀ w, I w → ends m (λ _, I) (λ _, I) w.

Lemma keeps_pure {A} I (a : A) : keeps_world I (pure a).
Proof. by intros w. Qed.
Lemma keeps_raise {A} I e : keeps_world I (raise (A := A) e).
Proof. by intros w. Qed.
Lemma keeps_computed {A} I (r : A + raised) : keeps_world I (computed r).
Proof. intros w Hw. by apply ends_computed. Qed.
Lemma keeps_if {A} I (b : bool) (m1 m2 : act A) :
  keeps_world I m1 → keeps_world I m2 → keeps_world I (if b then m1 else m2).
Proof. by destruct b. Qed.
Lemma keeps_then {A B} I (m : act A) (k : A → act B) :
  keeps_world I m → (∀ a, keeps_world I (k a)) → keeps_world I (andThen m k).
Proof.
  intros Hm Hk w Hw. apply ends_then. eapply ends_mono; [by apply Hm| |done]. intros a w'. apply Hk.
Qed.
Lemma keeps_computed_then {A B} I (r : A + raised) (k : A → act B) :
  (∀ a, r = inl a → keeps_world I (k a)) → keeps_world I (andThen (computed r) k).
Proof. intros Hk w Hw. apply ends_then, ends_computed; [|done]. intros a Ha. by apply Hk. Qed.
Lemma keeps_catch {A} I (m : act A) h :
  keeps_world I m → (∀ e, keeps_world I (h e)) → keeps_world I (catch m h).
Proof.
  intros Hm Hh w Hw. apply ends_catch. eapply ends_mono; [by apply Hm|done|]. intros e w'. apply Hh.
Qed.

(** [m] does not run out of fuel. *)
Definition returns {A} (m : act A) : Prop := ∀ w, is_Some (m w).

Lemma returns_pure {A} (a : A) : returns (pure a).
Proof. by eexists. Qed.
Lemma returns_raise {A} e : returns (raise (A := A) e).
Proof. by eexists. Qed.
Lemma returns_computed {A} (r : A + raised) : returns (computed r).
Proof. by eexists. Qed.
Lemma returns_if {A} (b : bool) (m1 m2 : act A) : returns m1 → returns m2 → returns (if b then m1 else m2).
Proof. by destruct b. Qed.
Lemma returns_then {A B} (m : act A) (k : A → act B) :
  returns m → (∀ a, returns (k a)) → returns (andThen m k).
Proof.
  intros Hm Hk w. unfold andThen. destruct (Hm w) as [[[a|e] w'] ->]; [apply Hk|by eexists].
Qed.
Lemma returns_catch {A} (m : act A) h : returns m → (∀ e, returns (h e)) → returns (catch m h).
Proof.
  intros Hm Hh w. unfold catch. destruct (Hm w) as [[[a|e] w'] ->]; [by eexists|apply Hh].
Qed.
End Actions.
Arguments world : clear implicits.
Arguments act : clear implicits.

Declare Scope act_scope.
Notation "'await' x := m 'in' k" := (andThen m (λ x, k))
  (at level 10, x name, m at level 100, k at level 200,
   format "'[v' 'await'  x  :=  m  'in' '/' k ']'") : act_scope.
Notation "m1 ;;> m2" := (andThen m1 (λ _, m2))
  (at level 100, right associativity, format "'[v' m1 ;;> '/' m2 ']'") : act_scope.
#[global] Open Scope act_scope.

Create HintDb acts.
#[export] Hint Resolve keeps_pure keeps_raise keeps_computed : acts.
#[export] Hint Resolve returns_pure returns_raise returns_computed : acts.

(** * Requests *)

Section Requests.
Context {G : Type}.
Context (now : nat → Z) (env : nat → G * run_rows → G * run_rows) (net : nat → transport).
Context (message_of : failure → string).

(** What the others do before the next request. *)
Definition disturb (w : world G) : world G :=
  let '(g, t) := env (w_calls w) (w_remote w, w_rows w) in
  {| w_calls := S (w_calls w); w_remote := g; w_rows := t; w_lost := w_lost w; w_trace := w_trace w |}.

Definition thrown_or {A} (r : outcome_of A) : A + raised :=
  match r with inl a => inl a | inr e => inr (raised_plain e) end.

(** A request of the Review Runs client. *)
Definition store_call {A} (m : Z → run_rows → result A * run_rows) : act G A := λ w,
  let w1 := disturb w in
  let (r, t) := request now (λ _ t, t) net message_of (w_calls w) m (w_rows w1) in
  Some (thrown_or r, {| w_calls := w_calls w1; w_remote := w_remote w1; w_rows := t;
                        w_lost := w_lost w1; w_trace := w_trace w1 |}).

Lemma returns_store_call {A} (m : Z → run_rows → result A * run_rows) : returns (store_call m).
Proof. intros w. unfold store_call. destruct (request _ _ _ _ _ _ _). by eexists. Qed.

(** A request to somebody else (GitHub, the object store) that reads. *)
Definition remote_get {A} (f : G → outcome_of A) : act G A := λ w,
  let w1 := disturb w in Some (thrown_or (f (w_remote w1)), w1).

(** One that writes, whether or not its answer arrives. *)
Definition remote_post {A} (f : G → outcome_of A * G) : act G A := λ w,
  let w1 := disturb w in
  let (r, g) := f (w_remote w1) in
  Some (thrown_or r, {| w_calls := w_calls w1; w_remote := g; w_rows := w_rows w1;
                        w_lost := w_lost w1; w_trace := Wrote :: w_trace w1 |}).

Lemma returns_get {A} (f : G → outcome_of A) : returns (remote_get f).
Proof. by eexists. Qed.
Lemma returns_post {A} (f : G → outcome_of A * G) : returns (remote_post f).
Proof. intros w. unfold remote_post. destruct (f _). by eexists. Qed.

(** The closure variables of a heartbeat. *)
Definition read_lost : act G bool := λ w, Some (inl (w_lost w), w).
Definition mark_lost : act G unit := λ w,
  Some (inl tt, {| w_calls := w_calls w; w_remote := w_remote w; w_rows := w_rows w;
                   w_lost := true; w_trace := w_trace w |}).
(** A renewal was confirmed (nothing the code does: it is recorded for the statements). *)
Definition confirm : act G unit := λ w,
  Some (inl tt, {| w_calls := w_calls w; w_remote := w_remote w; w_rows := w_rows w;
                   w_lost := w_lost w; w_trace := Renewed (w_rows w) :: w_trace w |}).

Lemma returns_lost : returns read_lost.
Proof. by eexists. Qed.
Lemma returns_mark : returns mark_lost.
Proof. by eexists. Qed.
Lemma returns_confirm : returns confirm.
Proof. by eexists. Qed.
End Requests.

#[export] Hint Resolve returns_store_call returns_get returns_post : acts.
#[export] Hint Resolve returns_lost returns_mark returns_confirm : acts.
