(* ===== verification/GitHub.v ===== *)
(** GitHub as the connector uses it (apps/github-integration, github/): the requests the
    library client sends as a class, with what their documentation promises; attribution of
    comments to the app; the searches over pages; comments and issues created unless they
    exist. *)

From S2P Require Import Prelude Schema Tables Database PublicationStore ConnectorErrors ConnectorSteps.
From S2P Require Import Actions.

(** * Strings *)

(** [s.trimStart()]. *)
Fixpoint trim_start (skip : nat) (s : string) : string :=
  match s with
  | EmptyString => EmptyString
  | String _ s' =>
      match skip with
      | S k => trim_start k s'
      | O => match js_space s with O => s | S k => trim_start k s' end
      end
  end.

(** [s.trimEnd()]: everything before the first place from which only blanks follow. *)
Fixpoint trim_end (skip : nat) (s : string) : string :=
  match s with
  | EmptyString => EmptyString
  | String a s' =>
      match skip with
      | S k => String a (trim_end k s')
      | O => if blank s then EmptyString else String a (trim_end (Nat.pred (js_space s)) s')
      end
  end.

Definition trim (s : string) : string := trim_end 0 (trim_start 0 s).

(** [s.split(sep)] for a one-character separator. *)
Fixpoint split_on (sep : Ascii.ascii) (s : string) : list string :=
  match s with
  | EmptyString => [""]
  | String a s' =>
      if Ascii.eqb a sep then "" :: split_on sep s'
      else match split_on sep s' with
           | w :: ws => String a w :: ws
           | [] => [String a ""]
           end
  end.

Definition slash : Ascii.ascii := Ascii.ascii_of_N 47.

(** * Repository names (repository-service.ts) *)

Record repo_ref := { owner_login : string; repo_name : string }.

Definition is_alnum (a : Ascii.ascii) : bool :=
  let n := Ascii.N_of_ascii a in
  ((48 <=? n) && (n <=? 57) || (65 <=? n) && (n <=? 90) || (97 <=? n) && (n <=? 122))%N.

(** One of '-', '.', '_'. *)
Definition is_hyphen (a : Ascii.ascii) : bool := (Ascii.N_of_ascii a =? 45)%N.
Definition is_dot (a : Ascii.ascii) : bool := (Ascii.N_of_ascii a =? 46)%N.
Definition is_underscore (a : Ascii.ascii) : bool := (Ascii.N_of_ascii a =? 95)%N.

Fixpoint any_char (p : Ascii.ascii → bool) (s : string) : bool :=
  match s with EmptyString => false | String a s' => p a || any_char p s' end.

Fixpoint last_char (s : string) : option Ascii.ascii :=
  match s with
  | EmptyString => None
  | String a EmptyString => Some a
  | String _ s' => last_char s'
  end.

Definition alnum_opt (a : option Ascii.ascii) : bool :=
  match a with Some a => is_alnum a | None => false end.

(** The owner part of the expression: 1 to 39 letters, digits and hyphens, the first and the
    last of them no hyphen. *)
Definition owner_ok (s : string) : bool :=
  (Nat.leb (String.length s) 39) && alnum_opt (String.get 0 s) && alnum_opt (last_char s)
  && all_chars (λ a, is_alnum a || is_hyphen a) s.

(** The repository part, with the letter or digit asked for afterwards. *)
Definition repo_ok (s : string) : bool :=
  (Nat.leb 1 (String.length s)) && (Nat.leb (String.length s) 100)
  && all_chars (λ a, is_alnum a || is_dot a || is_underscore a || is_hyphen a) s
  && any_char is_alnum s.

Definition splitRepoFullName (repo_full_name : string) : repo_ref + raised :=
  match split_on slash (trim repo_full_name) with
  | [owner; repo] =>
      if owner_ok owner && repo_ok repo then inl {| owner_login := owner; repo_name := repo |}
      else inr (raised_plain (error_of ("Invalid repository full name: " +:+ repo_full_name)))
  | _ => inr (raised_plain (error_of ("Invalid repository full name: " +:+ repo_full_name)))
  end.

Definition repositoryFullName (value : option json) : option string :=
  match value with
  | Some (JString s) =>
      match split_on slash (trim s) with
      | [owner; repo] =>
          if String.eqb owner "" || String.eqb repo "" then None
          else Some (owner +:+ "/" +:+ repo)
      | _ => None
      end
  | _ => None
  end.

(** * Attribution (github-app-metadata-service.ts) *)

Record github_user := { us_login : option string; us_type : option string }.

(** Logins are ASCII. *)
Definition normalizeLogin (value : option string) : option string :=
  match value with
  | Some s => if blank s then None else Some (toLowerCase (trim s))
  | None => None
  end.

(** [setGitHubAppMetadata]: the login derived from the slug, the module's state. *)
Definition bot_login_of (slug : option string) : option string :=
  match slug with
  | Some s => if blank s then None else Some (trim s +:+ "[bot]")
  | None => None
  end.

Definition app_metadata_unavailable : string := "APP_METADATA_UNAVAILABLE".

(** The DeterministicExecutionPublishError of [requireAppBotLogin]. *)
Definition metadata_error : thrown_error := {|
  te_claim_lost := false; te_deterministic := true; te_code := Some app_metadata_unavailable;
  te_status := None;
  te_message := "GitHub App metadata is not loaded; cannot attribute a bot-authored object.";
  te_retry_after := None; te_rate_remaining := None; te_response_message := None |}.

Definition requireAppBotLogin (bot : option string) : string + raised :=
  match normalizeLogin bot with
  | Some login => inl login
  | None => inr (raised_plain metadata_error)
  end.

Definition wasAuthoredByCurrentAppBot (bot : option string) (user : option github_user) :
    bool + raised :=
  match requireAppBotLogin bot with
  | inr e => inr e
  | inl expectedLogin =>
      inl (opt_eqb (user ≫= us_type) (Some "Bot")
           && match normalizeLogin (user ≫= us_login) with
              | Some login => String.eqb login expectedLogin
              | None => false
              end)
  end.

Definition isCurrentAppBotLogin (bot login : option string) : bool + raised :=
  match requireAppBotLogin bot with
  | inr e => inr e
  | inl expectedLogin =>
      inl match normalizeLogin login with
          | Some candidate => String.eqb candidate expectedLogin
          | None => false
          end
  end.

(** * The requests *)

Record IssueCommentSummary := {
  ic_id : Z;
  ic_body : option string;
  ic_html_url : string;
  ic_user : option github_user;
}.

Record RepositoryIssue := { ri_number : Z; ri_title : string; ri_pull_request : bool }.

(** A hundred entries a page. *)
Definition per_page : nat := 100.

(** The requests of the client library the modelled code makes, the state [G] of GitHub behind
    them.  A request that writes may take effect although its answer is an error, and the
    client sends it again by itself when its answer is lost or says that the server failed:
    one call of the library may take effect more than once. *)
Class GitHub (G : Type) := {
  getRepoInstallation : repo_ref → G → outcome_of unit; (** and the token for it *)
  getRepo : repo_ref → G → outcome_of unit;
  listComments : repo_ref → Z → Z → G → outcome_of (list IssueCommentSummary);
  createComment : repo_ref → Z → string → G → outcome_of IssueCommentSummary * G;
  listForRepo : repo_ref → Z → G → outcome_of (list RepositoryIssue);
  createIssue : repo_ref → string → G → outcome_of Z * G; (** its fixed text left out *)
}.

(** Page [p], from 1, of a list. *)
Definition page_of {A} (p : Z) (l : list A) : list A :=
  take per_page (drop (per_page * Z.to_nat (p - 1)) l).

(** What the documentation promises of the comments of an issue: they are listed in the order
    of their creation, a page at a time, and a call to create one appends it, with the text as
    it was sent and the app as its author, not more often than the client sends the request
    ([comment_sends], one more than its retries); a comment that it answers is among those. *)
Class GitHubLaws (G : Type) `{GitHub G} (bot : option string) := {
  thread : repo_ref → Z → G → list IssueCommentSummary;
  comment_sends : nat;
  listComments_page r n p g l : listComments r n p g = inl l → l = page_of p (thread r n g);
  createComment_appends r n body g res g' :
    createComment r n body g = (res, g') →
    ∃ posted, thread r n g' = thread r n g ++ posted ∧ (length posted <= comment_sends)%nat
      ∧ Forall (λ c, ic_body c = Some body
                     ∧ ∀ login, requireAppBotLogin bot = inl login →
                         wasAuthoredByCurrentAppBot bot (ic_user c) = inl true) posted
      ∧ ∀ c, res = inl c → c ∈ posted;
}.

(** * Searches (comment-service.ts, repository-service.ts) *)

Section Search.
Context {G : Type} `{GitHub G}.
Context (env : nat → G * run_rows → G * run_rows).

(** The [for] loop over one page. *)
Fixpoint scan_page {A} (matches : A → bool + raised) (items : list A) : option A + raised :=
  match items with
  | [] => inl None
  | a :: rest => match matches a with
                 | inl true => inl (Some a)
                 | inl false => scan_page matches rest
                 | inr e => inr e
                 end
  end.

(** The [while (true)] loop over the pages. *)
Fixpoint search_pages {A} (fuel : nat) (fetch : Z → act G (list A))
    (matches : A → bool + raised) (page : Z) : act G (option A) :=
  match fuel with
  | O => λ _, None
  | S fuel' =>
      await items := fetch page in
      match items with
      | [] => pure None
      | _ =>
          await found := computed (scan_page matches items) in
          match found with
          | Some a => pure (Some a)
          | None => if Nat.ltb (length items) per_page then pure None
                    else search_pages fuel' fetch matches (page + 1)
          end
      end
  end.

(** A comment of the app that carries the marker. *)
Definition marked (bot : option string) (marker : string) (c : IssueCommentSummary) : bool + raised :=
  match wasAuthoredByCurrentAppBot bot (ic_user c) with
  | inl true => inl match ic_body c with Some body => includes marker body | None => false end
  | r => r
  end.

Definition findIssueCommentByMarker (fuel : nat) (bot : option string) (target : repo_ref)
    (issue_number : Z) (marker : string) : act G (option IssueCommentSummary) :=
  search_pages fuel (λ page, remote_get env (listComments target issue_number page))
    (marked bot marker) 1.

(** An open issue, not a pull request, with the title. *)
Definition summary_issue (title : string) (i : RepositoryIssue) : bool + raised :=
  inl (negb (ri_pull_request i) && String.eqb (ri_title i) title).

Definition findRepositorySecuritySummaryIssue (fuel : nat) (target : repo_ref) (title : string) :
    act G (option RepositoryIssue) :=
  search_pages fuel (λ page, remote_get env (listForRepo target page)) (summary_issue title) 1.

(** * Comments and issues, unless they exist *)

Definition createIssueComment (assert : act G unit) (target : repo_ref) (issue_number : Z)
    (body : string) : act G IssueCommentSummary :=
  assert ;;> remote_post env (createComment target issue_number body).

Record posted_comment := { pc_id : Z; pc_html_url : string; pc_reused : bool }.

Definition createIssueCommentUnlessMarkerExists (fuel : nat) (bot : option string)
    (assert : act G unit) (target : repo_ref) (issue_number : Z) (body marker : string) :
    act G posted_comment :=
  await existing := findIssueCommentByMarker fuel bot target issue_number marker in
  match existing with
  | Some c => pure {| pc_id := ic_id c; pc_html_url := ic_html_url c; pc_reused := true |}
  | None =>
      await created := createIssueComment assert target issue_number body in
      pure {| pc_id := ic_id created; pc_html_url := ic_html_url created; pc_reused := false |}
  end.

Definition REPOSITORY_SECURITY_SUMMARY_ISSUE_TITLE : string :=
  "[sec-review-bot] Repository Security Review Summary".

Definition ensureSummaryIssueNumber (fuel : nat) (assert : act G unit) (repo : repo_ref) : act G Z :=
  await existing := findRepositorySecuritySummaryIssue fuel repo REPOSITORY_SECURITY_SUMMARY_ISSUE_TITLE in
  match existing with
  | Some i => pure (ri_number i)
  | None => assert ;;> remote_post env (createIssue repo REPOSITORY_SECURITY_SUMMARY_ISSUE_TITLE)
  end.

(** installation-client.ts. *)
Definition installationOctokitForRepo (repoFullName : string) : act G unit :=
  await target := computed (splitRepoFullName repoFullName) in
  remote_get env (getRepoInstallation target).
End Search.

(** * Which failures of the connector are worth another try, and when
    (review-runs/preparation-failure.ts) *)

Record PreparationFailureClassification := {
  pf_retry : bool;
  pf_retryAfterMs : option Z;
  pf_code : option string;
}.

Fixpoint read_digits (acc : Z) (s : string) : option Z :=
  match s with
  | EmptyString => Some acc
  | String a s' =>
      let n := Z.of_N (Ascii.N_of_ascii a) in
      if (48 <=? n) && (n <=? 57) then read_digits (acc * 10 + (n - 48)) s' else None
  end.

(** [Number(value)] where it is finite and not negative, on the values a Retry-After header has:
    a number of seconds, or a date, which is no number. *)
Definition header_number (value : string) : option Z := read_digits 0 (trim value).

Definition retryAfterMs (e : thrown_error) (attempt : Z) : Z :=
  match te_retry_after e ≫= header_number with
  | Some parsed => parsed * 1000
  | None => Z.min (10 * 60000) (5000 * 2 ^ Z.min (attempt - 1) 7)
  end.

Definition isRateLimited (e : thrown_error) : bool :=
  not_null (te_retry_after e)
  || opt_eqb (te_rate_remaining e) (Some "0")
  || includes "rate limit"
       (toLowerCase (te_message e +:+ " " +:+ coalesce (te_response_message e) "")).

Definition classifyPreparationFailure (error : raised) (attempt : Z) (deterministic : bool) :
    PreparationFailureClassification :=
  let e := ra_error error in
  if deterministic || bool_decide (ra_class error = InvalidPreparationInputError)
  then {| pf_retry := false; pf_retryAfterMs := None; pf_code := te_code e |}
  else
    let retry := match te_status e with
                 | None => true
                 | Some status => (500 <=? status) || (status =? 408) || (status =? 409)
                                  || (status =? 429) || ((status =? 403) && isRateLimited e)
                 end in
    {| pf_retry := retry;
       pf_retryAfterMs := if retry then Some (retryAfterMs e attempt) else None;
       pf_code := te_code e |}.
