(* ===== verification/NoticeDelivery.v ===== *)
(** The delivery of run notices by the GitHub connector (apps/github-integration,
    review-runs/run-notice-claim.ts, run-notice-reply.ts and run-notice-coordinator.ts). *)

From stdpp Require Import pretty.
From S2P Require Import Prelude Schema Tables Database PublicationStore Notices ConnectorErrors.
From S2P Require Import ConnectorSteps Actions GitHub.

(** * What the input of the run says *)

(** A value [isRecord] accepts. *)
Definition record_field (key : string) (input : json) : option json :=
  match json_get key input with
  | Some (JObject fields) => Some (JObject fields)
  | _ => None
  end.

Definition text_field (key : string) (v : json) : option string :=
  match json_get key v with Some (JString s) => Some s | _ => None end.

Definition number_field (key : string) (v : json) : option Z :=
  match json_get key v with Some (JNumber n) => Some n | _ => None end.

Definition missing (label : string) : raised :=
  raised_as InvalidRunNoticeInputError ("Run notice input is missing " +:+ label +:+ ".").

(** [requireRecord] of the coordinator. *)
Definition requireNoticeInput (value : json) : json + raised :=
  if json_is_object value then inl value else inr (missing "object").

Definition requireText (value : option json) (label : string) : string + raised :=
  match value with
  | Some (JString s) => if blank s then inr (missing label) else inl s
  | _ => inr (missing label)
  end.

Definition noticeRepository (input : json) : option string + raised :=
  match record_field "issue" input with
  | Some issue => match requireText (json_get "repo_full_name" issue) "issue.repo_full_name" with
                  | inl s => inl (Some s)
                  | inr e => inr e
                  end
  | None =>
  match record_field "pr" input with
  | Some pr => match requireText (json_get "repo_full_name" pr) "pr.repo_full_name" with
               | inl s => inl (Some s)
               | inr e => inr e
               end
  | None =>
  match record_field "pr_reference" input with
  | Some ref =>
      match requireText (json_get "owner_login" ref) "pr_reference.owner_login" with
      | inr e => inr e
      | inl owner =>
          match requireText (json_get "repo_name" ref) "pr_reference.repo_name" with
          | inr e => inr e
          | inl name => inl (Some (owner +:+ "/" +:+ name))
          end
      end
  | None => inl (repositoryFullName (json_get "verified_repository" input))
  end end end.

Record reply_target := { rt_repo : repo_ref; rt_issue_number : Z }.

Definition first_record (x y z : option json) : option json :=
  match x with Some v => Some v | None => match y with Some v => Some v | None => z end end.

Definition replyTarget (input : json) : option reply_target :=
  match first_record (record_field "issue" input) (record_field "pr" input)
          (record_field "pr_reference" input) with
  | None => None
  | Some source =>
      match text_field "owner_login" source, text_field "repo_name" source with
      | Some owner, Some name =>
          let target n := {| rt_repo := {| owner_login := owner; repo_name := name |};
                             rt_issue_number := n |} in
          match number_field "issue_number" source, number_field "pr_number" source with
          | Some n, _ => Some (target n)
          | None, Some n => Some (target n)
          | None, None => None
          end
      | _, _ => None
      end
  end.

Definition repositoryScope (input : json) : option repo_ref :=
  if negb (opt_eqb (text_field "kind" input) (Some "github_repository_review")) then None
  else match repositoryFullName (json_get "verified_repository" input) with
       | None => None
       | Some fullName =>
           match split_on slash fullName with
           | owner :: name :: _ =>
               if String.eqb owner "" || String.eqb name "" then None
               else Some {| owner_login := owner; repo_name := name |}
           | _ => None
           end
       end.

(** * The text of the reply *)

Definition STAGE_SENTENCE (a : axis) : string :=
  match a with
  | preparation => "Security review could not be started after automatic retries."
  | execution => "Security review started but could not be completed."
  | publication => "Security review completed but its result could not be delivered."
  end.

Definition attention_sentence : string :=
  "The review outcome could not be confirmed. Automatic recovery has stopped and this requires operator follow-up; this is not a failure report.".

Definition backtick : string := String (Ascii.ascii_of_N 96) "".
Definition newline : string := String (Ascii.ascii_of_N 10) "".

Definition notice_marker (notice_id : Z) : string :=
  "<!-- sec-review-notice:" +:+ pretty notice_id +:+ " -->".

Definition notice_body (work : RunNoticeWork) : string :=
  let reason := match nw_reason_code work with
                | None => "Review Runs recorded no failure code."
                | Some code => "Reason: " +:+ backtick +:+ code +:+ backtick +:+ "."
                end in
  notice_marker (nw_notice_id work) +:+ newline +:+ newline
  +:+ (if bool_decide (nw_kind work = Notice.attention) then attention_sentence
       else STAGE_SENTENCE (nw_axis work))
  +:+ " Reference: " +:+ backtick +:+ nw_run_id work +:+ backtick +:+ ". " +:+ reason.

(** * The delivery *)

Section Delivery.
Context {G : Type} `{GitHub G}.
Context (now : nat → Z) (env : nat → G * run_rows → G * run_rows) (net : nat → transport).
Context (message_of : failure → string).
Context (bot : option string) (fuel : nat).

Abbreviation store_call m := (store_call now env net message_of m).
Abbreviation remote_get f := (remote_get env f).

Definition notice_claim_lost (notice_id : Z) : raised :=
  raised_as RunNoticeClaimLostError ("Run notice claim was lost for " +:+ pretty notice_id +:+ ".").

(** ** run-notice-claim.ts *)

Definition renewNotice (notice_id : Z) (token : string) : act G unit :=
  catch
    (await renewed := store_call (serve (λ n, renewNoticeClaim n notice_id token)) in
     if renewed : bool then confirm else raise (notice_claim_lost notice_id))
    (λ e, mark_lost ;;>
          raise (if bool_decide (ra_class e = RunNoticeClaimLostError) then e
                 else notice_claim_lost notice_id)).

Definition renewNoticeSerially (notice_id : Z) (token : string) : act G unit :=
  await lost := read_lost in
  if lost : bool then raise (notice_claim_lost notice_id) else renewNotice notice_id token.

(** [startRunNoticeClaimHeartbeat]: the interval is asked for, then ownership proven once. *)
Definition startRunNoticeClaimHeartbeat (notice_id : Z) (token : string) : act G unit :=
  store_call (λ _ t, (Ok tt, t)) ;;> renewNoticeSerially notice_id token.

(** ** run-notice-reply.ts *)

Definition not_installed (target : repo_ref) (status : Z) : raised :=
  raised_plain {|
    te_claim_lost := false; te_deterministic := false; te_code := None;
    te_status := Some status;
    te_message := "Run failure notice target " +:+ owner_login target +:+ "/"
                  +:+ repo_name target +:+ " is not installed on this app.";
    te_retry_after := None; te_rate_remaining := None; te_response_message := None |}.

Definition assertRepositoryIsInstalled (target : repo_ref) : act G unit :=
  catch (remote_get (getRepo target))
    (λ e, match te_status (ra_error e) with
          | Some status => if (status =? 404) || (status =? 403)
                           then raise (not_installed target status) else raise e
          | None => raise e
          end).

(** The comment the notice becomes: its URL. *)
Definition post_reply (work : RunNoticeWork) (target : reply_target) : act G string :=
  await posted := createIssueCommentUnlessMarkerExists env fuel bot
    (renewNoticeSerially (nw_notice_id work) (nw_claim_token work))
    (rt_repo target) (rt_issue_number target) (notice_body work) (notice_marker (nw_notice_id work)) in
  pure (pc_html_url posted).

Definition sendRunNoticeReply (work : RunNoticeWork) (input : json) : act G (option string) :=
  match replyTarget input with
  | Some target =>
      assertRepositoryIsInstalled (rt_repo target) ;;>
      await url := post_reply work target in pure (Some url)
  | None =>
      match repositoryScope input with
      | None => pure None
      | Some scope =>
          assertRepositoryIsInstalled scope ;;>
          await number := ensureSummaryIssueNumber env fuel
            (renewNoticeSerially (nw_notice_id work) (nw_claim_token work)) scope in
          await url := post_reply work {| rt_repo := scope; rt_issue_number := number |} in
          pure (Some url)
      end
  end.

(** ** run-notice-coordinator.ts *)

Definition complete_notice (work : RunNoticeWork) (delivered : bool) (url : option string) :
    act G bool :=
  store_call (serve (λ n, completeNotice n (nw_notice_id work) (nw_claim_token work) delivered url)).

(** The part of the [try] block that finds the repository and sends the reply. *)
Definition reply_to_notice (work : RunNoticeWork) : act G (option string) :=
  await input := computed (requireNoticeInput (nw_input work)) in
  await repo := computed (noticeRepository input) in
  match repo with
  | None => pure None
  | Some name => installationOctokitForRepo env name ;;> sendRunNoticeReply work input
  end.

(** The [try] block of [deliverRunNoticeOnce]. *)
Definition try_delivery (work : RunNoticeWork) : act G unit :=
  startRunNoticeClaimHeartbeat (nw_notice_id work) (nw_claim_token work) ;;>
  await delivered := reply_to_notice work in
  await lost := read_lost in
  if lost : bool then pure tt
  else match delivered with
       | None => complete_notice work false None ;;> pure tt
       | Some url => complete_notice work true (Some url) ;;> pure tt
       end.

(** [deliverRunNoticeOnce] on the notice it claimed. *)
Definition deliver_claimed (work : RunNoticeWork) : act G unit :=
  catch (try_delivery work)
    (λ e, if bool_decide (ra_class e = RunNoticeClaimLostError) then pure tt
          else if negb (pf_retry (classifyPreparationFailure e 1
                          (bool_decide (ra_class e = InvalidRunNoticeInputError))))
          then complete_notice work false None ;;> pure tt
          else pure tt).
End Delivery.
