(* ===== verification/ObjectStore.v ===== *)
(** Publication of input bundles in the object store (apps/github-integration,
    artifacts/input-storage.ts), for the S3 store: the requests of the SDK as a class, with
    what their documentation promises. *)

From S2P Require Import Prelude Schema Tables Database InputBundles ConnectorErrors ConnectorSteps.
From S2P Require Import Actions.

(** * The store *)

(** What HEAD says of an object: its length and the two entries of its metadata. *)
Record object_meta := {
  om_length : Z;
  om_sha256 : option string;
  om_media_type : option string;
}.
#[export] Instance object_meta_eq_dec : EqDecision object_meta.
Proof. solve_decision. Defined.

(** An error of the SDK, with [$metadata.httpStatusCode]. *)
Record store_error := { so_status : option Z; so_error : thrown_error }.

(** A bucket of objects by key, in the state [O]. *)
Class ObjectStore (O : Type) := {
  headObject : string → O → object_meta + store_error;
  listObjects : string → O → list string + store_error; (** the keys with a prefix, one at most *)
  putNewObject : string → object_meta → O → (unit + store_error) * O; (** IfNoneMatch: '*' *)
}.

(** What the documentation promises: HEAD tells of the object that is there, LIST knows the keys
    that are, and a conditional PUT, whatever it answers, creates the object where there was
    none, with the length and the metadata it was sent, and leaves everything else alone; it
    has created it when it answers that it has. *)
Class ObjectStoreLaws (O : Type) `{ObjectStore O} := {
  object_at : string → O → option object_meta;
  headObject_there k o m : headObject k o = inl m → object_at k o = Some m;
  listObjects_absent k o l : listObjects k o = inl l → k ∉ l → object_at k o = None;
  putNewObject_creates k m o r o' :
    putNewObject k m o = (r, o') →
    (o' = o ∨ (object_at k o = None ∧ object_at k o' = Some m
               ∧ ∀ k', k' ≠ k → object_at k' o' = object_at k' o))
    ∧ (r = inl tt → object_at k o' = Some m);
}.

(** * input-storage.ts *)

(** A test of a value that may be missing. *)
Definition opt_bool {A} (x : option A) (p : A → bool) : bool :=
  match x with Some a => p a | None => false end.

(** [digest.replace(/^sha256:/, '')]. *)
Definition bare_digest (digest : string) : string :=
  if String.prefix "sha256:" digest then String.substring 7 (String.length digest - 7) digest
  else digest.

Definition inputObjectKey (runId digest : string) : string :=
  "runs/" +:+ runId +:+ "/input/" +:+ bare_digest digest +:+ "/input-bundle.v1.tar.zst".

Definition matchesReference (response : object_meta) (r : artifact_reference) : bool :=
  (om_length response =? ref_size_bytes r)
  && opt_eqb (om_sha256 response) (Some (bare_digest (ref_digest r)))
  && opt_eqb (om_media_type response) (Some (ref_media_type r)).

Definition with_uri (r : artifact_reference) (uri : string) : artifact_reference := {|
  ref_digest := ref_digest r; ref_uri := uri; ref_media_type := ref_media_type r;
  ref_size_bytes := ref_size_bytes r |}.

Section Storage.
Context {O : Type} `{ObjectStore O}.
Context (env : nat → O * run_rows → O * run_rows).
Context (bucket : string).
(** [new URL(uri)]: the protocol, and for an s3 URI the host and the path. *)
Context (parse_location : string → option (string * string * string)).

Definition publishedInputBundleReference (r : artifact_reference) (runId : string) : artifact_reference :=
  with_uri r ("s3://" +:+ bucket +:+ "/" +:+ inputObjectKey runId (ref_digest r)).

(** The value of an answer that is a value or an error. *)
Definition sent {A} (f : O → A + store_error) : act O (A + store_error) :=
  remote_get env (λ o, inl (f o)).

(** Whether the object there is the one of the reference, None when there is none. *)
Definition existingObjectMatches (key : string) (r : artifact_reference) : act O (option bool) :=
  await response := sent (headObject key) in
  match response with
  | inl m => pure (Some (matchesReference m r))
  | inr e =>
      if opt_bool (so_status e) (λ n, (n =? 403) || (n =? 404)) then
        await listed := sent (listObjects key) in
        match listed with
        | inr e' => raise (raised_plain (so_error e'))
        | inl keys => if existsb (String.eqb key) keys then raise (raised_plain (so_error e))
                      else pure None
        end
      else raise (raised_plain (so_error e))
  end.

Definition inputBundleExists (r : artifact_reference) : act O bool :=
  match parse_location (ref_uri r) with
  | None => raise (raised_plain (error_of "Invalid URL"))
  | Some (protocol, host, path) =>
      if negb (String.eqb protocol "s3:") || negb (String.eqb host bucket)
      then raise (raised_plain (error_of "Input bundle uses an unconfigured store."))
      else
        await matches := existingObjectMatches (String.substring 1 (String.length path - 1) path) r in
        match matches with
        | Some false => raise (raised_plain (error_of "Input bundle object differs from its immutable intent."))
        | Some true => pure true
        | None => pure false
        end
  end.

(** The metadata the upload sends. *)
Definition sent_meta (r : artifact_reference) : object_meta := {|
  om_length := ref_size_bytes r; om_sha256 := Some (bare_digest (ref_digest r));
  om_media_type := Some (ref_media_type r) |}.

(** The upload of a local file. *)
Definition publishInputBundle (r : artifact_reference) (runId : string) : act O artifact_reference :=
  if String.eqb bucket ""
  then raise (raised_plain (error_of "SEC_REVIEW_ARTIFACT_S3_BUCKET is required for the S3 artifact store."))
  else match parse_location (ref_uri r) with
  | None => raise (raised_plain (error_of "Invalid URL"))
  | Some (protocol, _, _) =>
      if negb (String.eqb protocol "file:")
      then raise (raised_plain (error_of "Input bundle publication requires a local file reference."))
      else
        let key := inputObjectKey runId (ref_digest r) in
        await existing := existingObjectMatches key r in
        match existing with
        | Some true => pure (publishedInputBundleReference r runId)
        | Some false =>
            raise (raised_plain (error_of
              ("Immutable input bundle object conflicts with existing content: " +:+ key)))
        | None =>
            await put := remote_post env (λ o, let (a, o') := putNewObject key (sent_meta r) o in (inl a, o')) in
            match put with
            | inl _ => pure (publishedInputBundleReference r runId)
            | inr e =>
                if negb (opt_bool (so_status e) (λ n, n =? 412)) then raise (raised_plain (so_error e))
                else
                  await won := existingObjectMatches key r in
                  match won with
                  | Some true => pure (publishedInputBundleReference r runId)
                  | _ => raise (raised_plain (so_error e))
                  end
            end
        end
  end.
End Storage.
