(* ===== verification/PreparationCommand.v ===== *)
(** The preparation of a run by the GitHub connector (apps/github-integration,
    review-runs/preparation-claim.ts, artifacts/input-bundle-publication.ts,
    triggers/preparation-command.ts, triggers/repository-review.ts,
    review-runs/preparation-coordinator.ts).

    What a workflow's own preparation does is an argument, and so are the check of the
    publish context by the client and what the Execution service answers. The timer of the
    heartbeat is not modelled; its renewals at the start and before publishing are. *)

From stdpp Require Import pretty.
From S2P Require Import Prelude Schema Tables Database RunRecord PreparationStore InputBundles.
From S2P Require Import SubmissionTransitions Runtime PublicationStore ConnectorErrors ConnectorSteps.
From S2P Require Import Actions GitHub ObjectStore.

(** * The size of an input (reviews/shared/input-bundle.ts) *)

(** The bytes of a character in the text of a JSON string. *)
Definition json_char_size (a : Ascii.ascii) : Z :=
  let n := Z.of_N (Ascii.N_of_ascii a) in
  if (n =? 34) || (n =? 92) || ((8 <=? n) && (n <=? 10)) || (n =? 12) || (n =? 13) then 2
  else if n <? 32 then 6 else 1.

Fixpoint json_chars_size (s : string) : Z :=
  match s with EmptyString => 0 | String a s' => json_char_size a + json_chars_size s' end.

(** The digits of a number below 10^[fuel]. *)
Fixpoint digits (fuel : nat) (n : Z) : Z :=
  match fuel with
  | O => 1
  | S fuel' => if n <? 10 then 1 else 1 + digits fuel' (n / 10)
  end.

(** [Buffer.byteLength(JSON.stringify(value), 'utf8')]. *)
Fixpoint json_size (v : json) : Z :=
  match v with
  | JNull => 4
  | JBool b => if b then 4 else 5
  | JNumber n => if n <? 0 then 1 + digits 21 (- n) else digits 21 n
  | JString s => 2 + json_chars_size s
  | JArray l =>
      2 + (fix sum (l : list json) : Z :=
             match l with
             | [] => 0
             | [x] => json_size x
             | x :: l' => json_size x + 1 + sum l'
             end) l
  | JObject fields =>
      2 + (fix sum (l : list (string * json)) : Z :=
             match l with
             | [] => 0
             | [(k, x)] => 3 + json_chars_size k + json_size x
             | (k, x) :: l' => 3 + json_chars_size k + json_size x + 1 + sum l'
             end) fields
  end.

Definition MAX_WORKFLOW_INPUT_BYTES : Z := 1500000.

Definition assertWorkflowInputFits (input : json) : unit + raised :=
  if MAX_WORKFLOW_INPUT_BYTES <? json_size input
  then inr (raised_plain (error_of ("prepared review input is " +:+ pretty (json_size input)
         +:+ " bytes, which exceeds the workflow input limit of " +:+ pretty MAX_WORKFLOW_INPUT_BYTES)))
  else inl tt.

(** [{ ...input, [key]: value }]. *)
Definition json_set (key : string) (value : json) (v : json) : json :=
  match v with
  | JObject fields =>
      JObject (if existsb (λ kv, String.eqb kv.1 key) fields
               then map (λ kv, if String.eqb kv.1 key then (key, value) else kv) fields
               else fields ++ [(key, value)])
  | _ => v
  end.

(** The bundle the workflow put into its input; the fields besides the URI are those its type
    declares, and an input without them does not occur. *)
Definition bundle_of (input : json) : artifact_reference + raised :=
  let absent := raised_plain (error_of "Prepared input is missing its input bundle.") in
  match json_get "input_bundle" input with
  | Some v =>
      match json_get "uri" v, json_get "digest" v, json_get "media_type" v, json_get "size_bytes" v with
      | Some (JString uri), Some (JString digest), Some (JString media), Some (JNumber size) =>
          inl {| ref_digest := digest; ref_uri := uri; ref_media_type := media; ref_size_bytes := size |}
      | _, _, _, _ => inr absent
      end
  | None => inr absent
  end.

Section Preparation.
Context {O : Type} `{ObjectStore O}.
Context (now : nat → Z) (env : nat → O * run_rows → O * run_rows) (net : nat → transport).
Context (message_of : failure → string) (thrown : failure → caught).
Context (cfg : store_config) (parse_url : string → option url) (bucket : string).
Context (parse_location : string → option (string * string * string)).
(** [parsePublishContextForWorkflow]. *)
Context (parse_context : string → json → json + raised).
(** The Execution service's answer to a submission. *)
Context (submit : string → json → submit_answer).
Context (run_id token : string).

Abbreviation store_call m := (store_call now env net message_of m).

(** ** preparation-claim.ts *)

Definition prep_claim_lost : raised :=
  raised_as PreparationClaimLostError ("Preparation claim was lost for review run " +:+ run_id +:+ ".").

(** A renewal that fails is no proof of loss, one that is refused is. *)
Definition renewPreparation : act O unit :=
  await renewed := store_call (serve (λ n, renewClaim cfg n token)) in
  if renewed : bool then confirm else mark_lost.

Definition assertPreparationOwned : act O unit :=
  renewPreparation ;;>
  await lost := read_lost in
  if lost : bool then raise prep_claim_lost else pure tt.

Definition startPreparationClaimHeartbeat : act O unit :=
  store_call (λ _ t, (Ok tt, t)) ;;> assertPreparationOwned.

(** ** client.ts *)

(** The handler of the service: three transactions and the call of the Execution service, at
    the time of the request. *)
Definition serve_submission (context input : json) : Z → run_rows → result unit * run_rows := λ n t,
  match submitPreparedRun cfg (λ _, n) (λ _ t, t) thrown run_id token context input submit t with
  | (Queued _, t') => (Ok tt, t')
  | (RunNotFound, t') => (Err (HttpStatus 404 "run_not_found"), t')
  | (SubmissionThrew e, t') => (Err (Thrown (caught_message e)), t')
  end.

Definition serve_run : Z → run_rows → result (option ReviewRunRecord) * run_rows := λ _ t,
  match rowToRecord run_id t with
  | None => (Ok None, t)
  | Some (Ok r) => (Ok (Some r), t)
  | Some (Err e) => (Err e, t)
  end.

Definition validateContext (context : json) : act O json :=
  await run := store_call serve_run in
  match run with
  | None => raise (raised_plain (error_of ("Review Runs run does not exist: " +:+ run_id)))
  | Some r => computed (parse_context (rec_workflow r) context)
  end.

(** [new ReviewRunsSubmissionError(message, code)]. *)
Definition submission_raised (e : thrown_error) : raised := {|
  ra_class := ReviewRunsSubmissionError;
  ra_error := {| te_claim_lost := false; te_deterministic := false; te_code := te_code e;
                 te_status := None; te_message := te_message e; te_retry_after := None;
                 te_rate_remaining := None; te_response_message := None |} |}.

Definition submit_prepared (context input : json) : act O unit :=
  await publishContext := validateContext context in
  catch (store_call (serve_submission publishContext input))
    (λ e, raise (submission_raised (ra_error e))).

(** ** input-bundle-publication.ts *)

Definition publishAndSubmitInputBundle (context input : json) : act O unit :=
  await local := computed (bundle_of input) in
  let reference := publishedInputBundleReference bucket local run_id in
  let publishedInput := json_set "input_bundle" (reference_json reference) input in
  computed (assertWorkflowInputFits publishedInput) ;;>
  store_call (serve (λ n, reserve cfg n parse_url run_id token
    {| in_reference := reference; in_input := publishedInput; in_publish_context := context |})) ;;>
  publishInputBundle env bucket parse_location local run_id ;;>
  store_call (serve (λ n, settle cfg n token (ref_digest reference) Candidate.present)) ;;>
  submit_prepared context publishedInput.

(** The reference column, as the client reads it back. *)
Definition reference_of (v : json) : artifact_reference :=
  let text k := match json_get k v with Some (JString s) => s | _ => "" end in
  {| ref_digest := text "digest"; ref_uri := text "uri"; ref_media_type := text "media_type";
     ref_size_bytes := match json_get "size_bytes" v with Some (JNumber n) => n | _ => 0 end |}.

Fixpoint recover_candidates (candidates : list (string * candidate_row)) : act O bool :=
  match candidates with
  | [] => pure false
  | (digest, c) :: rest =>
      let selected := bool_decide (c_status c = Candidate.selected) in
      await there := inputBundleExists env bucket parse_location (reference_of (c_reference c)) in
      if negb there then
        if selected
        then raise (raised_plain (error_of "Selected input bundle is unavailable; cannot replace its input."))
        else store_call (serve (λ n, settle cfg n token digest Candidate.abandoned)) ;;>
             recover_candidates rest
      else
        (if selected then pure tt
         else store_call (serve (λ n, settle cfg n token digest Candidate.present)) ;;> pure tt) ;;>
        submit_prepared (c_publish_context c) (c_input c) ;;>
        pure true
  end.

Definition recoverInputBundlePublication : act O bool :=
  await candidates := store_call (serve (λ n, list_candidates cfg n token)) in
  recover_candidates candidates.

(** ** preparation-command.ts *)

(** [asErrorMessage(error) || fallback]. *)
Definition message_or (fallback : string) (e : raised) : string :=
  let message := te_message (ra_error e) in
  if String.eqb message "" then fallback else message.

(** The failure report of a preparer. *)
Definition failPreparation (code fallback : string) (attempt : Z) (e : raised) (deterministic : bool)
    : act O bool :=
  let c := classifyPreparationFailure e attempt deterministic in
  store_call (serve (λ n, fail n token
    {| err_code := Some code; err_message := message_or fallback e |}
    (pf_retry c) (coalesce (pf_retryAfterMs c) 0))).

(** The report of a command that still owns its claim. *)
Definition record_failure (code fallback : string) (attempt : Z) (e : raised) (deterministic : bool) : act O unit :=
  await lost := read_lost in
  if lost || (bool_decide (ra_class e = ReviewRunsSubmissionError)
              || bool_decide (ra_class e = PreparationClaimLostError))
  then pure tt
  else failPreparation code fallback attempt e deterministic ;;> pure tt.

Definition is_setup_error (e : raised) : bool := bool_decide (ra_class e = SetupDeclarationError).

(** Prepare, prove the claim, publish and submit; a failure is recorded and thrown on.
    [prepare] is the preparation of the workflow: its publish context and its input. *)
Definition prepare_and_submit (prepare : act O (json * json)) : act O unit :=
  await prepared := prepare in
  assertPreparationOwned ;;>
  publishAndSubmitInputBundle prepared.1 prepared.2.

Definition start_failed (fallback : string) (attempt : Z) (e : raised) : act O unit :=
  record_failure (if is_setup_error e then "SETUP_DECLARATION_INVALID" else "REVIEW_START_FAILED")
    fallback attempt e (is_setup_error e) ;;>
  raise e.

(** [runPreparationCommand] on a run this invocation admitted or claimed. *)
Definition runPreparationCommand (attempt : Z) (prepare : act O (json * json)) : act O unit :=
  startPreparationClaimHeartbeat ;;>
  catch
    (await recovered := recoverInputBundlePublication in
     if recovered : bool then pure tt else prepare_and_submit prepare)
    (start_failed "" attempt).

(** ** repository-review.ts *)

Definition dispatch_error (e : raised) : raised :=
  raised_as RepositoryReviewDispatchValidationError
    (message_or "Repository review dispatch request is invalid." e).

(** [dispatchRepositoryReview]: [validated] is the check of the dispatch payload, [resolve]
    reads the repository the dispatch names. *)
Definition dispatchRepositoryReview (attempt : Z) (validated : unit + raised) (resolve : act O unit)
    (prepare : act O (json * json)) : act O unit :=
  match validated with
  | inr e => raise (raised_as RepositoryReviewDispatchValidationError (te_message (ra_error e)))
  | inl _ =>
      startPreparationClaimHeartbeat ;;>
      await recovered := catch
        (await recovered := recoverInputBundlePublication in
         if recovered : bool then pure true else resolve ;;> pure false)
        (λ e, record_failure "REVIEW_PREPARATION_FAILED" "Repository review preparation failed."
                attempt e (bool_decide (ra_class e = RepositoryReviewDispatchValidationError)) ;;>
              raise (dispatch_error e)) in
      if recovered : bool then pure tt
      else catch (prepare_and_submit prepare)
             (start_failed "Repository review could not be started." attempt)
  end.

(** ** preparation-coordinator.ts *)

(** What the three workflows do of their own: reading the input and finding the repository
    ([begin]), preparing the review, and for a repository the checks of the dispatch. *)
Record workflows := {
  wf_begin : string → json → act O unit;
  wf_prepare : string → json → act O (json * json);
  wf_validated : json → unit + raised;
  wf_resolve : json → act O unit;
}.

Definition executeClaimedPreparation (wf : workflows) (work : PreparationWork) : act O unit :=
  let input := w_input work in let attempt := w_attempt_count work in
  if negb (String.eqb (w_input_version work) "v1")
  then raise (raised_as InvalidPreparationInputError
                ("Unsupported preparation input version " +:+ w_input_version work +:+ "."))
  else if negb (json_is_object input)
  then raise (raised_as InvalidPreparationInputError "Preparation input is missing object.")
  else
    let is_kind kind workflow :=
      bool_decide (json_get "kind" input = Some (JString kind)) && String.eqb (w_workflow work) workflow in
    if is_kind "github_issue_review" "issue-review" then
      wf_begin wf "github_issue_review" input ;;>
      runPreparationCommand attempt (wf_prepare wf "github_issue_review" input)
    else if is_kind "github_pull_request_review" "pull-request-review" then
      wf_begin wf "github_pull_request_review" input ;;>
      runPreparationCommand attempt (wf_prepare wf "github_pull_request_review" input)
    else if is_kind "github_repository_review" "repository-review" then
      wf_begin wf "github_repository_review" input ;;>
      dispatchRepositoryReview attempt (wf_validated wf input) (wf_resolve wf input)
        (wf_prepare wf "github_repository_review" input)
    else raise (raised_as InvalidPreparationInputError
                  ("Preparation input kind does not match " +:+ w_workflow work +:+ ".")).

(** [prepareReviewRunsOnce] on the work it claimed, the run and token of the section. *)
Definition prepare_claimed (wf : workflows) (work : PreparationWork) : act O unit :=
  catch (executeClaimedPreparation wf work)
    (λ e, catch (failPreparation "PREPARATION_RECOVERY_FAILED" "" (w_attempt_count work) e false ;;> pure tt)
            (λ _, pure tt)).
End Preparation.
