(* ===== verification/Statistics.v ===== *)
(** The run snapshot built from Langfuse generations
    (statistics/execution-statistics.ts).

    Token counts are JavaScript numbers: each one read is a safe integer, and sums are
    exact as long as they stay below 2^53, which is what the unbounded [Z] of this file
    models.  The SHA-256 of the fingerprint and the ICU collation of [localeCompare] are
    parameters. *)

From stdpp Require Import pretty.
From S2P Require Import Prelude Schema InputBundles.

(** TOKEN_FIELDS. *)
Inductive token_field := TInput | TOutput | TTotal | TCacheRead | TCacheCreation | TReasoning.
Definition TOKEN_FIELDS : list token_field :=
  [TInput; TOutput; TTotal; TCacheRead; TCacheCreation; TReasoning].
#[export] Instance token_field_eq_dec : EqDecision token_field.
Proof. solve_decision. Defined.

Definition token_usage := token_field → option Z.

Record LangfuseObservation := {
  lo_id : string;
  lo_metadata : json;
  lo_model : option json;
  lo_usage : option json;
}.

Record ExecutionStatisticsRead := {
  rd_roots : list string;
  rd_generations : list LangfuseObservation;
  rd_excluded : Z;
}.

(** The coordinates generations are grouped by. *)
Record group_key := {
  gk_agent : string;
  gk_case : option string;
  gk_delivery : option string;
  gk_pass_kind : option string;
  gk_pass_index : option Z;
  gk_batch_index : option Z;
  gk_chunk : option string;
  gk_provider : string;
  gk_model : option string;
}.
#[export] Instance group_key_eq_dec : EqDecision group_key.
Proof. solve_decision. Defined.

Record accumulator := {
  ac_calls : Z;
  ac_reported_calls : Z;
  ac_sums : token_field → Z;
  ac_reported : token_field → Z;
}.

(** [emptyTokenSums], twice. *)
Definition empty_accumulator : accumulator := {|
  ac_calls := 0; ac_reported_calls := 0; ac_sums := λ _, 0; ac_reported := λ _, 0 |}.

(** [typeof value === 'string' && value.trim() !== '']. *)
Definition stringValue (v : option json) : option string :=
  match v with
  | Some (JString s) => if blank s then None else Some s
  | _ => None
  end.

Definition digit (a : Ascii.ascii) : option Z :=
  let n := Z.of_N (Ascii.N_of_ascii a) in
  if (48 <=? n) && (n <=? 57) then Some (n - 48) else None.

Fixpoint parse_digits (acc : Z) (s : string) : option Z :=
  match s with
  | EmptyString => Some acc
  | String a s' => d ← digit a; parse_digits (acc * 10 + d) s'
  end.

(** [/^\d+$/.test(value)], then [Number] and [Number.isSafeInteger]. *)
Definition nonNegativeInteger (v : option json) : option Z :=
  match v with
  | Some (JString (String a s)) =>
      n ← parse_digits 0 (String a s);
      if n <=? MAX_SAFE_INTEGER then Some n else None
  | _ => None
  end.

Definition tokenValue (v : option json) : option Z :=
  match v with
  | Some (JNumber n) => if (0 <=? n) && (n <=? MAX_SAFE_INTEGER) then Some n else None
  | _ => None
  end.

Record ParsedTokenUsage := { pt_usage : token_usage; pt_mismatch : bool }.

Definition tokenUsage (o : LangfuseObservation) : option ParsedTokenUsage :=
  match lo_usage o with
  | None => None
  | Some details =>
      let ordinaryInput := tokenValue (json_get "input" details) in
      let ordinaryOutput := tokenValue (json_get "output" details) in
      let total := tokenValue (json_get "total" details) in
      let cacheRead := tokenValue (json_get "cache_read_input_tokens" details) in
      let cacheCreation := tokenValue (json_get "cache_creation_input_tokens" details) in
      let reasoning := tokenValue (json_get "reasoning" details) in
      if is_null ordinaryInput && is_null ordinaryOutput && is_null total && is_null cacheRead
         && is_null cacheCreation && is_null reasoning
      then None
      else
        let inputTokens := (λ n, n + coalesce cacheRead 0 + coalesce cacheCreation 0) <$> ordinaryInput in
        let outputTokens := (λ n, n + coalesce reasoning 0) <$> ordinaryOutput in
        let derivedTotal := i ← inputTokens; o ← outputTokens; Some (i + o) in
        Some {| pt_usage := λ f, match f with
                  | TInput => inputTokens | TOutput => outputTokens | TTotal => derivedTotal
                  | TCacheRead => cacheRead | TCacheCreation => cacheCreation
                  | TReasoning => reasoning end;
                pt_mismatch := match total, derivedTotal with
                  | Some t, Some d => negb (t =? d)
                  | _, _ => false end |}
  end.

Definition completeTotals (a : accumulator) : token_usage := λ f,
  if (0 <? ac_calls a) && (ac_reported a f =? ac_calls a) then Some (ac_sums a f) else None.

Definition key_of (o : LangfuseObservation) : group_key :=
  let meta k := json_get k (lo_metadata o) in
  {| gk_agent := coalesce (stringValue (meta "sec_review_agent")) "unknown";
     gk_case := stringValue (meta "sec_review_case_id");
     gk_delivery := stringValue (meta "sec_review_delivery_id");
     gk_pass_kind := stringValue (meta "sec_review_pass_kind");
     gk_pass_index := nonNegativeInteger (meta "sec_review_pass_index");
     gk_batch_index := nonNegativeInteger (meta "sec_review_batch_index");
     gk_chunk := stringValue (meta "sec_review_chunk_id");
     gk_provider := coalesce (stringValue (meta "ls_provider")) "unknown";
     gk_model := match stringValue (lo_model o) with
                 | Some m => Some m
                 | None => stringValue (meta "ls_model_name") end |}.

(** One call, into the accumulator of the run or of its group. *)
Definition add_call (a : accumulator) (o : LangfuseObservation) : accumulator :=
  match tokenUsage o with
  | None => {| ac_calls := ac_calls a + 1; ac_reported_calls := ac_reported_calls a;
               ac_sums := ac_sums a; ac_reported := ac_reported a |}
  | Some p => {| ac_calls := ac_calls a + 1; ac_reported_calls := ac_reported_calls a + 1;
                 ac_sums := λ f, ac_sums a f + coalesce (pt_usage p f) 0;
                 ac_reported := λ f, ac_reported a f + (match pt_usage p f with Some _ => 1 | None => 0 end) |}
  end.

(** [groups.get(key)], or a new entry at the end of the Map. *)
Fixpoint add_to_groups (o : LangfuseObservation) (gs : list (group_key * accumulator)) :
    list (group_key * accumulator) :=
  match gs with
  | [] => [(key_of o, add_call empty_accumulator o)]
  | (k, a) :: rest => if bool_decide (k = key_of o) then (k, add_call a o) :: rest
                      else (k, a) :: add_to_groups o rest
  end.

Definition group_calls (os : list LangfuseObservation) : list (group_key * accumulator) :=
  foldl (λ gs o, add_to_groups o gs) [] os.

Record ExecutionStatisticsGroup := {
  sg_key : group_key;
  sg_calls : Z;
  sg_reported_calls : Z;
  sg_usage : token_usage;
}.

Inductive usage_coverage := CompleteForObservedCalls | Partial | UnavailableCoverage.
#[export] Instance usage_coverage_eq_dec : EqDecision usage_coverage.
Proof. solve_decision. Defined.

Record ExecutionStatisticsSnapshot := {
  sn_hash : string;
  sn_roots : Z;
  sn_excluded : Z;
  sn_calls : Z;
  sn_reported_calls : Z;
  sn_coverage : usage_coverage;
  sn_usage : token_usage;
  sn_groups : list ExecutionStatisticsGroup;
  (** Whether the source-total warning is logged. *)
  sn_mismatches : Z;
}.

(** [parts.join('\0')]. *)
Fixpoint join_nul (parts : list string) : string :=
  match parts with
  | [] => EmptyString
  | [s] => s
  | s :: rest => s +:+ String Ascii.zero (join_nul rest)
  end.

Definition sort_key (k : group_key) : string :=
  join_nul [coalesce (gk_case k) ""; coalesce (gk_delivery k) "";
            pretty (coalesce (gk_pass_index k) (-1)); pretty (coalesce (gk_batch_index k) (-1));
            coalesce (gk_chunk k) ""; gk_agent k; gk_provider k; coalesce (gk_model k) ""].

Definition to_group (ka : group_key * accumulator) : ExecutionStatisticsGroup := {|
  sg_key := ka.1; sg_calls := ac_calls ka.2; sg_reported_calls := ac_reported_calls ka.2;
  sg_usage := completeTotals ka.2 |}.

Section Aggregate.
(** [a.localeCompare(b) <= 0], and the comparison [Array.prototype.sort] uses. *)
Context (locale_le code_unit_le : string → string → bool).
(** SHA-256 of the JSON text of the sorted ids, the totals and the groups. *)
Context (fingerprint_hash : list string → list string → token_usage →
           list ExecutionStatisticsGroup → string).

Definition sorted_groups (os : list LangfuseObservation) : list ExecutionStatisticsGroup :=
  to_group <$> sort_by (λ x y, locale_le (sort_key x.1) (sort_key y.1)) (group_calls os).

Definition aggregateExecutionStatistics (r : ExecutionStatisticsRead) :
    ExecutionStatisticsSnapshot :=
  let all := foldl add_call empty_accumulator (rd_generations r) in
  let observed := Z.of_nat (length (rd_generations r)) in
  let totals := completeTotals {| ac_calls := observed;
                                  ac_reported_calls := ac_reported_calls all;
                                  ac_sums := ac_sums all; ac_reported := ac_reported all |} in
  let groups := sorted_groups (rd_generations r) in
  {| sn_hash := fingerprint_hash (sort_by code_unit_le (rd_roots r))
                  (sort_by code_unit_le (lo_id <$> rd_generations r)) totals groups;
     sn_roots := Z.of_nat (length (rd_roots r));
     sn_excluded := rd_excluded r;
     sn_calls := observed;
     sn_reported_calls := ac_reported_calls all;
     sn_coverage := if ac_reported_calls all =? observed
                    then CompleteForObservedCalls else Partial;
     sn_usage := totals;
     sn_groups := groups;
     sn_mismatches := Z.of_nat (length (List.filter
       (λ o, match tokenUsage o with Some p => pt_mismatch p | None => false end)
       (rd_generations r))) |}.
End Aggregate.

(** * Lemmas *)

(** ** The accumulators *)

Definition sum_calls (gs : list (group_key * accumulator)) : accumulator := {|
  ac_calls := foldr (λ ka n, ac_calls ka.2 + n) 0 gs;
  ac_reported_calls := foldr (λ ka n, ac_reported_calls ka.2 + n) 0 gs;
  ac_sums := λ f, foldr (λ ka n, ac_sums ka.2 f + n) 0 gs;
  ac_reported := λ f, foldr (λ ka n, ac_reported ka.2 f + n) 0 gs |}.

(** Pointwise equality, without function extensionality. *)
Record acc_eq (a b : accumulator) : Prop := {
  ae_calls : ac_calls a = ac_calls b;
  ae_reported_calls : ac_reported_calls a = ac_reported_calls b;
  ae_sums : ∀ f, ac_sums a f = ac_sums b f;
  ae_reported : ∀ f, ac_reported a f = ac_reported b f;
}.

#[export] Instance acc_eq_equiv : Equivalence acc_eq.
Proof.
  split.
  - by intros a.
  - intros a b []. by split.
  - intros a b c [] []. split; congruence.
Qed.

#[export] Instance add_call_proper : Proper (acc_eq ==> eq ==> acc_eq) add_call.
Proof.
  intros a b [] o ? <-. unfold add_call. destruct (tokenUsage o); split; simpl; congruence.
Qed.

Lemma add_to_groups_sum o gs :
  acc_eq (sum_calls (add_to_groups o gs)) (add_call (sum_calls gs) o).
Proof.
  induction gs as [|[k a] rest [H1 H2 H3 H4]]; simpl.
  - unfold add_call. destruct (tokenUsage o); split; simpl; intros; lia.
  - unfold add_call in *. destruct (bool_decide (k = key_of o)), (tokenUsage o) as [p|];
      split; simpl in *; intros;
      rewrite ?H1, ?H2, ?H3, ?H4; lia.
Qed.

(** What the groups hold together is what the run accumulates. *)
Lemma group_calls_sum os :
  acc_eq (sum_calls (group_calls os)) (foldl add_call empty_accumulator os).
Proof.
  unfold group_calls.
  assert (H : ∀ gs a, acc_eq (sum_calls gs) a →
    acc_eq (sum_calls (foldl (λ gs o, add_to_groups o gs) gs os)) (foldl add_call a os)).
  { induction os as [|o os IH]; intros gs a Ha; simpl; [done|].
    apply IH. rewrite add_to_groups_sum. by rewrite Ha. }
  by apply H.
Qed.

(** A call counter never exceeds the calls it counts. *)
Record acc_ok (a : accumulator) : Prop := {
  ao_reported_calls : 0 <= ac_reported_calls a <= ac_calls a;
  ao_reported : ∀ f, 0 <= ac_reported a f <= ac_reported_calls a;
  ao_sums : ∀ f, 0 <= ac_sums a f;
}.

Lemma tokenValue_nonneg v n : tokenValue v = Some n → 0 <= n.
Proof. destruct v as [[]|]; simpl; try done. destruct (_ && _) eqn:H; [|done].
  intros [= <-]. destruct_guard. lia. Qed.

Lemma tokenUsage_nonneg o p f n : tokenUsage o = Some p → pt_usage p f = Some n → 0 <= n.
Proof.
  unfold tokenUsage. destruct (lo_usage o) as [details|]; [|done].
  destruct (_ && _); [done|]. intros [= <-]. simpl.
  destruct (tokenValue (json_get "input" details)) as [i|] eqn:Hi,
    (tokenValue (json_get "output" details)) as [u|] eqn:Hu,
    (tokenValue (json_get "cache_read_input_tokens" details)) as [c|] eqn:Hc,
    (tokenValue (json_get "cache_creation_input_tokens" details)) as [w|] eqn:Hw,
    (tokenValue (json_get "reasoning" details)) as [r|] eqn:Hr;
    repeat match goal with H : tokenValue _ = Some _ |- _ => apply tokenValue_nonneg in H end;
    destruct f; simpl; intros [= <-]; lia.
Qed.

Lemma add_call_ok a o : acc_ok a → acc_ok (add_call a o).
Proof.
  intros [H1 H2 H3]. unfold add_call. destruct (tokenUsage o) as [p|] eqn:Hp; split; simpl;
    intros; try specialize (H2 f); try specialize (H3 f); try lia.
  - destruct (pt_usage p f); lia.
  - destruct (pt_usage p f) as [n|] eqn:Hn; simpl; [|lia].
    pose proof (tokenUsage_nonneg _ _ _ _ Hp Hn). lia.
Qed.

Lemma fold_calls_ok os a : acc_ok a → acc_ok (foldl add_call a os).
Proof. revert a. induction os as [|o os IH]; intros a Ha; simpl; [done|]. by apply IH, add_call_ok. Qed.

Lemma empty_accumulator_ok : acc_ok empty_accumulator.
Proof. split; simpl; intros; lia. Qed.

Lemma fold_calls_count os : ac_calls (foldl add_call empty_accumulator os) = Z.of_nat (length os).
Proof.
  assert (H : ∀ a, ac_calls (foldl add_call a os) = ac_calls a + Z.of_nat (length os)).
  { induction os as [|o os IH]; intros a; cbn [foldl length]; [lia|]. rewrite IH.
    unfold add_call. destruct (tokenUsage o); simpl; lia. }
  rewrite H. simpl. lia.
Qed.

(** ** The groups *)

Lemma add_to_groups_keys o gs :
  (add_to_groups o gs).*1 = if bool_decide (key_of o ∈ gs.*1) then gs.*1 else gs.*1 ++ [key_of o].
Proof.
  induction gs as [|[k a] rest IH]; [done|]. cbn [add_to_groups].
  destruct (decide (k = key_of o)) as [->|Hk].
  - rewrite bool_decide_eq_true_2 by done. rewrite !fmap_cons. simpl.
    by rewrite bool_decide_eq_true_2 by (by left).
  - rewrite bool_decide_eq_false_2 by done. rewrite !fmap_cons, IH. simpl.
    destruct (decide (key_of o ∈ rest.*1)) as [Hin|Hin].
    + rewrite !bool_decide_eq_true_2; [done|by right|done].
    + rewrite !bool_decide_eq_false_2; [done| |done].
      intros [?|?]%elem_of_cons; congruence.
Qed.

Lemma group_calls_nodup os : NoDup (group_calls os).*1.
Proof.
  unfold group_calls.
  assert (H : ∀ gs : list (group_key * accumulator), NoDup gs.*1 →
    NoDup (foldl (λ gs o, add_to_groups o gs) gs os).*1).
  { induction os as [|o os IH]; intros gs Hgs; simpl; [done|]. apply IH.
    rewrite add_to_groups_keys. destruct (bool_decide _) eqn:Hin; [done|].
    apply bool_decide_eq_false in Hin. apply NoDup_app. repeat split; [done| |apply NoDup_singleton].
    intros k Hk ->%list_elem_of_singleton. done. }
  apply H. constructor.
Qed.

Lemma add_to_groups_ok o gs :
  Forall (λ ka, acc_ok ka.2 ∧ 0 < ac_calls ka.2) gs →
  Forall (λ ka, acc_ok ka.2 ∧ 0 < ac_calls ka.2) (add_to_groups o gs).
Proof.
  assert (Hone : ∀ a, acc_ok a → 0 <= ac_calls a → acc_ok (add_call a o) ∧ 0 < ac_calls (add_call a o)).
  { intros a Ha Hc. split; [by apply add_call_ok|]. unfold add_call. destruct (tokenUsage o); simpl; lia. }
  induction gs as [|[k a] rest IH]; simpl; intros Hf.
  - repeat constructor; simpl; apply Hone; first [apply empty_accumulator_ok | done].
  - apply Forall_cons in Hf as [[Ha Hc] Hf]. simpl in Ha, Hc.
    destruct (bool_decide _); constructor; auto. apply Hone; [done|lia].
Qed.

Lemma group_calls_ok os : Forall (λ ka, acc_ok ka.2 ∧ 0 < ac_calls ka.2) (group_calls os).
Proof.
  unfold group_calls.
  assert (H : ∀ gs, Forall (λ ka : group_key * accumulator, acc_ok ka.2 ∧ 0 < ac_calls ka.2) gs →
    Forall (λ ka, acc_ok ka.2 ∧ 0 < ac_calls ka.2) (foldl (λ gs o, add_to_groups o gs) gs os)).
  { induction os as [|o os IH]; intros gs Hgs; simpl; [done|]. by apply IH, add_to_groups_ok. }
  by apply H.
Qed.

(** When a field is reported by every call of the run, it is by every call of a group. *)
Lemma reported_by_all (gs : list (group_key * accumulator)) f :
  Forall (λ ka, acc_ok ka.2) gs →
  foldr (λ ka n, ac_reported ka.2 f + n) 0 gs = foldr (λ ka n, ac_calls ka.2 + n) 0 gs →
  Forall (λ ka, ac_reported ka.2 f = ac_calls ka.2) gs.
Proof.
  intros Hok. assert (Hle : ∀ l : list (group_key * accumulator), Forall (λ ka, acc_ok ka.2) l →
    foldr (λ ka n, ac_reported ka.2 f + n) 0 l <= foldr (λ ka n, ac_calls ka.2 + n) 0 l).
  { induction 1 as [|ka l [H1 H2 _] _ IH]; simpl; [lia|]. specialize (H2 f). lia. }
  induction Hok as [|ka l [H1 H2 H3] Hl IH]; simpl; intros Heq; [done|].
  specialize (H2 f). specialize (Hle l Hl).
  constructor; [lia|apply IH; lia].
Qed.
