(* ===== verification/StatisticsStore.v ===== *)
(** The statistics queue (statistics/execution-statistics-store.ts) and the pass that
    drains it (statistics/execution-statistics-coordinator.ts). *)

From S2P Require Import Prelude Schema Tables Database RunRecord Statistics.

Module Stat.
Inductive status := pending | reconciling | settled | unavailable.
#[global] Instance status_eq_dec : EqDecision status.
Proof. solve_decision. Defined.
Inductive ingestion := i_settled | partial_window | no_observations | i_unavailable.
#[global] Instance ingestion_eq_dec : EqDecision ingestion.
Proof. solve_decision. Defined.
Definition terminal (s : status) : bool :=
  match s with settled | unavailable => true | _ => false end.
End Stat.

Record stat_row := {
  k_status : Stat.status;
  k_ingestion : option Stat.ingestion;
  k_coverage : option usage_coverage;
  k_hash : option string;
  k_roots : Z;
  k_excluded : Z;
  k_calls : Z;
  k_reported_calls : Z;
  k_usage : token_usage;
  k_failures : Z;
  k_next_attempt_at : Z;
  k_deadline : option Z;
  k_claim_token : option string;
  k_claimed_at : option Z;
  k_failure_code : option string;
  k_settled_at : option Z;
  k_updated_at : Z;
}.

(** [input_tokens >= 0] and its siblings: true on NULL. *)
Definition usage_nonneg (u : token_usage) : bool :=
  forallb (λ f, match u f with Some n => 0 <=? n | None => true end) TOKEN_FIELDS.
#[global] Arguments usage_nonneg : simpl never.

(** The ranges of integer and bigint.  (Texts are taken to fit: they hold no NUL character and
    are short enough for the index.) *)
Definition int4 (n : Z) : bool := (- 2 ^ 31 <=? n) && (n <? 2 ^ 31).
Definition int8 (n : Z) : bool := (- 2 ^ 63 <=? n) && (n <? 2 ^ 63).
Definition nullable {A} (p : A → bool) (x : option A) : bool := match x with Some a => p a | None => true end.
#[global] Arguments int4 : simpl never.
#[global] Arguments int8 : simpl never.

Definition usage_fits (u : token_usage) : bool := forallb (λ f, nullable int8 (u f)) TOKEN_FIELDS.
#[global] Arguments usage_fits : simpl never.

(** The counts and tokens of a row of execution_statistics fit their columns. *)
Definition stat_fits (k : stat_row) : bool :=
  int4 (k_roots k) && int4 (k_excluded k) && int4 (k_calls k) && int4 (k_reported_calls k)
  && usage_fits (k_usage k) && int4 (k_failures k).

(** The numbers of a row of execution_statistics_groups fit theirs. *)
Definition group_fits (g : ExecutionStatisticsGroup) : bool :=
  nullable int4 (gk_pass_index (sg_key g)) && nullable int4 (gk_batch_index (sg_key g))
  && int4 (sg_calls g) && int4 (sg_reported_calls g) && usage_fits (sg_usage g).

(** The CHECKs of execution_statistics. *)
Definition stat_check (k : stat_row) : bool :=
  (0 <=? k_roots k) && (0 <=? k_excluded k) && (0 <=? k_calls k) && (0 <=? k_reported_calls k)
  && usage_nonneg (k_usage k)
  && (0 <=? k_failures k)
  && (if decide (k_status k = Stat.reconciling)
      then not_null (k_claim_token k) && not_null (k_claimed_at k)
      else is_null (k_claim_token k) && is_null (k_claimed_at k))
  && (bool_decide (k_status k = Stat.pending) || not_null (k_deadline k))
  && Bool.eqb (Stat.terminal (k_status k)) (not_null (k_ingestion k))
  && Bool.eqb (Stat.terminal (k_status k)) (not_null (k_settled_at k))
  && Bool.eqb (bool_decide (k_status k = Stat.unavailable)) (not_null (k_failure_code k)).

(** The CHECKs of one row of execution_statistics_groups. *)
Definition group_check (g : ExecutionStatisticsGroup) : bool :=
  match gk_pass_index (sg_key g) with Some n => 0 <=? n | None => true end
  && match gk_batch_index (sg_key g) with Some n => 1 <=? n | None => true end
  && (0 <? sg_calls g) && (0 <=? sg_reported_calls g)
  && usage_nonneg (sg_usage g)
  && (sg_reported_calls g <=? sg_calls g).

(** execution_statistics with its groups. *)
Abbreviation stats := (gmap string (stat_row * list ExecutionStatisticsGroup)).

(** Times in the milliseconds of an ISO string. *)
Record ExecutionStatisticsWork := {
  xw_run_id : string;
  xw_claim_token : string;
  xw_started_at : Z;
  xw_finished_at : Z;
}.

Inductive snapshot_result := RPending | RSettled | RPartialWindow | RNoObservations | RUnavailable.

(** [UPDATE execution_statistics ... WHERE run_id=$1 AND status='reconciling' AND
    claim_token=$2]. *)
Definition holds_statistics (token : string) (k : stat_row) : bool :=
  bool_decide (k_status k = Stat.reconciling) && sql_eq (k_claim_token k) token.

Definition put_stat (runId : string) (k : stat_row) (gs : list ExecutionStatisticsGroup) :
    tx stats unit := λ s,
  if negb (stat_fits k) then Err (NumericOutOfRange "execution_statistics")
  else if negb (stat_check k) then Err (CheckViolation "execution_statistics")
  else Ok (tt, <[runId := (k, gs)]> s).

(** One INSERT per group, beside those that are there: the first error. *)
Fixpoint insert_groups (there : list group_key) (gs : list ExecutionStatisticsGroup) : option failure :=
  match gs with
  | [] => None
  | g :: rest =>
      if negb (group_fits g) then Some (NumericOutOfRange "execution_statistics_groups")
      else if negb (group_check g) then Some (CheckViolation "execution_statistics_groups")
      else if bool_decide (sg_key g ∈ there) then Some (UniqueViolation "execution_statistics_groups_key")
      else insert_groups (sg_key g :: there) rest
  end.

(** DELETE, then the INSERTs. *)
Definition put_groups (runId : string) (k : stat_row) (gs : list ExecutionStatisticsGroup) :
    tx stats unit := λ s,
  match insert_groups [] gs with
  | Some e => Err e
  | None => Ok (tt, <[runId := (k, gs)]> s)
  end.

Definition claim_lost : failure := Thrown "Execution statistics claim was lost.".

Section StatisticsStore.
Context (cfg : store_config) (now : Z).
Context (initialDelayMs settlementWindowMs : Z).

Definition new_stat (finished_at : Z) : stat_row := {|
  k_status := Stat.pending; k_ingestion := None; k_coverage := None; k_hash := None;
  k_roots := 0; k_excluded := 0; k_calls := 0; k_reported_calls := 0; k_usage := λ _, None;
  k_failures := 0; k_next_attempt_at := finished_at + ms initialDelayMs; k_deadline := None;
  k_claim_token := None; k_claimed_at := None; k_failure_code := None;
  k_settled_at := None; k_updated_at := now |}.

(** The terminal executions of the connector, with their start and end. *)
Definition terminal_times (t : run_rows) : option (Z * Z) :=
  e ← t_exec t;
  if bool_decide (e_status e = Exec.succeeded) || bool_decide (e_status e = Exec.failed)
  then s ← e_started_at e; f ← e_finished_at e; Some (s, f)
  else None.

(** INSERT ... SELECT ... ON CONFLICT (run_id) DO NOTHING. *)
Definition admit_terminal (d : db) : tx stats unit := λ s,
  Ok (tt, foldr (λ kt acc, match terminal_times kt.2, acc !! kt.1 with
                           | Some (_, f), None => <[kt.1 := (new_stat f, [])]> acc
                           | _, _ => acc
                           end) s
            (select_runs cfg (λ _, false) (λ _, true) d)).

Definition stat_due (k : stat_row) : bool :=
  (k_next_attempt_at k <=? now)
  && (bool_decide (k_status k = Stat.pending)
      || (bool_decide (k_status k = Stat.reconciling)
          && lease_expired (k_claimed_at k) now (claim_timeout_ms cfg))).

(** ORDER BY next_attempt_at, run_id. *)
Definition stat_order (x y : string * (stat_row * list ExecutionStatisticsGroup)) : bool :=
  (k_next_attempt_at x.2.1 <? k_next_attempt_at y.2.1)
  || ((k_next_attempt_at x.2.1 =? k_next_attempt_at y.2.1) && String.leb x.1 y.1).

Definition due_rows (d : db) (locked : string → bool) (s : stats) :
    list (string * (stat_row * list ExecutionStatisticsGroup)) :=
  List.filter (λ x, match d_runs d !! x.1 with
                    | Some t => visible (connector_id cfg) t
                    | None => false
                    end && negb (locked x.1) && stat_due x.2.1) (map_to_list s).

Definition claim_stat (token : string) (k : stat_row) : stat_row :=
  k <| k_status := Stat.reconciling |> <| k_claim_token := Some token |>
    <| k_claimed_at := Some now |>
    <| k_deadline := Some (coalesce (k_deadline k) (now + ms settlementWindowMs)) |>
    <| k_updated_at := now |>.

Definition claimNextStatistics (d : db) (locked : string → bool) (token : string) :
    tx stats (option ExecutionStatisticsWork) :=
  admit_terminal d ;;;
  let! selected := read (λ s, first_by stat_order (due_rows d locked s)) in
  match selected with
  | None => ret None
  | Some (runId, (k, gs)) =>
      match d_runs d !! runId ≫= t_exec with
      | None => throw (Thrown "Execution statistics work changed while claiming.")
      | Some e =>
          put_stat runId (claim_stat token k) gs ;;;
          ret (Some {| xw_run_id := runId; xw_claim_token := token;
                       xw_started_at := iso (coalesce (e_started_at e) 0);
                       xw_finished_at := iso (coalesce (e_finished_at e) 0) |})
      end
  end.

(** What one successful read means for the row. *)
Definition snapshot_stable (k : stat_row) (sn : ExecutionStatisticsSnapshot) : bool :=
  (0 <? sn_roots sn) && sql_eq (k_hash k) (sn_hash sn).

Definition deadline_reached (k : stat_row) : bool :=
  match k_deadline k with Some t => t <=? now | None => false end.

Definition snapshot_outcome (k : stat_row) (sn : ExecutionStatisticsSnapshot) : snapshot_result :=
  if snapshot_stable k sn then RSettled
  else if deadline_reached k
  then if 0 <? sn_roots sn then RPartialWindow else RNoObservations
  else RPending.

Definition ingestion_of (r : snapshot_result) : option Stat.ingestion :=
  match r with
  | RSettled => Some Stat.i_settled
  | RPartialWindow => Some Stat.partial_window
  | RNoObservations => Some Stat.no_observations
  | RUnavailable => Some Stat.i_unavailable
  | RPending => None
  end.

Definition snapshot_row (sn : ExecutionStatisticsSnapshot) (confirmationDelayMs : Z)
    (k : stat_row) : stat_row :=
  let result := snapshot_outcome k sn in
  let terminal := snapshot_stable k sn || deadline_reached k in
  k <| k_status := if terminal then Stat.settled else Stat.pending |>
    <| k_ingestion := if terminal then ingestion_of result else None |>
    <| k_coverage := match result with
                     | RNoObservations => None
                     | _ => Some (sn_coverage sn) end |>
    <| k_hash := Some (sn_hash sn) |> <| k_roots := sn_roots sn |>
    <| k_excluded := sn_excluded sn |> <| k_calls := sn_calls sn |>
    <| k_reported_calls := sn_reported_calls sn |> <| k_usage := sn_usage sn |>
    <| k_next_attempt_at := if terminal then k_next_attempt_at k
                            else now + ms confirmationDelayMs |>
    <| k_failures := 0 |> <| k_claim_token := None |> <| k_claimed_at := None |>
    <| k_failure_code := None |>
    <| k_settled_at := if terminal then Some now else None |>
    <| k_updated_at := now |>.

Definition recordSnapshot (work : ExecutionStatisticsWork) (sn : ExecutionStatisticsSnapshot)
    (confirmationDelayMs : Z) : tx stats snapshot_result :=
  let! row := read (λ s, s !! xw_run_id work) in
  match row with
  | Some (k, gs) =>
      if holds_statistics (xw_claim_token work) k then
        let k' := snapshot_row sn confirmationDelayMs k in
        put_stat (xw_run_id work) k' gs ;;;
        put_groups (xw_run_id work) k' (sn_groups sn) ;;;
        ret (snapshot_outcome k sn)
      else throw claim_lost
  | None => throw claim_lost
  end.

Definition failure_row (maxFailures retryDelayMs : Z) (k : stat_row) : stat_row :=
  let spent := maxFailures <=? k_failures k + 1 in
  k <| k_failures := k_failures k + 1 |>
    <| k_status := if spent then Stat.unavailable else Stat.pending |>
    <| k_ingestion := if spent then Some Stat.i_unavailable else None |>
    <| k_coverage := if spent then Some UnavailableCoverage else k_coverage k |>
    <| k_failure_code := if spent then Some "LANGFUSE_UNAVAILABLE" else None |>
    <| k_next_attempt_at := now + ms retryDelayMs |>
    <| k_claim_token := None |> <| k_claimed_at := None |>
    <| k_settled_at := if spent then Some now else None |>
    <| k_updated_at := now |>.

Definition rate_limit_row (retryDelayMs : Z) (k : stat_row) : stat_row :=
  let exhausted := match k_deadline k with Some t => t <=? now + ms retryDelayMs | None => false end in
  k <| k_status := if exhausted then Stat.unavailable else Stat.pending |>
    <| k_ingestion := if exhausted then Some Stat.i_unavailable else None |>
    <| k_coverage := if exhausted then Some UnavailableCoverage else k_coverage k |>
    <| k_failure_code := if exhausted then Some "LANGFUSE_RATE_LIMITED" else None |>
    <| k_next_attempt_at := match k_deadline k with
                            | Some t => Z.min (now + ms retryDelayMs) t
                            | None => now + ms retryDelayMs end |>
    <| k_claim_token := None |> <| k_claimed_at := None |>
    <| k_settled_at := if exhausted then Some now else None |>
    <| k_updated_at := now |>.

(** The shape of both: one fenced UPDATE that returns the new status. *)
Definition conclude_read (work : ExecutionStatisticsWork) (set : stat_row → stat_row) :
    tx stats snapshot_result :=
  let! row := read (λ s, s !! xw_run_id work) in
  match row with
  | Some (k, gs) =>
      if holds_statistics (xw_claim_token work) k then
        put_stat (xw_run_id work) (set k) gs ;;;
        ret (if Stat.terminal (k_status (set k)) then RUnavailable else RPending)
      else throw claim_lost
  | None => throw claim_lost
  end.

Definition recordFailure (work : ExecutionStatisticsWork) (maxFailures retryDelayMs : Z) :
    tx stats snapshot_result :=
  conclude_read work (failure_row maxFailures retryDelayMs).

Definition recordRateLimit (work : ExecutionStatisticsWork) (retryDelayMs : Z) :
    tx stats snapshot_result :=
  conclude_read work (rate_limit_row retryDelayMs).
End StatisticsStore.

(** ** The pass *)

Definition OBSERVATION_TIME_MARGIN_MS : Z := 5 * 60 * 1000.

(** What reading Langfuse and aggregating came to. *)
Inductive read_answer :=
  | ReadSnapshot (sn : ExecutionStatisticsSnapshot)
  | ReadRateLimited (retryAfterMs : option Z)
  | ReadFailed.

Inductive pass_report :=
  | OnResult (runId : string) (result : snapshot_result)
  | OnError (runId : string).

Section Pass.
Context (cfg : store_config) (initialDelayMs settlementWindowMs : Z).
Context (confirmationDelayMs maxFailures retryDelayMs : Z).
(** Each item happens at its own time, on the coordination rows of that time. *)
Context (now : nat → Z) (rows : nat → db) (locked : nat → string → bool)
  (token : nat → string).
(** [langfuse.readRun] on the window of the work, aggregated. *)
Context (readRun : string → Z → Z → read_answer).

Definition read_work (w : ExecutionStatisticsWork) : read_answer :=
  readRun (xw_run_id w) (xw_started_at w - OBSERVATION_TIME_MARGIN_MS)
    (xw_finished_at w + OBSERVATION_TIME_MARGIN_MS).

Definition reconcileClaimedWork (i : nat) (w : ExecutionStatisticsWork) (s : stats) :
    result (list pass_report) * stats :=
  match read_work w with
  | ReadRateLimited retryAfter =>
      match transaction (recordRateLimit (now i) w (coalesce retryAfter retryDelayMs)) s with
      | (Ok r, s') => (Ok [OnResult (xw_run_id w) r], s')
      | (Err e, s') => (Err e, s')
      end
  | ReadFailed =>
      match transaction (recordFailure (now i) w maxFailures retryDelayMs) s with
      | (Ok RUnavailable, s') =>
          (Ok [OnError (xw_run_id w); OnResult (xw_run_id w) RUnavailable], s')
      | (Ok _, s') => (Ok [OnError (xw_run_id w)], s')
      | (Err e, s') => (Err e, s')
      end
  | ReadSnapshot sn =>
      match transaction (recordSnapshot (now i) w sn confirmationDelayMs) s with
      | (Ok r, s') => (Ok [OnResult (xw_run_id w) r], s')
      | (Err e, s') => (Err e, s')
      end
  end.

(** [todo] is [maxItems - processed], [i] is [processed]. *)
Fixpoint reconcile_from (todo i : nat) (acc : list pass_report) (s : stats) :
    result (nat * list pass_report) * stats :=
  match todo with
  | O => (Ok (i, acc), s)
  | S todo' =>
      match transaction (claimNextStatistics cfg (now i) initialDelayMs settlementWindowMs
                           (rows i) (locked i) (token i)) s with
      | (Err e, s') => (Err e, s')
      | (Ok None, s') => (Ok (i, acc), s')
      | (Ok (Some w), s') =>
          match reconcileClaimedWork i w s' with
          | (Err e, s'') => (Err e, s'')
          | (Ok reports, s'') => reconcile_from todo' (S i) (acc ++ reports) s''
          end
      end
  end.

Definition reconcileExecutionStatisticsPass (maxItems : nat) (s : stats) :
    result (nat * list pass_report) * stats :=
  reconcile_from maxItems 0 [] s.
End Pass.
