(* ===== verification/RunList.v ===== *)
(** The run list and the statistics read of the read model (persistence/review-run-queries.ts):
    the cursor and its wire form, filters, keyset pages, execution statistics.

    PostgreSQL writes and reads the text of an instant and JavaScript tests it
    ([Date.parse]); these, and how Node renders bytes that are not UTF-8, are parameters. *)

From S2P Require Import Prelude Schema Tables Database RunRecord ExecutionStore Queries.
From S2P Require Import Statistics StatisticsStore.

(** * base64url *)

(** A character of the alphabet stands for six bits, most significant first. *)
Inductive sextet := Sextet (b5 b4 b3 b2 b1 b0 : bool).

Definition sextet_value (x : sextet) : nat :=
  let 'Sextet b5 b4 b3 b2 b1 b0 := x in
  let bit (b : bool) (n : nat) := if b then n else 0%nat in
  (bit b5 32 + bit b4 16 + bit b3 8 + bit b2 4 + bit b1 2 + bit b0 1)%nat.

Definition alphabet : string :=
  "ABCDEFGHIJKLMNOPQRSTUVWXYZabcdefghijklmnopqrstuvwxyz0123456789-_".

Definition sextet_char (x : sextet) : Ascii.ascii :=
  match String.get (sextet_value x) alphabet with Some a => a | None => Ascii.zero end.

(** [Buffer.from(s).toString('base64url')]: no padding. *)
Fixpoint to_base64url (s : string) : string :=
  match s with
  | EmptyString => EmptyString
  | String (Ascii.Ascii a0 a1 a2 a3 a4 a5 a6 a7) rest =>
      String (sextet_char (Sextet a7 a6 a5 a4 a3 a2))
        match rest with
        | EmptyString => String (sextet_char (Sextet a1 a0 false false false false)) EmptyString
        | String (Ascii.Ascii b0 b1 b2 b3 b4 b5 b6 b7) rest' =>
            String (sextet_char (Sextet a1 a0 b7 b6 b5 b4))
              match rest' with
              | EmptyString => String (sextet_char (Sextet b3 b2 b1 b0 false false)) EmptyString
              | String (Ascii.Ascii c0 c1 c2 c3 c4 c5 c6 c7) rest'' =>
                  String (sextet_char (Sextet b3 b2 b1 b0 c7 c6))
                    (String (sextet_char (Sextet c5 c4 c3 c2 c1 c0)) (to_base64url rest''))
              end
        end
  end.

Definition six_bits (n : N) : sextet :=
  Sextet (N.testbit n 5) (N.testbit n 4) (N.testbit n 3) (N.testbit n 2) (N.testbit n 1) (N.testbit n 0).

(** The six bits of a character; the two of the plain base64 alphabet are accepted too. *)
Definition char_sextet (a : Ascii.ascii) : option sextet :=
  let n := Ascii.N_of_ascii a in
  let within (lo hi : N) := ((lo <=? n) && (n <=? hi))%N in
  if within 65%N 90%N then Some (six_bits (n - 65)%N)
  else if within 97%N 122%N then Some (six_bits (n - 71)%N)
  else if within 48%N 57%N then Some (six_bits (n + 4)%N)
  else if ((n =? 45) || (n =? 43))%N then Some (six_bits 62)
  else if ((n =? 95) || (n =? 47))%N then Some (six_bits 63)
  else None.

(** '=' and '|'. *)
Definition padding : Ascii.ascii := Ascii.ascii_of_N 61.
Definition bar : Ascii.ascii := Ascii.ascii_of_N 124.

(** Reading stops at a padding character and skips the ones outside the alphabet. *)
Fixpoint read_sextets (s : string) : list sextet :=
  match s with
  | EmptyString => []
  | String a rest =>
      if Ascii.eqb a padding then []
      else match char_sextet a with
           | Some x => x :: read_sextets rest
           | None => read_sextets rest
           end
  end.

Fixpoint join_sextets (l : list sextet) : string :=
  match l with
  | Sextet a7 a6 a5 a4 a3 a2 :: Sextet a1 a0 b7 b6 b5 b4 :: rest =>
      String (Ascii.Ascii a0 a1 a2 a3 a4 a5 a6 a7)
        match rest with
        | Sextet b3 b2 b1 b0 c7 c6 :: rest' =>
            String (Ascii.Ascii b0 b1 b2 b3 b4 b5 b6 b7)
              match rest' with
              | Sextet c5 c4 c3 c2 c1 c0 :: rest'' =>
                  String (Ascii.Ascii c0 c1 c2 c3 c4 c5 c6 c7) (join_sextets rest'')
              | [] => EmptyString
              end
        | [] => EmptyString
        end
  | _ => EmptyString
  end.

(** [Buffer.from(s, 'base64url')]. *)
Definition of_base64url (s : string) : string := join_sextets (read_sextets s).

(** [s.split('|')]. *)
Fixpoint split_bar (s : string) : list string :=
  match s with
  | EmptyString => [EmptyString]
  | String a rest =>
      if Ascii.eqb a bar then EmptyString :: split_bar rest
      else match split_bar rest with
           | part :: parts => String a part :: parts
           | [] => [String a EmptyString]
           end
  end.

(** * The cursor *)

Record RunListCursor := { created_at_cursor : string; cursor_run_id : string }.

Record ListRunsOptions := {
  o_limit : option nat;
  o_cursor : option string;
  o_execution_status : option Exec.status;
  o_publication_status : option Pub.status;
  o_preparation_status : option Prep.status;
  o_source_platform : option string;
  o_workflow : option string;
  o_from : option Z;
  o_to : option Z;
}.

Section Cursor.
(** [Buffer.toString('utf8')], and whether [Date.parse] reads the text. *)
Context (utf8 : string → string) (date_parses : string → bool).

Definition encodeRunListCursor (cursor : RunListCursor) : string :=
  to_base64url (created_at_cursor cursor +:+ "|" +:+ cursor_run_id cursor).

Definition decodeRunListCursor (cursor : string) : option RunListCursor :=
  match split_bar (utf8 (of_base64url cursor)) with
  | [createdAt; runId] =>
      if String.eqb createdAt "" || String.eqb runId "" then None
      else if negb (date_parses createdAt) then None
      else Some {| created_at_cursor := createdAt; cursor_run_id := runId |}
  | _ => None
  end.
End Cursor.

(** * Pages *)

(** ORDER BY r.created_at DESC, r.run_id DESC. *)
Definition created_at (t : run_rows) : Z := match t_run t with Some r => r_created_at r | None => 0 end.
Definition newest_first (x y : string * run_rows) : bool := order_by created_at y x.

(** [column = $n] where the filter is given. *)
Definition matches {A} `{EqDecision A} (filter : option A) (value : A) : bool :=
  match filter with Some v => bool_decide (value = v) | None => true end.

(** The clauses, on the joined row: a missing executions or preparations row passes. *)
Definition row_matches (o : ListRunsOptions) (t : run_rows) : bool :=
  match t_run t, t_pub t with
  | Some r, Some u =>
      matches (o_workflow o) (r_workflow r) && matches (o_source_platform o) (r_source_platform r)
      && match t_exec t with Some e => matches (o_execution_status o) (e_status e) | None => true end
      && matches (o_publication_status o) (u_status u)
      && match t_prep t with Some p => matches (o_preparation_status o) (p_status p) | None => true end
      && match o_from o with Some n => n <=? r_created_at r | None => true end
      && match o_to o with Some n => r_created_at r <? n | None => true end
  | _, _ => false
  end.

(** [(r.created_at, r.run_id) < (c, id)]. *)
Definition before (c : Z) (id : string) (x : string * run_rows) : bool :=
  (created_at x.2 <? c) || ((created_at x.2 =? c) && String.ltb x.1 id).

Record run_page := {
  pg_runs : list ReviewRunRecord;
  pg_next_cursor : option string;
  pg_dropped : list DroppedRunRow;
}.

Section Pages.
Context (utf8 : string → string) (date_parses : string → bool).
(** The text PostgreSQL writes for an instant, and the instant it reads from one. *)
Context (timestamp_text : Z → string) (timestamp_of : string → option Z).
Context (cfg : store_config).

Definition listRunRows (o : ListRunsOptions) (limit : nat) (d : db) :
    result (list (string * run_rows)) :=
  let rows := select_runs cfg (λ _, false) (row_matches o) d in
  match o_cursor o with
  | None => Ok (take limit (sort_by newest_first rows))
  | Some wire =>
      match decodeRunListCursor utf8 date_parses wire with
      | None => Err (Thrown "Invalid run list cursor.")
      | Some c =>
          match timestamp_of (created_at_cursor c) with
          | None => Err (Thrown "invalid input syntax for type timestamp with time zone")
          | Some at_ => Ok (take limit (sort_by newest_first
                              (List.filter (before at_ (cursor_run_id c)) rows)))
          end
      end
  end.

(** [created_at_cursor] of RUN_SELECT, with the id of the row. *)
Definition row_cursor (kt : string * run_rows) : RunListCursor :=
  {| created_at_cursor := timestamp_text (created_at kt.2); cursor_run_id := kt.1 |}.

Definition listRunsPage (o : ListRunsOptions) (d : db) : result run_page :=
  let limit := coalesce (o_limit o) 50%nat in
  match listRunRows o (S limit) d with
  | Err e => Err e
  | Ok rows =>
      let page := take limit rows in
      let p := projectRunRows page in
      Ok {| pg_runs := pr_runs p;
            pg_next_cursor :=
              if (limit <? length rows)%nat
              then (encodeRunListCursor ∘ row_cursor) <$> last page
              else None;
            pg_dropped := pr_dropped p |}
  end.
End Pages.

(** * Execution statistics *)

(** The columns the summary reads, with the groups in their order. *)
Record ExecutionStatisticsSummary := {
  xs_reconciliation_status : Stat.status;
  xs_ingestion_status : option Stat.ingestion;
  xs_usage_coverage : option usage_coverage;
  xs_root_trace_count : Z;
  xs_excluded_non_review_root_count : Z;
  xs_observed_call_count : Z;
  xs_usage_reported_call_count : Z;
  xs_token_usage : token_usage;
  xs_groups : list ExecutionStatisticsGroup;
  xs_settled_at : option Z;
  xs_updated_at : Z;
}.

(** One sort column, NULLS FIRST. *)
Definition nulls_first {A} (cmp : A → A → comparison) (x y : option A) : comparison :=
  match x, y with
  | None, None => Eq
  | None, Some _ => Lt
  | Some _, None => Gt
  | Some a, Some b => cmp a b
  end.

Fixpoint lexicographic (cs : list comparison) : comparison :=
  match cs with
  | [] => Eq
  | Eq :: rest => lexicographic rest
  | c :: _ => c
  end.

Definition group_le (x y : ExecutionStatisticsGroup) : bool :=
  let a := sg_key x in
  let b := sg_key y in
  match lexicographic
    [nulls_first String.compare (gk_case a) (gk_case b);
     nulls_first String.compare (gk_delivery a) (gk_delivery b);
     nulls_first Z.compare (gk_pass_index a) (gk_pass_index b);
     nulls_first Z.compare (gk_batch_index a) (gk_batch_index b);
     nulls_first String.compare (gk_chunk a) (gk_chunk b);
     String.compare (gk_agent a) (gk_agent b);
     String.compare (gk_provider a) (gk_provider b);
     nulls_first String.compare (gk_model a) (gk_model b)] with
  | Gt => false
  | _ => true
  end.

Definition summary_of (k : stat_row) (gs : list ExecutionStatisticsGroup) :
    ExecutionStatisticsSummary := {|
  xs_reconciliation_status := k_status k; xs_ingestion_status := k_ingestion k;
  xs_usage_coverage := k_coverage k; xs_root_trace_count := k_roots k;
  xs_excluded_non_review_root_count := k_excluded k; xs_observed_call_count := k_calls k;
  xs_usage_reported_call_count := k_reported_calls k; xs_token_usage := k_usage k;
  xs_groups := sort_by group_le gs; xs_settled_at := k_settled_at k;
  xs_updated_at := k_updated_at k |}.

(** The statistics of the runs of this connector among [runIds]. *)
Definition getExecutionStatistics (cfg : store_config) (runIds : list string) (d : db) (s : stats) :
    gmap string ExecutionStatisticsSummary :=
  map_imap (λ k x,
    match d_runs d !! k with
    | Some t => if visible (connector_id cfg) t && bool_decide (k ∈ runIds)
                then Some (summary_of x.1 x.2) else None
    | None => None
    end) s.
