(* ===== verification/StatisticsSpecs.v ===== *)
(** The statistics queue keeps its rows well formed, concluded rows concluded, and
    records every snapshot the aggregation can build with contract coordinates. *)

From S2P Require Import Prelude Schema Tables Database InputBundles Statistics StatisticsStore.

(** A row the table accepts; one that is still worked on has failures left of [maxFailures]. *)
Record stat_ok (maxFailures : Z) (k : stat_row) : Prop := {
  ko_check : stat_check k = true;
  ko_fits : stat_fits k = true;
  ko_failures : Stat.terminal (k_status k) = false → k_failures k < Z.max 1 maxFailures;
}.

(** A group the table accepts. *)
Definition group_ok (g : ExecutionStatisticsGroup) : bool := group_fits g && group_check g.

Record stats_inv (maxFailures : Z) (s : stats) : Prop := {
  ki_rows : map_Forall (λ _ x, stat_ok maxFailures x.1) s;
  ki_groups : map_Forall (λ _ x, forallb group_ok x.2 = true ∧ NoDup (sg_key <$> x.2)) s;
}.

(** A concluded row never changes, and no row disappears. *)
Definition stats_evolve (s s' : stats) : Prop :=
  ∀ k x, s !! k = Some x → ∃ x', s' !! k = Some x'
    ∧ (Stat.terminal (k_status x.1) = true → x' = x).

#[export] Instance stats_evolve_refl : Reflexive stats_evolve.
Proof. intros s k x Hx. by exists x. Qed.
#[export] Instance stats_evolve_trans : Transitive stats_evolve.
Proof.
  intros a b c Hab Hbc k x Hx. destruct (Hab k x Hx) as (y & Hy & Hxy).
  destruct (Hbc k y Hy) as (z & Hz & Hyz). exists z. split; [done|]. intros Ht.
  rewrite <- (Hxy Ht). apply Hyz. by rewrite (Hxy Ht).
Qed.

Definition stats_good (maxFailures : Z) (s s' : stats) : Prop := stats_inv maxFailures s' ∧ stats_evolve s s'.

Lemma stats_insert maxf s k x x' :
  stats_inv maxf s → s !! k = Some x → Stat.terminal (k_status x.1) = false →
  stat_ok maxf x'.1 → forallb group_ok x'.2 = true → NoDup (sg_key <$> x'.2) →
  stats_good maxf s (<[k := x']> s).
Proof.
  intros [Hr Hg] Hk Ht Hc Hgc Hnd. split; [split|].
  - by apply map_Forall_insert_2.
  - by apply map_Forall_insert_2.
  - intros j y Hj. destruct (decide (k = j)) as [->|].
    + exists x'. rewrite lookup_insert_eq. simplify_eq. split; [done|]. by rewrite Ht.
    + exists y. by rewrite lookup_insert_ne.
Qed.

(** A batch has a number from one, if any. *)
Definition batch_numbered (g : ExecutionStatisticsGroup) : bool :=
  nullable (λ n, 1 <=? n) (gk_batch_index (sg_key g)).

(** The counts, tokens, pass indices and batch indices of a snapshot have room in their columns,
    and no batch is numbered zero. *)
Definition snapshot_fits (sn : ExecutionStatisticsSnapshot) : bool :=
  int4 (sn_roots sn) && int4 (sn_excluded sn) && int4 (sn_calls sn) && int4 (sn_reported_calls sn)
  && usage_fits (sn_usage sn) && forallb (λ g, group_fits g && batch_numbered g) (sn_groups sn).

(** What [aggregateExecutionStatistics] builds. *)
Record snapshot_ok (sn : ExecutionStatisticsSnapshot) : Prop := {
  so_counts : 0 <= sn_roots sn ∧ 0 <= sn_excluded sn ∧ 0 <= sn_calls sn
              ∧ 0 <= sn_reported_calls sn;
  so_usage : ∀ f n, sn_usage sn f = Some n → 0 <= n;
  so_groups : ∀ g, g ∈ sn_groups sn → group_check g = batch_numbered g;
  so_unique : NoDup (sg_key <$> sn_groups sn);
}.

Lemma forallb_fields (u : token_usage) :
  (∀ f n, u f = Some n → 0 <= n) →
  usage_nonneg u = true.
Proof.
  intros H. apply forallb_forall. intros f _. destruct (u f) eqn:Hf; [|done].
  apply Z.leb_le. by eapply H.
Qed.

Section StatisticsSpecs.
Context (cfg : store_config) (now initialDelayMs settlementWindowMs : Z).

Lemma claim_ok maxf token k :
  stat_ok maxf k → Stat.terminal (k_status k) = false → stat_ok maxf (claim_stat now settlementWindowMs token k).
Proof.
  intros [H Hf Hm] Ht. split; [|by destruct k|by destruct k; simpl; intros _; apply Hm]. revert H Ht.
  unfold stat_check. destruct k as [st ing]; simpl. intros H Ht.
  rewrite !andb_true_iff in H |- *. destruct st; try discriminate; simpl in *; tauto.
Qed.

Lemma holds_statistics_true token k :
  holds_statistics token k = true → k_status k = Stat.reconciling ∧ k_claim_token k = Some token.
Proof. unfold holds_statistics. intros H. by destruct_guard. Qed.

Lemma snapshot_row_checked sn delay k :
  stat_check k = true → k_status k = Stat.reconciling → snapshot_ok sn →
  stat_check (snapshot_row now sn delay k) = true.
Proof.
  intros H Hk [(? & ? & ? & ?) Hu _ _]. unfold stat_check in H |- *.
  unfold snapshot_row, snapshot_outcome.
  rewrite !andb_true_iff in H. destruct k as [st]; simpl in *. subst st.
  rewrite !andb_true_iff, forallb_fields by done.
  assert ((0 <=? sn_roots sn) = true) by (by apply Z.leb_le).
  assert ((0 <=? sn_excluded sn) = true) by (by apply Z.leb_le).
  assert ((0 <=? sn_calls sn) = true) by (by apply Z.leb_le).
  assert ((0 <=? sn_reported_calls sn) = true) by (by apply Z.leb_le).
  destruct (snapshot_stable _ sn), (deadline_reached _ _), (0 <? sn_roots sn);
    simpl; tauto.
Qed.

Lemma snapshot_row_ok maxf sn delay k :
  stat_ok maxf k → k_status k = Stat.reconciling → snapshot_ok sn → snapshot_fits sn = true →
  stat_ok maxf (snapshot_row now sn delay k).
Proof.
  intros [H _ _] Hk Hok Hfits. split; [by apply snapshot_row_checked| |by intros _; destruct k; simpl; lia].
  unfold snapshot_fits in Hfits. rewrite !andb_true_iff in Hfits. unfold stat_fits. destruct k. simpl.
  rewrite !andb_true_iff. tauto.
Qed.

Lemma failure_row_ok maxf delay k :
  maxf < 2 ^ 31 → stat_ok maxf k → k_status k = Stat.reconciling → stat_ok maxf (failure_row now maxf delay k).
Proof.
  intros Hmax [H Hf Hm] Hk. specialize (Hm ltac:(by rewrite Hk)). split.
  2:{ revert Hf Hm. unfold stat_fits, failure_row, int4. destruct k. simpl. rewrite !andb_true_iff, !Z.leb_le, !Z.ltb_lt.
      intros [[[[[? ?] ?] ?] ?] ?] ?. repeat split; try tauto; lia. }
  2:{ destruct k. unfold failure_row. simpl. destruct (Z.leb_spec maxf (k_failures + 1)); [done|]. intros _. lia. }
  unfold stat_check in H |- *. unfold failure_row.
  rewrite !andb_true_iff in H. destruct k as [st]; simpl in *. subst st.
  rewrite !andb_true_iff.
  assert ((0 <=? k_failures + 1) = true).
  { apply Z.leb_le. destruct H as [[[[[[[? H] ?] ?] ?] ?] ?] ?]. destruct_guard. lia. }
  destruct (maxf <=? _); simpl in *; tauto.
Qed.

Lemma rate_limit_row_ok maxf delay k :
  stat_ok maxf k → k_status k = Stat.reconciling → stat_ok maxf (rate_limit_row now delay k).
Proof.
  intros [H Hf Hm] Hk. specialize (Hm ltac:(by rewrite Hk)). split; [|by destruct k|by destruct k]. unfold stat_check in H |- *. unfold rate_limit_row.
  rewrite !andb_true_iff in H. destruct k as [st]; simpl in *. subst st.
  rewrite !andb_true_iff. destruct k_deadline as [t|]; [destruct (t <=? _)|]; simpl in *; tauto.
Qed.

Lemma admit_terminal_good maxf d (s : stats) :
  stats_inv maxf s → ∃ s', admit_terminal cfg now initialDelayMs d s = Ok (tt, s') ∧ stats_good maxf s s'.
Proof.
  intros Hs. eexists. split; [reflexivity|].
  induction (select_runs _ _ _ d) as [|[k t] l IH]; simpl; [by split|].
  destruct IH as [[IH1 IH2] IH3]. set (acc := foldr _ s l) in *.
  destruct (terminal_times t) as [[st f]|]; [|by split].
  destruct (acc !! k) as [x|] eqn:Hk; [by split|]. split; [split|].
  - apply map_Forall_insert_2; [|done]. split; [done|done|]. simpl. lia.
  - apply map_Forall_insert_2; [|done]. split; [done|constructor].
  - intros j x Hj. destruct (IH3 j x Hj) as (x' & Hx' & ?). exists x'.
    rewrite lookup_insert_ne; [done|]. intros ->. by rewrite Hk in Hx'.
Qed.

Lemma claimNextStatistics_good maxf d locked token s :
  stats_inv maxf s →
  wp (claimNextStatistics cfg now initialDelayMs settlementWindowMs d locked token)
    (λ _, stats_good maxf s) s.
Proof.
  intros Hs. unfold claimNextStatistics. apply wp_bind.
  destruct (admit_terminal_good maxf d s Hs) as (s1 & He & Hg). unfold wpe at 1. rewrite He.
  apply wp_bind, wp_read. destruct (first_by _ _) as [[k [row gs]]|] eqn:Hf; [|by apply wp_ret].
  apply first_by_elem, list_elem_of_In in Hf. unfold due_rows in Hf.
  apply filter_In in Hf as [Hin Hdue]. apply list_elem_of_In, elem_of_map_to_list in Hin.
  simpl in Hdue. destruct_guard. unfold stat_due in *. destruct_guard.
  destruct (d_runs d !! k ≫= t_exec) as [e|]; [|by apply wp_throw].
  destruct Hg as [[Hr Hgr] Hev]. pose proof (Hr _ _ Hin) as Hc. simpl in Hc.
  assert (Ht : Stat.terminal (k_status row) = false).
  { by destruct (k_status row). }
  pose proof (claim_ok maxf token row Hc Ht) as Hok.
  apply wp_bind. unfold wpe at 1, put_stat. rewrite (ko_check _ _ Hok), (ko_fits _ _ Hok). simpl.
  destruct (Hgr _ _ Hin) as [Hg1 Hg2].
  destruct (stats_insert maxf s1 k (row, gs) (claim_stat now settlementWindowMs token row, gs))
    as [Hi He']; [done..|].
  split; [done|]. by etransitivity.
Qed.

Lemma conclude_read_good maxf work set s :
  stats_inv maxf s →
  (∀ k, stat_ok maxf k → k_status k = Stat.reconciling → stat_ok maxf (set k)) →
  wp (conclude_read work set) (λ _, stats_good maxf s) s.
Proof.
  intros [Hr Hg] Hset. unfold conclude_read. apply wp_bind, wp_read.
  destruct (s !! xw_run_id work) as [[k gs]|] eqn:Hk; [|by apply wp_throw].
  destruct (holds_statistics _ k) eqn:Hh; [|by apply wp_throw].
  apply holds_statistics_true in Hh as [Hst _].
  pose proof (Hr _ _ Hk) as Hc. destruct (Hg _ _ Hk) as [Hg1 Hg2]. simpl in *.
  pose proof (Hset k Hc Hst) as Hok.
  apply wp_bind. unfold wpe at 1, put_stat. rewrite (ko_check _ _ Hok), (ko_fits _ _ Hok). simpl.
  eapply (stats_insert maxf s _ (k, gs)); simpl; try done. by rewrite Hst.
Qed.

Lemma recordFailure_good work max delay s :
  max < 2 ^ 31 → stats_inv max s → wp (recordFailure now work max delay) (λ _, stats_good max s) s.
Proof. intros Hm Hs. apply conclude_read_good; [done|]. intros. by apply failure_row_ok. Qed.

Lemma recordRateLimit_good maxf work delay s :
  stats_inv maxf s → wp (recordRateLimit now work delay) (λ _, stats_good maxf s) s.
Proof. intros Hs. apply conclude_read_good; [done|]. intros. by apply rate_limit_row_ok. Qed.

(** What the database says of a reading that does not fit. *)
Definition unfit (f : failure) : bool :=
  match f with
  | NumericOutOfRange _ => true
  | CheckViolation table => String.eqb table "execution_statistics_groups"
  | _ => false
  end.

(** Groups with different keys go in, unless one of them does not fit. *)
Lemma insert_groups_spec there gs :
  NoDup (sg_key <$> gs) → (∀ k, k ∈ there → k ∉ sg_key <$> gs) →
  match insert_groups there gs with
  | None => forallb group_ok gs = true
  | Some e => forallb group_ok gs = false ∧ unfit e = true
  end.
Proof.
  revert there. induction gs as [|g gs IH]; intros there Hnd Hd; [done|]. simpl. unfold group_ok at 1 3.
  destruct (group_fits g); [|done]. destruct (group_check g); [|done]. simpl in *.
  apply NoDup_cons in Hnd as [Hg Hnd]. rewrite bool_decide_eq_false_2.
  2:{ intros Hin. apply (Hd _ Hin). left. }
  apply IH; [done|]. intros k [->|Hin]%elem_of_cons; [done|]. intros Hk. apply (Hd _ Hin). by right.
Qed.

Lemma snapshot_groups_ok sn :
  snapshot_ok sn → forallb group_ok (sn_groups sn) = forallb (λ g, group_fits g && batch_numbered g) (sn_groups sn).
Proof.
  intros [_ _ Hg _]. induction (sn_groups sn) as [|g gs IH]; [done|]. simpl. unfold group_ok at 1.
  rewrite (Hg g) by left. rewrite IH; [done|]. intros g' Hin. apply Hg. by right.
Qed.

Lemma recordSnapshot_good maxf work sn delay s :
  stats_inv maxf s → snapshot_ok sn →
  wpe (λ f, benign f || (negb (snapshot_fits sn) && unfit f)) (recordSnapshot now work sn delay) (λ _, stats_good maxf s) s.
Proof.
  intros [Hr Hg] Hok. unfold recordSnapshot. apply wp_bind, wp_read.
  destruct (s !! xw_run_id work) as [[k gs]|] eqn:Hk; [|by apply wp_throw].
  destruct (holds_statistics _ k) eqn:Hh; [|by apply wp_throw].
  apply holds_statistics_true in Hh as [Hst _]. pose proof (Hr _ _ Hk) as Hc. simpl in Hc.
  pose proof (insert_groups_spec [] (sn_groups sn) (so_unique _ Hok) ltac:(by intros ? ?%not_elem_of_nil)) as Hins.
  rewrite (snapshot_groups_ok _ Hok) in Hins. destruct (snapshot_fits sn) eqn:Hfits.
  - pose proof (snapshot_row_ok maxf sn delay k Hc Hst Hok Hfits) as Hc'.
    apply andb_true_iff in Hfits as [_ Hgs]. rewrite Hgs in Hins.
    apply wp_bind. unfold wpe at 1, put_stat. rewrite (ko_check _ _ Hc'), (ko_fits _ _ Hc'). simpl.
    apply wp_bind. unfold wpe at 1, put_groups. destruct (insert_groups [] _) as [e|]; [by destruct Hins|].
    simpl. rewrite insert_insert_eq.
    eapply (stats_insert maxf s _ (k, gs)); simpl; try done; try apply Hok; [by rewrite Hst|].
    by rewrite (snapshot_groups_ok _ Hok).
  - apply wp_bind. unfold wpe at 1, put_stat. destruct (stat_fits _) eqn:Hsf; [|done]. simpl.
    assert (Hck : stat_check (snapshot_row now sn delay k) = true) by (apply snapshot_row_checked; [apply Hc|done|done]).
    rewrite Hck. simpl. apply wp_bind. unfold wpe at 1, put_groups.
    destruct (insert_groups [] _) as [e|]; [destruct Hins as [_ ->]; by rewrite orb_true_r|].
    exfalso. unfold snapshot_fits in Hfits. rewrite Hins, andb_true_r in Hfits.
    unfold stat_fits in Hsf. destruct k. simpl in *. rewrite !andb_true_iff in Hsf.
    destruct Hsf as [[[[[H1 H2] H3] H4] H5] _]. by rewrite H1, H2, H3, H4, H5 in Hfits.
Qed.
End StatisticsSpecs.

(** ** Snapshots *)

Section SnapshotSpecs.
Context (locale_le code_unit_le : string → string → bool).
Context (fingerprint_hash : list string → list string → token_usage →
           list ExecutionStatisticsGroup → string).
Let aggregate := aggregateExecutionStatistics locale_le code_unit_le fingerprint_hash.

Lemma completeTotals_nonneg a f n : acc_ok a → completeTotals a f = Some n → 0 <= n.
Proof. intros [_ _ H]. unfold completeTotals. destruct (_ && _); [|done]. by intros [= <-]. Qed.

Lemma sorted_groups_perm os : sorted_groups locale_le os ≡ₚ to_group <$> group_calls os.
Proof. unfold sorted_groups. by rewrite sort_by_perm. Qed.

Lemma sorted_group_keys os : sg_key <$> sorted_groups locale_le os ≡ₚ (group_calls os).*1.
Proof. rewrite sorted_groups_perm. by rewrite <- list_fmap_compose. Qed.

Lemma parse_digits_nonneg s acc n : 0 <= acc → parse_digits acc s = Some n → 0 <= n.
Proof.
  revert acc. induction s as [|a s IH]; intros acc Ha; simpl; [by intros [= <-]|].
  unfold digit. destruct (_ && _) eqn:Hd; simpl; [|done]. destruct_guard.
  apply IH. lia.
Qed.

Lemma nonNegativeInteger_bounds v n :
  nonNegativeInteger v = Some n → 0 <= n <= MAX_SAFE_INTEGER.
Proof.
  destruct v as [[| | |[|a s]| |]|]; try done. cbn [nonNegativeInteger].
  destruct (parse_digits 0 (String a s)) as [m|] eqn:Hp; [|done]. simpl.
  destruct (m <=? MAX_SAFE_INTEGER) eqn:Hm; [|done]. intros [= <-].
  apply parse_digits_nonneg in Hp; [|done]. destruct_guard. lia.
Qed.

Lemma add_to_groups_key_of o gs k :
  k ∈ (add_to_groups o gs).*1 → k ∈ gs.*1 ∨ k = key_of o.
Proof. rewrite add_to_groups_keys. destruct (bool_decide _); set_solver. Qed.

Lemma group_calls_key_of os k : k ∈ (group_calls os).*1 → ∃ o, o ∈ os ∧ k = key_of o.
Proof.
  unfold group_calls.
  assert (H : ∀ gs : list (group_key * accumulator),
    k ∈ (foldl (λ gs o, add_to_groups o gs) gs os).*1 →
    k ∈ gs.*1 ∨ ∃ o, o ∈ os ∧ k = key_of o).
  { induction os as [|o os IH]; intros gs; simpl; [by left|]. intros Hk.
    destruct (IH _ Hk) as [Hin|(o' & Ho' & ->)].
    - destruct (add_to_groups_key_of _ _ _ Hin) as [?| ->]; [by left|].
      right. exists o. set_solver.
    - right. exists o'. set_solver. }
  intros Hk. destruct (H [] Hk) as [Hn|]; [by apply elem_of_nil in Hn|done].
Qed.

(** Every snapshot the aggregation builds satisfies the CHECKs, as far as its batches are
    numbered from one. *)
Lemma aggregate_ok r : 0 <= rd_excluded r → snapshot_ok (aggregate r).
Proof.
  intros Hx. pose proof (fold_calls_ok (rd_generations r) _ empty_accumulator_ok) as Hok.
  split; simpl.
  - destruct Hok as [[? _] _ _]. lia.
  - intros f n. apply completeTotals_nonneg. split; simpl; [|apply Hok|apply Hok].
    rewrite <- fold_calls_count. apply Hok.
  - intros g Hg. rewrite sorted_groups_perm in Hg. apply list_elem_of_fmap in Hg as ([k a] & -> & Hin).
    pose proof (group_calls_ok (rd_generations r)) as Hgs. rewrite Forall_forall in Hgs.
    destruct (Hgs _ Hin) as [Ha Hc]. simpl in Ha, Hc.
    destruct (group_calls_key_of (rd_generations r) k) as (o & Ho & Hk).
    { apply list_elem_of_fmap. by exists (k, a). }
    unfold group_check, batch_numbered; simpl. rewrite forallb_fields.
    2:{ intros f n. by apply completeTotals_nonneg. }
    destruct Ha as [[H1 H2] _ _]. rewrite (proj2 (Z.ltb_lt _ _) Hc), (proj2 (Z.leb_le _ _) H1), (proj2 (Z.leb_le _ _) H2).
    rewrite !andb_true_r. unfold nullable. destruct (gk_pass_index k) as [n|] eqn:Hn; [|done]. rewrite Hk in Hn.
    apply nonNegativeInteger_bounds in Hn. by rewrite (proj2 (Z.leb_le 0 n)) by lia.
  - rewrite sorted_group_keys. apply group_calls_nodup.
Qed.
End SnapshotSpecs.
