(* ===== verification/Invariant.v ===== *)
(** What holds of the rows of a run between transactions, and how a transaction may
    change them.  Each component of [live] speaks about one concern; the lemmas
    after it re-establish that concern after the writes the stores make. *)

From S2P Require Import Prelude Schema StateMachines Tables Database RunRecord PreparationStore.
From S2P Require Import PublicationStore.

(** * Components *)

(** The axes of one run, together. *)
Definition axes_ok (p : Prep.status) (e : Exec.status) (u : Pub.status) : bool :=
  let concluded := bool_decide (p = Prep.submitted) || bool_decide (p = Prep.failed) in
  match e with
  | Exec.pending =>
      match p with
      | Prep.pending | Prep.preparing | Prep.uncertain => bool_decide (u = Pub.pending)
      | _ => false
      end
  | Exec.skipped => bool_decide (p = Prep.failed) && bool_decide (u = Pub.skipped)
  | Exec.uncertain | Exec.disconnected => bool_decide (p = Prep.failed) && bool_decide (u = Pub.pending)
  | Exec.queued | Exec.running => concluded && bool_decide (u = Pub.pending)
  | Exec.failed => concluded && bool_decide (u = Pub.skipped)
  | Exec.succeeded => concluded && negb (bool_decide (u = Pub.skipped))
  end.

#[global] Arguments axes_ok : simpl never.

(** A claim is counted when it is taken, and only taken while one is left. *)
Definition attempts_ok (p : prep_row) : bool :=
  match p_status p with
  | Prep.pending | Prep.uncertain => p_attempt_count p <? MAX_PREPARATION_ATTEMPTS
  | _ => p_attempt_count p <=? MAX_PREPARATION_ATTEMPTS
  end.

(** The publication has an owner exactly while it is in flight. *)
Definition pub_claim_ok (u : pub_row) : bool :=
  if Pub.owned (u_status u) then not_null (u_claim_token u) && not_null (u_claimed_at u)
  else is_null (u_claim_token u).

Definition step_ok (s : step_row) : bool :=
  (0 <=? s_attempt_count s) && (s_attempt_count s <=? MAX_PUBLICATION_STEP_ATTEMPTS)
  && (0 <=? s_recovery_attempt_count s)
  && match s_status s with
     | Step.running => not_null (s_claimed_by s)
     | _ => is_null (s_claimed_by s)
     end
  && match s_status s with
     | Step.disconnected =>
         s_recovery_attempt_count s =? MAX_PUBLICATION_STEP_RECOVERY_ATTEMPTS
     | _ => s_recovery_attempt_count s <? MAX_PUBLICATION_STEP_RECOVERY_ATTEMPTS
     end
  && match s_status s with
     | Step.uncertain => MAX_PUBLICATION_STEP_ATTEMPTS <=? s_attempt_count s
     | _ => true
     end.

(** The publication axis reflects its steps. *)
Definition axis_steps_ok (u : Pub.status) (steps : gmap string step_row) : bool :=
  match u with
  | Pub.publishing => negb (any_step (step_is Step.disconnected) steps)
  | Pub.uncertain => any_step (step_is Step.uncertain) steps
                     && negb (any_step (step_is Step.disconnected) steps)
  | Pub.disconnected => any_step (step_is Step.disconnected) steps
  | Pub.published => negb (any_step (λ s, negb (step_is Step.succeeded s)) steps)
  | _ => true
  end.

Record steps_inv (e : Exec.status) (u : Pub.status) (steps : gmap string step_row) : Prop := {
  si_started : e ≠ Exec.succeeded → steps = ∅;
  si_steps : map_Forall (λ _ s, step_ok s = true) steps;
  si_axis : axis_steps_ok u steps = true;
}.

Record cands_inv (cs : gmap string candidate_row) : Prop := {
  ci_checks : map_Forall (λ d c, candidate_check d c = true) cs;
  ci_selected : ∀ d1 d2 c1 c2, cs !! d1 = Some c1 → cs !! d2 = Some c2 →
    c_status c1 = Candidate.selected → c_status c2 = Candidate.selected → d1 = d2;
}.

(** ** The log *)

Definition last_status (a : axis) (evs : list event_row) : option string :=
  ev_to <$> List.find (λ e, bool_decide (ev_axis e = a)) evs.

(** Every event of an axis starts where the previous one of that axis ended. *)
Fixpoint chained (a : axis) (evs : list event_row) : Prop :=
  match evs with
  | [] => True
  | e :: rest => (ev_axis e = a → ev_from e = last_status a rest) ∧ chained a rest
  end.

(** The publication edges the stores write beyond the declared ones. *)
Definition undeclared_publication_edges : list (string * string) :=
  [("publishing", "disconnected"); ("uncertain", "failed"); ("disconnected", "failed")].

Definition event_allowed (a : axis) (from to : string) (reason : option string) : bool :=
  (bool_decide (a = publication) && bool_decide ((from, to) ∈ undeclared_publication_edges))
  || declared a from to reason.

Definition event_ok (e : event_row) : bool :=
  match ev_from e with
  | None => true
  | Some from => event_allowed (ev_axis e) from (ev_to e) (ev_reason e)
  end.

Record log_inv (P E U : string) (evs : list event_row) (next : Z) : Prop := {
  lg_prep : last_status preparation evs = Some P;
  lg_exec : last_status execution evs = Some E;
  lg_pub : last_status publication evs = Some U;
  lg_chain_prep : chained preparation evs;
  lg_chain_exec : chained execution evs;
  lg_allowed : Forall (λ e, event_ok e = true) evs;
  lg_ids : Forall (λ e, ev_id e < next) evs;
  lg_nodup : NoDup (ev_id <$> evs);
}.

(** ** The notices *)

(** The kind of notice an event calls for. *)
Definition notice_kind (e : event_row) : option Notice.kind :=
  if String.eqb (ev_to e) "disconnected" then Some Notice.attention
  else if String.eqb (ev_to e) "failed" then Some Notice.failure
  else None.

(** The events that owe the requester a notice.  A preparation failure that leaves
    the submission uncertain is not announced: it may still succeed. *)
Definition owed (e : event_row) : bool :=
  not_null (notice_kind e)
  && negb (bool_decide (ev_axis e = preparation)
           && opt_eqb (ev_reason e) (Some SUBMISSION_STATE_UNCERTAIN)).

Definition reports (n : notice_row) (e : event_row) : Prop :=
  n_source_event_id n = ev_id e ∧ n_axis n = ev_axis e ∧ notice_kind e = Some (n_kind n).

Record notices_inv (evs : list event_row) (ns : gmap Z notice_row) (next : Z) : Prop := {
  ni_checks : map_Forall (λ _ n, notice_check n = true) ns;
  ni_ids : map_Forall (λ i _, i < next) ns;
  ni_source : map_Forall (λ _ n, ∃ e, e ∈ evs ∧ reports n e) ns;
  ni_unique : ∀ i j m n, ns !! i = Some m → ns !! j = Some n →
    n_source_event_id m = n_source_event_id n → i = j;
  ni_owed : ∀ e, e ∈ evs → owed e = true →
    ∃ i n, ns !! i = Some n ∧ reports n e;
}.

(** * The invariant *)

Record live (p : prep_row) (e : exec_row) (u : pub_row) (steps : gmap string step_row)
    (cs : gmap string candidate_row) (evs : list event_row) (ns : gmap Z notice_row)
    (ne nn : Z) : Prop := {
  lv_prep : prep_check p = true;
  lv_exec : exec_check e = true;
  lv_pub : pub_check u = true;
  lv_axes : axes_ok (p_status p) (e_status e) (u_status u) = true;
  lv_attempts : attempts_ok p = true;
  lv_claim : pub_claim_ok u = true;
  lv_steps : steps_inv (e_status e) (u_status u) steps;
  lv_cands : cands_inv cs;
  lv_log : log_inv (Prep.text (p_status p)) (Exec.text (e_status e)) (Pub.text (u_status u)) evs ne;
  lv_notices : notices_inv evs ns nn;
  lv_storage : storage_ok (e_artifact_storage e) = true;
}.

Definition mk_rows r p e u steps cs evs ns ne nn : run_rows := {|
  t_run := Some r; t_prep := Some p; t_exec := Some e; t_pub := Some u; t_steps := steps;
  t_candidates := cs; t_events := evs; t_notices := ns; t_next_event := ne;
  t_next_notice := nn |}.

Inductive run_inv : run_rows → Prop :=
  | run_absent ne nn : run_inv (no_rows ne nn)
  | run_live r p e u steps cs evs ns ne nn :
      live p e u steps cs evs ns ne nn → run_inv (mk_rows r p e u steps cs evs ns ne nn).

(** * How rows may change *)

Record prep_evolves (p p' : prep_row) : Prop := {
  pe_terminal : Prep.terminal (p_status p) = true →
    p_status p' = p_status p ∧ p_finished_at p' = p_finished_at p
    ∧ p_failure_code p' = p_failure_code p;
  pe_started : ∀ s, p_started_at p = Some s → p_started_at p' = Some s;
}.

Record exec_evolves (e e' : exec_row) : Prop := {
  ee_terminal : Exec.terminal (e_status e) = true →
    e_status e' = e_status e ∧ e_finished_at e' = e_finished_at e
    ∧ e_workflow_result e' = e_workflow_result e ∧ e_failure_code e' = e_failure_code e;
  ee_started : ∀ s, e_started_at e = Some s → e_started_at e' = Some s;
  (** The replayable request is written once. *)
  ee_input : ∀ i, e_input e = Some i → e_input e' = Some i;
}.

Record pub_evolves (u u' : pub_row) : Prop := {
  ue_terminal : Pub.terminal (u_status u) = true →
    u_status u' = u_status u ∧ u_finished_at u' = u_finished_at u
    ∧ u_failure_code u' = u_failure_code u;
  ue_started : ∀ s, u_started_at u = Some s → u_started_at u' = Some s;
}.

(** A concluded step keeps its conclusion and the remote object it recorded. *)
Definition step_final (s : step_row) : bool :=
  step_is Step.succeeded s || step_is Step.terminal_failed s.

Definition step_evolves (s s' : step_row) : Prop :=
  step_final s = true →
  s_status s' = s_status s ∧ s_remote_object_id s' = s_remote_object_id s
  ∧ s_remote_object_url s' = s_remote_object_url s ∧ s_attempt_count s' = s_attempt_count s.

Record steps_evolve (m m' : gmap string step_row) : Prop := {
  se_dom : m ≠ ∅ → dom m' = dom m;
  se_steps : ∀ k s, m !! k = Some s → ∃ s', m' !! k = Some s' ∧ step_evolves s s';
}.

(** An input-bundle intent is immutable, and its selection permanent. *)
Definition cand_evolves (c c' : candidate_row) : Prop :=
  c_reference c' = c_reference c ∧ c_input c' = c_input c
  ∧ c_publish_context c' = c_publish_context c
  ∧ (c_status c = Candidate.selected → c_status c' = Candidate.selected).

Definition cands_evolve (m m' : gmap string candidate_row) : Prop :=
  ∀ k c, m !! k = Some c → ∃ c', m' !! k = Some c' ∧ cand_evolves c c'.

(** A notice keeps what it reports; a concluded delivery stays concluded. *)
Definition notice_final (n : notice_row) : bool :=
  match n_status n with Notice.pending | Notice.delivering => false | _ => true end.

Definition notice_evolves (n n' : notice_row) : Prop :=
  n_kind n' = n_kind n ∧ n_source_event_id n' = n_source_event_id n ∧ n_axis n' = n_axis n
  ∧ n_reason_code n' = n_reason_code n ∧ (notice_final n = true → n' = n).

Definition opt_evolves {A} (R : A → A → Prop) (x y : option A) : Prop :=
  ∀ a, x = Some a → ∃ b, y = Some b ∧ R a b.

Record evolves (t t' : run_rows) : Prop := {
  ev_run_same : t_run t' = t_run t;
  ev_prep : opt_evolves prep_evolves (t_prep t) (t_prep t');
  ev_exec : opt_evolves exec_evolves (t_exec t) (t_exec t');
  ev_pub : opt_evolves pub_evolves (t_pub t) (t_pub t');
  ev_steps : steps_evolve (t_steps t) (t_steps t');
  ev_cands : cands_evolve (t_candidates t) (t_candidates t');
  ev_log : ∃ new, t_events t' = new ++ t_events t
                  ∧ Forall (λ e, t_next_event t <= ev_id e) new;
  ev_notices : ∀ i n, t_notices t !! i = Some n →
    ∃ n', t_notices t' !! i = Some n' ∧ notice_evolves n n';
  ev_ids : t_next_event t <= t_next_event t' ∧ t_next_notice t <= t_next_notice t';
}.

(** What every store operation is proved to do from rows that satisfy the
    invariant: end in such rows, having only changed them as [evolves] allows. *)
Definition good (t t' : run_rows) : Prop := run_inv t' ∧ evolves t t'.

(** * Facts about [evolves] *)

#[export] Instance step_evolves_refl : Reflexive step_evolves.
Proof. by intros s _. Qed.
#[export] Instance step_evolves_trans : Transitive step_evolves.
Proof.
  intros x y z Hxy Hyz Hx. destruct (Hxy Hx) as (H1 & H2 & H3 & H4).
  assert (Hy : step_final y = true) by (revert Hx; unfold step_final, step_is; by rewrite H1).
  destruct (Hyz Hy) as (-> & -> & -> & ->). done.
Qed.

#[export] Instance cands_evolve_refl : Reflexive cands_evolve.
Proof. intros m k c Hc. by exists c. Qed.
#[export] Instance cands_evolve_trans : Transitive cands_evolve.
Proof.
  intros x y z Hxy Hyz k c Hc. destruct (Hxy k c Hc) as (c' & Hc' & H1 & H2 & H3 & H4).
  destruct (Hyz k c' Hc') as (c'' & Hc'' & H5 & H6 & H7 & H8). exists c''. split; [done|].
  repeat split; [congruence..|auto].
Qed.

#[export] Instance notice_evolves_refl : Reflexive notice_evolves.
Proof. by intros n. Qed.
#[export] Instance notice_evolves_trans : Transitive notice_evolves.
Proof.
  intros x y z (?&?&?&?&Hx) (?&?&?&?&Hy). repeat split; try congruence.
  intros Hf. rewrite <- (Hx Hf). apply Hy. by rewrite (Hx Hf).
Qed.

#[export] Instance prep_evolves_refl : Reflexive prep_evolves.
Proof. done. Qed.
#[export] Instance prep_evolves_trans : Transitive prep_evolves.
Proof.
  intros x y z [Hx1 Hx2] [Hy1 Hy2]. split; [|by auto].
  intros Ht. destruct (Hx1 Ht) as (E & ? & ?).
  destruct Hy1 as (? & ? & ?); [by rewrite E|]. repeat split; congruence.
Qed.
#[export] Instance exec_evolves_refl : Reflexive exec_evolves.
Proof. done. Qed.
#[export] Instance exec_evolves_trans : Transitive exec_evolves.
Proof.
  intros x y z [Hx1 Hx2 Hx3] [Hy1 Hy2 Hy3]. split; [|by auto..].
  intros Ht. destruct (Hx1 Ht) as (E & ? & ? & ?).
  destruct Hy1 as (? & ? & ? & ?); [by rewrite E|]. repeat split; congruence.
Qed.
#[export] Instance pub_evolves_refl : Reflexive pub_evolves.
Proof. done. Qed.
#[export] Instance pub_evolves_trans : Transitive pub_evolves.
Proof.
  intros x y z [Hx1 Hx2] [Hy1 Hy2]. split; [|by auto].
  intros Ht. destruct (Hx1 Ht) as (E & ? & ?).
  destruct Hy1 as (? & ? & ?); [by rewrite E|]. repeat split; congruence.
Qed.

#[export] Instance opt_evolves_refl {A} (R : A → A → Prop) `{!Reflexive R} :
  Reflexive (opt_evolves R).
Proof. intros x a ->. by exists a. Qed.
#[export] Instance opt_evolves_trans {A} (R : A → A → Prop) `{!Transitive R} :
  Transitive (opt_evolves R).
Proof. intros x y z Hx Hy a Ha. destruct (Hx a Ha) as (b & Hb & ?).
  destruct (Hy b Hb) as (c & Hc & ?). exists c. by split; [|etransitivity]. Qed.

#[export] Instance steps_evolve_refl : Reflexive steps_evolve.
Proof. split; [done|]. intros k s Hs. by exists s. Qed.
#[export] Instance steps_evolve_trans : Transitive steps_evolve.
Proof.
  intros x y z [Hd1 Hs1] [Hd2 Hs2]. split.
  - intros Hx. rewrite Hd2, Hd1; [done..|]. intros ->. apply Hx.
    apply dom_empty_iff_L. rewrite <- (Hd1 Hx). apply dom_empty_L.
  - intros k s Hk. destruct (Hs1 k s Hk) as (s' & Hk' & ?).
    destruct (Hs2 k s' Hk') as (s'' & Hk'' & ?). exists s''. by split; [|etransitivity].
Qed.

#[export] Instance evolves_refl : Reflexive evolves.
Proof.
  intros t. split; try done; try apply opt_evolves_refl; try exact _.
  - by exists [].
  - intros i n Hn. by exists n.
Qed.
#[export] Instance evolves_trans : Transitive evolves.
Proof.
  intros x y z [Hr1 Hp1 He1 Hu1 Hs1 Hc1 [l1 [Hl1 Hf1]] Hn1 [? ?]]
    [Hr2 Hp2 He2 Hu2 Hs2 Hc2 [l2 [Hl2 Hf2]] Hn2 [? ?]].
  split; try (by etransitivity); auto.
  - exists (l2 ++ l1). rewrite Hl2, Hl1, app_assoc. split; [done|]. apply Forall_app_2; [|done].
    eapply Forall_impl; [exact Hf2|]. simpl. lia.
  - intros i n Hn. destruct (Hn1 i n Hn) as (n' & Hn' & ?).
    destruct (Hn2 i n' Hn') as (n'' & Hn'' & ?). exists n''. by split; [|etransitivity].
  - lia.
Qed.

#[export] Hint Resolve prep_evolves_refl exec_evolves_refl pub_evolves_refl
  steps_evolve_refl cands_evolve_refl : rows.

(** * Facts about the log *)

Lemma last_status_cons a e evs :
  last_status a (e :: evs) = if bool_decide (ev_axis e = a) then Some (ev_to e) else last_status a evs.
Proof. unfold last_status. simpl. by destruct (bool_decide _). Qed.

Section LogFacts.
Context (P E U : string) (evs : list event_row) (ne now : Z).
Context (Hlog : log_inv P E U evs ne).

Let mk a from to reason : event_row :=
  {| ev_id := ne; ev_axis := a; ev_from := from; ev_to := to; ev_reason := reason; ev_at := now |}.

Lemma log_ids_cons a from to reason :
  Forall (λ e, ev_id e < Z.succ ne) (mk a from to reason :: evs)
  ∧ NoDup (ev_id <$> mk a from to reason :: evs).
Proof.
  destruct Hlog as [_ _ _ _ _ _ Hids Hnd]. split.
  - constructor; [simpl; lia|]. eapply Forall_impl; [exact Hids|]. simpl. lia.
  - simpl. constructor; [|done]. intros (e & Hid & He)%list_elem_of_fmap.
    rewrite Forall_forall in Hids. specialize (Hids e He). lia.
Qed.

Lemma log_prep to reason :
  event_allowed preparation P to reason = true →
  log_inv to E U (mk preparation (Some P) to reason :: evs) (Z.succ ne).
Proof.
  intros Ha. destruct (log_ids_cons preparation (Some P) to reason). destruct Hlog.
  split; rewrite ?last_status_cons; simpl; auto; by split.
Qed.

Lemma log_exec to reason :
  event_allowed execution E to reason = true →
  log_inv P to U (mk execution (Some E) to reason :: evs) (Z.succ ne).
Proof.
  intros Ha. destruct (log_ids_cons execution (Some E) to reason). destruct Hlog.
  split; rewrite ?last_status_cons; simpl; auto; by split.
Qed.

(** The publication event's origin may differ from the last status: the stores
    write the literal 'publishing' in two places. *)
Lemma log_pub from to reason :
  event_allowed publication from to reason = true →
  log_inv P E to (mk publication (Some from) to reason :: evs) (Z.succ ne).
Proof.
  intros Ha. destruct (log_ids_cons publication (Some from) to reason). destruct Hlog.
  split; rewrite ?last_status_cons; simpl; auto; by split.
Qed.
End LogFacts.

(** * Facts about the notices *)

Section NoticeFacts.
Context (evs : list event_row) (ns : gmap Z notice_row) (nn : Z).
Context (Hns : notices_inv evs ns nn).

(** An event that owes no notice. *)
Lemma notices_event e : owed e = false → notices_inv (e :: evs) ns nn.
Proof.
  intros Ho. destruct Hns as [Hc Hi Hs Hu How]. split; try done.
  - intros i n Hn. destruct (Hs i n Hn) as (e' & He' & Hr). exists e'. split; [by right|done].
  - intros e' [->|He']%elem_of_cons Hsome; [by rewrite Ho in Hsome|by auto].
Qed.

(** An event together with the notice it owes. *)
Lemma notices_queue e n :
  notice_kind e = Some (n_kind n) → n_source_event_id n = ev_id e → n_axis n = ev_axis e →
  notice_check n = true → Forall (λ e', ev_id e' < ev_id e) evs →
  notices_inv (e :: evs) (<[nn := n]> ns) (Z.succ nn).
Proof.
  intros Ho Hsrc Hax Hck Hlt. destruct Hns as [Hc Hi Hs Hu How].
  assert (Hfresh : ∀ i m, ns !! i = Some m → n_source_event_id m ≠ ev_id e).
  { intros i m Hm Heq. destruct (Hs i m Hm) as (e' & He' & (Hid & _)).
    rewrite Forall_forall in Hlt. specialize (Hlt e' He'). lia. }
  assert (Hnone : ns !! nn = None).
  { destruct (ns !! nn) as [m|] eqn:Hm; [|done]. specialize (Hi nn m Hm). simpl in Hi. lia. }
  split.
  - by apply map_Forall_insert_2.
  - apply map_Forall_insert_2; [lia|]. eapply map_Forall_impl; [exact Hi|]. simpl. lia.
  - apply map_Forall_insert_2; [exists e; split; [by left|done]|].
    intros i m Hm. destruct (Hs i m Hm) as (e' & ? & ?). exists e'. split; [by right|done].
  - intros i j m1 m2 H1 H2 Heq.
    rewrite lookup_insert in H1, H2. repeat case_decide; simplify_eq; try done.
    + exfalso. eapply Hfresh; [eassumption|congruence].
    + exfalso. eapply Hfresh; [eassumption|congruence].
    + eapply Hu; eassumption.
  - intros e' [->|He']%elem_of_cons Hsome.
    + exists nn, n. by rewrite lookup_insert_eq.
    + destruct (How e' He' Hsome) as (i & m & Hm & Hr). exists i, m. split; [|done].
      rewrite lookup_insert_ne; [done|]. intros ->. by rewrite Hnone in Hm.
Qed.

(** Rewriting notices without touching what they report. *)
Lemma notices_map f :
  (∀ n, notice_check n = true → notice_check (f n) = true ∧ n_kind (f n) = n_kind n
        ∧ n_source_event_id (f n) = n_source_event_id n ∧ n_axis (f n) = n_axis n) →
  notices_inv evs (f <$> ns) nn.
Proof.
  intros Hf. destruct Hns as [Hc Hi Hs Hu How].
  assert (Hf' : ∀ i m, (f <$> ns) !! i = Some m → ∃ n, ns !! i = Some n ∧ m = f n
    ∧ n_kind m = n_kind n ∧ n_source_event_id m = n_source_event_id n ∧ n_axis m = n_axis n).
  { intros i m. rewrite lookup_fmap. destruct (ns !! i) as [n|] eqn:Hn; intros [= <-].
    destruct (Hf n (Hc i n Hn)) as (_ & ? & ? & ?). by exists n. }
  split.
  - intros i m Hm. destruct (Hf' i m Hm) as (n & Hn & -> & _). by apply Hf, (Hc i).
  - intros i m Hm. destruct (Hf' i m Hm) as (n & Hn & _). by apply (Hi i n).
  - intros i m Hm. destruct (Hf' i m Hm) as (n & Hn & _ & Hk & Hsr & Ha).
    destruct (Hs i n Hn) as (e & He & (? & ? & ?)). exists e. split; [done|].
    repeat split; congruence.
  - intros i j m1 m2 H1 H2 Heq. destruct (Hf' i m1 H1) as (n1 & ? & _ & _ & ? & _).
    destruct (Hf' j m2 H2) as (n2 & ? & _ & _ & ? & _). apply (Hu i j n1 n2); congruence.
  - intros e He Hsome. destruct (How e He Hsome) as (i & n & Hn & (? & ? & ?)).
    destruct (Hf n (Hc i n Hn)) as (_ & ? & ? & ?).
    exists i, (f n). rewrite lookup_fmap, Hn. split; [done|]. repeat split; congruence.
Qed.

(** The same for one notice. *)
Lemma notices_alter i n n' :
  ns !! i = Some n → notice_check n' = true → n_kind n' = n_kind n →
  n_source_event_id n' = n_source_event_id n → n_axis n' = n_axis n →
  notices_inv evs (<[i := n']> ns) nn.
Proof.
  intros Hn Hck Hk Hsr Ha. destruct Hns as [Hc Hi Hs Hu How].
  assert (Hl : ∀ j m, <[i := n']> ns !! j = Some m → ∃ m0, ns !! j = Some m0
    ∧ n_source_event_id m = n_source_event_id m0).
  { intros j m. rewrite lookup_insert. case_decide; [intros [= <-]; subst; by exists n|].
    intros. by exists m. }
  split.
  - by apply map_Forall_insert_2.
  - apply map_Forall_insert_2; [by apply (Hi i n)|done].
  - apply map_Forall_insert_2; [|done]. destruct (Hs i n Hn) as (e & He & (? & ? & ?)).
    exists e. split; [done|]. repeat split; congruence.
  - intros j k m1 m2 H1 H2 Heq. destruct (Hl j m1 H1) as (? & ? & ?).
    destruct (Hl k m2 H2) as (? & ? & ?). eapply Hu; eauto; congruence.
  - intros e He Hsome. destruct (How e He Hsome) as (j & m & Hm & (? & ? & ?)).
    destruct (decide (i = j)) as [->|].
    + exists j, n'. rewrite lookup_insert_eq. simplify_eq. repeat split; congruence.
    + exists j, m. by rewrite lookup_insert_ne.
Qed.
End NoticeFacts.

Lemma supersede_notice_keeps now a n :
  notice_check n = true →
  notice_check (supersede_notice now a n) = true
  ∧ n_kind (supersede_notice now a n) = n_kind n
  ∧ n_source_event_id (supersede_notice now a n) = n_source_event_id n
  ∧ n_axis (supersede_notice now a n) = n_axis n.
Proof. unfold supersede_notice. by destruct (_ && _). Qed.

Lemma supersede_notice_evolves now a n : notice_evolves n (supersede_notice now a n).
Proof.
  unfold supersede_notice. destruct (_ && _) eqn:Hb; [|done].
  repeat split; try done. unfold notice_final. by destruct n as [? ? []]; destruct_guard.
Qed.
