(* ===== verification/Preservation.v ===== *)
(** Symbolic execution of store operations: the rules for the helper statements,
    and the tactics that re-establish the invariant at the end of a transaction. *)

From S2P Require Import Prelude Schema StateMachines Tables Database PreparationStore.
From S2P Require Import PublicationStore Invariant.

(** * Steps *)

Lemma derived_axis_ok u steps :
  Pub.owned u = true → axis_steps_ok (derived_status steps u) steps = true.
Proof.
  intros Hu. unfold derived_status.
  destruct (any_step (step_is Step.disconnected) steps) eqn:Hd; [done|].
  destruct (any_step (step_is Step.uncertain) steps) eqn:Hc; simpl; [by rewrite Hc, Hd|].
  destruct u; try discriminate; simpl; by rewrite ?Hd.
Qed.

(** Replacing a step that was neither uncertain nor disconnected by one that is not
    disconnected leaves the axis a faithful summary. *)
Lemma axis_steps_update u steps k s s' :
  Pub.owned u = true → axis_steps_ok u steps = true → steps !! k = Some s →
  step_is Step.uncertain s = false → step_is Step.disconnected s = false →
  step_is Step.disconnected s' = false →
  axis_steps_ok u (<[k := s']> steps) = true.
Proof.
  intros Hu Hax Hk Hsu Hsd Hsd'.
  assert (Hdis : any_step (step_is Step.disconnected) (<[k := s']> steps)
                 = any_step (step_is Step.disconnected) steps).
  { apply eq_true_iff_eq. rewrite !any_step_true. split.
    - intros (j & x & Hj & Hx). rewrite lookup_insert in Hj. case_decide; [naive_solver|eauto].
    - intros (j & x & Hj & Hx). exists j, x. rewrite lookup_insert_ne; [done|].
      intros ->. simplify_eq. congruence. }
  assert (Hunc : any_step (step_is Step.uncertain) steps = true →
                 any_step (step_is Step.uncertain) (<[k := s']> steps) = true).
  { rewrite !any_step_true. intros (j & x & Hj & Hx). exists j, x.
    rewrite lookup_insert_ne; [done|]. intros ->. simplify_eq. congruence. }
  destruct u; try discriminate; simpl in *; rewrite Hdis; try done.
  apply andb_true_iff in Hax as [? ->]. by rewrite Hunc.
Qed.

Lemma steps_evolve_insert steps k s s' :
  steps !! k = Some s → step_evolves s s' → steps_evolve steps (<[k := s']> steps).
Proof.
  intros Hk He. split.
  - intros _. rewrite dom_insert_L. apply elem_of_dom_2 in Hk. set_solver.
  - intros j x Hj. destruct (decide (k = j)) as [->|].
    + exists s'. rewrite lookup_insert_eq. by simplify_eq.
    + exists x. by rewrite lookup_insert_ne.
Qed.

Lemma steps_evolve_fmap (f : step_row → step_row) steps :
  (∀ s, step_evolves s (f s)) → steps_evolve steps (f <$> steps).
Proof.
  intros Hf. split.
  - intros _. by rewrite dom_fmap_L.
  - intros k s Hk. exists (f s). by rewrite lookup_fmap, Hk.
Qed.

(** * Candidates *)

Lemma selected_unique cs :
  candidates_selected cs <= 1 →
  ∀ d1 d2 c1 c2, cs !! d1 = Some c1 → cs !! d2 = Some c2 →
    c_status c1 = Candidate.selected → c_status c2 = Candidate.selected → d1 = d2.
Proof.
  unfold candidates_selected. intros Hle d1 d2 c1 c2 H1 H2 Hs1 Hs2.
  set (l := List.filter _ _) in Hle.
  assert (Hin : ∀ d c, cs !! d = Some c → c_status c = Candidate.selected → (d, c) ∈ l).
  { intros d c Hd Hc. apply list_elem_of_In, filter_In. split.
    - by apply list_elem_of_In, elem_of_map_to_list.
    - simpl. by rewrite bool_decide_eq_true. }
  specialize (Hin d1 c1 H1 Hs1) as Hi1. specialize (Hin d2 c2 H2 Hs2) as Hi2.
  destruct l as [|x [|y l]]; simpl in Hle; [by apply elem_of_nil in Hi1| |lia].
  rewrite list_elem_of_singleton in Hi1, Hi2. congruence.
Qed.

(** Only the status and mtime of a candidate ever change. *)
Definition same_intent (set : candidate_row → candidate_row) : Prop :=
  ∀ c, cand_evolves c (set c).

Lemma same_intent_check set d c :
  same_intent set → candidate_check d (set c) = candidate_check d c.
Proof. intros Hs. destruct (Hs c) as (H1 & H2 & H3 & _). unfold candidate_check. by rewrite H1, H2, H3. Qed.

Lemma wp_update_candidates where_ set (Q : Z → run_rows → Prop) t :
  cands_inv (t_candidates t) → same_intent set →
  (∀ n cs, cands_inv cs → cands_evolve (t_candidates t) cs →
     Q n (t <| t_candidates := cs |>)) →
  wp (update_candidates where_ set) Q t.
Proof.
  intros [Hc _] Hset HQ. unfold wpe, update_candidates.
  destruct (1 <? candidates_selected _) eqn:Hn; [done|]. apply Z.ltb_ge in Hn.
  apply HQ.
  - split; [|by apply selected_unique].
    intros d c. rewrite map_lookup_imap. destruct (t_candidates t !! d) as [c0|] eqn:Hd; [|done].
    intros [= <-]. specialize (Hc d c0 Hd). simpl in Hc.
    destruct (where_ d c0); [by rewrite same_intent_check|done].
  - intros d c Hd. eexists. rewrite map_lookup_imap, Hd. split; [done|].
    by destruct (where_ d c); [apply Hset|].
Qed.

Lemma selected_at_most_one cs :
  (∀ d1 d2 c1 c2, cs !! d1 = Some c1 → cs !! d2 = Some c2 →
    c_status c1 = Candidate.selected → c_status c2 = Candidate.selected → d1 = d2) →
  candidates_selected cs <= 1.
Proof.
  intros Hu. unfold candidates_selected. set (l := List.filter _ _).
  assert (Hnd : NoDup l).
  { apply NoDup_ListNoDup, List.NoDup_filter, NoDup_ListNoDup, NoDup_map_to_list. }
  assert (Hin : ∀ d c, (d, c) ∈ l → cs !! d = Some c ∧ c_status c = Candidate.selected).
  { intros d c Hd. apply list_elem_of_In, filter_In in Hd as [Hd Hc]. split.
    - by apply elem_of_map_to_list, list_elem_of_In.
    - by apply bool_decide_eq_true in Hc. }
  destruct l as [|[d1 c1] [|[d2 c2] l]]; simpl; [lia..|]. exfalso.
  destruct (Hin d1 c1) as [H1 Hc1]; [by left|]. destruct (Hin d2 c2) as [H2 Hc2]; [by right; left|].
  assert (d1 = d2) as <- by eauto. simplify_eq. inversion_clear Hnd. set_solver.
Qed.

(** Abandoning the open candidates selects nothing, so it always succeeds. *)
Lemma wp_abandonOpenCandidates {allowed} now (Q : unit → run_rows → Prop) t :
  cands_inv (t_candidates t) →
  (∀ cs, cands_inv cs → cands_evolve (t_candidates t) cs → Q tt (t <| t_candidates := cs |>)) →
  wpe allowed (abandonOpenCandidates now) Q t.
Proof.
  intros [Hc Hu] HQ. unfold abandonOpenCandidates. apply wp_bind. unfold wpe, update_candidates.
  set (cs' := map_imap _ _).
  assert (Hcs : ∀ d c', cs' !! d = Some c' → ∃ c, t_candidates t !! d = Some c
    ∧ candidate_check d c' = candidate_check d c
    ∧ (c_status c' = Candidate.selected → c_status c = Candidate.selected)).
  { intros d c'. unfold cs'. rewrite map_lookup_imap.
    destruct (t_candidates t !! d) as [c|]; [|done]. intros [= <-]. exists c.
    by destruct c as [??? ? []]. }
  assert (Hinv : cands_inv cs').
  { split.
    - intros d c' (c & Hd & -> & _)%Hcs. by apply (Hc d).
    - intros d1 d2 c1 c2 (c1' & ? & _ & ?)%Hcs (c2' & ? & _ & ?)%Hcs ??. eauto. }
  assert (Hev : cands_evolve (t_candidates t) cs').
  { intros d c Hd. eexists. unfold cs'. rewrite map_lookup_imap, Hd. split; [done|].
    by destruct c as [??? ? []]. }
  destruct (1 <? candidates_selected cs') eqn:Hn; [|by apply HQ].
  apply Z.ltb_lt in Hn. pose proof (selected_at_most_one cs' (ci_selected _ Hinv)). lia.
Qed.

(** * Statements of the helpers *)

Lemma wp_queueRunNotice {allowed} now src kind a reason (Q : unit → run_rows → Prop) t :
  (∀ i n, t_notices t !! i = Some n → n_source_event_id n ≠ src) →
  (∃ e, e ∈ t_events t ∧ ev_id e = src) →
  Q tt (t <| t_notices ::= <[t_next_notice t :=
             {| n_kind := kind; n_source_event_id := src; n_status := Notice.pending;
                n_axis := a; n_reason_code := reason; n_comment_url := None;
                n_claim_token := None; n_claimed_at := None;
                n_created_at := now; n_updated_at := now |}]> |>
          <| t_next_notice ::= Z.succ |>) →
  wpe allowed (queueRunNotice now src kind a reason) Q t.
Proof.
  intros Hfresh (e & He & Hid) HQ. unfold wpe, queueRunNotice.
  destruct (existsb _ (map_to_list _)) eqn:H1.
  { apply existsb_exists in H1 as ([i n] & Hin & Hn).
    apply list_elem_of_In, elem_of_map_to_list in Hin. simpl in Hn.
    apply Z.eqb_eq in Hn. by destruct (Hfresh i n Hin). }
  destruct (existsb _ (t_events t)) eqn:H2; [done|].
  apply not_true_iff_false in H2. destruct H2. apply existsb_exists. exists e.
  split; [by apply list_elem_of_In|]. by apply Z.eqb_eq.
Qed.

(** A notice source that was drawn from the sequence is new to the outbox. *)
Lemma fresh_source P E U evs ne ns nn i n :
  log_inv P E U evs ne → notices_inv evs ns nn → ns !! i = Some n →
  ∀ k, ne <= k → n_source_event_id n ≠ k.
Proof.
  intros Hl Hn Hi k Hk Heq. destruct (ni_source _ _ _ Hn i n Hi) as (e & He & (Hs & _)).
  pose proof (lg_ids _ _ _ _ _ Hl) as Hids. rewrite Forall_forall in Hids.
  specialize (Hids e He). lia.
Qed.

(** [abandonInFlightPublication] on a run that never published a step: the
    publication is skipped when it was waiting, and left alone otherwise. *)
Lemma wp_abandonInFlightPublication {allowed} now (Q : option Pub.status → run_rows → Prop) t u :
  cands_inv (t_candidates t) → t_steps t = ∅ → t_pub t = Some u →
  (∀ cs, cands_inv cs → cands_evolve (t_candidates t) cs →
    (u_status u = Pub.pending ∨ u_status u = Pub.publishing →
      Q (Some (u_status u))
        (t <| t_candidates := cs |>
           <| t_pub := Some (u <| u_status := Pub.skipped |> <| u_claim_token := None |>
                <| u_claimed_at := None |> <| u_finished_at := Some now |>
                <| u_failure_code := None |> <| u_failure_message := None |>
                <| u_updated_at := now |>) |>))
    ∧ (u_status u ≠ Pub.pending → u_status u ≠ Pub.publishing →
       Q None (t <| t_candidates := cs |>))) →
  wpe allowed (abandonInFlightPublication now) Q t.
Proof.
  intros Hc Hs Hu HQ. destruct t; simpl in *; subst.
  unfold abandonInFlightPublication.
  apply wp_bind, wp_abandonOpenCandidates; [done|].
  intros cs Hcs Hev. apply wp_bind. destruct (HQ cs Hcs Hev) as [Hyes Hno].
  apply wp_sql_update; simpl.
  - intros ? [= <-] Hw. split; [done|]. apply wp_bind, wp_ret.
    apply Hyes. apply orb_true_iff in Hw as [Hw|Hw]; apply bool_decide_eq_true in Hw; auto.
  - intros Hw. specialize (Hw u eq_refl). apply orb_false_iff in Hw as [H1 H2].
    apply bool_decide_eq_false in H1, H2. by apply wp_ret, Hno.
Qed.

(** The batch form is the same transition. *)
Lemma abandon_batch now runId t :
  abandonInFlightPublications now runId t =
  match abandonInFlightPublication now t with
  | Ok (from, t') => Ok (match from with Some s => [(runId, s)] | None => [] end, t')
  | Err e => Err e
  end.
Proof.
  unfold abandonInFlightPublications, abandonInFlightPublication, bind.
  destruct (abandonOpenCandidates now t) as [[[] t1]|e]; [|done].
  destruct (skipPublication now t1) as [[[[prev u]|] t2]|e]; done.
Qed.

Lemma wp_abandon_batch {allowed} now runId (Q : list (string * Pub.status) → run_rows → Prop) t :
  wpe allowed (abandonInFlightPublication now)
    (λ from, Q (match from with Some s => [(runId, s)] | None => [] end)) t →
  wpe allowed (abandonInFlightPublications now runId) Q t.
Proof.
  unfold wpe. rewrite abandon_batch. by destruct (abandonInFlightPublication now t) as [[a t']|e].
Qed.

(** The same rule for a publication that still waits, the only case that arises. *)
Lemma wp_abandon_pending {allowed} now (Q : option Pub.status → run_rows → Prop) t u :
  cands_inv (t_candidates t) → t_steps t = ∅ → t_pub t = Some u → u_status u = Pub.pending →
  (∀ cs, cands_inv cs → cands_evolve (t_candidates t) cs →
    Q (Some Pub.pending)
      (t <| t_candidates := cs |>
         <| t_pub := Some (u <| u_status := Pub.skipped |> <| u_claim_token := None |>
              <| u_claimed_at := None |> <| u_finished_at := Some now |>
              <| u_failure_code := None |> <| u_failure_message := None |>
              <| u_updated_at := now |>) |>)) →
  wpe allowed (abandonInFlightPublication now) Q t.
Proof.
  intros Hc Hs Hu Hp HQ. eapply wp_abandonInFlightPublication; [done..|].
  intros cs Hcs Hev. rewrite Hp. split; [intros _; by apply HQ|congruence].
Qed.

Lemma wp_skipPendingExecutions {allowed} now (Q : bool → run_rows → Prop) t e :
  t_exec t = Some e → e_status e = Exec.pending → exec_check e = true →
  Q true (t <| t_exec := Some (e <| e_status := Exec.skipped |>
          <| e_failure_code := None |> <| e_failure_message := None |>
          <| e_finished_at := Some now |>
          <| e_observed_at := now |> <| e_updated_at := now |>) |>) →
  wpe allowed (skipPendingExecutions now) Q t.
Proof.
  intros He Hs Hck HQ. destruct t, e; simpl in *; subst.
  unfold skipPendingExecutions. apply wp_bind, wp_sql_update; simpl.
  - intros ? [= <-] _. split; [|by apply wp_ret].
    unfold exec_check in *; simpl in *. destruct_guard. rewrite !andb_true_iff.
    repeat split; first [done|lia].
  - intros Hw. by specialize (Hw _ eq_refl).
Qed.

Lemma steps_inv_empty e u : u ≠ Pub.uncertain → u ≠ Pub.disconnected → steps_inv e u ∅.
Proof. intros H1 H2. split; [done|by apply map_Forall_empty|by destruct u]. Qed.

(** The execution axis moves under a publication that does not. *)
Lemma steps_inv_exec e e' u steps :
  steps_inv e u steps → (e ≠ Exec.succeeded ∨ e' = Exec.succeeded) → steps_inv e' u steps.
Proof. intros [H1 H2 H3] [He|He]; split; try done; intros; by auto. Qed.

(** * Tactics *)

Arguments mk_rows /.
Arguments no_rows /.

(** Open the invariant of the rows, axis rows down to their columns. *)
Ltac open_rows H :=
  destruct H as [?ne ?nn|?run ?p ?e ?u ?steps ?cs ?evs ?ns ?ne ?nn
    [?Hprep ?Hexec ?Hpub ?Haxes ?Hatt ?Hclaim ?Hsteps ?Hcands ?Hlog ?Hnot ?Hsto]].

(** One step of symbolic execution on rows in constructor form. *)
Ltac wp_step :=
  match goal with
  | |- wpe _ (bind _ _) _ _ => apply wp_bind
  | |- wpe _ (ret _) _ _ => apply wp_ret
  | |- wpe _ (read _) _ _ => apply wp_read; simpl
  | |- wpe _ (throw _) _ _ => apply wp_throw; reflexivity
  | |- wpe _ (sql_update _ _) _ _ => apply wp_sql_update; simpl
  | |- wpe _ (appendEvent _ _ _ _ _) _ _ => apply wp_appendEvent; [by eexists|]; simpl
  | |- wpe _ (queueRunNotice _ _ _ _ _) _ _ =>
      apply wp_queueRunNotice;
      [ let Hn := fresh "Hn" in
        intros ? ? Hn; eapply fresh_source; [eassumption|eassumption|exact Hn|lia]
      | first [ eexists; split; [econstructor 1|reflexivity]
              | eexists; split; [econstructor 2; econstructor 1|reflexivity]
              | eexists; split; [econstructor 2; econstructor 2; econstructor 1|reflexivity] ]
      | simpl ]
  | |- wpe _ (abandonInFlightPublication _) _ _ =>
      eapply wp_abandon_pending;
      [assumption|reflexivity|reflexivity|reflexivity|]; intros ?cs ?Hcs ?Hcev; simpl
  | |- wpe _ (skipPendingExecutions _) _ _ =>
      eapply wp_skipPendingExecutions; [reflexivity|reflexivity|assumption|]; simpl
  | |- wpe _ (supersedeRunAttentionNotices _ _) _ _ => apply wp_supersede; simpl
  | |- wpe _ (appendPublicationAbandoned _ _) _ _ => unfold appendPublicationAbandoned; simpl
  | |- wpe _ (if ?b then _ else _) _ _ =>
      let c := eval cbn in b in
      match c with true => idtac | false => idtac | _ => destruct b eqn:? end; simpl
  end.

(** The axes of a run in one of the few combinations the statuses leave. *)
Ltac axes_cases :=
  repeat match goal with
  | H : axes_ok ?p ?e ?u = true |- _ =>
      first [ is_var p; destruct p; try discriminate H
            | is_var e; destruct e; try discriminate H
            | is_var u; destruct u; try discriminate H ]
  end.

Ltac solve_ids :=
  repeat (constructor; [simpl; lia|]);
  match goal with
  | H : log_inv _ _ _ ?evs _ |- Forall _ ?evs =>
      eapply Forall_impl; [exact (lg_ids _ _ _ _ _ H)|]; simpl; intros; lia
  end.

Ltac clear_axes := match goal with H : axes_ok _ _ _ = true |- _ => clear H end.

(** Boolean facts about rows whose status is known. *)
Ltac solve_check :=
  try clear_axes;
  unfold prep_check, exec_check, pub_check, attempts_ok, pub_claim_ok in *; simpl in *;
  destruct_guard;
  repeat match goal with H : is_Some _ |- _ => destruct H end; simplify_eq/=;
  rewrite ?andb_true_iff; repeat split;
  first [ done | apply Z.leb_le; lia | apply Z.ltb_lt; lia
        | match goal with |- context [is_null ?x] => by destruct x end
        | match goal with |- context [not_null ?x] => by destruct x end ].

Ltac solve_axes :=
  simpl in *;
  first [ eassumption | reflexivity
        | by match goal with
          | H : axes_ok ?p ?e ?u = true |- axes_ok _ _ _ = true =>
              revert H; try (is_var p; destruct p); try (is_var e; destruct e);
              try (is_var u; destruct u); try done
          end ].

Ltac solve_log :=
  simpl;
  repeat first
    [ eassumption
    | match goal with
      | |- log_inv _ _ _ ({| ev_axis := preparation |} :: _) _ => eapply log_prep; [|reflexivity]
      | |- log_inv _ _ _ ({| ev_axis := execution |} :: _) _ => eapply log_exec; [|reflexivity]
      | |- log_inv _ _ _ ({| ev_axis := publication |} :: _) _ => eapply log_pub; [|reflexivity]
      end ].

Ltac solve_notices :=
  simpl;
  repeat first
    [ eassumption
    | apply notices_map; [|by intros; apply supersede_notice_keeps]
    | eapply notices_event;
      [|first [reflexivity
              |match goal with H : opt_eqb _ _ = true |- _ =>
                 unfold owed; simpl; rewrite H; reflexivity end]]
    | eapply notices_queue; [|reflexivity|reflexivity|reflexivity|reflexivity|solve_ids] ].

Ltac solve_axis_evolves :=
  intros ? [= <-]; eexists; split; [reflexivity|];
  first [ reflexivity
        | constructor; simpl; [try discriminate; intros; repeat split; assumption || reflexivity
                              |let Hs := fresh "Hs" in intros ? Hs; rewrite ?Hs; first [done | by f_equal; auto] ..] ].

Ltac solve_notices_evolve :=
  let i := fresh "i" in let n := fresh "n" in let Hn := fresh "Hn" in
  intros i n Hn;
  first
    [ exists n; split; [|done];
      first [ done
            | rewrite lookup_insert_ne; [done|]; intros ->;
              match goal with H : notices_inv _ ?m ?nn, Hn : ?m !! ?nn = Some _ |- _ =>
                apply (ni_ids _ _ _ H) in Hn; simpl in Hn; lia end ]
    | eexists; rewrite lookup_fmap, Hn; split; [reflexivity|apply supersede_notice_evolves] ].

Ltac solve_new_events :=
  first [ exists []; split; [reflexivity|] | eexists [_]; split; [reflexivity|]
        | eexists [_; _]; split; [reflexivity|] | eexists [_; _; _]; split; [reflexivity|] ];
  simpl; repeat constructor; simpl; lia.

Ltac solve_evolves :=
  constructor; simpl;
  [ done
  | solve_axis_evolves | solve_axis_evolves | solve_axis_evolves
  | auto with rows
  | first [reflexivity | assumption | etransitivity; eassumption]
  | solve_new_events
  | solve_notices_evolve
  | lia ].

(** An execution that never succeeded has no steps. *)
Ltac no_steps :=
  match goal with
  | H : steps_inv _ _ ?steps |- _ =>
      assert (steps = ∅) as -> by (by apply (si_started _ _ _ H))
  end.

(** The component of [live] a statement may have changed, by its shape. *)
Ltac solve_live :=
  simpl;
  first
    [ eassumption
    | match goal with
      | |- axes_ok _ _ _ = true => solve_axes
      | |- log_inv _ _ _ _ _ => solve_log
      | |- notices_inv _ _ _ => solve_notices
      | |- steps_inv _ _ _ => 
          first [ by apply steps_inv_empty
                | eapply steps_inv_exec; [eassumption|by first [by left|by right]]
                | no_steps; by apply steps_inv_empty ]
      | |- _ = true => solve_check
      end
    | idtac ].

(** The rows of a run that is not there do not change. *)
Ltac dead := first [reflexivity | split; [apply run_absent|reflexivity]].

Ltac solve_good :=
  simpl; split; [refine (run_live _ _ _ _ _ _ _ _ _ _ _); constructor; solve_live | solve_evolves].

(** The rows did not change. *)
Ltac keep := split; [by apply run_live|reflexivity].

(** Run a store operation whose statements are single-row updates and log writes:
    destruct the row an UPDATE matched, then continue. *)
Ltac on_row :=
  let Hw := fresh "Hw" in
  intros ? [= <-] Hw; unfold holds_preparation in *; destruct_guard.
