(* ===== verification/PreparationSpecs.v ===== *)
(** The preparation axis keeps the invariant: every operation of PreparationStore.v. *)

From S2P Require Import Prelude Schema StateMachines Tables Database PreparationStore.
From S2P Require Import PublicationStore Invariant Preservation.

Section PreparationSpecs.
Context (cfg : store_config) (now : Z).

Lemma renewClaim_good token t : run_inv t → wp (renewClaim cfg now token) (λ _, good t) t.
Proof.
  intros H. open_rows H; [dead|].
  unfold renewClaim. wp_step. wp_step.
  - on_row. destruct p; simpl in *; subst. split; [solve_check|]. wp_step. solve_good.
  - intros. wp_step. keep.
Qed.

Lemma checkpointInput_good token input t :
  run_inv t → wp (checkpointInput now token input) (λ _, good t) t.
Proof.
  intros H. open_rows H; [dead|].
  unfold checkpointInput. wp_step. wp_step.
  - on_row. destruct p; simpl in *; subst. split; [solve_check|]. wp_step. solve_good.
  - intros. wp_step.
Qed.

(** A selected candidate is claimed: the preparation is running, with one more
    attempt spent. *)
Lemma claimCandidate_good runId token t :
  run_inv t → claimable now t = true → wp (claimCandidate now runId token) (λ _, good t) t.
Proof.
  intros H Hc. open_rows H; [dead|].
  unfold claimCandidate, claimable in *; simpl in Hc. destruct_guard.
  wp_step. wp_step. wp_step. wp_step. simpl. wp_step. wp_step.
  - intros ? [= <-] _. destruct p; simpl in *.
    match goal with H : _ || _ = true |- _ => apply orb_true_iff in H as [H|H] end;
      destruct_guard; subst; (split; [solve_check|]);
      do 3 wp_step; solve_good.
  - intros. wp_step.
Qed.

(** The three statuses an expiry leaves behind. *)
Definition expiry_concluded (attempts : Z) (t : run_rows) : Prop :=
  ∃ p e u, t_prep t = Some p ∧ t_exec t = Some e ∧ t_pub t = Some u
    ∧ (p_status p, e_status e, u_status u)
      = if MAX_PREPARATION_ATTEMPTS <=? attempts
        then (Prep.failed, Exec.skipped, Pub.skipped)
        else (Prep.uncertain, Exec.pending, Pub.pending).

(** Concluding an expired claim always succeeds: the execution it may have to
    skip is still pending. *)
Lemma concludeExpiry_ok runId t :
  run_inv t → expired_lease cfg now t = true →
  wpt (concludeExpiry now runId (prep_attempts t))
    (λ _ t', good t t' ∧ expiry_concluded (prep_attempts t) t') t.
Proof.
  intros H Hx. open_rows H; [by discriminate Hx|].
  unfold concludeExpiry, expired_lease, prep_attempts in *; simpl in *. destruct_guard.
  destruct p; simpl in *; subst. wp_step. wp_step; [|by intros Hw; specialize (Hw _ eq_refl)].
  intros ? [= <-] _; simpl. destruct (_ <=? _) eqn:Hmax; simpl; destruct_guard.
  - split; [solve_check|]. do 3 wp_step. simpl.
    destruct e, u; simpl in *; axes_cases.
    no_steps. wp_step. wp_step. apply wp_abandon_batch. wp_step.
    repeat wp_step. split; [solve_good|]. do 3 eexists. repeat (split; [reflexivity|]).
    by rewrite (proj2 (Z.leb_le _ _) Hmax).
  - destruct e as [est], u as [? ust]; simpl in *. axes_cases.
    split; [solve_check|]. repeat wp_step.
    split; [solve_good|]. do 3 eexists. repeat (split; [reflexivity|]).
    by rewrite (proj2 (Z.leb_gt _ _) Hmax).
Qed.

Lemma disconnectExpired_good reason t :
  run_inv t → (∀ e, t_exec t = Some e → e_status e ≠ Exec.pending) →
  wp (disconnectExpired now reason) (λ _, good t) t.
Proof.
  intros H He. open_rows H; [dead|]. simpl in He. specialize (He e eq_refl).
  unfold disconnectExpired. wp_step. wp_step.
  - on_row. destruct p, e; simpl in *; subst. axes_cases; congruence.
  - intros. wp_step. keep.
Qed.

(** The savepoint around one expiry is never rolled back to. *)
Lemma expireOne_ok runId t :
  run_inv t → expired_lease cfg now t = true →
  wpt (expireOne now runId (prep_attempts t)) (λ o t', o = None ∧ good t t' ∧ expiry_concluded (prep_attempts t) t') t.
Proof.
  intros H Hx. pose proof (concludeExpiry_ok runId t H Hx) as Hwp.
  apply wp_savepoint.
  - apply wp_bind. eapply wp_mono; [exact Hwp|]. intros [] t' Hg. by apply wp_ret.
  - intros e k Hm _. apply wpt_ok in Hwp as ([] & t' & Hok & _).
    unfold bind in Hm. by rewrite Hok in Hm.
Qed.

Lemma scheduleRetry_wp token error after t :
  run_inv t →
  wp (scheduleRetry now token error after) (λ o t', good t t' ∧ (o = false → t' = t)) t.
Proof.
  intros H. open_rows H; [by split; [dead|]|].
  unfold scheduleRetry. wp_step. wp_step.
  - on_row. destruct p; simpl in *; subst. split; [solve_check|].
    repeat wp_step. split; [solve_good|done].
  - intros. wp_step. split; [keep|done].
Qed.

Lemma closeAndConclude_good token error t :
  run_inv t →
  wp (let! closed := closePreparation now token error in
      if negb closed then ret false else concludeFailure now error ;;; ret false)
    (λ _, good t) t.
Proof.
  intros H. open_rows H; [dead|].
  wp_step. unfold closePreparation. wp_step. wp_step.
  - on_row. destruct p; simpl in *; subst. split; [solve_check|].
    wp_step. simpl. wp_step. unfold concludeFailure.
    destruct e, u; simpl in *; axes_cases.
    destruct (opt_eqb (err_code error) (Some SUBMISSION_STATE_UNCERTAIN)) eqn:Hu; simpl.
    + unfold markExecutionUncertain. do 3 wp_step. wp_step.
      * intros ? [= <-] _. split; [solve_check|]. repeat wp_step. solve_good.
      * intros. wp_step. wp_step.
    + no_steps. repeat wp_step. solve_good.
  - intros. repeat wp_step. keep.
Qed.

Lemma fail_good token error retry after t :
  run_inv t → wp (fail now token error retry after) (λ _, good t) t.
Proof.
  intros H. unfold fail. apply wp_bind. destruct retry.
  - eapply wp_mono; [by apply scheduleRetry_wp|]. intros [] t' [Hg He]; [by apply wp_ret|].
    rewrite He by done. by apply closeAndConclude_good.
  - apply wp_ret. by apply closeAndConclude_good.
Qed.
End PreparationSpecs.
