(* ===== verification/ExecutionSpecs.v ===== *)
(** The execution axis keeps the invariant: every operation of ExecutionStore.v and
    SubmissionTransitions.v, and the input-bundle intents of InputBundles.v. *)

From S2P Require Import Prelude Schema StateMachines Tables Database RunRecord.
From S2P Require Import PreparationStore PublicationStore ExecutionStore InputBundles.
From S2P Require Import SubmissionTransitions Invariant Preservation.

Lemma wp_storage_column storage (Q : option json → run_rows → Prop) t :
  (∀ c, storage_ok c = true → Q c t) → wp (storage_column storage) Q t.
Proof.
  intros HQ. unfold storage_column. destruct storage as [s|]; [|by apply HQ].
  destruct (normalizeArtifactStorage s) as [v|e] eqn:Hs.
  - apply HQ. by eapply normalize_storage_ok.
  - apply wp_throw. unfold normalizeArtifactStorage in Hs.
    repeat case_match; by simplify_eq.
Qed.

(** An execution in flight, or succeeded, is never waited for by a publication that
    has already started. *)
Ltac exec_cases :=
  match goal with H : exec_active _ = true |- _ =>
    unfold exec_active in H; simpl in H; apply orb_true_iff in H as [H|H] end;
  destruct_guard; subst.

Section ExecutionSpecs.
Context (cfg : store_config) (now : Z).

Lemma touchObservation_good t : run_inv t → wp (touchObservation now) (λ _, good t) t.
Proof.
  intros H. open_rows H; [dead|]. unfold touchObservation. wp_step. wp_step.
  - intros ? [= <-] Hw. destruct e; simpl in *. exec_cases;
      (split; [solve_check|wp_step; solve_good]).
  - intros. wp_step. keep.
Qed.

Lemma markRunning_good t : run_inv t → wp (markRunning now) (λ _, good t) t.
Proof.
  intros H. open_rows H; [dead|]. unfold markRunning. wp_step. wp_step.
  - on_row. destruct e; simpl in *; subst. split; [solve_check|].
    repeat wp_step. solve_good.
  - intros. wp_step. keep.
Qed.

Lemma recordArtifactStorage_good storage t :
  run_inv t → wp (recordArtifactStorage now storage) (λ _, good t) t.
Proof.
  intros H. unfold recordArtifactStorage. destruct storage as [s|]; [|by apply wp_ret].
  apply wp_bind, wp_storage_column. intros c Hc. open_rows H; [dead|]. wp_step. wp_step.
  - intros ? [= <-] _. destruct e; simpl in *. split; [solve_check|].
    wp_step. solve_good.
  - intros Hw. by specialize (Hw _ eq_refl).
Qed.

Lemma recordExecutionSuccess_good result storage t :
  run_inv t → wp (recordExecutionSuccess now result storage) (λ _, good t) t.
Proof.
  intros H. unfold recordExecutionSuccess. apply wp_bind, wp_storage_column. intros c Hc.
  open_rows H; [dead|]. wp_step. wp_step.
  - intros ? [= <-] Hw. destruct p, e, u; simpl in *. exec_cases; axes_cases.
    all: split; [solve_check|repeat wp_step; solve_good].
  - intros. wp_step. keep.
Qed.

Lemma claimSubmissionRecovery_good token t :
  run_inv t → wp (claimSubmissionRecovery cfg now token) (λ _, good t) t.
Proof.
  intros H. open_rows H; [dead|]. unfold claimSubmissionRecovery. wp_step. wp_step.
  - intros ? [= <-] Hw. unfold recovery_claimable in Hw. destruct_guard.
    destruct e; simpl in *; subst. split; [solve_check|]. repeat wp_step. solve_good.
  - intros. wp_step. keep.
Qed.

Lemma resumeDisconnectedSubmissionRecoveryOn_good t :
  run_inv t → wp (resumeDisconnectedSubmissionRecoveryOn now) (λ _, good t) t.
Proof.
  intros H. open_rows H; [dead|]. unfold resumeDisconnectedSubmissionRecoveryOn.
  wp_step. wp_step.
  - on_row. destruct e; simpl in *; subst. split; [solve_check|]. repeat wp_step. solve_good.
  - intros. wp_step. keep.
Qed.

Lemma disconnectExhaustedSubmissionRecovery_good max t :
  run_inv t → wp (disconnectExhaustedSubmissionRecovery cfg now max) (λ _, good t) t.
Proof.
  intros H. open_rows H; [dead|]. unfold disconnectExhaustedSubmissionRecovery.
  wp_step. wp_step.
  - intros ? [= <-] Hw. unfold recovery_claimable in Hw. destruct_guard.
    destruct e; simpl in *; subst. split; [solve_check|]. repeat wp_step. solve_good.
  - intros. wp_step. keep.
Qed.

Lemma recordUnknownRecoveryOutcome_good token t :
  run_inv t → wp (recordUnknownRecoveryOutcome now token) (λ _, good t) t.
Proof.
  intros H. open_rows H; [dead|]. unfold recordUnknownRecoveryOutcome. wp_step. wp_step.
  - intros ? [= <-] Hw. unfold holds_recovery in Hw. destruct_guard.
    destruct e; simpl in *; subst. split; [solve_check|]. wp_step. solve_good.
  - intros. wp_step. keep.
Qed.

Lemma failExecution_good error storage t :
  run_inv t → wp (failExecution now error storage) (λ _, good t) t.
Proof.
  intros H. unfold failExecution. apply wp_bind, wp_storage_column. intros c Hc.
  open_rows H; [dead|]. wp_step. wp_step.
  - intros ? [= <-] Hw. destruct p, e, u; simpl in *. exec_cases; axes_cases.
    all: split; [solve_check|no_steps; repeat wp_step; solve_good].
  - intros. wp_step. keep.
Qed.
End ExecutionSpecs.

Section BundleSpecs.
Context (cfg : store_config) (now : Z) (parse_url : string → option url).

(** Writing candidates only. *)
Lemma good_candidates r p e u steps cs evs ns ne nn cs' :
  live p e u steps cs evs ns ne nn → cands_inv cs' → cands_evolve cs cs' →
  good (mk_rows r p e u steps cs evs ns ne nn) (mk_rows r p e u steps cs' evs ns ne nn).
Proof. intros [] Hcs Hev. solve_good. Qed.

Lemma cands_insert_ok cs d c c' :
  cands_inv cs → cs !! d = Some c → candidate_check d c' = true → cand_evolves c c' →
  (c_status c' = Candidate.selected → c_status c = Candidate.selected) →
  cands_inv (<[d := c']> cs) ∧ cands_evolve cs (<[d := c']> cs).
Proof.
  intros [Hc Hu] Hd Hck Hev Hsel. split; [split|].
  - by apply map_Forall_insert_2.
  - intros d1 d2 c1 c2. rewrite !lookup_insert. repeat case_decide; intros; simplify_eq; eauto.
  - intros k x Hk. destruct (decide (d = k)) as [->|].
    + exists c'. rewrite lookup_insert_eq. by simplify_eq.
    + exists x. by rewrite lookup_insert_ne.
Qed.

Lemma cands_insert_fresh cs d c :
  cands_inv cs → cs !! d = None → candidate_check d c = true →
  c_status c ≠ Candidate.selected →
  cands_inv (<[d := c]> cs) ∧ cands_evolve cs (<[d := c]> cs).
Proof.
  intros [Hc Hu] Hd Hck Hsel. split; [split|].
  - by apply map_Forall_insert_2.
  - intros d1 d2 c1 c2. rewrite !lookup_insert. repeat case_decide; intros; simplify_eq; eauto.
  - intros k x Hk. exists x. rewrite lookup_insert_ne; [done|]. by intros ->; simplify_eq.
Qed.

Lemma wp_requirePreparationClaim token (Q : unit → run_rows → Prop) t :
  (∀ p, t_prep t = Some p → holds_preparation token p = true →
     lease_live (p_claimed_at p) now (claim_timeout_ms cfg) = true → Q tt t) →
  wp (requirePreparationClaim cfg now token) Q t.
Proof.
  intros HQ. unfold requirePreparationClaim. wp_step. apply wp_read.
  destruct (t_prep t) as [p|] eqn:Hp; [|done].
  destruct (holds_preparation token p && _) eqn:Hh; [|done].
  apply andb_true_iff in Hh as [H1 H2]. by apply (HQ p).
Qed.

Lemma upsert_candidate_good token i t :
  run_inv t → is_Some (t_prep t) → wp (upsert_candidate now token i) (λ _, good t) t.
Proof.
  intros H Hp. open_rows H; [by destruct Hp|].
  unfold wpe, upsert_candidate; simpl.
  destruct (negb (candidate_check _ _)) eqn:Hck; [done|]. apply negb_false_iff in Hck.
  destruct (cs !! ref_digest (in_reference i)) as [c|] eqn:Hd.
  - destruct (_ && _) eqn:Hsame; [|done].
    match goal with |- good _ (_ <| t_candidates ::= <[_ := ?x]> |>) => set (c' := x)
    | |- good _ {| t_candidates := <[_ := ?x]> _ |} => set (c' := x) end.
    pose proof (ci_checks _ Hcands _ _ Hd) as Hc. simpl in Hc.
    assert (Hc' : candidate_check (ref_digest (in_reference i)) c' = true ∧ cand_evolves c c'
                  ∧ (c_status c' = Candidate.selected → c_status c = Candidate.selected)).
    { unfold c'. destruct (bool_decide (c_status c = _)) eqn:Ha; [|done].
      apply bool_decide_eq_true in Ha. split; [exact Hc|]. split; [|done].
      repeat split. by rewrite Ha. }
    destruct Hc' as (? & ? & ?).
    destruct (cands_insert_ok cs _ c c' Hcands Hd) as [? ?]; [done..|].
    by apply good_candidates.
  - destruct (cands_insert_fresh cs _ _ Hcands Hd Hck) as [? ?]; [done|].
    by apply good_candidates.
Qed.

Lemma reserve_good runId token i t :
  run_inv t → wp (reserve cfg now parse_url runId token i) (λ _, good t) t.
Proof.
  intros H. unfold reserve. destruct (reference_error _ _ _) as [f|] eqn:He.
  - apply wp_throw. revert He. unfold reference_error. repeat case_match; by intros [= <-].
  - apply wp_bind, wp_requirePreparationClaim. intros p Hp _ _.
    apply upsert_candidate_good; [done|by eexists].
Qed.

Lemma list_candidates_good token t :
  run_inv t → wp (list_candidates cfg now token) (λ _ t', t' = t) t.
Proof. intros H. by apply wp_bind, wp_requirePreparationClaim. Qed.

Lemma settle_good token digest settled t :
  run_inv t → settled = Candidate.present ∨ settled = Candidate.abandoned →
  wp (settle cfg now token digest settled) (λ _, good t) t.
Proof.
  intros H Hsettled. apply wp_bind, wp_requirePreparationClaim. intros p Hp _ _.
  open_rows H; [done|]. unfold wpe; simpl.
  destruct (cs !! digest) as [c|] eqn:Hd; [|done].
  destruct (_ || _) eqn:Hst; [|done].
  match goal with |- good _ (_ <| t_candidates ::= <[_ := ?x]> |>) => set (c' := x)
  | |- good _ {| t_candidates := <[_ := ?x]> _ |} => set (c' := x) end.
  pose proof (ci_checks _ Hcands _ _ Hd) as Hc. simpl in Hc.
  assert (Hc' : candidate_check digest c' = true ∧ cand_evolves c c'
                ∧ (c_status c' = Candidate.selected → c_status c = Candidate.selected)).
  { unfold c'. destruct (bool_decide (c_status c = settled)); [done|].
    split; [exact Hc|]. split; [|by destruct Hsettled as [->| ->]].
    repeat split. intros Hs. rewrite Hs in Hst. by destruct Hsettled as [->| ->]. }
  destruct Hc' as (? & ? & ?).
  destruct (cands_insert_ok cs _ c c' Hcands Hd) as [? ?]; [done..|].
  by apply good_candidates.
Qed.
End BundleSpecs.

Section SubmissionSpecs.
Context (cfg : store_config) (now : Z).

Lemma savePreparedSubmission_good token context input t :
  run_inv t → wp (savePreparedSubmission cfg now token context input) (λ _, good t) t.
Proof.
  intros H. open_rows H; [dead|]. unfold savePreparedSubmission.
  apply wp_bind, wp_requirePreparationClaim. intros ? [= <-] Hh _. wp_step. wp_step. wp_step.
  apply wp_update_candidates; [done|by intros c; destruct (bool_decide _)|].
  intros n cs' Hcs' Hcev. wp_step; [done|]. wp_step. wp_step.
  - intros ? [= <-] Hw. destruct_guard. destruct p, e; simpl in *; subst.
    assert (Hin : ∀ i, e_input = Some i → input = i).
    { intros i ->. match goal with H : _ || _ = true |- _ => simpl in H; destruct_guard end.
      congruence. }
    split; [solve_check|]. wp_step. wp_step.
    + on_row. destruct u; simpl in *; subst. split; [solve_check|].
      apply wp_abandonOpenCandidates; [done|]. intros cs'' Hcs'' Hcev'. solve_good.
    + intros. wp_step.
  - intros _. wp_step. wp_step; [|intros; by apply wp_throw].
    on_row. split; [|by apply wp_throw]. destruct u; simpl in *; subst. solve_check.
Qed.

Lemma markQueued_good token context t :
  run_inv t → wp (markQueued now token context) (λ _, good t) t.
Proof.
  intros H. open_rows H; [dead|]. unfold markQueued. wp_step. wp_step. wp_step. wp_step.
  - on_row. destruct u; simpl in *; subst. split; [solve_check|].
    wp_step. wp_step. wp_step. wp_step.
    + on_row. destruct p, e; simpl in *; subst. split; [solve_check|].
      wp_step. wp_step.
      * on_row. simpl. split; [solve_check|]. repeat wp_step. solve_good.
      * intros. wp_step.
    + intros. wp_step.
  - intros _. wp_step. wp_step. wp_step. wp_step; [|intros; by apply wp_throw].
    on_row. split; [|by apply wp_throw]. destruct e; simpl in *; subst. solve_check.
Qed.

Lemma completeSubmissionRecovery_good token t :
  run_inv t → wp (completeSubmissionRecovery now token) (λ _, good t) t.
Proof.
  intros H. open_rows H; [dead|]. unfold completeSubmissionRecovery.
  wp_step. wp_step. wp_step. wp_step.
  - intros ? [= <-] Hw. unfold holds_recovery in Hw. destruct_guard.
    destruct p, e, u; simpl in *; subst. axes_cases.
    split; [solve_check|]. repeat wp_step. solve_good.
  - intros. wp_step. keep.
Qed.

Lemma failSubmissionRecovery_good token error t :
  run_inv t → wp (failSubmissionRecovery now token error) (λ _, good t) t.
Proof.
  intros H. open_rows H; [dead|]. unfold failSubmissionRecovery. wp_step. wp_step.
  - intros ? [= <-] Hw. unfold holds_recovery in Hw. destruct_guard.
    destruct p, e, u; simpl in *; subst. axes_cases. no_steps.
    split; [solve_check|]. repeat wp_step. solve_good.
  - intros. wp_step. keep.
Qed.
End SubmissionSpecs.
