(* ===== verification/PublicationSpecs.v ===== *)
(** The publication axis keeps the invariant: every operation of PublicationStore.v. *)

From S2P Require Import Prelude Schema StateMachines Tables Database RunRecord.
From S2P Require Import PreparationStore PublicationStore Invariant Preservation.

Lemma good_trans t1 t2 t3 : good t1 t2 → good t2 t3 → good t1 t3.
Proof. intros [_ H1] [H2 H3]. split; [done|by etransitivity]. Qed.

(** A publication in flight belongs to an execution that succeeded. *)
Lemma owned_succeeded p e u : axes_ok p e u = true → Pub.owned u = true → e = Exec.succeeded.
Proof. by destruct p, e, u. Qed.

Lemma owns_publication_true token u :
  owns_publication token u = true → Pub.owned (u_status u) = true ∧ u_claim_token u = Some token.
Proof. unfold owns_publication. intros H. by destruct_guard. Qed.

(** A change of the steps that loses no conclusion and no disconnection. *)
Record steps_move (steps steps' : gmap string step_row) : Prop := {
  sm_ok : map_Forall (λ _ s, step_ok s = true) steps';
  sm_evolve : steps_evolve steps steps';
  sm_disconnected : any_step (step_is Step.disconnected) steps = true →
                    any_step (step_is Step.disconnected) steps' = true;
}.

Lemma steps_move_refl e u steps : steps_inv e u steps → steps_move steps steps.
Proof. by intros []. Qed.

Lemma steps_inv_axis e u u' steps :
  steps_inv e u steps → axis_steps_ok u' steps = true → steps_inv e u' steps.
Proof. by intros [H1 H2 _] H3. Qed.

Lemma steps_inv_moved e u u' steps steps' :
  steps_inv e u steps → e = Exec.succeeded → steps_move steps steps' →
  axis_steps_ok u' steps' = true → steps_inv e u' steps'.
Proof. intros _ He [Hok _ _] H3. split; [done|done|done]. Qed.

Lemma steps_move_insert e u steps k s s' :
  steps_inv e u steps → steps !! k = Some s → s_status s ≠ Step.disconnected →
  step_ok s' = true → step_evolves s s' → steps_move steps (<[k := s']> steps).
Proof.
  intros [_ Hok _] Hk Hd Hs' He. split.
  - by apply map_Forall_insert_2.
  - by eapply steps_evolve_insert.
  - rewrite !any_step_true. intros (j & x & Hj & Hx). exists j, x.
    rewrite lookup_insert_ne; [done|]. intros ->. simplify_eq. unfold step_is in Hx.
    by apply bool_decide_eq_true in Hx.
Qed.

(** Boolean facts about one step. *)
Ltac solve_step :=
  unfold step_ok, step_check, step_is, isStepExhausted, MAX_PUBLICATION_STEP_ATTEMPTS,
    MAX_PUBLICATION_STEP_RECOVERY_ATTEMPTS in *; simpl in *; destruct_guard; simplify_eq/=;
  rewrite ?andb_true_iff; repeat split;
  first [ done | apply Z.leb_le; lia | apply Z.ltb_lt; lia | lia ].

Section PublicationSpecs.
Context (cfg : store_config) (now : Z).

(** ** Claims *)

(** The rows after a claim of a publication that was free. *)
Lemma claim_good token r p e u steps cs evs ns ne nn :
  live p e u steps cs evs ns ne nn →
  publishable (mk_rows r p e u steps cs evs ns ne nn) = true →
  lease_available cfg now u = true →
  wp (appendClaimEvent now (u_status u))
    (λ _, good (mk_rows r p e u steps cs evs ns ne nn))
    (mk_rows r p e (claim_publishing now token u) steps cs evs ns ne nn).
Proof.
  intros [Hprep Hexec Hpub Haxes Hatt Hclaim Hsteps Hcands Hlog Hnot Hsto] Hready Hfree.
  unfold publishable in Hready; simpl in Hready. destruct_guard.
  unfold appendClaimEvent. wp_step. wp_step.
  destruct p, e, u as [? [] ???????]; simpl in *; subst; try discriminate; axes_cases.
  all: wp_step; solve_good.
  all: eapply steps_inv_axis; [eassumption|]; simpl.
  all: match goal with H : any_step _ _ = false |- _ => by rewrite H end.
Qed.

Lemma claim_free_check token u :
  pub_check u = true → lease_available cfg now u = true →
  pub_check (claim_publishing now token u) = true.
Proof. destruct u as [? []]; intros; try done; simpl in *; solve_check. Qed.

Lemma claim_spec token t : run_inv t → wp (claim cfg now token) (λ _, good t) t.
Proof.
  intros H. destruct H as [|r p e u steps cs evs ns ne nn Hl]; [dead|].
  unfold claim. wp_step. apply wp_read. wp_step. wp_step.
  - intros ? [= <-] Hw. destruct_guard.
    split; [apply claim_free_check; [apply Hl|done]|]. wp_step.
    eapply wp_mono; [by apply claim_good|]. intros [] t' Hg. by wp_step.
  - intros _. wp_step. by split; [apply run_live|].
Qed.

Lemma claimSelected_good runId token t u :
  run_inv t → t_pub t = Some u → pub_claimable cfg now t = true →
  wp (claimSelected cfg now runId (u_status u) token) (λ _, good t) t.
Proof.
  intros H Hu Hc. destruct H as [|r p e u' steps cs evs ns ne nn Hl]; [done|].
  injection Hu as ->. unfold pub_claimable in Hc. destruct_guard. simpl in *.
  unfold claimSelected. wp_step. apply wp_read. wp_step. wp_step; [|intros; by apply wp_throw].
  intros ? [= <-] Hw. split; [apply claim_free_check; [apply Hl|done]|]. wp_step.
  eapply wp_mono; [by apply claim_good|]. intros [] t' Hg. wp_step.
  apply wp_findRunRecord. intros record. wp_step. apply wp_read.
  destruct record as [rec|]; [|by apply wp_throw].
  by destruct (_ ≫= _).
Qed.

(** ** The axis derived from its steps *)

Lemma derive_good r p e u steps cs evs ns ne nn steps' :
  live p e u steps cs evs ns ne nn → Pub.owned (u_status u) = true →
  steps_move steps steps' →
  wp (derivePublicationStatus now) (λ _, good (mk_rows r p e u steps cs evs ns ne nn))
    (mk_rows r p e u steps' cs evs ns ne nn).
Proof.
  intros [Hprep Hexec Hpub Haxes Hatt Hclaim Hsteps Hcands Hlog Hnot Hsto] Ho Hmove.
  pose proof (owned_succeeded _ _ _ Haxes Ho) as He.
  assert (Hinv : ∀ st, axis_steps_ok st steps' = true → steps_inv (e_status e) st steps').
  { intros st. by eapply steps_inv_moved. }
  pose proof (derived_axis_ok (u_status u) steps' Ho) as Hder.
  assert (Hdo : Pub.owned (derived_status steps' (u_status u)) = true).
  { unfold derived_status. repeat case_match; done. }
  assert (Hdd : u_status u = Pub.disconnected →
                derived_status steps' (u_status u) = Pub.disconnected).
  { intros Hd. pose proof (si_axis _ _ _ Hsteps) as Hax. rewrite Hd in Hax.
    unfold derived_status. by rewrite (sm_disconnected _ _ Hmove Hax). }
  pose proof (sm_evolve _ _ Hmove) as Hev.
  unfold derivePublicationStatus. do 4 wp_step.
  - intros ? [= <-] Hw. apply andb_true_iff in Hw as [_ Hne]. destruct_guard.
    destruct u as [? st ???????]; simpl in *.
    destruct st, (derived_status steps' _); try discriminate; try congruence;
      try (by specialize (Hdd eq_refl)).
    all: split; [solve_check|repeat wp_step; solve_good].
    all: by apply Hinv.
  - intros Hw. specialize (Hw u eq_refl). rewrite Ho in Hw. simpl in Hw.
    destruct_guard. rewrite <- Hw in Hder. wp_step. solve_good. by apply Hinv.
Qed.

(** ** Ownership *)

Lemma wp_lock token (Q : bool → run_rows → Prop) t :
  (∀ u, t_pub t = Some u → owns_publication token u = true → Q true t) →
  Q false t → wp (lockPublicationOwnership token) Q t.
Proof.
  intros H1 H2. apply wp_read. destruct (t_pub t) as [u|] eqn:Hu; [|done].
  destruct (owns_publication token u) eqn:Ho; [|done]. by apply (H1 u).
Qed.

Lemma renewPublicationClaim_good token t :
  run_inv t → wp (renewPublicationClaim now token) (λ _, good t) t.
Proof.
  intros H. open_rows H; [dead|]. unfold renewPublicationClaim. wp_step. wp_step.
  - intros ? [= <-] Hw. unfold owns_publication in Hw. destruct_guard.
    destruct u as [? []]; simpl in *; try discriminate;
      (split; [solve_check|wp_step; solve_good]).
  - intros. wp_step. keep.
Qed.

Lemma complete_good token t : run_inv t → wp (complete now token) (λ _, good t) t.
Proof.
  intros H. open_rows H; [dead|]. unfold complete. wp_step. wp_step. wp_step. wp_step.
  - intros ? [= <-] Hw. unfold owns_publication in Hw. destruct_guard.
    pose proof (owned_succeeded _ _ _ Haxes ltac:(eassumption)).
    destruct p, e, u as [? []]; simpl in *; subst; try discriminate; axes_cases.
    all: split; [solve_check|repeat wp_step; solve_good].
    all: eapply steps_inv_axis; [eassumption|]; simpl.
    all: match goal with H : any_step _ _ = false |- _ => by rewrite H end.
  - intros. wp_step. keep.
Qed.

Lemma failPublication_good token error retry t :
  run_inv t → wp (failPublication now token error retry) (λ _, good t) t.
Proof.
  intros H. open_rows H; [dead|]. unfold failPublication. wp_step. wp_step.
  - intros ? [= <-] Hw. unfold owns_publication in Hw. destruct_guard.
    pose proof (owned_succeeded _ _ _ Haxes ltac:(eassumption)).
    destruct retry; destruct p, e, u as [? []]; simpl in *; subst; try discriminate; axes_cases.
    all: split; [solve_check|repeat wp_step; solve_good].
    all: by eapply steps_inv_axis.
  - intros. wp_step. keep.
Qed.

Lemma reset_steps e u u' steps :
  steps_inv e u steps → match u' with Pub.pending => True | _ => False end →
  let steps' := (λ s, if step_is Step.disconnected s then reset_step now s else s) <$> steps in
  steps_inv e u' steps' ∧ steps_evolve steps steps'.
Proof.
  intros [H1 H2 H3] Hu' steps'. split; [split|].
  - intros He. unfold steps'. by rewrite H1, fmap_empty.
  - intros k s. unfold steps'. rewrite lookup_fmap. destruct (steps !! k) as [s0|] eqn:Hk; [|done].
    intros [= <-]. specialize (H2 k s0 Hk). simpl in H2. by destruct (step_is _ _).
  - by destruct u'.
  - apply steps_evolve_fmap. intros [[] ?????????]; try done; by intros [=].
Qed.

Lemma resumeDisconnectedOn_good t :
  run_inv t → wp (resumeDisconnectedOn now) (λ _, good t) t.
Proof.
  intros H. open_rows H; [dead|]. unfold resumeDisconnectedOn. wp_step. wp_step.
  - on_row. destruct p, e, u; simpl in *; subst.
    destruct (reset_steps _ _ Pub.pending _ Hsteps I) as [Hsteps' Hev].
    axes_cases; (split; [solve_check|]).
    all: wp_step; unfold wpe at 1; simpl; repeat wp_step; solve_good.
  - intros. wp_step. keep.
Qed.

(** ** Steps *)

Lemma fresh_steps_ok keys :
  map_Forall (λ _ s, step_ok s = true ∧ s_status s = Step.pending)
    (foldr (λ k m, <[k := fresh_step now]> m) (∅ : gmap string step_row) keys).
Proof. induction keys as [|k keys IH]; simpl; [done|]. by apply map_Forall_insert_2. Qed.

Lemma initializePublicationSteps_good token keys t :
  run_inv t → wp (initializePublicationSteps now token keys) (λ _, good t) t.
Proof.
  intros H. open_rows H; unfold initializePublicationSteps.
  { destruct (negb (bool_decide (NoDup keys))); reflexivity. }
  wp_step; [by wp_step|]. wp_step. apply wp_lock; simpl; [|by apply wp_throw].
  intros ? [= <-] (Ho & _)%owns_publication_true.
  pose proof (owned_succeeded _ _ _ Haxes Ho) as He.
  wp_step. wp_step. wp_step.
  - destruct_guard. subst steps. unfold wpe, insert_steps; simpl.
    pose proof (fresh_steps_ok keys) as Hf. set (fresh := foldr _ _ _) in *.
    assert (steps_inv (e_status e) (u_status u) fresh).
    { pose proof (si_axis _ _ _ Hsteps) as Hax. split; [done| |].
      - intros k s Hk. by apply (Hf k s Hk).
      - assert (any_step (step_is Step.disconnected) fresh = false) as Hd.
        { apply any_step_false. intros k s Hk. destruct (Hf k s Hk) as [_ Hs].
          unfold step_is. by rewrite Hs. }
        destruct (u_status u); try discriminate; simpl. by rewrite Hd. }
    assert (steps_evolve ∅ fresh) by (split; [done|]; intros ??; by rewrite lookup_empty).
    solve_good.
  - wp_step; [wp_step; keep|by apply wp_throw].
Qed.

(** Writing a step that no part of the axis summarises. *)
Lemma step_write_good r p e u steps cs evs ns ne nn key s s' :
  live p e u steps cs evs ns ne nn → Pub.owned (u_status u) = true →
  steps !! key = Some s →
  step_is Step.uncertain s = false → step_is Step.disconnected s = false →
  step_is Step.disconnected s' = false → step_ok s' = true → step_evolves s s' →
  good (mk_rows r p e u steps cs evs ns ne nn)
    (mk_rows r p e u (<[key := s']> steps) cs evs ns ne nn).
Proof.
  intros [Hprep Hexec Hpub Haxes Hatt Hclaim Hsteps Hcands Hlog Hnot Hsto] Ho Hk Hu Hd Hd' Hok Hev.
  pose proof (owned_succeeded _ _ _ Haxes Ho) as He.
  assert (steps_inv (e_status e) (u_status u) (<[key := s']> steps)).
  { eapply steps_inv_moved; [exact Hsteps|done| |].
    - eapply steps_move_insert; [exact Hsteps|done| |done|done].
      intros Hs. unfold step_is in Hd. by rewrite Hs in Hd.
    - eapply axis_steps_update; [done|by apply Hsteps|done..]. }
  pose proof (steps_evolve_insert _ _ _ _ Hk Hev). solve_good.
Qed.

Lemma live_step_ok p e u steps cs evs ns ne nn key s :
  live p e u steps cs evs ns ne nn → steps !! key = Some s → step_ok s = true.
Proof. intros Hl Hk. exact (si_steps _ _ _ (lv_steps _ _ _ _ _ _ _ _ _ Hl) _ _ Hk). Qed.

Lemma claimPublicationStep_good token key t :
  run_inv t → wp (claimPublicationStep now token key) (λ _, good t) t.
Proof.
  intros H. destruct H as [|r p e u steps cs evs ns ne nn Hl]; [dead|].
  unfold claimPublicationStep. wp_step.
  apply wp_lock; simpl; [|wp_step; by split; [apply run_live|]].
  intros ? [= <-] (Ho & _)%owns_publication_true.
  apply wp_update_step; simpl; [|intros; by split; [apply run_live|]].
  intros s Hk Hw. unfold step_claimable in Hw. destruct_guard.
  pose proof (live_step_ok _ _ _ _ _ _ _ _ _ _ _ Hl Hk) as Hok.
  destruct s as [st]; simpl in *.
  destruct st; try (exfalso; by destruct_guard; discriminate).
  all: split; [solve_step|].
  all: eapply step_write_good; [exact Hl|done|exact Hk|done|done|done|solve_step|done].
Qed.

Lemma completePublicationStep_good token key remote t :
  run_inv t → wp (completePublicationStep now token key remote) (λ _, good t) t.
Proof.
  intros H. destruct H as [|r p e u steps cs evs ns ne nn Hl]; [dead|].
  unfold completePublicationStep. wp_step.
  apply wp_lock; simpl; [|wp_step; by split; [apply run_live|]].
  intros ? [= <-] (Ho & _)%owns_publication_true.
  apply wp_update_step; simpl; [|intros; by split; [apply run_live|]].
  intros s Hk Hw. unfold step_is in Hw. destruct_guard.
  pose proof (live_step_ok _ _ _ _ _ _ _ _ _ _ _ Hl Hk) as Hok.
  destruct s as [st]; simpl in *; subst. split; [solve_step|].
  eapply step_write_good; [exact Hl|done|exact Hk|done|done|done|solve_step|done].
Qed.

(** A step the axis may summarise is written, then the axis is derived again. *)
Lemma step_derive_good r p e u steps cs evs ns ne nn key s s' :
  live p e u steps cs evs ns ne nn → Pub.owned (u_status u) = true →
  steps !! key = Some s → s_status s ≠ Step.disconnected →
  step_ok s' = true → step_evolves s s' →
  wp (derivePublicationStatus now) (λ _, good (mk_rows r p e u steps cs evs ns ne nn))
    (mk_rows r p e u (<[key := s']> steps) cs evs ns ne nn).
Proof.
  intros Hl Ho Hk Hd Hok Hev. apply derive_good; [done..|].
  eapply steps_move_insert; [apply Hl|done..].
Qed.

Lemma derive_unchanged_good t :
  run_inv t → wp (derivePublicationStatus now) (λ _, good t) t.
Proof.
  intros H. destruct H as [|r p e u steps cs evs ns ne nn Hl]; [dead|].
  destruct (Pub.owned (u_status u)) eqn:Ho.
  - apply derive_good; [done..|]. eapply steps_move_refl. apply Hl.
  - unfold derivePublicationStatus. do 4 wp_step.
    + intros ? [= <-] Hw. by rewrite Ho in Hw.
    + intros _. wp_step. by split; [apply run_live|].
Qed.

Lemma classifyRefusedClaim_good token key t :
  run_inv t → wp (classifyRefusedClaim now token key) (λ _, good t) t.
Proof.
  intros H. destruct H as [|r p e u steps cs evs ns ne nn Hl].
  { unfold classifyRefusedClaim. dead. }
  assert (Hd : ∀ b, wp (derivePublicationStatus now ;;; ret b)
     (λ _ : bool, good (mk_rows r p e u steps cs evs ns ne nn))
     (mk_rows r p e u steps cs evs ns ne nn)).
  { intros b. wp_step. eapply wp_mono; [by apply derive_unchanged_good, run_live|].
    intros [] t' Hg. by wp_step. }
  unfold classifyRefusedClaim. wp_step. apply wp_lock.
  - intros ? [= <-] (Ho & _)%owns_publication_true. wp_step. apply wp_read. simpl.
    set (current := snd <$> _). wp_step. wp_step; [|wp_step; apply Hd].
    apply wp_update_step; simpl; [|intros; apply Hd].
    intros s Hk Hw. destruct_guard.
    pose proof (live_step_ok _ _ _ _ _ _ _ _ _ _ _ Hl Hk) as Hok.
    destruct s as [st]; simpl in *.
    destruct st; try (exfalso; by destruct_guard; discriminate).
    all: split; [solve_step|]; wp_step.
    all: eapply wp_mono; [eapply step_derive_good; [exact Hl|done|exact Hk|done|solve_step|done]|].
    all: intros [] t' Hg; by wp_step.
  - wp_step. apply wp_read. simpl. set (current := snd <$> _).
    replace (match current with Some s => false | None => false end) with false
      by (by destruct current).
    simpl. wp_step. wp_step. apply Hd.
Qed.

Lemma requirePublicationStepClaim_good token key t :
  run_inv t → good t (requirePublicationStepClaim now token key t).2.
Proof.
  intros H. unfold requirePublicationStepClaim.
  assert (Hrefl : good t t) by (by split).
  pose proof (wp_transaction _ (good t) t (claimPublicationStep_good token key t H) Hrefl) as H1.
  destruct (transaction _ t) as [r1 t1]; simpl in H1.
  destruct r1 as [[]|e1]; [done| |done].
  assert (Hrefl1 : good t1 t1) by (by split; [apply H1|]).
  pose proof (wp_transaction _ (good t1) t1
    (classifyRefusedClaim_good token key t1 (proj1 H1)) Hrefl1) as H2.
  destruct (transaction _ t1) as [r2 t2]; simpl in H2.
  destruct r2 as [[]|e2]; simpl; by eapply good_trans.
Qed.

Lemma settleExhaustedPublicationStep_good token key found t :
  run_inv t → wp (settleExhaustedPublicationStep now token key found) (λ _, good t) t.
Proof.
  intros H. destruct H as [|r p e u steps cs evs ns ne nn Hl]; [dead|].
  unfold settleExhaustedPublicationStep. wp_step.
  apply wp_lock; simpl; [|wp_step; by split; [apply run_live|]].
  intros ? [= <-] (Ho & _)%owns_publication_true. wp_step.
  apply wp_update_step; simpl; [|intros; wp_step; by split; [apply run_live|]].
  intros s Hk Hw. unfold step_is in Hw. destruct_guard.
  pose proof (live_step_ok _ _ _ _ _ _ _ _ _ _ _ Hl Hk) as Hok.
  destruct s as [st]; simpl in *; subst.
  destruct found as [remote|]; (split; [solve_step|]); wp_step.
  all: eapply wp_mono; [eapply step_derive_good; [exact Hl|done|exact Hk|done|solve_step|done]|].
  all: intros [] t' Hg; by wp_step.
Qed.

Lemma failed_step_ok error retry s :
  step_ok s = true → s_status s = Step.running ∨ s_status s = Step.uncertain →
  step_ok (failed_step now error retry s) = true
  ∧ step_check (failed_step now error retry s) = true.
Proof.
  intros Hok Hs. unfold failed_step. destruct s as [st]; simpl in *.
  destruct Hs as [->| ->], retry as [[]|]; simpl; try (split; solve_step).
  destruct (_ <=? _) eqn:Hmax; simpl; split; solve_step.
Qed.

(** The publication half of a terminal step failure. *)
Lemma terminal_failure_good token error t :
  run_inv t →
  wp (let! publication' := sql_update (owns_publication token)
          (λ u, u <| u_status := Pub.failed |> <| u_claim_token := None |>
                  <| u_claimed_at := None |>
                  <| u_failure_code := err_code error |>
                  <| u_failure_message := Some (err_message error) |>
                  <| u_finished_at := Some now |> <| u_updated_at := now |>) in
        match publication' with
        | None => throw (Thrown "Publication changed while its terminal step failed.")
        | Some (previous, _) =>
            let! eventId := appendEvent now publication
              (Some (Pub.text (u_status previous))) "failed" (err_code error) in
            queueRunNotice now eventId Notice.failure publication (err_code error) ;;;
            ret true
        end) (λ _ : bool, good t) t.
Proof.
  intros H. open_rows H; [dead|]. wp_step. wp_step; [|intros; by apply wp_throw].
  intros ? [= <-] Hw. unfold owns_publication in Hw. destruct_guard.
  pose proof (owned_succeeded _ _ _ Haxes ltac:(eassumption)).
  destruct p, e, u as [? []]; simpl in *; subst; try discriminate; axes_cases.
  all: split; [solve_check|repeat wp_step; solve_good].
  all: by eapply steps_inv_axis.
Qed.

Lemma failPublicationStep_good token key error retry t :
  run_inv t → wp (failPublicationStep now token key error retry) (λ _, good t) t.
Proof.
  intros H. destruct H as [|r p e u steps cs evs ns ne nn Hl]; [dead|].
  unfold failPublicationStep. wp_step.
  apply wp_lock; simpl; [|wp_step; by split; [apply run_live|]].
  intros ? [= <-] (Ho & _)%owns_publication_true. wp_step.
  apply wp_update_step; simpl; [|intros; wp_step; by split; [apply run_live|]].
  intros s Hk Hw. unfold step_is in Hw.
  assert (Hs : s_status s = Step.running ∨ s_status s = Step.uncertain).
  { apply orb_true_iff in Hw as [Hw|Hw]; destruct_guard; auto. }
  pose proof (live_step_ok _ _ _ _ _ _ _ _ _ _ _ Hl Hk) as Hok.
  destruct (failed_step_ok error retry s Hok Hs) as [Hok' Hck].
  split; [exact Hck|]. wp_step. eapply wp_mono.
  - eapply step_derive_good; [exact Hl|done|exact Hk|by destruct Hs as [->| ->]|exact Hok'|].
    intros Hf. destruct s as [st]; simpl in *. by destruct Hs as [->| ->].
  - intros [] t' Hg. wp_step; [by wp_step|].
    eapply wp_mono; [by apply terminal_failure_good; apply Hg|].
    intros b t'' Hg'. by eapply good_trans.
Qed.
End PublicationSpecs.
