(* ===== verification/OperatorSpecs.v ===== *)
(** The operator's decisions, the notice deliveries and the admission of a run keep
    the invariant: OperatorDecisions.v, Notices.v and Admission.v. *)

From S2P Require Import Prelude Schema StateMachines Tables Database RunRecord.
From S2P Require Import PreparationStore PublicationStore ExecutionStore OperatorDecisions.
From S2P Require Import Admission Notices Invariant Preservation ExecutionSpecs.
From S2P Require Import PublicationSpecs.

Section OperatorSpecs.
Context (now : Z) (runId : string).

(** The invariant leaves no disconnected preparation to decide about. *)
Lemma no_disconnected_preparation t p :
  run_inv t → t_prep t = Some p → p_status p ≠ Prep.disconnected.
Proof.
  intros H Hp. open_rows H; [done|]. injection Hp as ->. intros Hd.
  rewrite Hd in Haxes. by destruct (e_status e).
Qed.

Lemma sql_update_prep_none (set : prep_row → prep_row) t :
  run_inv t →
  sql_update (λ p : prep_row, bool_decide (p_status p = Prep.disconnected)) set t = Ok (None, t).
Proof.
  intros H. unfold sql_update. destruct (row_of t) as [p|] eqn:Hp; [|done].
  by rewrite bool_decide_eq_false_2 by (by eapply no_disconnected_preparation).
Qed.

Lemma abandonBlockedPreparation_good reason t :
  run_inv t → wp (abandonBlockedPreparation now runId reason) (λ _, good t) t.
Proof.
  intros H. unfold abandonBlockedPreparation. wp_step; [by wp_step|].
  wp_step. apply wp_read. destruct (t_prep t) as [p|] eqn:Hp; [|by apply wp_throw].
  rewrite bool_decide_eq_false_2 by (by eapply no_disconnected_preparation). by wp_step.
Qed.

Lemma resumeDisconnectedPreparation_good t :
  run_inv t → wp (resumeDisconnectedPreparation now runId) (λ _, good t) t.
Proof.
  intros H. unfold wpe, resumeDisconnectedPreparation, bind.
  by rewrite sql_update_prep_none.
Qed.

Lemma giveUpDisconnectedPreparation_good reason t :
  run_inv t → wp (giveUpDisconnectedPreparation now runId reason) (λ _, good t) t.
Proof.
  intros H. unfold wpe, giveUpDisconnectedPreparation, bind.
  by rewrite sql_update_prep_none.
Qed.

Lemma resumed_record_good (m : tx run_rows bool) t :
  wp m (λ _, good t) t →
  wp (let! resumed := m in
      if resumed then requireRecord runId else throw notDisconnected) (λ _, good t) t.
Proof.
  intros Hm. wp_step. eapply wp_mono; [exact Hm|]. intros [] t' Hg; [|by wp_step].
  by apply wp_requireRecord.
Qed.

Lemma giveUpDisconnectedExecution_good reason t :
  run_inv t → wp (giveUpDisconnectedExecution now runId reason) (λ _, good t) t.
Proof.
  intros H. open_rows H; [dead|]. unfold giveUpDisconnectedExecution. wp_step.
  wp_step; [|intros; by wp_step].
  on_row. destruct p, e, u; simpl in *; subst. axes_cases. no_steps.
  split; [solve_check|]. repeat wp_step. apply wp_requireRecord. intros _. solve_good.
Qed.

Lemma giveUpDisconnectedPublication_good reason t :
  run_inv t → wp (giveUpDisconnectedPublication now runId reason) (λ _, good t) t.
Proof.
  intros H. open_rows H; [dead|]. unfold giveUpDisconnectedPublication. wp_step.
  wp_step; [|intros; by wp_step].
  on_row. destruct p, e, u; simpl in *; subst. axes_cases.
  all: split; [solve_check|]; repeat wp_step; apply wp_requireRecord; intros _; solve_good.
  all: by eapply steps_inv_axis.
Qed.

(** A decision runs the operation of the axis its reader chose, whatever the rows
    have become. *)
Lemma decide_run_good choice seen t :
  (∀ run m, choice run = Some m → wp m (λ _, good t) t) →
  wp (decide_run runId choice seen) (λ _, good t) t.
Proof.
  intros Hc. unfold decide_run. destruct (rowToRecord runId seen) as [[run|f]|] eqn:Hr.
  - destruct (choice run) as [m|] eqn:Hm; [by eapply Hc|done].
  - apply wp_throw. by eapply rowToRecord_benign.
  - done.
Qed.

Lemma resumeDisconnectedRun_good seen t :
  run_inv t → wp (resumeDisconnectedRun now runId seen) (λ _, good t) t.
Proof.
  intros H. apply decide_run_good. intros run m. unfold resume_choice.
  repeat case_match; intros [= <-].
  - by apply resumeDisconnectedPreparation_good.
  - by apply resumed_record_good, resumeDisconnectedSubmissionRecoveryOn_good.
  - by apply resumed_record_good, resumeDisconnectedOn_good.
Qed.

Lemma giveUpDisconnectedRun_good reason seen t :
  run_inv t → wp (giveUpDisconnectedRun now runId reason seen) (λ _, good t) t.
Proof.
  intros H. unfold giveUpDisconnectedRun. wp_step; [by wp_step|].
  apply decide_run_good. intros run m. unfold give_up_choice.
  repeat case_match; intros [= <-].
  - by apply giveUpDisconnectedPreparation_good.
  - by apply giveUpDisconnectedExecution_good.
  - by apply giveUpDisconnectedPublication_good.
Qed.
End OperatorSpecs.

Section NoticeSpecs.
Context (cfg : store_config) (now : Z).

Lemma update_notice_good i where_ set t :
  run_inv t →
  (∀ n, where_ n = true → notice_final n = false) →
  (∀ n, where_ n = true → notice_check (set n) = true ∧ n_kind (set n) = n_kind n
        ∧ n_source_event_id (set n) = n_source_event_id n ∧ n_axis (set n) = n_axis n
        ∧ n_reason_code (set n) = n_reason_code n) →
  wp (update_notice i where_ set) (λ _, good t) t.
Proof.
  intros H Hw Hset. unfold wpe, update_notice. open_rows H; [dead|]. simpl.
  destruct (ns !! i) as [n|] eqn:Hn; [|keep]. destruct (where_ n) eqn:Hwn; [|keep].
  destruct (Hset n Hwn) as (Hck & Hk & Hs & Ha & Hr). rewrite Hck.
  pose proof (notices_alter _ _ _ Hnot i n (set n) Hn Hck Hk Hs Ha).
  simpl. split; [by apply run_live|]. constructor; simpl; try done; try reflexivity.
  - by exists [].
  - intros j m Hm. destruct (decide (i = j)) as [->|].
    + exists (set n). rewrite lookup_insert_eq. simplify_eq. split; [done|].
      repeat split; try done. intros Hf. by rewrite (Hw _ Hwn) in Hf.
    + exists m. by rewrite lookup_insert_ne.
Qed.

Lemma holds_notice_open token n : holds_notice token n = true → notice_final n = false.
Proof. unfold holds_notice, notice_final. intros H. destruct_guard. by destruct (n_status n). Qed.

Lemma claimNotice_good runId i seen token t :
  run_inv t → wp (claimNotice cfg now runId i seen token) (λ _, good t) t.
Proof.
  intros H. unfold claimNotice. wp_step. apply wp_read. wp_step.
  eapply wp_mono; [apply update_notice_good; [done| |done]|].
  - intros n Hn. destruct_guard. unfold notice_claimable, notice_final in *.
    by destruct (n_status n).
  - intros [] t' Hg; simpl; [by wp_step|by apply wp_throw].
Qed.

Lemma completeNotice_good i token delivered url t :
  run_inv t → wp (completeNotice now i token delivered url) (λ _, good t) t.
Proof.
  intros H. unfold completeNotice. wp_step; [by wp_step|]. wp_step; [by wp_step|].
  apply update_notice_good; [done|apply holds_notice_open|]. by destruct delivered.
Qed.

Lemma renewNoticeClaim_good i token t :
  run_inv t → wp (renewNoticeClaim now i token) (λ _, good t) t.
Proof.
  intros H. apply update_notice_good; [done|apply holds_notice_open|].
  intros n Hn. unfold holds_notice in Hn. destruct_guard.
  destruct n as [? ? []]; simpl in *; simplify_eq. done.
Qed.
End NoticeSpecs.

Section AdmissionSpecs.
Context (cfg : store_config) (now : Z).
Context (Hplatform : source_platform cfg = "github").

(** The rows of a new run. *)
Definition admitted_rows (a : CreateReviewRunArgs) (token : string) (ne nn : Z) : run_rows :=
  let event i ax to := {| ev_id := i; ev_axis := ax; ev_from := None; ev_to := to;
                          ev_reason := None; ev_at := now |} in
  mk_rows (admitted_run cfg now a) (admitted_prep now a token) (admitted_exec now a)
    (admitted_pub now a) ∅ ∅
    [event (Z.succ (Z.succ ne)) publication "pending";
     event (Z.succ ne) preparation "preparing"; event ne execution "pending"] ∅
    (Z.succ (Z.succ (Z.succ ne))) nn.

Lemma admitted_rows_inv a token ne nn : run_inv (admitted_rows a token ne nn).
Proof.
  apply run_live. split; try done.
  - split; try done; simpl.
    + by repeat constructor.
    + repeat constructor; simpl; lia.
    + repeat (constructor; [rewrite ?elem_of_cons, elem_of_nil; lia|]). constructor.
  - split; try by apply map_Forall_empty.
    + intros i j m n. by rewrite lookup_empty.
    + intros e He. rewrite !elem_of_cons, elem_of_nil in He.
      by destruct He as [->|[->|[->|[]]]].
Qed.

Lemma insert_aggregate_rows a token ne nn (Q : unit → run_rows → Prop) :
  Q tt (admitted_rows a token ne nn) →
  wpt (insert_aggregate cfg now a token ;;; admission_events now) Q (no_rows ne nn).
Proof.
  intros HQ. unfold wpe, bind, insert_aggregate.
  change (run_check (admitted_run cfg now a)) with (String.eqb (source_platform cfg) "github").
  rewrite Hplatform. exact HQ.
Qed.
End AdmissionSpecs.
