(* ===== verification/DatabaseSpecs.v ===== *)
(** The invariant of the whole database, and how a transaction on the rows of one
    run carries it: a run-level [good] becomes a database-level [db_good]. *)

From S2P Require Import Prelude Schema StateMachines Tables Database Invariant Preservation.
From S2P Require Import PublicationSpecs.

Record db_inv (d : db) : Prop := {
  di_runs : map_Forall (λ _ t, run_inv t ∧ is_Some (t_run t)
              ∧ t_next_event t <= d_next_event d ∧ t_next_notice t <= d_next_notice d) (d_runs d);
  di_trunks : map_Forall (λ _ t, ∀ r, t_run t = Some r → run_check r = true) (d_runs d);
  (** Event ids come from one sequence for all runs. *)
  di_events : ∀ k1 k2 t1 t2 e1 e2,
    d_runs d !! k1 = Some t1 → d_runs d !! k2 = Some t2 →
    e1 ∈ t_events t1 → e2 ∈ t_events t2 → ev_id e1 = ev_id e2 → k1 = k2;
  (** An ingress identity admits one run of a connector. *)
  di_ingress : ∀ k1 k2 t1 t2 r1 r2 kind key,
    d_runs d !! k1 = Some t1 → d_runs d !! k2 = Some t2 →
    t_run t1 = Some r1 → t_run t2 = Some r2 → r_connector_id r1 = r_connector_id r2 →
    r_ingress_kind r1 = Some kind → r_ingress_kind r2 = Some kind →
    r_ingress_key r1 = Some key → r_ingress_key r2 = Some key → k1 = k2;
}.

(** How one transaction of a connector's store may change the database. *)
Record db_good (cfg : store_config) (d d' : db) : Prop := {
  dg_inv : db_inv d';
  dg_runs : ∀ k t, d_runs d !! k = Some t → ∃ t', d_runs d' !! k = Some t' ∧ evolves t t';
  dg_isolated : ∀ k t, d_runs d !! k = Some t → visible (connector_id cfg) t = false →
                d_runs d' !! k = Some t;
  dg_next : d_next_event d <= d_next_event d' ∧ d_next_notice d <= d_next_notice d';
}.

Lemma db_good_refl cfg d : db_inv d → db_good cfg d d.
Proof. intros H. split; [done| |done|lia]. intros k t Ht. by exists t. Qed.

Lemma db_good_trans cfg d1 d2 d3 : db_good cfg d1 d2 → db_good cfg d2 d3 → db_good cfg d1 d3.
Proof.
  intros [_ H1 I1 N1] [H2 H3 I3 N3]. split; [done| | |lia].
  - intros k t Ht. destruct (H1 k t Ht) as (t' & Ht' & He).
    destruct (H3 k t' Ht') as (t'' & Ht'' & He'). exists t''. split; [done|by etransitivity].
  - auto.
Qed.

(** Drawing from the sequences outside a run does not disturb its rows. *)
Lemma run_inv_sequences t ne nn :
  run_inv t → t_next_event t <= ne → t_next_notice t <= nn →
  run_inv (t <| t_next_event := ne |> <| t_next_notice := nn |>).
Proof.
  intros H. destruct H as [|r p e u steps cs evs ns ne0 nn0 [? ? ? ? ? ? ? ? Hlog Hnot ?]];
    simpl; intros Hne Hnn; [apply run_absent|].
  apply run_live. split; try done.
  - destruct Hlog as [? ? ? ? ? ? Hids ?]. split; try done.
    eapply Forall_impl; [exact Hids|]. simpl. lia.
  - destruct Hnot as [? Hi ? ? ?]. split; try done.
    eapply map_Forall_impl; [exact Hi|]. simpl. lia.
Qed.

Lemma scope_inv c k d : db_inv d → run_inv (scope c k d).
Proof.
  intros [Hr _ _ _]. unfold scope. destruct (d_runs d !! k) as [t|] eqn:Ht; [|apply run_absent].
  destruct (visible c t); [|apply run_absent].
  destruct (Hr k t Ht) as (Hi & _ & ? & ?). by apply run_inv_sequences.
Qed.

Lemma evolves_stored t t' ne nn :
  evolves (t <| t_next_event := ne |> <| t_next_notice := nn |>) t' →
  t_next_event t <= ne → t_next_notice t <= nn → evolves t t'.
Proof.
  intros [H1 H2 H3 H4 H5 H6 (new & Hl & Hf) H7 H8] Hne Hnn. destruct t; simpl in *.
  split; simpl; try done.
  - exists new. split; [done|]. eapply Forall_impl; [exact Hf|]. simpl. lia.
  - lia.
Qed.

(** The next event id is above every stored one. *)
Lemma stored_event_below d :
  db_inv d → ∀ j s e, d_runs d !! j = Some s → e ∈ t_events s → ev_id e < d_next_event d.
Proof.
  intros Hd j s e Hj Hin. destruct (di_runs _ Hd j s Hj) as (Hs & _ & Hn & _).
  destruct Hs as [|?????????? Hl]; simpl in *; [by apply elem_of_nil in Hin|].
  pose proof (lg_ids _ _ _ _ _ (lv_log _ _ _ _ _ _ _ _ _ Hl)) as Hf.
  rewrite Forall_forall in Hf. specialize (Hf e Hin). lia.
Qed.

(** Only the rows of the addressed run are written. *)
Lemma in_run_frame {A} cfg k (m : tx run_rows A) d a d' :
  in_run cfg k m d = Ok (a, d') → ∀ j, j ≠ k → d_runs d' !! j = d_runs d !! j.
Proof.
  unfold in_run. destruct (m _) as [[a' t]|e]; [|done]. intros [= <- <-] j Hj.
  unfold commit_run. destruct (t_run t); [|done]. simpl. by rewrite lookup_insert_ne.
Qed.

Section InRun.
Context (cfg : store_config) (k : string) (d : db).
Context (Hd : db_inv d).

Lemma commit_good t' :
  good (scope (connector_id cfg) k d) t' → db_good cfg d (commit_run k t' d).
Proof.
  intros [Hi He]. unfold commit_run.
  destruct (t_run t') as [r'|] eqn:Hr'; [|by apply db_good_refl].
  assert (∃ t, d_runs d !! k = Some t ∧ visible (connector_id cfg) t = true) as (t & Ht & Hv).
  { pose proof (ev_run_same _ _ He) as Hsame. rewrite Hr' in Hsame. unfold scope in Hsame.
    destruct (d_runs d !! k) as [t|]; [|done]. exists t.
    destruct (visible _ t) eqn:Hv; [done|]. done. }
  rewrite (scope_visible _ _ _ _ Ht Hv) in He.
  destruct (di_runs _ Hd k t Ht) as (_ & Hsome & Hne & Hnn). simpl in Hne, Hnn.
  pose proof (evolves_stored _ _ _ _ He Hne Hnn) as Hev.
  pose proof (ev_ids _ _ He) as [Hids1 Hids2]. simpl in Hids1, Hids2.
  pose proof (ev_run_same _ _ Hev) as Hrun.
  destruct (ev_log _ _ He) as (new & Hlog & Hnew). simpl in Hnew.
  change (t_events t' = new ++ t_events t) in Hlog.
  split; simpl.
  - split; simpl.
    + apply map_Forall_insert_2; [split; [done|]; rewrite Hr'; split; [by eexists|simpl; lia]|].
      eapply map_Forall_impl; [apply Hd|]. simpl. intros ? ? (? & ? & ? & ?).
      repeat split; try done; lia.
    + apply map_Forall_insert_2; [|apply Hd]. rewrite Hrun. apply (di_trunks _ Hd k t Ht).
    + pose proof (stored_event_below _ Hd) as Hlt.
      assert (Hin' : ∀ e, e ∈ t_events t' → e ∈ t_events t ∨ d_next_event d <= ev_id e).
      { intros e. rewrite Hlog, elem_of_app. rewrite Forall_forall in Hnew.
        intros [Hin|Hin]; [right; by apply Hnew|by left]. }
      intros k1 k2 t1 t2 e1 e2. rewrite !lookup_insert.
      repeat case_decide; intros; simplify_eq; try done.
      * edestruct Hin' as [|]; [eassumption|by eapply (di_events _ Hd)|].
        assert (ev_id e2 < d_next_event d) by eauto. lia.
      * edestruct (Hin' e2) as [|]; [eassumption|by eapply (di_events _ Hd)|].
        assert (ev_id e1 < d_next_event d) by eauto. lia.
      * by eapply (di_events _ Hd).
    + intros k1 k2 t1 t2 r1 r2 kind key. rewrite !lookup_insert.
      repeat case_decide; intros; simplify_eq; try done.
      * eapply (di_ingress _ Hd); eauto; congruence.
      * eapply (di_ingress _ Hd); eauto; congruence.
      * eapply (di_ingress _ Hd); eauto.
  - intros j s Hs. destruct (decide (k = j)) as [<-|].
    + exists t'. rewrite lookup_insert_eq. by simplify_eq.
    + exists s. by rewrite lookup_insert_ne.
  - intros j s Hs Hvis. rewrite lookup_insert_ne; [done|]. intros ->. simplify_eq. congruence.
  - lia.
Qed.

Lemma in_run_good {A allowed} (m : tx run_rows A) (P : A → Prop) :
  (∀ t, run_inv t → t = scope (connector_id cfg) k d →
     wpe allowed m (λ a t', P a ∧ good t t') t) →
  wpe allowed (in_run cfg k m) (λ a d', P a ∧ db_good cfg d d') d.
Proof.
  intros Hm. apply wp_in_run. eapply wp_mono; [apply Hm; [by apply scope_inv|done]|].
  intros a t' [HP Hg]. split; [done|by apply commit_good].
Qed.

Lemma in_run_keeps {A allowed} (m : tx run_rows A) :
  (∀ t, run_inv t → wpe allowed m (λ _, good t) t) →
  wpe allowed (in_run cfg k m) (λ _, db_good cfg d) d.
Proof.
  intros Hm. apply wp_in_run. eapply wp_mono; [by apply Hm, scope_inv|].
  intros a t' Hg. by apply commit_good.
Qed.
End InRun.
