(* ===== verification/System.v ===== *)
(** The coordination database as a transition system: every transaction of the
    stores, as one step.  Interleavings of any number of connectors, workers and
    operators are sequences of these steps; a worker that crashes between two of its
    transactions is a sequence that stops early. *)

From S2P Require Import Prelude Schema Tables Database RunRecord PreparationStore.
From S2P Require Import ExecutionStore InputBundles SubmissionTransitions PublicationStore.
From S2P Require Import OperatorDecisions Admission Notices.

(** One transaction.  [seen] is what an earlier read outside the transaction found, and
    [locked] the rows [FOR UPDATE SKIP LOCKED] skips. *)
Inductive op :=
  | OpCreate (a : CreateReviewRunArgs) (token : string)
  | OpAdmit (kind key : string) (a : CreateReviewRunArgs) (token : string) (seen : db)
  | OpRenewPreparation (runId token : string)
  | OpClaimPreparation (locked : string → bool) (token : string)
  | OpCheckpointInput (runId token : string) (input : json)
  | OpExpireStale (locked : string → bool)
  | OpFailPreparation (runId token : string) (error : error_info) (retry : bool) (after : Z)
  | OpReserveCandidate (runId token : string) (i : publication_intent)
  | OpListCandidates (runId token : string)
  | OpSettleCandidate (runId token digest : string) (present : bool)
  | OpSavePrepared (runId token : string) (context input : json)
  | OpMarkQueued (runId token : string) (context : json)
  | OpTouchObservation (runId : string)
  | OpMarkRunning (runId : string)
  | OpRecordStorage (runId : string) (storage : option artifact_storage)
  | OpRecordSuccess (runId : string) (workflowResult : option json)
                    (storage : option artifact_storage)
  | OpFailExecution (runId : string) (error : error_info) (storage : option artifact_storage)
  | OpClaimRecovery (runId token : string)
  | OpDisconnectExhausted (runId : string) (maxAttempts : Z)
  | OpUnknownRecovery (runId token : string)
  | OpCompleteRecovery (runId token : string)
  | OpFailRecovery (runId token : string) (error : error_info)
  | OpClaimPublication (runId token : string)
  | OpClaimNextPublication (locked : string → bool) (token : string)
  | OpRenewPublication (runId token : string)
  | OpInitializeSteps (runId token : string) (keys : list string)
  | OpClaimStep (runId token key : string)
  | OpClassifyStep (runId token key : string)
  | OpSettleStep (runId token key : string) (found : option remote_object)
  | OpCompleteStep (runId token key : string) (remote : remote_object)
  | OpFailStep (runId token key : string) (error : error_info) (retry : option bool)
  | OpCompletePublication (runId token : string)
  | OpFailPublication (runId token : string) (error : error_info) (retry : bool)
  | OpAbandonPreparation (runId reason : string)
  | OpResume (runId : string) (seen : run_rows)
  | OpGiveUp (runId reason : string) (seen : run_rows)
  | OpClaimNotice (locked : Z → bool) (token : string)
  | OpCompleteNotice (runId : string) (notice : Z) (token : string) (delivered : bool)
                     (url : option string)
  | OpRenewNotice (runId : string) (notice : Z) (token : string).

(** What the caller gets: nothing to report, or the error that rolled back. *)
Definition outcome {A} (r : result A * db) : option failure * db :=
  match r with
  | (Ok _, d) => (None, d)
  | (Err e, d) => (Some e, d)
  end.

Section System.
Context (parse_url : string → option url).

Definition run_op (cfg : store_config) (now : Z) (o : op) (d : db) : option failure * db :=
  let commit A (m : tx db A) := outcome (transaction m d) in
  let on A (runId : string) (m : tx run_rows A) := commit A (in_run cfg runId m) in
  match o with
  | OpCreate a token => outcome (create cfg now a token d)
  | OpAdmit kind key a token seen => outcome (admitIngress cfg now kind key a token seen d)
  | OpRenewPreparation r token => on _ r (renewClaim cfg now token)
  | OpClaimPreparation locked token => commit _ (claimNext cfg now locked token)
  | OpCheckpointInput r token input => on _ r (checkpointInput now token input)
  | OpExpireStale locked => commit _ (expireStale cfg now locked)
  | OpFailPreparation r token error retry after => on _ r (fail now token error retry after)
  | OpReserveCandidate r token i => on _ r (reserve cfg now parse_url r token i)
  | OpListCandidates r token => on _ r (list_candidates cfg now token)
  | OpSettleCandidate r token digest present =>
      on _ r (settle cfg now token digest
                (if present then Candidate.present else Candidate.abandoned))
  | OpSavePrepared r token context input =>
      on _ r (savePreparedSubmission cfg now token context input)
  | OpMarkQueued r token context => on _ r (markQueued now token context)
  | OpTouchObservation r => on _ r (touchObservation now)
  | OpMarkRunning r => on _ r (markRunning now)
  | OpRecordStorage r storage => on _ r (recordArtifactStorage now storage)
  | OpRecordSuccess r result storage => on _ r (recordExecutionSuccess now result storage)
  | OpFailExecution r error storage => on _ r (failExecution now error storage)
  | OpClaimRecovery r token => on _ r (claimSubmissionRecovery cfg now token)
  | OpDisconnectExhausted r max => on _ r (disconnectExhaustedSubmissionRecovery cfg now max)
  | OpUnknownRecovery r token => on _ r (recordUnknownRecoveryOutcome now token)
  | OpCompleteRecovery r token => on _ r (completeSubmissionRecovery now token)
  | OpFailRecovery r token error => on _ r (failSubmissionRecovery now token error)
  | OpClaimPublication r token => on _ r (claim cfg now token)
  | OpClaimNextPublication locked token => commit _ (claimNextOnce cfg now locked token)
  | OpRenewPublication r token => on _ r (renewPublicationClaim now token)
  | OpInitializeSteps r token keys => on _ r (initializePublicationSteps now token keys)
  | OpClaimStep r token key => on _ r (claimPublicationStep now token key)
  | OpClassifyStep r token key => on _ r (classifyRefusedClaim now token key)
  | OpSettleStep r token key found => on _ r (settleExhaustedPublicationStep now token key found)
  | OpCompleteStep r token key remote => on _ r (completePublicationStep now token key remote)
  | OpFailStep r token key error retry => on _ r (failPublicationStep now token key error retry)
  | OpCompletePublication r token => on _ r (complete now token)
  | OpFailPublication r token error retry => on _ r (failPublication now token error retry)
  | OpAbandonPreparation r reason => on _ r (abandonBlockedPreparation now r reason)
  | OpResume r seen => on _ r (resumeDisconnectedRun now r seen)
  | OpGiveUp r reason seen => on _ r (giveUpDisconnectedRun now r reason seen)
  | OpClaimNotice locked token => commit _ (claimNextNotice cfg now locked token)
  | OpCompleteNotice r notice token delivered url =>
      on _ r (completeNotice now notice token delivered url)
  | OpRenewNotice r notice token => on _ r (renewNoticeClaim now notice token)
  end.

(** The source_platform CHECK of the trunk: every connector is a GitHub one. *)
Definition connector_ok (cfg : store_config) : Prop := source_platform cfg = "github".

(** One transaction of some connector, at some time.  No order between the clocks of
    two steps is assumed. *)
Inductive step (d d' : db) : Prop :=
  | step_op cfg now o : connector_ok cfg → (run_op cfg now o d).2 = d' → step d d'.

(** A script of transactions, and the database after it. *)
Definition run_ops (script : list (store_config * Z * op)) (d : db) : db :=
  foldl (λ d cno, (run_op cno.1.1 cno.1.2 cno.2 d).2) d script.

Inductive reachable : db → Prop :=
  | reachable_empty : reachable empty_db
  | reachable_step d d' : reachable d → step d d' → reachable d'.

Lemma run_ops_steps script d :
  Forall (λ cno, connector_ok cno.1.1) script → rtc step d (run_ops script d).
Proof.
  intros Hf. revert d. induction Hf as [|[[cfg now] o] script Hc _ IH]; intros d; [done|].
  eapply rtc_l; [|apply IH]. by eapply step_op.
Qed.

Lemma reachable_steps d d' : reachable d → rtc step d d' → reachable d'.
Proof. intros Hd Hs. induction Hs as [|x y z Hxy _ IH]; [done|]. apply IH. by eapply reachable_step. Qed.

Lemma run_ops_reachable script :
  Forall (λ cno, connector_ok cno.1.1) script → reachable (run_ops script empty_db).
Proof. intros Hf. eapply reachable_steps; [apply reachable_empty|]. by apply run_ops_steps. Qed.
End System.
