(* ===== verification/SystemSpecs.v ===== *)
(** Every transaction of the stores keeps the invariant of the database, and none of
    them violates a constraint of its schema. *)

From S2P Require Import Prelude Schema StateMachines Tables Database RunRecord.
From S2P Require Import PreparationStore ExecutionStore InputBundles SubmissionTransitions.
From S2P Require Import PublicationStore OperatorDecisions Admission Notices Invariant.
From S2P Require Import Preservation PreparationSpecs ExecutionSpecs PublicationSpecs.
From S2P Require Import OperatorSpecs DatabaseSpecs System.

(** * Transactions that select a run first *)

Section Selecting.
Context (cfg : store_config) (now : Z).

Lemma claimNext_good locked token d :
  db_inv d → wp (claimNext cfg now locked token) (λ _, db_good cfg d) d.
Proof.
  intros Hd. unfold claimNext. apply wp_bind, wp_read.
  destruct (first_by _ _) as [[k t]|] eqn:Hf; [|by apply wp_ret, db_good_refl].
  apply first_by_elem, elem_of_select_runs in Hf as (Ht & Hv & _ & Hc).
  apply wp_in_run. rewrite (scope_visible _ _ _ _ Ht Hv).
  eapply wp_mono; [apply claimCandidate_good|].
  - rewrite <- (scope_visible _ _ _ _ Ht Hv). by apply scope_inv.
  - by destruct t.
  - intros a t' Hg. apply commit_good; [done|]. by rewrite (scope_visible _ _ _ _ Ht Hv).
Qed.

Lemma claimNextOnce_good locked token d :
  db_inv d → wp (claimNextOnce cfg now locked token) (λ _, db_good cfg d) d.
Proof.
  intros Hd. unfold claimNextOnce. apply wp_bind, wp_read.
  destruct (first_by _ _) as [[k t]|] eqn:Hf; [|by apply wp_ret, db_good_refl].
  apply first_by_elem, elem_of_select_runs in Hf as (Ht & Hv & _ & Hc).
  destruct (t_pub t) as [u|] eqn:Hu; [|by unfold pub_claimable in Hc; rewrite Hu, andb_false_r in Hc].
  apply wp_in_run. rewrite (scope_visible _ _ _ _ Ht Hv).
  eapply wp_mono; [apply claimSelected_good|].
  - rewrite <- (scope_visible _ _ _ _ Ht Hv). by apply scope_inv.
  - by destruct t.
  - by destruct t.
  - intros a t' Hg. apply commit_good; [done|]. by rewrite (scope_visible _ _ _ _ Ht Hv).
Qed.

Lemma claimNextNotice_good locked token d :
  db_inv d → wp (claimNextNotice cfg now locked token) (λ _, db_good cfg d) d.
Proof.
  intros Hd. unfold claimNextNotice. apply wp_bind, wp_read.
  destruct (first_by _ _) as [[[k t] [i n]]|]; [|by apply wp_ret, db_good_refl].
  apply in_run_keeps; [done|]. intros t' Ht'. by apply claimNotice_good.
Qed.

(** ** Lease expiry *)

Definition expirable (d : db) (ka : string * Z) : Prop :=
  ∃ t, d_runs d !! ka.1 = Some t ∧ visible (connector_id cfg) t = true
       ∧ expired_lease cfg now t = true ∧ ka.2 = prep_attempts t.

(** One candidate of the sweep. *)
Lemma expire_one_in_run k t d :
  db_inv d → d_runs d !! k = Some t → visible (connector_id cfg) t = true →
  expired_lease cfg now t = true →
  wpt (in_run cfg k (expireOne now k (prep_attempts t)))
    (λ o d', o = None ∧ db_good cfg d d'
             ∧ ∃ t', d_runs d' !! k = Some t' ∧ expiry_concluded (prep_attempts t) t') d.
Proof.
  intros Hd Ht Hv Hexp.
  assert (Hs : prep_attempts t = prep_attempts (scope (connector_id cfg) k d)
               ∧ expired_lease cfg now (scope (connector_id cfg) k d) = true).
  { rewrite (scope_visible _ _ _ _ Ht Hv). by destruct t. }
  destruct Hs as [-> Hx]. apply wp_in_run.
  eapply wp_mono; [apply (expireOne_ok cfg); [by apply scope_inv|exact Hx]|].
  intros o t' (-> & Hg & Hcon). split; [done|]. split; [by apply commit_good|].
  exists t'. split; [|done]. unfold commit_run. destruct Hg as [_ He].
  pose proof (ev_run_same _ _ He) as Hsame. rewrite (scope_visible _ _ _ _ Ht Hv) in Hsame.
  apply visible_run in Hv as [r Hr]. destruct t; simpl in *. subst.
  destruct (t_run t'); [|done]. simpl. by rewrite lookup_insert_eq.
Qed.

Lemma expireEach_ok candidates acc d :
  db_inv d → NoDup candidates.*1 → Forall (expirable d) candidates →
  wpt (expireEach cfg now candidates acc)
    (λ r d', db_good cfg d d' ∧ blocked r = blocked acc
             ∧ concluded r = concluded acc + Z.of_nat (length candidates)
             ∧ (∀ k n, (k, n) ∈ candidates → ∃ t', d_runs d' !! k = Some t' ∧ expiry_concluded n t')
             ∧ (∀ j, j ∉ candidates.*1 → d_runs d' !! j = d_runs d !! j)) d.
Proof.
  revert acc d. induction candidates as [|[k n] rest IH]; intros acc d Hd Hnd Hall; simpl.
  { apply wp_ret. split; [by apply db_good_refl|]. split; [done|]. split; [lia|].
    split; [|done]. intros k n Hin. by apply elem_of_nil in Hin. }
  apply NoDup_cons in Hnd as [Hk Hnd]. apply Forall_cons in Hall as [Hx Hall].
  destruct Hx as (t & Ht & Hv & Hexp & Hn). simpl in Ht, Hn. subst n.
  pose proof (expire_one_in_run k t d Hd Ht Hv Hexp) as Hone.
  apply wpt_ok in Hone as (o & d' & Heq & -> & Hg & t1 & Ht1 & Hcon).
  apply wp_bind. unfold wpe at 1. rewrite Heq.
  pose proof (in_run_frame _ _ _ _ _ _ Heq) as Hframe.
  eapply wp_mono; [apply IH|].
  - apply Hg.
  - done.
  - rewrite Forall_forall in Hall |- *. intros [j m] Hj.
    destruct (Hall (j, m) Hj) as (s & Hs & ?). exists s. split; [|done].
    rewrite <- Hs; simpl; apply Hframe. intros ->. apply Hk.
    apply list_elem_of_fmap. by exists (k, m).
  - intros r d'' (Hg' & Hb & Hc & Hin & Hout). simpl in Hb, Hc.
    split; [by eapply db_good_trans|]. split; [done|]. split; [simpl; lia|]. split.
    + intros j m [[= -> ->]|Hj]%elem_of_cons; [|by apply Hin].
      exists t1. by rewrite Hout.
    + intros j Hj. simpl in Hj. rewrite not_elem_of_cons in Hj. destruct Hj as [Hjk Hj].
      rewrite Hout by done. by apply Hframe.
Qed.

(** A sweep always succeeds, concludes every run it selected and blocks none. *)
Lemma select_runs_nodup locked w d : NoDup (select_runs cfg locked w d).*1.
Proof.
  unfold select_runs. eapply sublist_NoDup; [apply (NoDup_fst_map_to_list (d_runs d))|].
  apply fmap_sublist. generalize (map_to_list (d_runs d)). intros l.
  induction l as [|x l IHl]; simpl; [done|].
  destruct (_ && _); [by apply sublist_skip|by apply sublist_cons].
Qed.

Lemma expireStale_ok locked d :
  db_inv d →
  wpt (expireStale cfg now locked)
    (λ r d', db_good cfg d d' ∧ blocked r = []
             ∧ concluded r = Z.of_nat (length (select_runs cfg locked (expired_lease cfg now) d))
             ∧ (∀ k t, (k, t) ∈ select_runs cfg locked (expired_lease cfg now) d →
                  ∃ t', d_runs d' !! k = Some t' ∧ expiry_concluded (prep_attempts t) t')
             ∧ (∀ j, j ∉ (select_runs cfg locked (expired_lease cfg now) d).*1 →
                  d_runs d' !! j = d_runs d !! j)) d.
Proof.
  intros Hd. unfold expireStale. apply wp_bind, wp_read.
  set (sel := select_runs cfg locked (expired_lease cfg now) d).
  assert (Hfst : ((λ kt : string * run_rows, (kt.1, prep_attempts kt.2)) <$>
                   sort_by (order_by prep_updated_at) sel).*1 ≡ₚ sel.*1).
  { rewrite <- list_fmap_compose. simpl.
    by rewrite (fmap_Permutation fst _ _ (sort_by_perm _ sel)). }
  eapply wp_mono; [apply expireEach_ok; [done| |]|].
  - rewrite Hfst. apply select_runs_nodup.
  - rewrite Forall_forall. intros [k n] Hin.
    apply list_elem_of_fmap in Hin as ([k' t] & [= -> ->] & Hin).
    apply elem_of_sort_by, elem_of_select_runs in Hin as (? & ? & _ & ?). by exists t.
  - intros r d' (Hg & Hb & Hc & Hin & Hout). simpl in Hb, Hc. split; [done|]. split; [done|].
    rewrite Hc, length_fmap. rewrite (Permutation_length (sort_by_perm _ sel)).
    split; [done|]. split.
    + intros k t Hkt. apply Hin, list_elem_of_fmap. exists (k, t).
      split; [done|]. by apply elem_of_sort_by.
    + intros j Hj. apply Hout. by rewrite Hfst.
Qed.
End Selecting.

(** * Admission *)

Section Admitting.
Context (cfg : store_config) (now : Z).
Context (Hplatform : source_platform cfg = "github").

Lemma find_ingress_none kind key d :
  find_ingress (connector_id cfg) kind key d = None →
  ∀ k t, d_runs d !! k = Some t → same_ingress (connector_id cfg) kind key t = false.
Proof.
  unfold find_ingress. intros Hf k t Ht.
  apply (List.find_none _ _ Hf (k, t)). by apply list_elem_of_In, elem_of_map_to_list.
Qed.

(** A new run, on rows that hold no such run and no such ingress identity. *)
Lemma insert_run_good a token d :
  db_inv d → d_runs d !! a_run_id a = None →
  (∀ kind key, a_ingress_kind a = Some kind → a_ingress_key a = Some key →
     find_ingress (connector_id cfg) kind key d = None) →
  db_good cfg d (commit_run (a_run_id a)
    (admitted_rows cfg now a token (d_next_event d) (d_next_notice d)) d).
Proof.
  intros Hd Hnone Hing. set (t := admitted_rows _ _ _ _ _ _).
  assert (Hother : ∀ k s, d_runs d !! k = Some s → k ≠ a_run_id a) by congruence.
  assert (Hids : ∀ e, e ∈ t_events t → d_next_event d <= ev_id e).
  { intros e He. simpl in He. rewrite !elem_of_cons, elem_of_nil in He.
    destruct He as [->|[->|[->|[]]]]; simpl; lia. }
  assert (Hfresh : ∀ k s kind key r, d_runs d !! k = Some s → t_run s = Some r →
    r_connector_id r = connector_id cfg → r_ingress_kind r = Some kind →
    r_ingress_key r = Some key → a_ingress_kind a = Some kind → a_ingress_key a = Some key → False).
  { intros k s kind key r Hk Hr Hc Hkind Hkey Hak Hay.
    pose proof (find_ingress_none _ _ _ (Hing _ _ Hak Hay) k s Hk) as Hno.
    unfold same_ingress, sql_eq in Hno. rewrite Hr, Hc, Hkind, Hkey in Hno.
    rewrite String.eqb_refl in Hno. by rewrite !bool_decide_eq_true_2 in Hno. }
  split; simpl.
  - split; simpl.
    + apply map_Forall_insert_2.
      { split; [apply admitted_rows_inv|]. split; [by eexists|simpl; lia]. }
      eapply map_Forall_impl; [apply Hd|]. simpl. intros ? ? (? & ? & ? & ?).
      split; [done|]. split; [done|lia].
    + apply map_Forall_insert_2; [|apply Hd]. intros r [= <-]. unfold run_check. cbn. by rewrite Hplatform.
    + pose proof (stored_event_below _ Hd) as Hlt.
      intros k1 k2 t1 t2 e1 e2. rewrite !lookup_insert.
      repeat case_decide; intros; simplify_eq; try done.
      * assert (ev_id e2 < d_next_event d) by eauto.
        assert (d_next_event d <= ev_id e1) by auto. lia.
      * assert (ev_id e1 < d_next_event d) by eauto.
        assert (d_next_event d <= ev_id e2) by auto. lia.
      * by eapply (di_events _ Hd).
    + intros k1 k2 t1 t2 r1 r2 kind key. rewrite !lookup_insert.
      repeat case_decide; intros; simplify_eq/=; try done.
      * exfalso. by eapply Hfresh.
      * exfalso. by eapply Hfresh.
      * by eapply (di_ingress _ Hd).
  - intros j s Hs. exists s. rewrite lookup_insert_ne; [done|]. intros <-. by eapply Hother.
  - intros j s Hs _. rewrite lookup_insert_ne; [done|]. intros <-. by eapply Hother.
  - lia.
Qed.

Lemma admitted_record a token ne nn :
  ∃ r, rowToRecord (a_run_id a) (admitted_rows cfg now a token ne nn) = Some (Ok r)
       ∧ rec_run_id r = a_run_id a.
Proof. by eexists. Qed.

(** The exact result of an admission that is not refused as a duplicate. *)
Lemma insertWith_fresh a token d :
  d_runs d !! a_run_id a = None → ingress_taken cfg a d = false →
  ∃ ad, insertWith cfg now a token d
    = Ok (ad, commit_run (a_run_id a)
                (admitted_rows cfg now a token (d_next_event d) (d_next_notice d)) d)
    ∧ ad_created ad = true ∧ ad_preparation_token ad = Some token
    ∧ rec_run_id (ad_record ad) = a_run_id a.
Proof.
  intros Hid Hing. unfold insertWith.
  rewrite bool_decide_eq_false_2 by (rewrite Hid; apply is_Some_None). rewrite Hing.
  unfold in_run, scope. rewrite Hid.
  pose proof (insert_aggregate_rows cfg now Hplatform a token (d_next_event d)
    (d_next_notice d) (λ _ t, t = admitted_rows cfg now a token (d_next_event d) (d_next_notice d))
    eq_refl) as Hrows.
  apply wpt_ok in Hrows as ([] & t' & Heq & ->).
  destruct (admitted_record a token (d_next_event d) (d_next_notice d)) as (r & Hr & Hrid).
  eexists. split; [|split; [|split]].
  - unfold bind in *.
    destruct (insert_aggregate cfg now a token _) as [[[] t1]|e]; [|done].
    rewrite Heq. unfold read_admitted, bind, findRunRecord. by rewrite Hr.
  - done.
  - done.
  - done.
Qed.

Lemma insertWith_good a token d :
  db_inv d → wp (insertWith cfg now a token) (λ _, db_good cfg d) d.
Proof.
  intros Hd. unfold wpe.
  destruct (decide (is_Some (d_runs d !! a_run_id a))) as [Hid|Hid].
  { unfold insertWith. by rewrite bool_decide_eq_true_2. }
  destruct (ingress_taken cfg a d) eqn:Hing.
  { unfold insertWith. by rewrite bool_decide_eq_false_2, Hing. }
  apply eq_None_not_Some in Hid.
  destruct (insertWith_fresh a token d Hid Hing) as (ad & -> & _).
  apply insert_run_good; [done..|]. intros kind key Hk Hy.
  unfold ingress_taken in Hing. rewrite Hk, Hy in Hing.
  apply bool_decide_eq_false in Hing. by apply eq_None_not_Some.
Qed.

Lemma replay_benign kt e : replay kt = Err e → benign e = true.
Proof.
  unfold replay. destruct (rowToRecord kt.1 kt.2) as [[r|f]|] eqn:Hr; try (by intros [= <-]).
  intros [= <-]. by eapply rowToRecord_benign.
Qed.
End Admitting.

(** * Every transaction *)

Definition op_good (cfg : store_config) (d : db) (r : option failure * db) : Prop :=
  db_good cfg d r.2 ∧ ∀ e, r.1 = Some e → benign e = true.

Lemma outcome_good {A} cfg (m : tx db A) d :
  db_inv d → wp m (λ _, db_good cfg d) d → op_good cfg d (outcome (transaction m d)).
Proof.
  intros Hd Hm. unfold wpe, transaction in *. destruct (m d) as [[a d']|e]; simpl.
  - by split.
  - split; [by apply db_good_refl|]. by intros ? [= <-].
Qed.

Lemma on_run_good {A} cfg k (m : tx run_rows A) d :
  db_inv d → (∀ t, run_inv t → wp m (λ _, good t) t) →
  op_good cfg d (outcome (transaction (in_run cfg k m) d)).
Proof. intros Hd Hm. apply outcome_good; [done|]. by apply in_run_keeps. Qed.

Section Everything.
Context (parse_url : string → option url).

Lemma admit_good cfg now kind key a token seen d :
  connector_ok cfg → db_inv d → op_good cfg d (outcome (admitIngress cfg now kind key a token seen d)).
Proof.
  intros Hc Hd. unfold admitIngress.
  destruct (find_ingress _ kind key seen) as [kt|].
  { destruct (replay kt) as [r|e] eqn:Hr; simpl; (split; [by apply db_good_refl|]); [done|].
    intros ? [= <-]. by eapply replay_benign. }
  match goal with |- context [insertWith cfg now ?x token] => set (a' := x) end.
  pose proof (outcome_good cfg _ d Hd (insertWith_good cfg now Hc a' token d Hd)) as Hg.
  destruct (transaction _ d) as [r d']. destruct r as [ad|e]; [exact Hg|].
  destruct e; try exact Hg. destruct (String.eqb constraint _); [|exact Hg].
  destruct Hg as [Hg _]; simpl in Hg.
  destruct (find_ingress _ kind key d') as [kt|]; simpl; [|by split; [done|]; intros ? [= <-]].
  destruct (replay kt) as [r|e] eqn:Hr; simpl; (split; [done|]); [done|].
  intros ? [= <-]. by eapply replay_benign.
Qed.

Lemma run_op_good cfg now o d :
  connector_ok cfg → db_inv d → op_good cfg d (run_op parse_url cfg now o d).
Proof.
  intros Hc Hd. destruct o; cbn [run_op].
  - apply outcome_good; [done|]. by apply insertWith_good.
  - by apply admit_good.
  - apply on_run_good; [done|]. intros. by apply renewClaim_good.
  - apply outcome_good; [done|]. by apply claimNext_good.
  - apply on_run_good; [done|]. intros. by apply checkpointInput_good.
  - apply outcome_good; [done|]. apply wpt_wp.
    eapply wp_mono; [by apply expireStale_ok|]. by intros ?? [].
  - apply on_run_good; [done|]. intros. by apply fail_good.
  - apply on_run_good; [done|]. intros. by apply reserve_good.
  - apply on_run_good; [done|]. intros.
    eapply wp_mono; [by apply list_candidates_good|]. intros l t' ->. by split.
  - apply on_run_good; [done|]. intros. apply settle_good; [done|]. destruct present; auto.
  - apply on_run_good; [done|]. intros. by apply savePreparedSubmission_good.
  - apply on_run_good; [done|]. intros. by apply markQueued_good.
  - apply on_run_good; [done|]. intros. by apply touchObservation_good.
  - apply on_run_good; [done|]. intros. by apply markRunning_good.
  - apply on_run_good; [done|]. intros. by apply recordArtifactStorage_good.
  - apply on_run_good; [done|]. intros. by apply recordExecutionSuccess_good.
  - apply on_run_good; [done|]. intros. by apply failExecution_good.
  - apply on_run_good; [done|]. intros. by apply claimSubmissionRecovery_good.
  - apply on_run_good; [done|]. intros. by apply disconnectExhaustedSubmissionRecovery_good.
  - apply on_run_good; [done|]. intros. by apply recordUnknownRecoveryOutcome_good.
  - apply on_run_good; [done|]. intros. by apply completeSubmissionRecovery_good.
  - apply on_run_good; [done|]. intros. by apply failSubmissionRecovery_good.
  - apply on_run_good; [done|]. intros. by apply claim_spec.
  - apply outcome_good; [done|]. by apply claimNextOnce_good.
  - apply on_run_good; [done|]. intros. by apply renewPublicationClaim_good.
  - apply on_run_good; [done|]. intros. by apply initializePublicationSteps_good.
  - apply on_run_good; [done|]. intros. by apply claimPublicationStep_good.
  - apply on_run_good; [done|]. intros. by apply classifyRefusedClaim_good.
  - apply on_run_good; [done|]. intros. by apply settleExhaustedPublicationStep_good.
  - apply on_run_good; [done|]. intros. by apply completePublicationStep_good.
  - apply on_run_good; [done|]. intros. by apply failPublicationStep_good.
  - apply on_run_good; [done|]. intros. by apply complete_good.
  - apply on_run_good; [done|]. intros. by apply failPublication_good.
  - apply on_run_good; [done|]. intros. by apply abandonBlockedPreparation_good.
  - apply on_run_good; [done|]. intros. by apply resumeDisconnectedRun_good.
  - apply on_run_good; [done|]. intros. by apply giveUpDisconnectedRun_good.
  - apply outcome_good; [done|]. by apply claimNextNotice_good.
  - apply on_run_good; [done|]. intros. by apply completeNotice_good.
  - apply on_run_good; [done|]. intros. by apply renewNoticeClaim_good.
Qed.

Lemma empty_db_inv : db_inv empty_db.
Proof.
  split; simpl.
  - by apply map_Forall_empty.
  - by apply map_Forall_empty.
  - intros k1 k2 t1 t2 e1 e2. by rewrite lookup_empty.
  - intros k1 k2 t1 t2 r1 r2 kind key. by rewrite lookup_empty.
Qed.

Lemma step_inv d d' : db_inv d → step parse_url d d' → db_inv d'.
Proof. intros Hd [cfg now o Hc <-]. by apply (run_op_good cfg now o d). Qed.

Lemma reachable_inv d : reachable parse_url d → db_inv d.
Proof. induction 1 as [|d d' _ IH Hs]; [apply empty_db_inv|by eapply step_inv]. Qed.

(** Rows keep evolving along any sequence of transactions. *)
Lemma step_evolves_run d d' k t :
  db_inv d → step parse_url d d' → d_runs d !! k = Some t →
  ∃ t', d_runs d' !! k = Some t' ∧ evolves t t'.
Proof.
  intros Hd [cfg now o Hc <-] Ht.
  destruct (run_op_good cfg now o d Hc Hd) as [Hg _]. by apply (dg_runs _ _ _ Hg).
Qed.

Lemma steps_evolve_run d d' k t :
  db_inv d → rtc (step parse_url) d d' → d_runs d !! k = Some t →
  ∃ t', d_runs d' !! k = Some t' ∧ evolves t t'.
Proof.
  intros Hd Hs. revert t. induction Hs as [d|d1 d2 d3 H12 _ IH]; intros t Ht; [by exists t|].
  destruct (step_evolves_run _ _ _ _ Hd H12 Ht) as (t2 & Ht2 & He).
  destruct (IH (step_inv _ _ Hd H12) t2 Ht2) as (t3 & Ht3 & He').
  exists t3. split; [done|by etransitivity].
Qed.

(** The rows of a reachable run, opened. *)
Lemma reachable_live d k t :
  reachable parse_url d → d_runs d !! k = Some t →
  ∃ r p e u steps cs evs ns ne nn, t = mk_rows r p e u steps cs evs ns ne nn
    ∧ live p e u steps cs evs ns ne nn.
Proof.
  intros Hd Ht. destruct (di_runs _ (reachable_inv d Hd) k t Ht) as (Hi & [r Hr] & _).
  destruct Hi as [|r' p e u steps cs evs ns ne nn Hl]; [done|].
  by exists r', p, e, u, steps, cs, evs, ns, ne, nn.
Qed.

(** A transaction that fails leaves no trace. *)
Lemma run_op_rolls_back cfg now o d f d' :
  run_op parse_url cfg now o d = (Some f, d') → d' = d.
Proof.
  assert (Ht : ∀ A (m : tx db A), outcome (transaction m d) = (Some f, d') → d' = d).
  { intros A m. unfold outcome, transaction. by destruct (m d) as [[a d1]|e]; intros [=]. }
  destruct o; cbn [run_op]; try apply Ht.
  unfold admitIngress. destruct (find_ingress _ kind key seen) as [kt|].
  - by destruct (replay kt); intros [=].
  - unfold transaction. destruct (insertWith _ _ _ _ d) as [[ad d1]|e]; [by intros [=]|].
    destruct e; try (by intros [=]). destruct (String.eqb _ _); [|by intros [=]].
    destruct (find_ingress _ kind key d) as [kt|]; [by destruct (replay kt); intros [=]|].
    by intros [=].
Qed.
End Everything.
