(* ===== verification/Scenario.v ===== *)
(** Concrete runs of the system, which the witnesses of the properties evaluate. *)

From S2P Require Import Prelude Schema Tables Database RunRecord PreparationStore.
From S2P Require Import ExecutionStore InputBundles SubmissionTransitions PublicationStore.
From S2P Require Import OperatorDecisions Admission Notices System.

Definition gh : store_config := make_config "gh-1" "github" DEFAULT_CLAIM_TIMEOUT_MS.
Definition other : store_config := make_config "gh-2" "github" DEFAULT_CLAIM_TIMEOUT_MS.

(** A URL parser that knows one URL shape, enough for the references below. *)
Definition file_url (uri : string) : option url :=
  if String.eqb (String.substring 0 5 uri) "file:"
  then Some {| url_protocol := "file:"; url_search := ""; url_hash := ""; url_username := "";
               url_password := ""; url_port := ""; url_pathname := String.substring 5 200 uri |}
  else None.

Definition digest1 : string :=
  "sha256:0123456789abcdef0123456789abcdef0123456789abcdef0123456789abcdef".

Definition reference1 : artifact_reference := {|
  ref_digest := digest1; ref_uri := "file:/bundle.tar.zst";
  ref_media_type := "application/tar+zstd"; ref_size_bytes := 2048 |}.

Definition input1 : json := JObject [("input_bundle", reference_json reference1)].
Definition context1 : json := JObject [("pull_number", JNumber 7)].

Definition admission1 : CreateReviewRunArgs := {|
  a_run_id := "run-1"; a_workflow := "pull-request-review"; a_publish_context := JObject [];
  a_execution_input := None; a_ingress_kind := None; a_ingress_key := None;
  a_preparation_input := None; a_preparation_input_version := None |}.

Definition intent1 : publication_intent := {|
  in_reference := reference1; in_input := input1; in_publish_context := context1 |}.

Definition result1 : json := JObject [("findings", JArray [])].
Definition remote1 : remote_object := {| remote_id := Some "99"; remote_url := None |}.
Definition boom : error_info := {| err_code := Some "BOOM"; err_message := "boom" |}.

(** Minutes, as the microseconds of the clock. *)
Definition minute (n : Z) : Z := n * 60 * 1000 * 1000.

(** Up to a queued execution. *)
Definition prepare_script : list (store_config * Z * op) :=
  [(gh, minute 0, OpAdmit "github_webhook" "delivery-1" admission1 "prep-1" empty_db);
   (gh, minute 1, OpReserveCandidate "run-1" "prep-1" intent1);
   (gh, minute 2, OpSettleCandidate "run-1" "prep-1" digest1 true);
   (gh, minute 3, OpSavePrepared "run-1" "prep-1" context1 input1);
   (gh, minute 4, OpMarkQueued "run-1" "prep-1" context1)].

(** Then to a succeeded execution. *)
Definition execute_script : list (store_config * Z * op) :=
  prepare_script ++
  [(gh, minute 5, OpMarkRunning "run-1");
   (gh, minute 6, OpRecordSuccess "run-1" (Some result1) None)].

(** Then to a claimed publication with two steps. *)
Definition publish_script : list (store_config * Z * op) :=
  execute_script ++
  [(gh, minute 7, OpClaimNextPublication (λ _, false) "pub-1");
   (gh, minute 8, OpInitializeSteps "run-1" "pub-1" ["branch"; "review"])].

Definition step_script (key : string) : list (store_config * Z * op) :=
  [(gh, minute 9, OpClaimStep "run-1" "pub-1" key);
   (gh, minute 9, OpCompleteStep "run-1" "pub-1" key remote1)].

Definition branch_script : list (store_config * Z * op) :=
  publish_script ++ step_script "branch".

Definition whole_script : list (store_config * Z * op) :=
  branch_script ++ step_script "review"
  ++ [(gh, minute 10, OpCompletePublication "run-1" "pub-1")].

(** Three attempts at a step, each of which may have taken effect. *)
Definition exhaust_script : list (store_config * Z * op) :=
  publish_script ++
  [(gh, minute 9, OpClaimStep "run-1" "pub-1" "branch");
   (gh, minute 9, OpFailStep "run-1" "pub-1" "branch" boom None);
   (gh, minute 9, OpClaimStep "run-1" "pub-1" "branch");
   (gh, minute 9, OpFailStep "run-1" "pub-1" "branch" boom None);
   (gh, minute 9, OpClaimStep "run-1" "pub-1" "branch");
   (gh, minute 9, OpFailStep "run-1" "pub-1" "branch" boom None);
   (gh, minute 9, OpClaimStep "run-1" "pub-1" "branch");
   (gh, minute 9, OpClassifyStep "run-1" "pub-1" "branch")].

(** Then three reconciliations that could not conclude. *)
Definition disconnect_script : list (store_config * Z * op) :=
  exhaust_script ++
  [(gh, minute 10, OpFailStep "run-1" "pub-1" "branch" boom (Some true));
   (gh, minute 10, OpFailStep "run-1" "pub-1" "branch" boom (Some true));
   (gh, minute 10, OpFailStep "run-1" "pub-1" "branch" boom (Some true))].

(** Then the owner gives the publication back for a retry. *)
Definition strand_script : list (store_config * Z * op) :=
  disconnect_script ++ [(gh, minute 11, OpFailPublication "run-1" "pub-1" boom true)].

(** The request is saved and sent, and then every preparer dies before recording the
    answer: eight claims in all. *)
Definition save_script : list (store_config * Z * op) := take 4 prepare_script.
Definition reclaim (n : Z) (token : string) : list (store_config * Z * op) :=
  [(gh, minute n, OpExpireStale (λ _, false)); (gh, minute n, OpClaimPreparation (λ _, false) token)].
Definition lost_script : list (store_config * Z * op) :=
  save_script ++ reclaim 20 "prep-2" ++ reclaim 40 "prep-3" ++ reclaim 60 "prep-4"
  ++ reclaim 80 "prep-5" ++ reclaim 100 "prep-6" ++ reclaim 120 "prep-7" ++ reclaim 140 "prep-8".

Definition after (script : list (store_config * Z * op)) : db := run_ops file_url script empty_db.

Definition run1 (d : db) : run_rows := scope "gh-1" "run-1" d.
Definition statuses (t : run_rows) : option Prep.status * option Exec.status * option Pub.status :=
  (p_status <$> t_prep t, e_status <$> t_exec t, u_status <$> t_pub t).

(** The stored rows of the run. *)
Definition stored (script : list (store_config * Z * op)) : run_rows :=
  default (no_rows 0 0) (d_runs (after script) !! "run-1").

Lemma after_reachable script :
  forallb (λ cno, String.eqb (source_platform cno.1.1) "github") script = true →
  reachable file_url (after script).
Proof.
  intros Hf. apply run_ops_reachable. apply Forall_forall. intros cno Hin.
  rewrite forallb_forall in Hf. apply String.eqb_eq, Hf. by apply list_elem_of_In.
Qed.

Example prepared : statuses (run1 (after prepare_script))
  = (Some Prep.submitted, Some Exec.queued, Some Pub.pending).
Proof. vm_compute. reflexivity. Qed.

Example published : statuses (run1 (after whole_script))
  = (Some Prep.submitted, Some Exec.succeeded, Some Pub.published).
Proof. vm_compute. reflexivity. Qed.

Example exhausted : statuses (run1 (after exhaust_script))
  = (Some Prep.submitted, Some Exec.succeeded, Some Pub.uncertain).
Proof. vm_compute. reflexivity. Qed.

Example parked : statuses (run1 (after disconnect_script))
  = (Some Prep.submitted, Some Exec.succeeded, Some Pub.disconnected).
Proof. vm_compute. reflexivity. Qed.

Example stranded : statuses (run1 (after strand_script))
  = (Some Prep.submitted, Some Exec.succeeded, Some Pub.pending).
Proof. vm_compute. reflexivity. Qed.

(** Facts about the concrete runs: each is evaluated. *)
Ltac evaluate := vm_compute; reflexivity.

(** The rows of a concrete run, by name. *)
Ltac stored_pub script u Hu :=
  destruct (t_pub (stored script)) as [u|] eqn:Hu; [|vm_compute in Hu; discriminate Hu].
Ltac stored_exec script e He :=
  destruct (t_exec (stored script)) as [e|] eqn:He; [|vm_compute in He; discriminate He].
Ltac stored_record script run Hrec :=
  destruct (rowToRecord "run-1" (stored script)) as [[run|]|] eqn:Hrec;
  [|vm_compute in Hrec; discriminate Hrec|vm_compute in Hrec; discriminate Hrec].
