(* ===== verification/Correctness.v ===== *)
(** What holds of every reachable database: the schema's constraints, the agreement
    of the axes, the lifecycle of concluded work, the audit log and the notices. *)

From S2P Require Import Prelude Schema StateMachines Tables Database RunRecord.
From S2P Require Import PreparationStore ExecutionStore InputBundles PublicationStore.
From S2P Require Import OperatorDecisions Admission Notices Queries Invariant Preservation.
From S2P Require Import DatabaseSpecs System SystemSpecs Scenario.

Section Reachable.
Context (parse_url : string → option url).

(** C38: in every reachable database every run has its trunk and its three axis rows,
    every row of these four tables, of the publication steps, of the input bundle candidates
    and of the notices satisfies the CHECK constraints of its table, and at most one input
    bundle candidate of a run is selected. *)
Theorem reachable_rows_checked d k t :
  reachable parse_url d → d_runs d !! k = Some t →
  (∃ r p e u, t_run t = Some r ∧ t_prep t = Some p ∧ t_exec t = Some e ∧ t_pub t = Some u
     ∧ run_check r = true ∧ prep_check p = true ∧ exec_check e = true ∧ pub_check u = true)
  ∧ map_Forall (λ _ s, step_check s = true) (t_steps t)
  ∧ map_Forall (λ digest c, candidate_check digest c = true) (t_candidates t)
  ∧ candidates_selected (t_candidates t) <= 1
  ∧ map_Forall (λ _ n, notice_check n = true) (t_notices t).
Proof.
  intros Hd Ht.
  pose proof (di_trunks _ (reachable_inv _ d Hd) k t Ht) as Hr.
  destruct (reachable_live _ d k t Hd Ht) as (r&p&e&u&steps&cs&evs&ns&ne&nn&->&Hl).
  split; [exists r, p, e, u; repeat split; try apply Hl; by apply Hr|]. split; [|split; [|split]].
  - intros key s Hs. pose proof (si_steps _ _ _ (lv_steps _ _ _ _ _ _ _ _ _ Hl) _ _ Hs) as Hok.
    unfold step_ok in Hok; simpl in Hok. destruct_guard.
    unfold step_check. by rewrite andb_true_iff, !Z.leb_le.
  - apply (ci_checks _ (lv_cands _ _ _ _ _ _ _ _ _ Hl)).
  - apply selected_at_most_one, (ci_selected _ (lv_cands _ _ _ _ _ _ _ _ _ Hl)).
  - apply (ni_checks _ _ _ (lv_notices _ _ _ _ _ _ _ _ _ Hl)).
Qed.

(** C39: no transaction of any store, run against any reachable database, ever violates a
    CHECK or FOREIGN KEY constraint (the JSON a caller reserves apart), and a
    transaction that fails leaves the database exactly as it was. *)
Theorem no_constraint_violation cfg now o d f d' :
  reachable parse_url d → connector_ok cfg →
  run_op parse_url cfg now o d = (Some f, d') → benign f = true ∧ d' = d.
Proof.
  intros Hd Hc Ho. split; [|by eapply run_op_rolls_back].
  destruct (run_op_good parse_url cfg now o d Hc (reachable_inv _ d Hd)) as [_ Hb].
  apply Hb. by rewrite Ho.
Qed.

(** C2: a concluded axis stays concluded: once preparation, execution or publication is in
    a terminal status, no later sequence of transactions changes its status, its
    finish time, its failure code or, for an execution, its workflow result. *)
Theorem terminal_statuses_absorb d d' k t :
  reachable parse_url d → rtc (step parse_url) d d' → d_runs d !! k = Some t →
  ∃ t', d_runs d' !! k = Some t'
    ∧ (∀ p, t_prep t = Some p → Prep.terminal (p_status p) = true →
         ∃ p', t_prep t' = Some p' ∧ p_status p' = p_status p
           ∧ p_finished_at p' = p_finished_at p ∧ p_failure_code p' = p_failure_code p)
    ∧ (∀ e, t_exec t = Some e → Exec.terminal (e_status e) = true →
         ∃ e', t_exec t' = Some e' ∧ e_status e' = e_status e
           ∧ e_finished_at e' = e_finished_at e ∧ e_failure_code e' = e_failure_code e
           ∧ e_workflow_result e' = e_workflow_result e)
    ∧ (∀ u, t_pub t = Some u → Pub.terminal (u_status u) = true →
         ∃ u', t_pub t' = Some u' ∧ u_status u' = u_status u
           ∧ u_finished_at u' = u_finished_at u ∧ u_failure_code u' = u_failure_code u).
Proof.
  intros Hd Hs Ht.
  destruct (steps_evolve_run _ d d' k t (reachable_inv _ d Hd) Hs Ht) as (t' & Ht' & He).
  exists t'. split; [done|]. split; [|split].
  - intros p Hp Hterm. destruct (ev_prep _ _ He p Hp) as (p' & Hp' & [Hpe _]).
    exists p'. split; [done|by apply Hpe].
  - intros e Hx Hterm. destruct (ev_exec _ _ He e Hx) as (e' & Hx' & [Hee _ _]).
    exists e'. split; [done|]. by destruct (Hee Hterm) as (? & ? & ? & ?).
  - intros u Hu Hterm. destruct (ev_pub _ _ He u Hu) as (u' & Hu' & [Hue _]).
    exists u'. split; [done|by apply Hue].
Qed.

(** C3: publication only ever concerns a success: a publication that is in flight, published
    or failed belongs to an execution that succeeded, a published one has only
    succeeded steps, and a skipped one to an execution that was skipped or failed. *)
Theorem publication_follows_success d k t e u :
  reachable parse_url d → d_runs d !! k = Some t →
  t_exec t = Some e → t_pub t = Some u →
  (u_status u ≠ Pub.pending → u_status u ≠ Pub.skipped → e_status e = Exec.succeeded)
  ∧ (u_status u = Pub.published →
       ∀ key s, t_steps t !! key = Some s → s_status s = Step.succeeded)
  ∧ (u_status u = Pub.skipped → e_status e = Exec.skipped ∨ e_status e = Exec.failed).
Proof.
  intros Hd Ht He Hu.
  destruct (reachable_live _ d k t Hd Ht) as (r&p&e'&u'&steps&cs&evs&ns&ne&nn&->&Hl).
  simpl in He, Hu. simplify_eq. pose proof (lv_axes _ _ _ _ _ _ _ _ _ Hl) as Hax.
  split; [|split].
  - intros H1 H2. destruct (p_status p), (e_status e), (u_status u); try done; congruence.
  - intros Hp key s Hs. pose proof (si_axis _ _ _ (lv_steps _ _ _ _ _ _ _ _ _ Hl)) as Hst.
    rewrite Hp in Hst. simpl in Hst. apply negb_true_iff, any_step_false with (k := key) (s := s) in Hst;
      [|done]. apply negb_false_iff in Hst. by apply bool_decide_eq_true in Hst.
  - intros Hsk. rewrite Hsk in Hax. destruct (p_status p), (e_status e); try done; auto.
Qed.

(** C35: preparation and execution agree: an execution leaves pending only when its
    preparation was submitted or failed, a skipped execution has a failed
    preparation and a skipped publication, an uncertain or parked submission has a
    failed preparation and a publication that still waits, and no preparation is
    ever parked. *)
Theorem preparation_execution_agree d k t p e u :
  reachable parse_url d → d_runs d !! k = Some t →
  t_prep t = Some p → t_exec t = Some e → t_pub t = Some u →
  (e_status e ≠ Exec.pending → p_status p = Prep.submitted ∨ p_status p = Prep.failed)
  ∧ (e_status e = Exec.skipped → p_status p = Prep.failed ∧ u_status u = Pub.skipped)
  ∧ (e_status e = Exec.uncertain ∨ e_status e = Exec.disconnected →
       p_status p = Prep.failed ∧ u_status u = Pub.pending)
  ∧ p_status p ≠ Prep.disconnected.
Proof.
  intros Hd Ht Hp He Hu.
  destruct (reachable_live _ d k t Hd Ht) as (r&p'&e'&u'&steps&cs&evs&ns&ne&nn&->&Hl).
  simpl in Hp, He, Hu. simplify_eq. pose proof (lv_axes _ _ _ _ _ _ _ _ _ Hl) as Hax.
  destruct (p_status p), (e_status e), (u_status u); try discriminate;
    repeat split; intros; intuition discriminate.
Qed.

(** The event log is a faithful history: the latest event of every axis names its
    current status, each preparation and execution event starts where the previous
    one of its axis ended, and event ids are unique across all runs. *)
Theorem event_log_faithful d k t p e u :
  reachable parse_url d → d_runs d !! k = Some t →
  t_prep t = Some p → t_exec t = Some e → t_pub t = Some u →
  last_status preparation (t_events t) = Some (Prep.text (p_status p))
  ∧ last_status execution (t_events t) = Some (Exec.text (e_status e))
  ∧ last_status publication (t_events t) = Some (Pub.text (u_status u))
  ∧ chained preparation (t_events t) ∧ chained execution (t_events t)
  ∧ NoDup (ev_id <$> t_events t)
  ∧ (∀ k' t' x y, d_runs d !! k' = Some t' → x ∈ t_events t → y ∈ t_events t' →
       ev_id x = ev_id y → k = k').
Proof.
  intros Hd Ht Hp He Hu. pose proof (di_events _ (reachable_inv _ d Hd)) as Hids.
  assert (Hcross : ∀ k' t' x y, d_runs d !! k' = Some t' → x ∈ t_events t →
    y ∈ t_events t' → ev_id x = ev_id y → k = k') by eauto.
  destruct (reachable_live _ d k t Hd Ht) as (r&p'&e'&u'&steps&cs&evs&ns&ne&nn&->&Hl).
  simpl in Hp, He, Hu. simplify_eq. pose proof (lv_log _ _ _ _ _ _ _ _ _ Hl) as Hlog.
  destruct Hlog as [H1 H2 H3 H4 H5 H6 H7 H8]. by repeat split.
Qed.

(** C1: every transition the stores record is an edge of the state machines the contract
    generates, with the reason code the edge promises; the only others are the
    publication edges publishing to disconnected, uncertain to failed and disconnected
    to failed. *)
Theorem recorded_transitions_declared d k t x from :
  reachable parse_url d → d_runs d !! k = Some t → x ∈ t_events t → ev_from x = Some from →
  declared (ev_axis x) from (ev_to x) (ev_reason x) = true
  ∨ ev_axis x = publication ∧ (from, ev_to x) ∈ undeclared_publication_edges.
Proof.
  intros Hd Ht Hx Hf.
  destruct (reachable_live _ d k t Hd Ht) as (r&p&e&u&steps&cs&evs&ns&ne&nn&->&Hl).
  pose proof (lg_allowed _ _ _ _ _ (lv_log _ _ _ _ _ _ _ _ _ Hl)) as Ha.
  rewrite Forall_forall in Ha. specialize (Ha x Hx). unfold event_ok in Ha. rewrite Hf in Ha.
  unfold event_allowed in Ha. apply orb_true_iff in Ha as [Ha|Ha]; [right|by left].
  destruct_guard. done.
Qed.

(** C19: the requester hears of every failure and every parked axis exactly once: an event
    to failed or disconnected (an unconfirmed submission apart) has a notice of its own
    kind and axis, no two notices report the same event, and no notice reports
    anything else. *)
Theorem notices_report_failures d k t :
  reachable parse_url d → d_runs d !! k = Some t →
  (∀ x, x ∈ t_events t → owed x = true →
     ∃ i n, t_notices t !! i = Some n ∧ reports n x
       ∧ ∀ j m, t_notices t !! j = Some m → n_source_event_id m = ev_id x → j = i)
  ∧ (∀ i n, t_notices t !! i = Some n → ∃ x, x ∈ t_events t ∧ reports n x).
Proof.
  intros Hd Ht.
  destruct (reachable_live _ d k t Hd Ht) as (r&p&e&u&steps&cs&evs&ns&ne&nn&->&Hl).
  destruct (lv_notices _ _ _ _ _ _ _ _ _ Hl) as [_ _ Hsrc Hu Ho]. split; [|exact Hsrc].
  intros x Hx Hw. destruct (Ho x Hx Hw) as (i & n & Hn & Hr). exists i, n.
  split; [done|]. split; [done|]. intros j m Hm Heq. eapply Hu; [done..|].
  by destruct Hr as [-> _].
Qed.

(** A publication step that succeeded or failed for good is never redone: whatever runs
    later, it keeps its status, its attempt count and the remote object it recorded. *)
Theorem concluded_steps_kept d d' k t key s :
  reachable parse_url d → rtc (step parse_url) d d' → d_runs d !! k = Some t →
  t_steps t !! key = Some s → step_final s = true →
  ∃ t' s', d_runs d' !! k = Some t' ∧ t_steps t' !! key = Some s'
    ∧ s_status s' = s_status s ∧ s_attempt_count s' = s_attempt_count s
    ∧ s_remote_object_id s' = s_remote_object_id s
    ∧ s_remote_object_url s' = s_remote_object_url s.
Proof.
  intros Hd Hs Ht Hk Hf.
  destruct (steps_evolve_run _ d d' k t (reachable_inv _ d Hd) Hs Ht) as (t' & Ht' & He).
  destruct (se_steps _ _ (ev_steps _ _ He) key s Hk) as (s' & Hs' & Hev).
  destruct (Hev Hf) as (? & ? & ? & ?). by exists t', s'.
Qed.

(** Every retry budget holds: a preparation is claimed at most eight times, and one that
    waits can still be claimed; a publication step is attempted at most three times and
    reconciled at most three times, parked exactly when the last of those is spent. *)
Theorem attempt_budgets d k t p :
  reachable parse_url d → d_runs d !! k = Some t → t_prep t = Some p →
  p_attempt_count p <= MAX_PREPARATION_ATTEMPTS
  ∧ (p_status p = Prep.pending ∨ p_status p = Prep.uncertain →
       p_attempt_count p < MAX_PREPARATION_ATTEMPTS)
  ∧ ∀ key s, t_steps t !! key = Some s →
      0 <= s_attempt_count s <= MAX_PUBLICATION_STEP_ATTEMPTS
      ∧ 0 <= s_recovery_attempt_count s <= MAX_PUBLICATION_STEP_RECOVERY_ATTEMPTS
      ∧ (s_status s = Step.disconnected ↔
           s_recovery_attempt_count s = MAX_PUBLICATION_STEP_RECOVERY_ATTEMPTS).
Proof.
  intros Hd Ht Hp.
  destruct (reachable_live _ d k t Hd Ht) as (r&p'&e&u&steps&cs&evs&ns&ne&nn&->&Hl).
  simpl in Hp. simplify_eq. pose proof (lv_attempts _ _ _ _ _ _ _ _ _ Hl) as Ha.
  unfold attempts_ok in Ha. split; [|split].
  - destruct (p_status p); destruct_guard; lia.
  - by intros [Hs|Hs]; rewrite Hs in Ha; destruct_guard.
  - intros key s Hs. pose proof (si_steps _ _ _ (lv_steps _ _ _ _ _ _ _ _ _ Hl) _ _ Hs) as Hok.
    unfold step_ok in Hok; simpl in Hok.
    unfold MAX_PUBLICATION_STEP_ATTEMPTS, MAX_PUBLICATION_STEP_RECOVERY_ATTEMPTS in *.
    destruct (s_status s); destruct_guard;
      repeat match goal with H : (_ =? _) = true |- _ => apply Z.eqb_eq in H end;
      (split; [lia|split; [lia|split; intros; [congruence || lia|done || lia]]]).
Qed.

(** C29: the replayable request of a run and its input bundle intents are written once: no
    later transaction changes the Execution input once it was saved, or, whether it was saved
    or not, the reference, input and publish context of a candidate, and a selected candidate
    stays selected. *)
Theorem submission_request_immutable d d' k t :
  reachable parse_url d → rtc (step parse_url) d d' → d_runs d !! k = Some t →
  ∃ t', d_runs d' !! k = Some t'
    ∧ (∀ e input, t_exec t = Some e → e_input e = Some input →
         ∃ e', t_exec t' = Some e' ∧ e_input e' = Some input)
    ∧ ∀ digest c, t_candidates t !! digest = Some c →
        ∃ c', t_candidates t' !! digest = Some c' ∧ c_reference c' = c_reference c
          ∧ c_input c' = c_input c ∧ c_publish_context c' = c_publish_context c
          ∧ (c_status c = Candidate.selected → c_status c' = Candidate.selected).
Proof.
  intros Hd Hs Ht.
  destruct (steps_evolve_run _ d d' k t (reachable_inv _ d Hd) Hs Ht) as (t' & Ht' & Hev).
  exists t'. split; [done|]. split; [|apply Hev]. intros e input He Hi.
  destruct (ev_exec _ _ Hev e He) as (e' & He' & [_ _ Hin]). exists e'. split; [done|by apply Hin].
Qed.

(** A connector's transactions leave the runs of every other connector untouched. *)
Theorem connectors_isolated cfg now o d k t r :
  reachable parse_url d → connector_ok cfg → d_runs d !! k = Some t →
  t_run t = Some r → r_connector_id r ≠ connector_id cfg →
  d_runs (run_op parse_url cfg now o d).2 !! k = Some t.
Proof.
  intros Hd Hc Ht Hr Hne.
  destruct (run_op_good parse_url cfg now o d Hc (reachable_inv _ d Hd)) as [Hg _].
  apply (dg_isolated _ _ _ Hg); [done|]. unfold visible. rewrite Hr. by apply String.eqb_neq.
Qed.
End Reachable.

(** * Witnesses *)

Lemma reachable_rows_checked_witness :
  reachable file_url (after whole_script)
  ∧ d_runs (after whole_script) !! "run-1" = Some (stored whole_script)
  ∧ size (t_candidates (stored whole_script)) = 1%nat
  ∧ candidates_selected (t_candidates (stored whole_script)) <= 1.
Proof.
  split; [by apply after_reachable|]. split; [evaluate|]. split; [evaluate|].
  apply (reachable_rows_checked file_url (after whole_script) "run-1"); [by apply after_reachable|].
  evaluate.
Defined.

(** A stale owner's checkpoint fails, and nothing changed. *)
Lemma no_constraint_violation_witness :
  let op := OpCheckpointInput "run-1" "stale" (JObject []) in
  ∃ f d', run_op file_url gh 0 op (after prepare_script) = (Some f, d')
    ∧ benign f = true ∧ d' = after prepare_script.
Proof.
  eexists (Thrown "Preparation claim was lost before checkpointing input."), _.
  split; [evaluate|].
  apply (no_constraint_violation file_url gh 0
    (OpCheckpointInput "run-1" "stale" (JObject [])) (after prepare_script));
    [by apply after_reachable|done|evaluate].
Defined.

Lemma terminal_statuses_absorb_witness :
  statuses (stored execute_script) = (Some Prep.submitted, Some Exec.succeeded, Some Pub.pending)
  ∧ ∃ t', d_runs (run_ops file_url (step_script "branch") (after publish_script)) !! "run-1" = Some t'
      ∧ ∀ e, t_exec (stored publish_script) = Some e → Exec.terminal (e_status e) = true →
          ∃ e', t_exec t' = Some e' ∧ e_status e' = e_status e
            ∧ e_finished_at e' = e_finished_at e ∧ e_failure_code e' = e_failure_code e
            ∧ e_workflow_result e' = e_workflow_result e.
Proof.
  split; [evaluate|].
  destruct (terminal_statuses_absorb file_url (after publish_script)
    (run_ops file_url (step_script "branch") (after publish_script)) "run-1"
    (stored publish_script)) as (t' & Ht' & _ & He & _).
  - by apply after_reachable.
  - apply run_ops_steps. by repeat constructor.
  - evaluate.
  - exists t'. by split.
Defined.

Lemma publication_follows_success_witness :
  ∃ e u, t_exec (stored whole_script) = Some e ∧ t_pub (stored whole_script) = Some u
    ∧ u_status u = Pub.published ∧ size (t_steps (stored whole_script)) = 2%nat
    ∧ ∀ key s, t_steps (stored whole_script) !! key = Some s → s_status s = Step.succeeded.
Proof.
  destruct (t_exec (stored whole_script)) as [e|] eqn:He; [|vm_compute in He; discriminate He].
  destruct (t_pub (stored whole_script)) as [u|] eqn:Hu; [|vm_compute in Hu; discriminate Hu].
  assert (Hs : u_status u = Pub.published) by (vm_compute in Hu; by injection Hu as <-).
  exists e, u. split; [exact eq_refl|]. split; [exact eq_refl|]. split; [exact Hs|].
  split; [evaluate|].
  apply (publication_follows_success file_url (after whole_script) "run-1"
    (stored whole_script) e u); [by apply after_reachable|evaluate|exact He|exact Hu|exact Hs].
Defined.

Lemma preparation_execution_agree_witness :
  ∃ p e u, t_prep (stored prepare_script) = Some p ∧ t_exec (stored prepare_script) = Some e
    ∧ t_pub (stored prepare_script) = Some u ∧ e_status e ≠ Exec.pending
    ∧ (p_status p = Prep.submitted ∨ p_status p = Prep.failed).
Proof.
  destruct (t_prep (stored prepare_script)) as [p|] eqn:Hp; [|vm_compute in Hp; discriminate Hp].
  destruct (t_exec (stored prepare_script)) as [e|] eqn:He; [|vm_compute in He; discriminate He].
  destruct (t_pub (stored prepare_script)) as [u|] eqn:Hu; [|vm_compute in Hu; discriminate Hu].
  assert (Hn : e_status e ≠ Exec.pending) by (vm_compute in He; by injection He as <-).
  exists p, e, u. do 3 (split; [exact eq_refl|]). split; [exact Hn|].
  apply (preparation_execution_agree file_url (after prepare_script) "run-1"
    (stored prepare_script) p e u);
    [by apply after_reachable|evaluate|exact Hp|exact He|exact Hu|exact Hn].
Defined.

Lemma event_log_faithful_witness :
  length (t_events (stored whole_script)) = 9%nat
  ∧ last_status publication (t_events (stored whole_script)) = Some "published"
  ∧ NoDup (ev_id <$> t_events (stored whole_script)).
Proof.
  split; [evaluate|]. split; [evaluate|].
  destruct (t_prep (stored whole_script)) as [p|] eqn:Hp; [|vm_compute in Hp; discriminate Hp].
  destruct (t_exec (stored whole_script)) as [e|] eqn:He; [|vm_compute in He; discriminate He].
  destruct (t_pub (stored whole_script)) as [u|] eqn:Hu; [|vm_compute in Hu; discriminate Hu].
  apply (event_log_faithful file_url (after whole_script) "run-1" (stored whole_script) p e u);
    [by apply after_reachable|evaluate|exact Hp|exact He|exact Hu].
Defined.

(** The latest event of the parked run is one of the three undeclared edges. *)
Lemma recorded_transitions_declared_witness :
  ∃ x, head (t_events (stored disconnect_script)) = Some x ∧ ev_from x = Some "uncertain"
    ∧ ev_to x = "disconnected"
    ∧ (declared (ev_axis x) "uncertain" (ev_to x) (ev_reason x) = true
       ∨ ev_axis x = publication ∧ ("uncertain", ev_to x) ∈ undeclared_publication_edges).
Proof.
  destruct (t_events (stored disconnect_script)) as [|x l] eqn:Hl; [vm_compute in Hl; discriminate Hl|].
  assert (Hx : ev_from x = Some "uncertain" ∧ ev_to x = "disconnected").
  { vm_compute in Hl. by injection Hl as <- _. }
  exists x. split; [done|]. split; [apply Hx|]. split; [apply Hx|].
  apply (recorded_transitions_declared file_url (after disconnect_script) "run-1"
    (stored disconnect_script)); [by apply after_reachable|evaluate| |apply Hx].
  rewrite Hl. left.
Defined.

Lemma notices_report_failures_witness :
  size (t_notices (stored disconnect_script)) = 1%nat
  ∧ ∀ i n, t_notices (stored disconnect_script) !! i = Some n →
      ∃ x, x ∈ t_events (stored disconnect_script) ∧ reports n x.
Proof.
  split; [evaluate|].
  apply (notices_report_failures file_url (after disconnect_script) "run-1");
    [by apply after_reachable|evaluate].
Defined.

Lemma concluded_steps_kept_witness :
  let later := step_script "review" ++ step_script "branch" in
  ∃ s t' s', t_steps (stored branch_script) !! "branch" = Some s ∧ step_final s = true
    ∧ d_runs (run_ops file_url later (after branch_script)) !! "run-1" = Some t'
    ∧ t_steps t' !! "branch" = Some s' ∧ s_attempt_count s' = s_attempt_count s.
Proof.
  intros later.
  destruct (t_steps (stored branch_script) !! "branch") as [s|] eqn:Hs;
    [|vm_compute in Hs; discriminate Hs].
  assert (Hf : step_final s = true) by (vm_compute in Hs; by injection Hs as <-).
  assert (Hd : reachable file_url (after branch_script)) by (by apply after_reachable).
  assert (Ht : d_runs (after branch_script) !! "run-1" = Some (stored branch_script)) by evaluate.
  assert (Hl : rtc (step file_url) (after branch_script) (run_ops file_url later (after branch_script))).
  { apply run_ops_steps. by repeat constructor. }
  destruct (concluded_steps_kept file_url _ _ "run-1" _ "branch" s Hd Hl Ht Hs Hf)
    as (t' & s' & Ht' & Hs' & _ & Ha & _).
  exists s, t', s'. split; [exact eq_refl|]. split; [exact Hf|]. split; [exact Ht'|].
  split; [exact Hs'|exact Ha].
Defined.

Lemma attempt_budgets_witness :
  ∃ s, t_steps (stored disconnect_script) !! "branch" = Some s
    ∧ s_attempt_count s = 3 ∧ s_recovery_attempt_count s = 3
    ∧ s_status s = Step.disconnected.
Proof.
  destruct (t_steps (stored disconnect_script) !! "branch") as [s|] eqn:Hs;
    [|vm_compute in Hs; discriminate Hs].
  destruct (t_prep (stored disconnect_script)) as [p|] eqn:Hp; [|vm_compute in Hp; discriminate Hp].
  assert (Hc : s_attempt_count s = 3 ∧ s_recovery_attempt_count s = 3).
  { vm_compute in Hs. injection Hs as <-. split; reflexivity. }
  exists s. split; [exact eq_refl|]. split; [apply Hc|]. split; [apply Hc|].
  apply (attempt_budgets file_url (after disconnect_script) "run-1" (stored disconnect_script) p)
    with (key := "branch"); [by apply after_reachable|evaluate|exact Hp|exact Hs|apply Hc].
Defined.

Lemma submission_request_immutable_witness :
  ∃ t' e', d_runs (run_ops file_url [(gh, minute 5, OpMarkRunning "run-1")] (after prepare_script))
             !! "run-1" = Some t'
    ∧ t_exec t' = Some e' ∧ e_input e' = Some input1.
Proof.
  destruct (t_exec (stored prepare_script)) as [e|] eqn:He; [|vm_compute in He; discriminate He].
  destruct (submission_request_immutable file_url (after prepare_script)
    (run_ops file_url [(gh, minute 5, OpMarkRunning "run-1")] (after prepare_script))
    "run-1" (stored prepare_script)) as (t' & Ht' & Hin & _).
  - by apply after_reachable.
  - apply run_ops_steps. by repeat constructor.
  - evaluate.
  - destruct (Hin e input1 He) as (e' & He' & Hi').
    { vm_compute in He. by injection He as <-. }
    exists t', e'. exact (conj Ht' (conj He' Hi')).
Defined.

Lemma connectors_isolated_witness :
  d_runs (run_op file_url other 0 (OpClaimNextPublication (λ _, false) "x") (after execute_script)).2
    !! "run-1" = Some (stored execute_script).
Proof.
  destruct (t_run (stored execute_script)) as [r|] eqn:Hr; [|vm_compute in Hr; discriminate Hr].
  apply (connectors_isolated file_url other 0 (OpClaimNextPublication (λ _, false) "x")
    (after execute_script) "run-1" (stored execute_script) r).
  - by apply after_reachable.
  - exact eq_refl.
  - evaluate.
  - exact Hr.
  - vm_compute in Hr. injection Hr as <-. discriminate.
Defined.
