(* ===== verification/Fencing.v ===== *)
(** Fencing: what an owner that lost its claim can still do, which is nothing.

    Each axis, each publication step and each notice is written under the token of its
    current owner.  The three theorems take the rows and a token that does not own
    them, and run every operation that takes a token. *)

From S2P Require Import Prelude Schema StateMachines Tables Database RunRecord.
From S2P Require Import PreparationStore ExecutionStore InputBundles SubmissionTransitions.
From S2P Require Import PublicationStore Notices System Scenario.

(** * Helpers *)

Lemma bind_ok {S A B} (m : tx S A) (k : A → tx S B) s a s' :
  m s = Ok (a, s') → bind m k s = k a s'.
Proof. unfold bind. by intros ->. Qed.

Lemma bind_err {S A B} (m : tx S A) (k : A → tx S B) s :
  (∃ f, m s = Err f) → ∃ f, bind m k s = Err f.
Proof. unfold bind. intros [f ->]. by exists f. Qed.

Section Preparation.
Context (token : string) (t : run_rows).
Context (Hstale : ∀ p, t_prep t = Some p → holds_preparation token p = false).

Lemma stale_update (extra : prep_row → bool) set :
  sql_update (λ p, holds_preparation token p && extra p) set t = Ok (None, t).
Proof. apply sql_update_none. intros p Hp. by rewrite (Hstale p Hp). Qed.

Lemma stale_update_plain set : sql_update (holds_preparation token) set t = Ok (None, t).
Proof. apply sql_update_none. exact Hstale. Qed.

Lemma stale_requirement cfg now : ∃ f, requirePreparationClaim cfg now token t = Err f.
Proof.
  unfold requirePreparationClaim, bind, read. destruct (t_prep t) as [p|] eqn:Hp; [|by eexists].
  rewrite (Hstale p eq_refl). by eexists.
Qed.

Lemma stale_fail now error retry after : fail now token error retry after t = Ok (false, t).
Proof.
  unfold fail, closePreparation, scheduleRetry, bind.
  destruct retry; rewrite ?stale_update, ?stale_update_plain; simpl; by rewrite ?stale_update_plain.
Qed.

(** The execution row waits for the preparation claim. *)
Lemma stale_prep_guard (b : bool) :
  b && match t_prep t with Some p => holds_preparation token p | None => false end = false.
Proof.
  destruct (t_prep t) as [p|] eqn:Hp; [|by rewrite andb_false_r].
  rewrite (Hstale p eq_refl). by rewrite andb_false_r.
Qed.

Lemma stale_markQueued now context : ∃ f, markQueued now token context t = Err f.
Proof.
  unfold markQueued, bind, read. destruct (t_run t); [|by eexists].
  destruct (sql_update _ _ t) as [[o t1]|f] eqn:Hu; [|by eexists].
  assert (Hp : t_prep t1 = t_prep t).
  { unfold sql_update in Hu. repeat case_match; simplify_eq/=; done. }
  rewrite sql_update_none; [destruct o; by eexists|].
  intros e _. rewrite Hp. apply stale_prep_guard.
Qed.
End Preparation.

Section Publication.
Context (token : string) (t : run_rows).
Context (Hstale : ∀ u, t_pub t = Some u → owns_publication token u = false).

Lemma stale_lock : lockPublicationOwnership token t = Ok (false, t).
Proof.
  unfold lockPublicationOwnership, read. destruct (t_pub t) as [u|] eqn:Hu; [|done].
  by rewrite (Hstale u eq_refl).
Qed.

Lemma stale_locked {A} (m : tx run_rows A) a :
  (let! owned := lockPublicationOwnership token in if negb owned then ret a else m) t = Ok (a, t).
Proof. by rewrite (bind_ok _ _ _ _ _ stale_lock). Qed.

(** Deriving the axis reads the steps and never writes them. *)
Lemma derive_keeps_steps now s a s' :
  derivePublicationStatus now s = Ok (a, s') → t_steps s' = t_steps s.
Proof.
  unfold derivePublicationStatus, bind, read, sql_update, appendEvent, queueRunNotice, ret.
  repeat case_match; intros; simplify_eq/=; done.
Qed.

Lemma stale_classification now key b t' :
  classifyRefusedClaim now token key t = Ok (b, t') → b = false ∧ t_steps t' = t_steps t.
Proof.
  unfold classifyRefusedClaim. rewrite (bind_ok _ _ _ _ _ stale_lock).
  unfold listPublicationSteps, bind at 1, read.
  assert (Hn : match snd <$> List.find (λ ks, String.eqb ks.1 key)
                     (sort_by (λ x y, String.leb x.1 y.1) (map_to_list (t_steps t))) with
               | Some s => false && isStepExhausted s
                   && (step_is Step.failed s || step_is Step.running s || step_is Step.uncertain s)
               | None => false
               end = false) by (by case_match).
  rewrite Hn. simpl. unfold bind, ret.
  destruct (derivePublicationStatus now t) as [[[] s]|e] eqn:Hd; [|done].
  intros [= <- <-]. split; [done|]. by eapply derive_keeps_steps.
Qed.
End Publication.

(** * The properties *)

(** A preparer whose claim was lost writes nothing: with a token that does not hold the
    preparation, renewing answers false, failing answers false, and checkpointing,
    reserving, listing or settling a bundle candidate, saving the prepared submission
    and queueing the execution all fail, in every case with the rows as they were. *)
Theorem stale_preparation_token cfg now parse_url runId token t :
  (∀ p, t_prep t = Some p → holds_preparation token p = false) →
  renewClaim cfg now token t = Ok (false, t)
  ∧ (∀ error retry after, fail now token error retry after t = Ok (false, t))
  ∧ (∀ input, ∃ f, transaction (checkpointInput now token input) t = (Err f, t))
  ∧ (∀ i, ∃ f, transaction (reserve cfg now parse_url runId token i) t = (Err f, t))
  ∧ (∃ f, transaction (list_candidates cfg now token) t = (Err f, t))
  ∧ (∀ digest st, ∃ f, transaction (settle cfg now token digest st) t = (Err f, t))
  ∧ (∀ context input, ∃ f,
       transaction (savePreparedSubmission cfg now token context input) t = (Err f, t))
  ∧ (∀ context, ∃ f, transaction (markQueued now token context) t = (Err f, t)).
Proof.
  intros Hs. assert (Herr : ∀ A (m : tx run_rows A), (∃ f, m t = Err f) →
    ∃ f, transaction m t = (Err f, t)).
  { intros A m [f Hf]. exists f. unfold transaction. by rewrite Hf. }
  pose proof (stale_requirement token t Hs cfg now) as Hreq.
  split; [|split; [|split; [|split; [|split; [|split; [|split]]]]]].
  - unfold renewClaim. by rewrite (bind_ok _ _ _ _ _ (stale_update token t Hs _ _)).
  - intros error retry after. by apply stale_fail.
  - intros input. apply Herr. unfold checkpointInput, bind.
    rewrite (stale_update_plain token t Hs). by eexists.
  - intros i. apply Herr. unfold reserve. destruct (reference_error _ _ _); [by eexists|].
    by apply bind_err.
  - by apply Herr, bind_err.
  - intros digest st. by apply Herr, bind_err.
  - intros context input. by apply Herr, bind_err.
  - intros context. apply Herr. by apply stale_markQueued.
Qed.

(** A publisher whose claim was lost writes nothing: with a token that does not own the
    publication, renewing, completing and failing it, and claiming, settling,
    completing and failing a step answer false and initialising the steps fails, all
    with the rows as they were; requiring a step claim is refused as not claimable,
    and leaves every step as it was. *)
Theorem stale_publication_token now token t :
  (∀ u, t_pub t = Some u → owns_publication token u = false) →
  renewPublicationClaim now token t = Ok (false, t)
  ∧ complete now token t = Ok (false, t)
  ∧ (∀ error retry, failPublication now token error retry t = Ok (false, t))
  ∧ (∀ keys, ∃ f, transaction (initializePublicationSteps now token keys) t = (Err f, t))
  ∧ (∀ key, claimPublicationStep now token key t = Ok (false, t))
  ∧ (∀ key found, settleExhaustedPublicationStep now token key found t = Ok (false, t))
  ∧ (∀ key remote, completePublicationStep now token key remote t = Ok (false, t))
  ∧ (∀ key error retry, failPublicationStep now token key error retry t = Ok (false, t))
  ∧ (∀ key o t', requirePublicationStepClaim now token key t = (o, t') →
       t_steps t' = t_steps t
       ∧ (o = Err (Deterministic not_claimable) ∨ ∃ f, o = Err f ∧ t' = t)).
Proof.
  intros Hs. split; [|split; [|split; [|split; [|split; [|split; [|split; [|split]]]]]]].
  - unfold renewPublicationClaim, bind. by rewrite sql_update_none.
  - unfold complete, bind, read. rewrite sql_update_none; [done|].
    intros u Hu. by rewrite (Hs u Hu).
  - intros error retry. unfold failPublication, bind. by rewrite sql_update_none.
  - intros keys. unfold initializePublicationSteps, transaction. destruct (bool_decide _); simpl.
    + rewrite (bind_ok _ _ _ _ _ (stale_lock token t Hs)). by eexists.
    + by eexists.
  - intros key. by apply stale_locked.
  - intros key found. by apply stale_locked.
  - intros key remote. by apply stale_locked.
  - intros key error retry. by apply stale_locked.
  - intros key o t'. unfold requirePublicationStepClaim, transaction.
    assert (Hc : claimPublicationStep now token key t = Ok (false, t)) by by apply stale_locked.
    rewrite Hc. clear Hc.
    destruct (classifyRefusedClaim now token key t) as [[b s]|e] eqn:Hc.
    + apply stale_classification in Hc as [-> Hst]; [|done]. intros [= <- <-]. auto.
    + intros [= <- <-]. eauto.
Qed.

(** A recovery or a delivery whose claim was lost writes nothing: with a token that does
    not hold the uncertain submission, recording an unknown outcome, completing and
    failing the recovery answer false, and with a token that does not hold the notice,
    so do renewing and completing its delivery, all with the rows as they were. *)
Theorem stale_recovery_token now token t :
  ((∀ e, t_exec t = Some e → holds_recovery token e = false) →
   recordUnknownRecoveryOutcome now token t = Ok (false, t)
   ∧ completeSubmissionRecovery now token t = Ok (false, t)
   ∧ (∀ error, failSubmissionRecovery now token error t = Ok (false, t)))
  ∧ (∀ notice, (∀ n, t_notices t !! notice = Some n → holds_notice token n = false) →
     renewNoticeClaim now notice token t = Ok (false, t)
     ∧ (∀ delivered url, is_null url = negb delivered →
          completeNotice now notice token delivered url t = Ok (false, t))).
Proof.
  split.
  - intros Hs. split; [|split].
    + unfold recordUnknownRecoveryOutcome, bind. by rewrite sql_update_none.
    + unfold completeSubmissionRecovery, bind, read. rewrite sql_update_none; [done|].
      intros e He. by rewrite (Hs e He).
    + intros error. unfold failSubmissionRecovery, bind. by rewrite sql_update_none.
  - intros notice Hs.
    assert (Hu : ∀ set, update_notice notice (holds_notice token) set t = Ok (false, t)).
    { intros set. unfold update_notice. destruct (t_notices t !! notice) as [n|]; [|done].
      by rewrite (Hs n eq_refl). }
    split; [by apply Hu|]. intros delivered url Hurl. unfold completeNotice.
    destruct delivered, url; try discriminate; by apply Hu.
Qed.

(** * Witnesses *)

(** After the execution was queued, the preparation token is spent. *)
Lemma stale_preparation_token_witness :
  renewClaim gh (minute 5) "prep-1" (stored prepare_script) = Ok (false, stored prepare_script)
  ∧ p_status <$> t_prep (stored prepare_script) = Some Prep.submitted.
Proof.
  split; [|vm_compute; reflexivity].
  assert (Hs : ∀ p, t_prep (stored prepare_script) = Some p →
                 holds_preparation "prep-1" p = false).
  { intros p Hp. vm_compute in Hp. by injection Hp as <-. }
  exact (proj1 (stale_preparation_token gh (minute 5) file_url "run-1" "prep-1"
                  (stored prepare_script) Hs)).
Defined.

(** Another worker's token, while the publication is in flight. *)
Lemma stale_publication_token_witness :
  claimPublicationStep (minute 9) "pub-2" "branch" (stored publish_script)
    = Ok (false, stored publish_script)
  ∧ claimPublicationStep (minute 9) "pub-1" "branch" (stored publish_script)
    ≠ Ok (false, stored publish_script).
Proof.
  split; [|vm_compute; discriminate].
  assert (Hs : ∀ u, t_pub (stored publish_script) = Some u → owns_publication "pub-2" u = false).
  { intros u Hu. vm_compute in Hu. by injection Hu as <-. }
  destruct (stale_publication_token (minute 9) "pub-2" (stored publish_script) Hs)
    as (_ & _ & _ & _ & Hc & _).
  exact (Hc "branch").
Defined.

(** The notice of a parked publication, claimed by nobody. *)
Lemma stale_recovery_token_witness :
  size (t_notices (stored disconnect_script)) = 1%nat
  ∧ renewNoticeClaim (minute 11) 1 "someone" (stored disconnect_script)
    = Ok (false, stored disconnect_script).
Proof.
  split; [vm_compute; reflexivity|].
  assert (Hs : ∀ n, t_notices (stored disconnect_script) !! 1 = Some n →
                 holds_notice "someone" n = false).
  { intros n Hn. vm_compute in Hn. by injection Hn as <-. }
  exact (proj1 (proj2 (stale_recovery_token (minute 11) "someone" (stored disconnect_script)) 1 Hs)).
Defined.
