(* ===== verification/PreparationProperties.v ===== *)
(** What the preparation operations come to: the claim queue, lease expiry, failures and
    retries, and the request that is saved before it is submitted. *)

From S2P Require Import Prelude Schema StateMachines Tables Database RunRecord.
From S2P Require Import PreparationStore ExecutionStore InputBundles SubmissionTransitions.
From S2P Require Import Invariant Preservation PreparationSpecs ExecutionSpecs DatabaseSpecs.
From S2P Require Import System SystemSpecs Scenario.

(** The three statuses of a run, as one value. *)
Definition axes_are (t : run_rows) (p : Prep.status) (e : Exec.status) (u : Pub.status) : Prop :=
  statuses t = (Some p, Some e, Some u).

Lemma axes_are_mk r p e u steps cs evs ns ne nn :
  axes_are (mk_rows r p e u steps cs evs ns ne nn) (p_status p) (e_status e) (u_status u).
Proof. done. Qed.

Lemma reachable_run_inv parse_url d k t :
  reachable parse_url d → d_runs d !! k = Some t → run_inv t.
Proof. intros Hd Ht. apply (di_runs _ (reachable_inv _ d Hd) k t Ht). Qed.

(** * Helpers *)

(** An operation that succeeds with one known answer. *)
Lemma wpt_ok_eq {S A} (m : tx S A) (a : A) (Q : S → Prop) s :
  wpt m (λ b s', b = a ∧ Q s') s → ∃ s', m s = Ok (a, s') ∧ Q s'.
Proof. intros H. apply wpt_ok in H as (b & s' & Heq & -> & HQ). by exists s'. Qed.

Section Claims.
Context (cfg : store_config) (now : Z).

(** The row a claim writes. *)
Definition claimed_prep (token : string) (p : prep_row) : prep_row :=
  p <| p_status := Prep.preparing |> <| p_claim_token := Some token |>
    <| p_claimed_at := Some now |> <| p_attempt_count := p_attempt_count p + 1 |>
    <| p_failure_code := None |> <| p_failure_message := None |>
    <| p_started_at := Some (coalesce (p_started_at p) now) |> <| p_updated_at := now |>.

Lemma claimCandidate_exact runId token t r p :
  t_run t = Some r → t_prep t = Some p → prep_check p = true → claimable now t = true →
  ∃ t', claimCandidate now runId token t
    = Ok (Some {| w_run_id := runId; w_workflow := r_workflow r;
                  w_input_version := p_input_version p; w_input := p_input p;
                  w_claim_token := token; w_attempt_count := p_attempt_count p + 1 |}, t')
  ∧ t_run t' = Some r ∧ t_prep t' = Some (claimed_prep token p).
Proof.
  intros Hr Hp Hck Hc. unfold claimable in Hc. rewrite Hp in Hc.
  destruct (t_exec t) as [e|]; [|done]. destruct_guard.
  assert (Hs : prep_check (claimed_prep token p) = true).
  { destruct p as [?? st]; simpl in *.
    match goal with H : _ || _ = true |- _ => apply orb_true_iff in H as [H|H] end;
      destruct_guard; subst; solve_check. }
  apply wpt_ok_eq. unfold claimCandidate.
  do 2 apply wp_bind, wp_read. rewrite Hp, Hr. apply wp_bind, wp_sql_update.
  - intros p' Hp' _. simpl in Hp'. rewrite Hp in Hp'. injection Hp' as <-. split; [exact Hs|].
    apply wp_bind, wp_appendEvent; [by exists r|]. by apply wp_ret.
  - intros Hw. specialize (Hw p Hp). by rewrite bool_decide_eq_true_2 in Hw.
Qed.
End Claims.

(** ** Failures *)

Lemma close_outcomes now token error t p :
  run_inv t → t_prep t = Some p → holds_preparation token p = true →
  wpt (let! closed := closePreparation now token error in
       if negb closed then ret false else concludeFailure now error ;;; ret false)
    (λ b t', b = false ∧ ∃ p', t_prep t' = Some p' ∧ p_last_failure_code p' = err_code error
       ∧ (if opt_eqb (err_code error) (Some SUBMISSION_STATE_UNCERTAIN)
          then axes_are t' Prep.failed Exec.uncertain Pub.pending
          else axes_are t' Prep.failed Exec.skipped Pub.skipped)
       ∧ (e_input <$> t_exec t') = (e_input <$> t_exec t)) t.
Proof.
  intros H Hp Hh. open_rows H; [done|]. simpl in Hp. injection Hp as ->.
  unfold holds_preparation in Hh. destruct_guard. destruct p, e, u; simpl in *; subst. axes_cases.
  wp_step. unfold closePreparation. wp_step. wp_step.
  2:{ intros Hw. specialize (Hw _ eq_refl). unfold holds_preparation, sql_eq in Hw. simpl in Hw.
      by rewrite bool_decide_eq_true_2 in Hw. }
  intros ? [= <-] _. split; [solve_check|]. wp_step. simpl. wp_step. unfold concludeFailure.
  destruct (opt_eqb (err_code error) (Some SUBMISSION_STATE_UNCERTAIN)) eqn:Hu; simpl.
  - unfold markExecutionUncertain. do 4 wp_step.
    + intros ? [= <-] _. split; [solve_check|]. repeat wp_step. split; [done|].
      eexists. repeat (split; [reflexivity|]). reflexivity.
    + intros Hw. by specialize (Hw _ eq_refl).
  - no_steps. repeat wp_step. split; [done|].
    eexists. repeat (split; [reflexivity|]). reflexivity.
Qed.

(** The first half: the retry that the budget may still allow. *)
Lemma retry_outcomes now token error after t p :
  run_inv t → t_prep t = Some p → holds_preparation token p = true →
  p_attempt_count p < MAX_PREPARATION_ATTEMPTS →
  wpt (scheduleRetry now token error after)
    (λ b t', b = true ∧ ∃ p', t_prep t' = Some p' ∧ p_last_failure_code p' = err_code error
       ∧ axes_are t' Prep.pending Exec.pending Pub.pending
       ∧ p_attempt_count p' = p_attempt_count p
       ∧ (∀ n, claimable n t' = true ↔ now + ms (Z.max 0 after) <= n)
       ∧ (e_input <$> t_exec t') = (e_input <$> t_exec t)) t.
Proof.
  intros H Hp Hh Hlt. open_rows H; [done|]. simpl in Hp. injection Hp as ->.
  unfold holds_preparation in Hh. destruct_guard. destruct p, e, u; simpl in *; subst. axes_cases.
  unfold scheduleRetry. wp_step. wp_step.
  - intros ? [= <-] _. split; [solve_check|]. repeat wp_step. split; [done|].
    eexists. repeat (split; [reflexivity|]). split; [|reflexivity]. intros n.
    unfold claimable. simpl. rewrite andb_true_r. apply Z.leb_le.
  - intros Hw. specialize (Hw _ eq_refl). unfold holds_preparation, sql_eq in Hw. simpl in Hw.
    rewrite bool_decide_eq_true_2 in Hw by done. apply Z.ltb_ge in Hw. lia.
Qed.

Lemma fail_outcomes now token error retry after t p :
  run_inv t → t_prep t = Some p → holds_preparation token p = true →
  wpt (fail now token error retry after) (λ b t', ∃ p',
       b = retry && (p_attempt_count p <? MAX_PREPARATION_ATTEMPTS)
      ∧ t_prep t' = Some p' ∧ p_last_failure_code p' = err_code error
      ∧ (if b
         then axes_are t' Prep.pending Exec.pending Pub.pending
              ∧ p_attempt_count p' = p_attempt_count p
              ∧ ∀ n, claimable n t' = true ↔ now + ms (Z.max 0 after) <= n
         else if opt_eqb (err_code error) (Some SUBMISSION_STATE_UNCERTAIN)
         then axes_are t' Prep.failed Exec.uncertain Pub.pending
         else axes_are t' Prep.failed Exec.skipped Pub.skipped)
      ∧ (e_input <$> t_exec t') = (e_input <$> t_exec t)) t.
Proof.
  intros Hinv Hp Hh. unfold fail. apply wp_bind. destruct (retry && _) eqn:Hb.
  - apply andb_true_iff in Hb as [-> Hlt]. apply Z.ltb_lt in Hlt.
    eapply wp_mono; [by eapply retry_outcomes|].
    intros b t' (-> & p' & ? & ? & ? & ? & ? & ?). apply wp_ret. by exists p'.
  - assert (Hno : (if retry then scheduleRetry now token error after else ret false) t
                  = Ok (false, t)).
    { destruct retry; [|done]. simpl in Hb. unfold scheduleRetry, bind.
      rewrite sql_update_none; [done|]. intros q Hq. simpl in Hq. simplify_eq.
      by rewrite Hb, andb_false_r. }
    unfold wpe at 1. rewrite Hno. eapply wp_mono; [by eapply close_outcomes|].
    intros b t' (-> & p' & ? & ? & ? & ?). by exists p'.
Qed.

(** ** The candidate of a submission *)

(** A prepared submission's candidate set, after the selection. *)
Lemma candidate_matches_only input context cs digest c d' c' :
  candidate_matches input context cs digest c = true →
  cs !! d' = Some c' → c_status c' = Candidate.selected → d' = digest.
Proof.
  unfold candidate_matches. intros H Hl Hs. destruct_guard.
  match goal with H : existsb _ _ = false |- _ => rename H into Hex end.
  destruct (decide (d' = digest)) as [|Hne]; [done|]. exfalso.
  rewrite <- not_true_iff_false in Hex. apply Hex, existsb_exists. exists (d', c').
  split; [by apply list_elem_of_In, elem_of_map_to_list|]. simpl.
  rewrite bool_decide_eq_true_2 by done. simpl. by rewrite (proj2 (String.eqb_neq _ _) Hne).
Qed.

(** A row count of one names one row. *)
Lemma filter_one {A} (f : string → A → bool) (m : gmap string A) :
  length (List.filter (λ kc, f kc.1 kc.2) (map_to_list m)) = 1%nat →
  ∃ k c, m !! k = Some c ∧ f k c = true
    ∧ ∀ j x, m !! j = Some x → f j x = true → j = k.
Proof.
  intros Hl. set (l := List.filter _ _) in Hl.
  assert (Hin : ∀ k c, (k, c) ∈ l ↔ m !! k = Some c ∧ f k c = true).
  { intros k c. unfold l. rewrite list_elem_of_In, filter_In, <- list_elem_of_In.
    by rewrite elem_of_map_to_list. }
  destruct l as [|[k c] [|]]; try discriminate. exists k, c.
  destruct (proj1 (Hin k c)) as [H1 H2]; [by left|]. split; [done|]. split; [done|].
  intros j x Hj Hx. assert (Hjx : (j, x) ∈ [(k, c)]) by (by apply Hin).
  by apply list_elem_of_singleton in Hjx as [= -> ->].
Qed.

(** ** Reading a successful operation backwards *)

Lemma bind_inv {S A B} (m : tx S A) (k : A → tx S B) s r :
  bind m k s = Ok r → ∃ a s', m s = Ok (a, s') ∧ k a s' = Ok r.
Proof. unfold bind. destruct (m s) as [[a s']|]; [|done]. intros H. by exists a, s'. Qed.

Lemma require_inv cfg now token t t' :
  requirePreparationClaim cfg now token t = Ok (tt, t') →
  t' = t ∧ ∃ p, t_prep t = Some p ∧ holds_preparation token p = true
                ∧ lease_live (p_claimed_at p) now (claim_timeout_ms cfg) = true.
Proof.
  unfold requirePreparationClaim, bind, read. destruct (t_prep t) as [p|] eqn:Hp; [|done].
  destruct (_ && _) eqn:Hb; [|done]. apply andb_true_iff in Hb as [??]. intros [= <-].
  split; [done|]. by exists p.
Qed.

Lemma update_candidates_inv where_ set t n t' :
  update_candidates where_ set t = Ok (n, t') →
  n = Z.of_nat (length (List.filter (λ kc, where_ kc.1 kc.2) (map_to_list (t_candidates t))))
  ∧ t' = t <| t_candidates := map_imap (λ d c, Some (if where_ d c then set c else c))
                                (t_candidates t) |>.
Proof. unfold update_candidates. destruct (1 <? _); [done|]. by intros [= <- <-]. Qed.

Lemma sql_update_inv {R} `{AxisTable R} (where_ : R → bool) set t r r' t' :
  sql_update where_ set t = Ok (Some (r, r'), t') →
  row_of t = Some r ∧ where_ r = true ∧ r' = set r ∧ t' = put_row (set r) t.
Proof.
  unfold sql_update. destruct (row_of t) as [x|]; [|done]. destruct (where_ x) eqn:Hw; [|done].
  destruct (row_check (set x)); [|done]. by intros [= <- <- <-].
Qed.

Lemma save_attaches cfg now token context input t t' :
  savePreparedSubmission cfg now token context input t = Ok (tt, t') →
  (∃ p, t_prep t = Some p ∧ holds_preparation token p = true
        ∧ lease_live (p_claimed_at p) now (claim_timeout_ms cfg) = true)
  ∧ (∃ e u, t_exec t' = Some e ∧ e_status e = Exec.pending ∧ e_input e = Some input
            ∧ t_pub t' = Some u ∧ u_status u = Pub.pending ∧ u_input u = context)
  ∧ ∃ digest c c', t_candidates t !! digest = Some c ∧ t_candidates t' !! digest = Some c'
      ∧ (c_status c = Candidate.present ∨ c_status c = Candidate.selected)
      ∧ c_status c' = Candidate.selected ∧ c_input c' = input ∧ c_publish_context c' = context
      ∧ ∀ j x, t_candidates t' !! j = Some x → j ≠ digest → c_status x = Candidate.abandoned.
Proof.
  unfold savePreparedSubmission. intros H.
  apply bind_inv in H as ([] & t1 & Hreq & H). apply require_inv in Hreq as (-> & Hclaim).
  split; [exact Hclaim|]. apply bind_inv in H as (cs & t2 & [= <- <-] & H).
  apply bind_inv in H as (n & t3 & Hcs & H). apply update_candidates_inv in Hcs as [-> ->].
  destruct (Z.of_nat _ =? 1) eqn:Hone; [|done]. simpl in H.
  destruct (filter_one (candidate_matches input context (t_candidates t)) (t_candidates t))
    as (digest & c & Hc & Hm & Honly); [apply Z.eqb_eq in Hone; lia|].
  apply bind_inv in H as ([[e e']|] & t4 & He & H).
  2:{ by apply bind_inv in H as (? & ? & _ & H). }
  apply sql_update_inv in He as (He & Hew & -> & ->).
  apply bind_inv in H as ([[u u']|] & t5 & Hu & H); [|done].
  apply sql_update_inv in Hu as (Hu & Huw & -> & ->). simpl in He, Hu.
  unfold abandonOpenCandidates in H. apply bind_inv in H as (m & t6 & Hab & [= <-]).
  apply update_candidates_inv in Hab as [_ ->]. simpl in Hew, Huw. destruct_guard. simpl.
  split; [by eexists _, _|].
  pose proof Hm as Hmatch. unfold candidate_matches in Hmatch. destruct_guard.
  eexists digest, c, _. split; [done|]. rewrite !map_lookup_imap, Hc. simpl. rewrite Hm.
  split; [reflexivity|].
  assert (Hst : c_status c = Candidate.present ∨ c_status c = Candidate.selected).
  { match goal with H : _ || _ = true |- _ => apply orb_true_iff in H as [H|H] end;
      destruct_guard; auto. }
  split; [done|]. destruct c as [cr ci cp cb cst ??]; simpl in *.
  split; [by destruct Hst as [-> | ->]|]. split; [by destruct Hst as [-> | ->]|].
  split; [by destruct Hst as [-> | ->]|].
  intros j x Hj Hne. rewrite !map_lookup_imap in Hj.
  destruct (t_candidates t !! j) as [y|] eqn:Hy; [|done]. simpl in Hj.
  destruct (candidate_matches input context (t_candidates t) j y) eqn:Hjm; [by destruct Hne; eauto|].
  injection Hj as <-. destruct y as [???? [] ??]; try done. simpl.
  exfalso. apply Hne. by eapply candidate_matches_only.
Qed.

(** * The properties *)

(** The preparation queue is served in order: a claim takes the oldest run that is
    claimable (pending or uncertain, due, its execution still pending) and not locked
    by another claim, hands out its stored input under the fresh token with one more
    attempt counted and the first start kept, and leaves every other run alone; it
    answers nothing, and changes nothing, exactly when no run is claimable. *)
Theorem claim_next_takes_oldest parse_url cfg now locked token d :
  reachable parse_url d →
  let queue k t := d_runs d !! k = Some t ∧ visible (connector_id cfg) t = true
                   ∧ locked k = false ∧ claimable now t = true in
  ∃ work d', claimNext cfg now locked token d = Ok (work, d') ∧
    match work with
    | None => d' = d ∧ ∀ k t, ¬ queue k t
    | Some w => ∃ t t' p, queue (w_run_id w) t
        ∧ (∀ k s, queue k s → order_by prep_updated_at (w_run_id w, t) (k, s) = true)
        ∧ t_prep t = Some p ∧ d_runs d' !! w_run_id w = Some t'
        ∧ t_prep t' = Some (claimed_prep now token p)
        ∧ w_input w = p_input p ∧ w_claim_token w = token
        ∧ w_attempt_count w = p_attempt_count p + 1
        ∧ ∀ j, j ≠ w_run_id w → d_runs d' !! j = d_runs d !! j
    end.
Proof.
  intros Hd queue. assert (Hq : ∀ k t, queue k t ↔ (k, t) ∈ select_runs cfg locked (claimable now) d).
  { intros k t. by rewrite elem_of_select_runs. }
  unfold claimNext, bind, read. destruct (first_by _ _) as [[k t]|] eqn:Hf.
  - pose proof (first_by_elem _ _ _ Hf) as Hin.
    pose proof (first_by_least _ _ _ (order_by_total _) (order_by_trans _) Hf) as Hleast.
    destruct (proj2 (Hq k t) Hin) as (Ht & Hv & Hlk & Hc).
    pose proof (reachable_run_inv _ _ _ _ Hd Ht) as Hinv.
    destruct Hinv as [|r p e u steps cs evs ns ne nn Hl]; [done|].
    destruct (claimCandidate_exact now k token (scope (connector_id cfg) k d) r p)
      as (t' & Heq & Hr' & Hp').
    + by rewrite (scope_visible _ _ _ _ Ht Hv).
    + by rewrite (scope_visible _ _ _ _ Ht Hv).
    + apply Hl.
    + by rewrite (scope_visible _ _ _ _ Ht Hv).
    + assert (Hrun : in_run cfg k (claimCandidate now k token) d
        = Ok (Some {| w_run_id := k; w_workflow := r_workflow r;
                      w_input_version := p_input_version p; w_input := p_input p;
                      w_claim_token := token; w_attempt_count := p_attempt_count p + 1 |},
              commit_run k t' d)) by (unfold in_run; by rewrite Heq).
      eexists _, _. split; [exact Hrun|]. simpl. eexists _, t', p.
      split; [by apply Hq|]. split; [intros j s Hs; by apply Hleast, Hq|].
      split; [reflexivity|]. split.
      { unfold commit_run. rewrite Hr'. simpl. by rewrite lookup_insert_eq. }
      do 4 (split; [done|]). by apply (in_run_frame _ _ _ _ _ _ Hrun).
  - apply first_by_None in Hf. eexists None, d. split; [done|]. split; [done|].
    intros k t Hk. apply Hq in Hk. rewrite Hf in Hk. by apply elem_of_nil in Hk.
Qed.

(** A lease-expiry sweep always succeeds and never gets stuck on a run: on a reachable
    database it concludes every run whose preparation lease ran out and that is not
    locked, as failed with execution and publication skipped when all eight attempts
    are spent and as uncertain with the other axes waiting otherwise, it blocks none,
    and it leaves every other run alone. *)
Theorem expire_stale_concludes_all parse_url cfg now locked d :
  reachable parse_url d →
  let stale k t := d_runs d !! k = Some t ∧ visible (connector_id cfg) t = true
                   ∧ locked k = false ∧ expired_lease cfg now t = true in
  ∃ r d', expireStale cfg now locked d = Ok (r, d') ∧ blocked r = []
    ∧ concluded r = Z.of_nat (length (select_runs cfg locked (expired_lease cfg now) d))
    ∧ (∀ k t, stale k t → ∃ t', d_runs d' !! k = Some t' ∧
         if MAX_PREPARATION_ATTEMPTS <=? prep_attempts t
         then axes_are t' Prep.failed Exec.skipped Pub.skipped
         else axes_are t' Prep.uncertain Exec.pending Pub.pending)
    ∧ (∀ j, (∀ t, ¬ stale j t) → d_runs d' !! j = d_runs d !! j).
Proof.
  intros Hd stale. pose proof (expireStale_ok cfg now locked d (reachable_inv _ d Hd)) as Hw.
  apply wpt_ok in Hw as (r & d' & Heq & Hg & Hb & Hc & Hin & Hout).
  exists r, d'. do 3 (split; [done|]). split.
  - intros k t Hs. destruct (Hin k t) as (t' & Ht' & p & e & u & Hp & He & Hu & Hst).
    { by apply elem_of_select_runs. }
    exists t'. split; [done|]. unfold axes_are, statuses. rewrite Hp, He, Hu. simpl.
    destruct (_ <=? _); by injection Hst as -> -> ->.
  - intros j Hj. apply Hout. intros (kt & -> & Hel)%list_elem_of_fmap.
    destruct kt as [k t]. by apply elem_of_select_runs, Hj in Hel.
Qed.

(** How a preparer ends its attempt: with the claim held, a retryable failure goes back to
    pending, and cannot be claimed before the delay is over, while fewer than eight
    attempts were taken; any other failure is final, and concludes the execution as
    uncertain (publication still waiting) when the request may have been accepted, as
    skipped together with the publication otherwise.  The failure is recorded, and the
    operation never fails. *)
Theorem fail_preparation_outcomes parse_url now d k t p token error retry after :
  reachable parse_url d → d_runs d !! k = Some t → t_prep t = Some p →
  holds_preparation token p = true →
  ∃ b t' p', fail now token error retry after t = Ok (b, t')
    ∧ b = retry && (p_attempt_count p <? MAX_PREPARATION_ATTEMPTS)
    ∧ t_prep t' = Some p' ∧ p_last_failure_code p' = err_code error
    ∧ (if b
       then axes_are t' Prep.pending Exec.pending Pub.pending
            ∧ p_attempt_count p' = p_attempt_count p
            ∧ ∀ n, claimable n t' = true ↔ now + ms (Z.max 0 after) <= n
       else if opt_eqb (err_code error) (Some SUBMISSION_STATE_UNCERTAIN)
       then axes_are t' Prep.failed Exec.uncertain Pub.pending
       else axes_are t' Prep.failed Exec.skipped Pub.skipped).
Proof.
  intros Hd Ht Hp Hh. pose proof (reachable_run_inv _ _ _ _ Hd Ht) as Hinv.
  destruct (wpt_ok _ _ _ (fail_outcomes now token error retry after t p Hinv Hp Hh))
    as (b & t' & Heq & p' & Hb & Hp' & Hl & Hax & _).
  by exists b, t', p'.
Qed.

(** Saving the prepared submission takes a live claim and attaches exactly one bundle: when
    it succeeds, the execution still waits and its request is the given one, the publish
    context is stored, one candidate, confirmed present beforehand and reserved for
    exactly this input and context, is selected, and every other candidate of the run
    is abandoned. *)
Theorem saved_submission_selects_one cfg now token context input t t' :
  savePreparedSubmission cfg now token context input t = Ok (tt, t') →
  (∃ p, t_prep t = Some p ∧ holds_preparation token p = true
        ∧ lease_live (p_claimed_at p) now (claim_timeout_ms cfg) = true)
  ∧ (∃ e u, t_exec t' = Some e ∧ e_status e = Exec.pending ∧ e_input e = Some input
            ∧ t_pub t' = Some u ∧ u_status u = Pub.pending ∧ u_input u = context)
  ∧ ∃ digest c c', t_candidates t !! digest = Some c ∧ t_candidates t' !! digest = Some c'
      ∧ (c_status c = Candidate.present ∨ c_status c = Candidate.selected)
      ∧ c_status c' = Candidate.selected ∧ c_input c' = input ∧ c_publish_context c' = context
      ∧ ∀ j x, t_candidates t' !! j = Some x → j ≠ digest → c_status x = Candidate.abandoned.
Proof. apply save_attaches. Qed.

(** Lease expiry does not look at the saved request: when the eighth claim of a preparation
    lapses, its execution is concluded as skipped, the status that says it never ran,
    even though the request that was saved before submitting it is still on the row. *)
Theorem exhausted_expiry_skips_saved_submission parse_url cfg now locked d k t e input :
  reachable parse_url d → d_runs d !! k = Some t → visible (connector_id cfg) t = true →
  locked k = false → expired_lease cfg now t = true → prep_attempts t = MAX_PREPARATION_ATTEMPTS →
  t_exec t = Some e → e_input e = Some input →
  ∃ r d' t' e', expireStale cfg now locked d = Ok (r, d') ∧ d_runs d' !! k = Some t'
    ∧ t_exec t' = Some e' ∧ e_status e' = Exec.skipped ∧ e_input e' = Some input.
Proof.
  intros Hd Ht Hv Hlk Hx Ha He Hi.
  pose proof (expireStale_ok cfg now locked d (reachable_inv _ d Hd)) as Hw.
  apply wpt_ok in Hw as (r & d' & Heq & Hg & _ & _ & Hin & _).
  destruct (Hin k t) as (t' & Ht' & p' & e' & u' & _ & He' & _ & Hst).
  { by apply elem_of_select_runs. }
  rewrite Ha in Hst. injection Hst as _ Hsk _.
  destruct (dg_runs _ _ _ Hg k t Ht) as (t'' & Ht'' & Hev).
  rewrite Ht' in Ht''. injection Ht'' as <-.
  destruct (ev_exec _ _ Hev e He) as (e'' & He'' & [_ _ Hkeep]).
  rewrite He' in He''. injection He'' as <-.
  exists r, d', t', e'. split; [done|]. split; [done|]. split; [done|]. split; [done|].
  by apply Hkeep.
Qed.

(** * Witnesses *)

Lemma claim_next_takes_oldest_witness :
  ∃ w d', claimNext gh (minute 20) (λ _, false) "next" (run_ops file_url
      [(gh, minute 20, OpExpireStale (λ _, false))] (after save_script)) = Ok (Some w, d')
    ∧ w_run_id w = "run-1" ∧ w_attempt_count w = 2 ∧ w_claim_token w = "next".
Proof.
  assert (Hr : reachable file_url (run_ops file_url
    [(gh, minute 20, OpExpireStale (λ _, false))] (after save_script))).
  { apply (reachable_steps _ (after save_script)); [by apply after_reachable|]. apply run_ops_steps. by repeat constructor. }
  destruct (claim_next_takes_oldest file_url gh (minute 20) (λ _, false) "next" _ Hr)
    as (work & d' & Heq & Hcase).
  destruct work as [w|].
  - exists w, d'. split; [exact Heq|].
    destruct Hcase as (_ & _ & _ & _ & _ & _ & _ & _ & _ & Htok & _).
    assert (Hw : match claimNext gh (minute 20) (λ _, false) "next" (run_ops file_url
        [(gh, minute 20, OpExpireStale (λ _, false))] (after save_script)) with
      | Ok (Some w, _) => Some (w_run_id w, w_attempt_count w) | _ => None end
      = Some ("run-1", 2)) by evaluate.
    rewrite Heq in Hw. injection Hw as Hid Hn. exact (conj Hid (conj Hn Htok)).
  - exfalso. assert (Hw : match claimNext gh (minute 20) (λ _, false) "next" (run_ops file_url
        [(gh, minute 20, OpExpireStale (λ _, false))] (after save_script)) with
      | Ok (None, _) => true | _ => false end = false) by evaluate.
    rewrite Heq in Hw. discriminate Hw.
Defined.

Lemma expire_stale_concludes_all_witness :
  ∃ r d' t', expireStale gh (minute 20) (λ _, false) (after save_script) = Ok (r, d')
    ∧ blocked r = [] ∧ d_runs d' !! "run-1" = Some t'
    ∧ axes_are t' Prep.uncertain Exec.pending Pub.pending.
Proof.
  assert (Hr : reachable file_url (after save_script)) by (by apply after_reachable).
  destruct (expire_stale_concludes_all file_url gh (minute 20) (λ _, false) _ Hr)
    as (r & d' & Heq & Hb & _ & Hall & _).
  destruct (Hall "run-1" (stored save_script)) as (t' & Ht' & Ha).
  { split; [evaluate|]. split; [evaluate|]. split; [reflexivity|evaluate]. }
  exists r, d', t'. split; [exact Heq|]. split; [exact Hb|]. split; [exact Ht'|].
  assert (Hf : (MAX_PREPARATION_ATTEMPTS <=? prep_attempts (stored save_script)) = false) by evaluate.
  rewrite Hf in Ha. exact Ha.
Defined.

Lemma fail_preparation_outcomes_witness :
  ∃ t', fail (minute 4) "prep-1" boom true 5000 (stored save_script) = Ok (true, t')
    ∧ ∀ n, claimable n t' = true ↔ minute 4 + 5000000 <= n.
Proof.
  assert (Hr : reachable file_url (after save_script)) by (by apply after_reachable).
  destruct (t_prep (stored save_script)) as [p|] eqn:Hp; [|vm_compute in Hp; discriminate Hp].
  assert (Hh : holds_preparation "prep-1" p = true ∧ p_attempt_count p = 1).
  { vm_compute in Hp. injection Hp as <-. split; reflexivity. }
  destruct (fail_preparation_outcomes file_url (minute 4) (after save_script) "run-1"
    (stored save_script) p "prep-1" boom true 5000 Hr) as (b & t' & p' & Heq & Hb & _ & _ & Hc);
    [evaluate|exact Hp|apply Hh|].
  assert (b = true) as -> by (rewrite Hb, (proj2 Hh); reflexivity).
  exists t'. split; [exact Heq|]. apply Hc.
Defined.

Lemma saved_submission_selects_one_witness :
  ∃ t', savePreparedSubmission gh (minute 3) "prep-1" context1 input1
          (run1 (after (take 3 prepare_script))) = Ok (tt, t')
    ∧ ∃ digest c', t_candidates t' !! digest = Some c' ∧ c_status c' = Candidate.selected.
Proof.
  destruct (savePreparedSubmission gh (minute 3) "prep-1" context1 input1
    (run1 (after (take 3 prepare_script)))) as [[[] t']|f] eqn:Heq;
    [|vm_compute in Heq; discriminate Heq].
  exists t'. split; [reflexivity|].
  destruct (saved_submission_selects_one gh (minute 3) "prep-1" context1 input1 _ t' Heq)
    as (_ & _ & digest & c & c' & _ & Hc' & _ & Hs & _).
  exists digest, c'. exact (conj Hc' Hs).
Defined.

Lemma exhausted_expiry_skips_saved_submission_witness :
  ∃ r d' t' e', expireStale gh (minute 160) (λ _, false) (after lost_script) = Ok (r, d')
    ∧ d_runs d' !! "run-1" = Some t' ∧ t_exec t' = Some e' ∧ e_status e' = Exec.skipped
    ∧ e_input e' = Some input1.
Proof.
  destruct (t_exec (stored lost_script)) as [e|] eqn:He; [|vm_compute in He; discriminate He].
  assert (Hi : e_input e = Some input1) by (vm_compute in He; by injection He as <-).
  apply (exhausted_expiry_skips_saved_submission file_url gh (minute 160) (λ _, false)
    (after lost_script) "run-1" (stored lost_script) e input1);
    [by apply after_reachable|evaluate|evaluate|reflexivity|evaluate|evaluate|exact He|exact Hi].
Defined.
