(* ===== verification/SubmissionProperties.v ===== *)
(** What crossing the Execution boundary comes to: the prepared request is saved, submitted
    and answered, and the cleanup leaves the run where another worker can take it up. *)

From S2P Require Import Prelude Schema StateMachines Tables Database RunRecord.
From S2P Require Import PreparationStore PublicationStore ExecutionStore InputBundles.
From S2P Require Import SubmissionTransitions Queries Runtime Invariant Preservation.
From S2P Require Import PreparationSpecs ExecutionSpecs DatabaseSpecs System SystemSpecs Scenario.
From S2P Require Import Fencing PreparationProperties.

(** No other worker touches the run. *)
Definition undisturbed : nat → run_rows → run_rows := λ _ t, t.

(** ** The record of well-formed rows *)

Lemma representable k t :
  run_inv t → is_Some (t_run t) →
  ∃ run p e u, rowToRecord k t = Some (Ok run) ∧ rec_run_id run = k
    ∧ t_prep t = Some p ∧ t_exec t = Some e ∧ t_pub t = Some u
    ∧ sum_status (rec_preparation run) = p_status p
    ∧ sum_status (rec_execution run) = e_status e
    ∧ sum_status (rec_publication run) = u_status u
    ∧ rec_execution_input run = match e_input e with Some JNull => None | i => i end.
Proof.
  intros H Hr. open_rows H; [by destruct Hr|]. unfold rowToRecord; simpl.
  unfold storage_ok in Hsto.
  assert (Hst : ∃ a, match e_artifact_storage e with
    | None | Some JNull => Ok None
    | Some v => match normalizeArtifactStorage (storage_of_json v) with
                | Ok v' => Ok (Some v') | Err err => Err err end
    end = Ok a).
  { destruct (e_artifact_storage e) as [[]|]; eauto;
      destruct (normalizeArtifactStorage _); eauto; discriminate. }
  destruct Hst as [a ->]. eexists _, p, e, u. by repeat split.
Qed.

(** ** Store operations that cannot fail *)

Section Outcomes.
Context (cfg : store_config) (now : Z).

Lemma markQueued_outcome token context t p :
  run_inv t → t_prep t = Some p → holds_preparation token p = true →
  wpt (markQueued now token context) (λ _ t', axes_are t' Prep.submitted Exec.queued Pub.pending
    ∧ (e_input <$> t_exec t') = (e_input <$> t_exec t)
    ∧ (u_input <$> t_pub t') = Some context) t.
Proof.
  intros H Hp Hh. open_rows H; [done|]. simpl in Hp. injection Hp as ->.
  unfold holds_preparation in Hh. destruct_guard. destruct p, e, u; simpl in *; subst. axes_cases.
  unfold markQueued. do 4 wp_step.
  - intros ? [= <-] _. split; [solve_check|]. do 4 wp_step.
    + intros ? [= <-] _. split; [solve_check|]. wp_step. wp_step.
      * intros ? [= <-] _. split; [solve_check|]. by repeat wp_step.
      * intros Hw. specialize (Hw _ eq_refl). unfold holds_preparation, sql_eq in Hw. simpl in Hw.
        by rewrite bool_decide_eq_true_2 in Hw.
    + intros Hw. specialize (Hw _ eq_refl). unfold holds_preparation, sql_eq in Hw. simpl in Hw.
      by rewrite bool_decide_eq_true_2 in Hw.
  - intros Hw. by specialize (Hw _ eq_refl).
Qed.

(** A saved submission leaves the preparation row and its claim as they were. *)
Lemma save_keeps_prep token context input t t' :
  savePreparedSubmission cfg now token context input t = Ok (tt, t') →
  t_prep t' = t_prep t ∧ t_run t' = t_run t
  ∧ ∃ p, t_prep t = Some p ∧ holds_preparation token p = true.
Proof.
  unfold savePreparedSubmission. intros H.
  apply bind_inv in H as ([] & t1 & Hreq & H). apply require_inv in Hreq as (-> & p & ? & ? & _).
  apply bind_inv in H as (cs & t2 & [= <- <-] & H).
  apply bind_inv in H as (n & t3 & Hcs & H). apply update_candidates_inv in Hcs as [-> ->].
  destruct (Z.of_nat _ =? 1); [|done]. simpl in H.
  apply bind_inv in H as ([[e e']|] & t4 & He & H).
  2:{ by apply bind_inv in H as (? & ? & _ & H). }
  apply sql_update_inv in He as (_ & _ & _ & ->).
  apply bind_inv in H as ([[u u']|] & t5 & Hu & H); [|done].
  apply sql_update_inv in Hu as (_ & _ & _ & ->).
  unfold abandonOpenCandidates in H. apply bind_inv in H as (m & t6 & Hab & [= <-]).
  apply update_candidates_inv in Hab as [_ ->]. simpl. eauto.
Qed.
End Outcomes.

(** * Submission *)

(** The code a failed submission is recorded under, and the axes it leaves. *)
Definition refused_axes (e : caught) (t : run_rows) : Prop :=
  if caught_uncertain e || opt_eqb (caught_code e) (Some SUBMISSION_STATE_UNCERTAIN)
  then axes_are t Prep.failed Exec.uncertain Pub.pending
  else axes_are t Prep.failed Exec.skipped Pub.skipped.

Lemma submission_error_uncertain accepted e :
  opt_eqb (err_code (submission_error accepted e)) (Some SUBMISSION_STATE_UNCERTAIN)
  = accepted || caught_uncertain e || opt_eqb (caught_code e) (Some SUBMISSION_STATE_UNCERTAIN).
Proof.
  unfold submission_error. simpl. destruct (accepted || caught_uncertain e); [done|]. simpl.
  by destruct (caught_code e).
Qed.

Lemma saved_input cfg now token context input t t' :
  savePreparedSubmission cfg now token context input t = Ok (tt, t') →
  (e_input <$> t_exec t') = Some (Some input) ∧ (u_input <$> t_pub t') = Some context.
Proof.
  intros H. destruct (save_attaches _ _ _ _ _ _ _ H) as (_ & (e & u & -> & _ & Hi & -> & _ & Hu) & _).
  simpl. by rewrite Hi, Hu.
Qed.

(** The cleanup after a refusal: no retry, and the saved request stays. *)
Lemma refusal_recorded now token e t p :
  run_inv t → t_prep t = Some p → holds_preparation token p = true →
  ∃ t', fail now token (submission_error false e) false 0 t = Ok (false, t')
    ∧ refused_axes e t' ∧ (e_input <$> t_exec t') = (e_input <$> t_exec t).
Proof.
  intros Hinv Hp Hh.
  pose proof (close_outcomes now token (submission_error false e) t p Hinv Hp Hh) as Hw.
  apply wpt_ok_eq in Hw as (t' & Heq & q & _ & _ & Hax & Hin).
  exists t'. split; [exact Heq|]. rewrite submission_error_uncertain in Hax. done.
Qed.

(** The cleanup when nothing was sent: a retry, while the budget allows it. *)
Lemma save_failure_recorded now token e t p :
  run_inv t → t_prep t = Some p → holds_preparation token p = true →
  ∃ b t', fail now token (submission_error false e) true 0 t = Ok (b, t')
    ∧ if p_attempt_count p <? MAX_PREPARATION_ATTEMPTS
      then axes_are t' Prep.pending Exec.pending Pub.pending
      else refused_axes e t'.
Proof.
  intros Hinv Hp Hh.
  pose proof (fail_outcomes now token (submission_error false e) true 0 t p Hinv Hp Hh) as Hw.
  apply wpt_ok in Hw as (b & t' & Heq & q & Hb & _ & _ & Hax & _).
  exists b, t'. split; [exact Heq|]. simpl in Hb. rewrite <- Hb. destruct b; [apply Hax|].
  rewrite submission_error_uncertain in Hax. done.
Qed.


(** * Witnesses *)

Definition js_error (f : failure) : caught :=
  {| caught_uncertain := false; caught_code := None; caught_message := "store failure" |}.

Definition settled_script : list (store_config * Z * op) := take 3 prepare_script.

