(* ===== verification/RecoveryProperties.v ===== *)
(** What recovering an uncertain submission and observing an execution come to, on top of one
    lemma per routine and per store operation they use. *)

From S2P Require Import Prelude Schema StateMachines Tables Database RunRecord.
From S2P Require Import PreparationStore PublicationStore ExecutionStore InputBundles.
From S2P Require Import SubmissionTransitions Queries Runtime Invariant Preservation.
From S2P Require Import PreparationSpecs ExecutionSpecs DatabaseSpecs System SystemSpecs Scenario.
From S2P Require Import Fencing PreparationProperties SubmissionProperties.

(** * Store operations on an uncertain submission *)

(** A submission whose outcome is open, with the stored request. *)
Definition open_submission (e : exec_row) (t : run_rows) : Prop :=
  t_exec t = Some e ∧ e_status e = Exec.uncertain.

Definition claimed_recovery (now : Z) (token : string) (e : exec_row) : exec_row :=
  e <| e_claim_token := Some token |> <| e_claimed_at := Some now |> <| e_updated_at := now |>.

Section Outcomes.
Context (cfg : store_config) (now : Z).

Lemma claim_recovery_outcome token t e :
  run_inv t → open_submission e t → recovery_claimable cfg now e = true →
  wpt (claimSubmissionRecovery cfg now token) (λ r t', r = Some token
    ∧ t_exec t' = Some (claimed_recovery now token e) ∧ t_run t' = t_run t
    ∧ t_prep t' = t_prep t ∧ t_pub t' = t_pub t) t.
Proof.
  intros H [He Hst] Hc. open_rows H; [done|]. simpl in He. injection He as ->.
  unfold claimSubmissionRecovery. wp_step. wp_step.
  - intros ? [= <-] _. destruct e; simpl in *; subst. split; [solve_check|]. by repeat wp_step.
  - intros Hw. by rewrite (Hw e eq_refl) in Hc.
Qed.

Lemma claim_recovery_refused token t :
  (∀ e, t_exec t = Some e → recovery_claimable cfg now e = false) →
  claimSubmissionRecovery cfg now token t = Ok (None, t).
Proof.
  intros H. unfold claimSubmissionRecovery, bind. by rewrite sql_update_none.
Qed.

(** The rows a claim leaves: uncertain, held by the token. *)
Lemma held_axes token t e :
  run_inv t → t_exec t = Some e → holds_recovery token e = true →
  axes_are t Prep.failed Exec.uncertain Pub.pending.
Proof.
  intros H He Hh. open_rows H; [done|]. simpl in He. injection He as ->.
  unfold holds_recovery in Hh. destruct_guard. unfold axes_are, statuses; simpl.
  match goal with H : e_status e = _ |- _ => rewrite H in * end. by destruct (p_status p), (u_status u).
Qed.

(** The three ends of a held recovery. *)
Lemma complete_recovery_outcome token t e :
  run_inv t → t_exec t = Some e → holds_recovery token e = true →
  wpt (completeSubmissionRecovery now token) (λ b t', b = true
    ∧ axes_are t' Prep.failed Exec.queued Pub.pending
    ∧ (e_input <$> t_exec t') = (e_input <$> t_exec t)) t.
Proof.
  intros H He Hh. open_rows H; [done|]. simpl in He. injection He as ->.
  unfold holds_recovery in Hh. destruct_guard. destruct p, e, u; simpl in *; subst. axes_cases.
  unfold completeSubmissionRecovery. wp_step. wp_step. wp_step. wp_step.
  - intros ? [= <-] _. split; [solve_check|]. by repeat wp_step.
  - intros Hw. specialize (Hw _ eq_refl). unfold holds_recovery, sql_eq in Hw. simpl in Hw.
    by rewrite bool_decide_eq_true_2 in Hw.
Qed.

Lemma unknown_recovery_outcome token t e :
  run_inv t → t_exec t = Some e → holds_recovery token e = true →
  wpt (recordUnknownRecoveryOutcome now token) (λ b t', b = true
    ∧ t_exec t' = Some (e <| e_attempt_count := e_attempt_count e + 1 |> <| e_updated_at := now |>)
    ∧ t_run t' = t_run t ∧ t_prep t' = t_prep t ∧ t_pub t' = t_pub t) t.
Proof.
  intros H He Hh. open_rows H; [done|]. simpl in He. injection He as ->.
  unfold recordUnknownRecoveryOutcome. wp_step. wp_step.
  - intros ? [= <-] Hw. unfold holds_recovery in Hw. destruct_guard. destruct e; simpl in *; subst.
    split; [solve_check|]. by repeat wp_step.
  - intros Hw. by rewrite (Hw e eq_refl) in Hh.
Qed.

Lemma fail_recovery_outcome token error t e :
  run_inv t → t_exec t = Some e → holds_recovery token e = true →
  wpt (failSubmissionRecovery now token error) (λ b t', b = true
    ∧ axes_are t' Prep.failed Exec.failed Pub.skipped
    ∧ (t_exec t' ≫= e_failure_code) = err_code error) t.
Proof.
  intros H He Hh. open_rows H; [done|]. simpl in He. injection He as ->.
  unfold holds_recovery in Hh. destruct_guard. destruct p, e, u; simpl in *; subst. axes_cases.
  unfold failSubmissionRecovery. no_steps. wp_step. wp_step.
  - intros ? [= <-] _. split; [solve_check|]. repeat wp_step. done.
  - intros Hw. specialize (Hw _ eq_refl). unfold holds_recovery, sql_eq in Hw. simpl in Hw.
    by rewrite bool_decide_eq_true_2 in Hw.
Qed.

Lemma exhausted_recovery_outcome n t e :
  run_inv t → t_exec t = Some e → recovery_claimable cfg now e = true → n <= e_attempt_count e →
  wpt (disconnectExhaustedSubmissionRecovery cfg now n) (λ b t', b = true
    ∧ axes_are t' Prep.failed Exec.disconnected Pub.pending) t.
Proof.
  intros H He Hc Hn. open_rows H; [done|]. simpl in He. injection He as ->.
  unfold disconnectExhaustedSubmissionRecovery. wp_step. wp_step.
  - intros ? [= <-] _. unfold recovery_claimable in Hc. destruct_guard.
    destruct p, e, u; simpl in *; subst. axes_cases. split; [solve_check|]. by repeat wp_step.
  - intros Hw. specialize (Hw e eq_refl). rewrite Hc in Hw. simpl in Hw. apply Z.leb_gt in Hw. lia.
Qed.
End Outcomes.

(** * One recovery *)

(** The rows after a deferral: the attempt is counted and the claim stays. *)
Definition deferred (now0 : Z) (token : string) (e : exec_row) (t : run_rows) : Prop :=
  axes_are t Prep.failed Exec.uncertain Pub.pending
  ∧ ∃ e', t_exec t = Some e' ∧ e_status e' = Exec.uncertain
      ∧ e_attempt_count e' = e_attempt_count e + 1 ∧ e_input e' = e_input e
      ∧ e_claim_token e' = Some token ∧ e_claimed_at e' = Some now0.

Definition recovery_ends (now0 : Z) (token : string) (run : ReviewRunRecord)
    (submit : string → json → submit_answer) (e : exec_row) (out : recovery_result)
    (t' : run_rows) : Prop :=
  match rec_execution_input run with
  | None => out = InputMissing ∧ axes_are t' Prep.failed Exec.failed Pub.skipped
  | Some input =>
      match submit (rec_workflow run) input with
      | Accepted => out = Recovered ∧ axes_are t' Prep.failed Exec.queued Pub.pending
                    ∧ (e_input <$> t_exec t') = Some (e_input e)
      | Refused err =>
          if caught_uncertain err then out = Deferred ∧ deferred now0 token e t'
          else out = RecoveryFailed ∧ axes_are t' Prep.failed Exec.failed Pub.skipped
               ∧ (t_exec t' ≫= e_failure_code) = err_code (classified err)
      end
  end.

Lemma recover_outcome cfg now thrown t e run token submit :
  run_inv t → t_exec t = Some e → recovery_claimable cfg (now 0%nat) e = true →
  ∃ out t', recoverReviewRunSubmission cfg now undisturbed thrown token run submit t = (out, t')
    ∧ run_inv t' ∧ t_run t' = t_run t ∧ recovery_ends (now 0%nat) token run submit e out t'.
Proof.
  intros Hinv He Hc.
  assert (Hst : e_status e = Exec.uncertain) by (unfold recovery_claimable in Hc; by destruct_guard).
  unfold recoverReviewRunSubmission, call, undisturbed, transaction.
  pose proof (claimSubmissionRecovery_good cfg (now 0%nat) token t Hinv) as Hg.
  destruct (wpt_ok _ _ _ (claim_recovery_outcome cfg (now 0%nat) token t e Hinv (conj He Hst) Hc))
    as (r & t1 & Heq & -> & He1 & Hr1 & _).
  unfold wpe in Hg. rewrite Heq in Hg |- *. destruct Hg as [Hinv1 _].
  assert (Hh : holds_recovery token (claimed_recovery (now 0%nat) token e) = true).
  { clear -Hst. destruct e; simpl in *; subst. unfold holds_recovery, sql_eq. simpl.
    by rewrite bool_decide_eq_true_2. }
  assert (Hfail : ∀ i error, ∃ t2, failSubmissionRecovery (now i) token error t1 = Ok (true, t2)
    ∧ run_inv t2 ∧ t_run t2 = t_run t ∧ axes_are t2 Prep.failed Exec.failed Pub.skipped
    ∧ (t_exec t2 ≫= e_failure_code) = err_code error).
  { intros i error. pose proof (failSubmissionRecovery_good (now i) token error t1 Hinv1) as Hgf.
    destruct (wpt_ok _ _ _ (fail_recovery_outcome (now i) token error t1 _ Hinv1 He1 Hh))
      as (b & t2 & Hf & -> & Hax & Hcode). exists t2. unfold wpe in Hgf. rewrite Hf in Hgf.
    destruct Hgf as [Hi Hev]. split; [done|]. split; [done|].
    split; [by rewrite (ev_run_same _ _ Hev)|done]. }
  unfold recovery_ends. destruct (rec_execution_input run) as [input|].
  - destruct (submit (rec_workflow run) input) as [|err].
    + pose proof (completeSubmissionRecovery_good (now 1%nat) token t1 Hinv1) as Hgc.
      destruct (wpt_ok _ _ _ (complete_recovery_outcome (now 1%nat) token t1 _ Hinv1 He1 Hh))
        as (b & t2 & Hf & -> & Hax & Hin). unfold wpe in Hgc. rewrite Hf in Hgc |- *.
      destruct Hgc as [Hi Hev]. eexists _, _. split; [reflexivity|]. split; [done|].
      split; [by rewrite (ev_run_same _ _ Hev)|]. split; [done|]. split; [done|].
      by rewrite Hin, He1.
    + unfold settleRefusal, then_, call, transaction. destruct (caught_uncertain err).
      * pose proof (recordUnknownRecoveryOutcome_good (now 2%nat) token t1 Hinv1) as Hgu.
        destruct (wpt_ok _ _ _ (unknown_recovery_outcome (now 2%nat) token t1 _ Hinv1 He1 Hh))
          as (b & t2 & Hf & -> & He2 & Hr2 & Hp2 & Hu2). unfold wpe in Hgu. rewrite Hf in Hgu |- *.
        destruct Hgu as [Hi Hev]. eexists _, _. split; [reflexivity|]. split; [done|].
        split; [by rewrite (ev_run_same _ _ Hev)|]. split; [done|]. split.
        { pose proof (held_axes token t1 _ Hinv1 He1 Hh) as Hax. unfold axes_are, statuses in *.
          rewrite Hp2, Hu2, He2. rewrite He1 in Hax. exact Hax. }
        eexists. split; [exact He2|]. done.
      * destruct (Hfail 2%nat (classified err)) as (t2 & Hf & Hi & Hr2 & Hax & Hcode). rewrite Hf.
        eexists _, _. split; [reflexivity|]. done.
  - unfold then_, call, transaction.
    destruct (Hfail 1%nat missing_input_error) as (t2 & Hf & Hi & Hr2 & Hax & _). rewrite Hf.
    eexists _, _. split; [reflexivity|]. done.
Qed.

Lemma recover_unavailable cfg now thrown run token submit t :
  (∀ e, t_exec t = Some e → recovery_claimable cfg (now 0%nat) e = false) →
  recoverReviewRunSubmission cfg now undisturbed thrown token run submit t = (ClaimUnavailable, t).
Proof.
  intros H. unfold recoverReviewRunSubmission, call, undisturbed, transaction.
  by rewrite claim_recovery_refused.
Qed.

(** * Round after round *)

(** The coordination passes of one run: each handles it once, at its time and with a fresh
    token. *)
Fixpoint recovery_rounds (cfg : store_config) (thrown : failure → caught) (run : ReviewRunRecord)
    (submit : string → json → submit_answer) (rounds : list (Z * string)) (t : run_rows) :
    list recovery_result * run_rows :=
  match rounds with
  | [] => ([], t)
  | (n, token) :: rest =>
      let (r, t1) := recoverSubmission cfg (λ _, n) undisturbed thrown token run submit t in
      let (rs, t2) := recovery_rounds cfg thrown run submit rest t1 in
      (r :: rs, t2)
  end.

(** Every round comes a lease after the one before it. *)
Fixpoint spaced (gap last : Z) (rounds : list (Z * string)) : Prop :=
  match rounds with
  | [] => True
  | (n, _) :: rest => last + gap <= n ∧ spaced gap n rest
  end.

Lemma round_deferred cfg thrown n token run submit input err t e :
  run_inv t → t_exec t = Some e → recovery_claimable cfg n e = true →
  e_attempt_count e < MAX_SUBMISSION_RECOVERY_ATTEMPTS →
  rec_execution_input run = Some input → submit (rec_workflow run) input = Refused err →
  caught_uncertain err = true →
  ∃ t' e', recoverSubmission cfg (λ _, n) undisturbed thrown token run submit t
           = (Deferred, t')
    ∧ run_inv t' ∧ t_exec t' = Some e' ∧ e_status e' = Exec.uncertain
    ∧ e_attempt_count e' = e_attempt_count e + 1 ∧ e_claimed_at e' = Some n.
Proof.
  intros Hinv He Hc Hlt Hin Hs Hu.
  unfold recoverSubmission, concludeExhaustedSubmissionRecovery, undisturbed.
  rewrite He. simpl. rewrite (proj2 (Z.ltb_lt _ _) Hlt).
  destruct (recover_outcome cfg (λ _, n) thrown t e run token submit Hinv He Hc)
    as (out & t' & Heq & Hinv' & _ & Hends).
  unfold recovery_ends in Hends. rewrite Hin, Hs, Hu in Hends.
  destruct Hends as (-> & _ & e' & He' & Hst & Ha & _ & _ & Hcl). by exists t', e'.
Qed.

Lemma round_disconnects cfg thrown n token run submit t e :
  run_inv t → t_exec t = Some e → recovery_claimable cfg n e = true →
  MAX_SUBMISSION_RECOVERY_ATTEMPTS <= e_attempt_count e →
  ∃ t', recoverSubmission cfg (λ _, n) undisturbed thrown token run submit t
        = (Disconnected, t')
    ∧ axes_are t' Prep.failed Exec.disconnected Pub.pending.
Proof.
  intros Hinv He Hc Hle.
  unfold recoverSubmission, concludeExhaustedSubmissionRecovery, undisturbed, call, transaction.
  rewrite He. simpl. rewrite (proj2 (Z.ltb_ge _ _) Hle).
  destruct (wpt_ok _ _ _ (exhausted_recovery_outcome cfg n MAX_SUBMISSION_RECOVERY_ATTEMPTS t e
    Hinv He Hc Hle)) as (b & t' & Heq & -> & Hax). rewrite Heq. by exists t'.
Qed.

Lemma claimable_after_lease cfg last n e :
  e_status e = Exec.uncertain → e_claimed_at e = Some last → last + ms (claim_timeout_ms cfg) <= n →
  recovery_claimable cfg n e = true.
Proof.
  intros Hst Hcl Hle. unfold recovery_claimable, lease_expired. rewrite Hst, Hcl.
  rewrite bool_decide_eq_true_2 by done. apply orb_true_iff. right. apply Z.leb_le. lia.
Qed.

Lemma rounds_outcome cfg thrown run submit input err rounds :
  rec_execution_input run = Some input → submit (rec_workflow run) input = Refused err →
  caught_uncertain err = true →
  ∀ n token t e, run_inv t → t_exec t = Some e → recovery_claimable cfg n e = true →
  spaced (ms (claim_timeout_ms cfg)) n rounds →
  length rounds = Z.to_nat (MAX_SUBMISSION_RECOVERY_ATTEMPTS - e_attempt_count e) →
  ∃ t', recovery_rounds cfg thrown run submit ((n, token) :: rounds) t
        = (repeat Deferred (length rounds) ++ [Disconnected], t')
    ∧ axes_are t' Prep.failed Exec.disconnected Pub.pending.
Proof.
  intros Hin Hs Hu. induction rounds as [|[n2 token2] rounds IH]; intros n token t e Hinv He Hc Hsp Hlen.
  - destruct (round_disconnects cfg thrown n token run submit t e Hinv He Hc) as (t' & Heq & Hax).
    { simpl in Hlen. lia. }
    exists t'. cbn [recovery_rounds]. by rewrite Heq.
  - destruct (round_deferred cfg thrown n token run submit input err t e Hinv He Hc)
      as (t1 & e1 & Heq & Hinv1 & He1 & Hst1 & Ha1 & Hcl1); [simpl in Hlen; lia|done..|].
    destruct Hsp as [Hgap Hsp].
    destruct (IH n2 token2 t1 e1 Hinv1 He1 (claimable_after_lease cfg n n2 e1 Hst1 Hcl1 Hgap) Hsp)
      as (t' & Heq' & Hax). { simpl in Hlen. lia. }
    exists t'. cbn [recovery_rounds]. cbn [recovery_rounds] in Heq'. rewrite Heq.
    destruct (recoverSubmission _ _ _ _ token2 _ _ t1) as [r2 t2].
    destruct (recovery_rounds _ _ _ _ rounds t2) as [rs t3]. injection Heq' as Heq1 ->.
    split; [|done]. by rewrite Heq1.
Qed.

(** * One observation *)

(** The execution row of a run that is queued or running. *)
Definition is_active (st : Exec.status) (t : run_rows) : Prop :=
  (e_status <$> t_exec t) = Some st ∧ (st = Exec.queued ∨ st = Exec.running).

(** The reported storage is one the contract can represent. *)
Definition storage_valid (storage : option artifact_storage) : Prop :=
  ∀ v, storage = Some v → ∃ j, normalizeArtifactStorage v = Ok j.

Lemma wp_storage_valid {allowed} storage (Q : option json → run_rows → Prop) t :
  storage_valid storage → (∀ c, Q c t) → wpe allowed (storage_column storage) Q t.
Proof.
  intros Hv HQ. unfold storage_column. destruct storage as [v|]; [|by apply HQ].
  destruct (Hv v eq_refl) as [j ->]. by apply HQ.
Qed.

Section Observing.
Context (now : Z).

(** What is left of the other axes. *)
Definition others_kept (t t' : run_rows) : Prop :=
  t_run t' = t_run t ∧ t_prep t' = t_prep t ∧ t_pub t' = t_pub t.

Lemma touch_outcome st t :
  run_inv t → is_active st t →
  wpt (touchObservation now) (λ _ t', others_kept t t' ∧ (e_status <$> t_exec t') = Some st) t.
Proof.
  intros H [Hst Hact]. open_rows H; [done|]. simpl in Hst. injection Hst as Hst.
  unfold touchObservation. wp_step. wp_step.
  - intros ? [= <-] _. destruct e; simpl in *; subst.
    split; [by destruct Hact as [-> | ->]; solve_check|]. by repeat wp_step.
  - intros Hw. specialize (Hw e eq_refl). unfold exec_active in Hw. rewrite Hst in Hw.
    by destruct Hact as [-> | ->].
Qed.

Lemma running_outcome st t :
  run_inv t → is_active st t →
  wpt (markRunning now) (λ b t', b = bool_decide (st = Exec.queued) ∧ others_kept t t'
    ∧ (e_status <$> t_exec t') = Some Exec.running ∧ run_inv t') t.
Proof.
  intros Hinv [Hst Hact]. pose proof (markRunning_good now t Hinv) as Hg. pose proof Hinv as H.
  open_rows H; [done|]. simpl in Hst. injection Hst as Hst.
  assert (Hout : wpt (markRunning now) (λ b t', b = bool_decide (st = Exec.queued)
    ∧ others_kept (mk_rows run p e u steps cs evs ns ne nn) t'
    ∧ (e_status <$> t_exec t') = Some Exec.running) (mk_rows run p e u steps cs evs ns ne nn)).
  { unfold markRunning. wp_step. wp_step.
    - intros ? [= <-] Hw. apply bool_decide_eq_true in Hw. destruct e; simpl in *; subst.
      split; [solve_check|]. by repeat wp_step.
    - intros Hw. specialize (Hw e eq_refl). apply bool_decide_eq_false in Hw. wp_step.
      destruct Hact as [-> | ->]; [congruence|]. simpl. by rewrite Hst. }
  unfold wpe in *. destruct (markRunning now _) as [[b t']|]; [|done].
  destruct Hout as (-> & ? & ?). destruct Hg. done.
Qed.

Lemma success_outcome st result storage t :
  run_inv t → is_active st t →
  storage_valid storage →
  wpt (recordExecutionSuccess now (Some result) storage) (λ b t', b = true ∧ others_kept t t'
    ∧ (e_status <$> t_exec t') = Some Exec.succeeded
    ∧ (t_exec t' ≫= e_workflow_result) = Some result) t.
Proof.
  intros H [Hst Hact] Hv. open_rows H; [done|]. simpl in Hst. injection Hst as Hst.
  unfold recordExecutionSuccess. apply wp_bind, wp_storage_valid; [done|]. intros col.
  wp_step. wp_step.
  - intros ? [= <-] _. destruct e; simpl in *; subst.
    destruct Hact as [-> | ->]; (split; [solve_check|]; by repeat wp_step).
  - intros Hw. specialize (Hw e eq_refl). unfold exec_active in Hw. rewrite Hst in Hw.
    by destruct Hact as [-> | ->].
Qed.

Lemma failure_outcome st error storage t :
  run_inv t → is_active st t →
  storage_valid storage →
  wpt (failExecution now error storage) (λ b t', b = true ∧ t_prep t' = t_prep t
    ∧ (e_status <$> t_exec t') = Some Exec.failed ∧ (u_status <$> t_pub t') = Some Pub.skipped
    ∧ (t_exec t' ≫= e_failure_code) = err_code error) t.
Proof.
  intros H [Hst Hact] Hv. open_rows H; [done|]. simpl in Hst. injection Hst as Hst.
  unfold failExecution. apply wp_bind, wp_storage_valid; [done|]. intros col.
  destruct p, e, u; simpl in *; subst.
  destruct Hact as [-> | ->]; axes_cases; no_steps; wp_step; wp_step.
  all: try (intros ? [= <-] _; split; [solve_check|]; repeat wp_step; done).
  all: intros Hw; by specialize (Hw _ eq_refl).
Qed.
End Observing.

(** What an answer of the Execution service makes of an active execution. *)
Definition expected_observation (answer : execution_status + (caught * bool)) (before : Exec.status) :
    observation * Exec.status :=
  match answer with
  | inr (_, false) => (PollRetry, before)
  | inr (_, true) => (Failed, Exec.failed)
  | inl s =>
      if String.eqb (st_status s) "running" then (Active, Exec.running)
      else if String.eqb (st_status s) "failed" then (Failed, Exec.failed)
      else if String.eqb (st_status s) "succeeded" then
        match st_result s with
        | Some _ => (Succeeded, Exec.succeeded)
        | None => (Failed, Exec.failed)
        end
      else (Active, before)
  end.

Definition answer_storage (answer : execution_status + (caught * bool)) : option artifact_storage :=
  match answer with inl s => st_storage s | inr _ => None end.

(** The rows and the report after one observation. *)
Definition observed (run : ReviewRunRecord) (answer : execution_status + (caught * bool))
    (before : Exec.status) (t : run_rows)
    (r : observation * option observation_event * run_rows) : Prop :=
  let '(o, ev, t') := r in
  let '(expected, after) := expected_observation answer before in
  o = expected ∧ (e_status <$> t_exec t') = Some after ∧ t_prep t' = t_prep t
  ∧ (u_status <$> t_pub t') = (if bool_decide (after = Exec.failed) then Some Pub.skipped
                               else u_status <$> t_pub t)
  ∧ (is_Some ev ↔ after ≠ before ∨ o = PollRetry)
  ∧ (o = PollRetry → t' = t)
  ∧ (∀ s, answer = inl s → after = Exec.succeeded → (t_exec t' ≫= e_workflow_result) = st_result s).

Lemma kept_pub t t' : others_kept t t' → t_prep t' = t_prep t ∧ (u_status <$> t_pub t') = (u_status <$> t_pub t).
Proof. by intros (_ & -> & ->). Qed.

Section Observe.
Context (now : nat → Z) (run : ReviewRunRecord) (st : Exec.status) (t : run_rows).
Context (Hinv : run_inv t) (Hact : is_active st t).

Lemma active_not_concluded : st ≠ Exec.failed ∧ st ≠ Exec.succeeded.
Proof. by destruct Hact as [_ [-> | ->]]. Qed.

Lemma failing_observed answer error storage ev :
  storage_valid storage → expected_observation answer st = (Failed, Exec.failed) → is_Some ev →
  ∃ t', failExecution (now 0%nat) error storage t = Ok (true, t')
    ∧ observed run answer st t (Failed, ev, t').
Proof.
  intros Hv He Hev. destruct active_not_concluded as [Hne _].
  destruct (wpt_ok _ _ _ (failure_outcome (now 0%nat) st error storage t Hinv Hact Hv))
    as (b & t' & Heq & -> & Hp & Hst & Hpub & _).
  exists t'. split; [done|]. unfold observed. rewrite He. split; [done|]. split; [done|].
  split; [done|]. split; [by rewrite Hpub|]. split; [|split; [done|done]].
  split; [intros _; left; by apply not_eq_sym|done].
Qed.

Lemma touching_observed answer i :
  expected_observation answer st = (Active, st) →
  ∃ t', touchObservation (now i) t = Ok (tt, t') ∧ observed run answer st t (Active, None, t').
Proof.
  intros He. destruct active_not_concluded as [Hf Hs].
  destruct (wpt_ok _ _ _ (touch_outcome (now i) st t Hinv Hact)) as ([] & t' & Heq & Hk & Hst).
  exists t'. split; [done|]. unfold observed. rewrite He. destruct (kept_pub _ _ Hk) as [Hp Hu].
  split; [done|]. split; [done|]. split; [done|]. rewrite bool_decide_eq_false_2 by done.
  split; [done|]. split; [|done]. split; [by intros []|]. intros [Hne|[=]]. by destruct Hne.
Qed.

Lemma observe_outcome answer :
  storage_valid (answer_storage answer) →
  ∃ r, observeExecutionRun now undisturbed run answer t = r ∧ observed run answer st t r.
Proof.
  intros Hv. destruct active_not_concluded as [Hf Hs].
  unfold observeExecutionRun, call, undisturbed, transaction.
  destruct answer as [s|[e []]].
  - simpl in Hv. destruct (String.eqb (st_status s) "running") eqn:Hrun.
    { assert (He : expected_observation (inl s) st = (Active, Exec.running)) by (simpl; by rewrite Hrun).
      destruct (wpt_ok _ _ _ (running_outcome (now 0%nat) st t Hinv Hact))
        as (b & t1 & Heq & Hb & Hk & Hst1 & Hinv1). rewrite Heq. destruct (kept_pub _ _ Hk) as [Hp Hu].
      destruct b.
      - symmetry in Hb. apply bool_decide_eq_true in Hb. eexists. split; [reflexivity|].
        unfold observed. rewrite He. subst st. repeat (split; [done|]). split; [|done].
        split; [intros _; by left|done].
      - symmetry in Hb. apply bool_decide_eq_false in Hb.
        assert (Hr : st = Exec.running) by (destruct Hact as [_ []]; congruence).
        destruct (wpt_ok _ _ _ (touch_outcome (now 1%nat) Exec.running t1 Hinv1
          (conj Hst1 (or_intror eq_refl)))) as ([] & t2 & Heq2 & Hk2 & Hst2). rewrite Heq2.
        destruct (kept_pub _ _ Hk2) as [Hp2 Hu2]. eexists. split; [reflexivity|].
        unfold observed. rewrite He. split; [done|]. split; [done|]. split; [by rewrite Hp2|].
        split; [by rewrite Hu2|]. split; [|done]. split; [by intros []|].
        intros [Hne|[=]]. by destruct Hne. }
    destruct (String.eqb (st_status s) "failed") eqn:Hfl.
    { apply String.eqb_eq in Hfl. rewrite Hfl. simpl.
      destruct (failing_observed (inl s) (failure_of_status (rec_run_id run) s) (st_storage s)
        (Some {| oe_kind := TerminalRecorded; oe_from := sum_status (rec_execution run);
                 oe_to := Failed; oe_error_code := Some (coalesce (st_error s ≫= fst) "EXECUTION_FAILED") |}))
        as (t' & Heq & Hobs); [done|simpl; by rewrite Hfl|done|].
      rewrite Heq. by eexists. }
    destruct (String.eqb (st_status s) "succeeded") eqn:Hsu; simpl.
    2:{ destruct (touching_observed (inl s) 0%nat) as (t' & Heq & Hobs).
        { simpl. by rewrite Hrun, Hfl, Hsu. }
        rewrite Heq. by eexists. }
    destruct (st_result s) as [result|] eqn:Hres.
    + destruct (wpt_ok _ _ _ (success_outcome (now 0%nat) st result (st_storage s) t Hinv Hact Hv))
        as (b & t' & Heq & -> & Hk & Hst' & Hr'). rewrite Heq. destruct (kept_pub _ _ Hk) as [Hp Hu].
      eexists. split; [reflexivity|]. unfold observed. simpl. rewrite Hrun, Hfl, Hsu, Hres.
      repeat (split; [done|]). split; [split; [intros _; left; by apply not_eq_sym|done]|].
      split; [done|]. intros s0 [= <-] _. by rewrite Hr', Hres.
    + destruct (failing_observed (inl s) {| err_code := Some "EXECUTION_RESULT_MISSING";
          err_message := "Execution succeeded without a workflow result." |} None
        (Some {| oe_kind := TerminalRecorded; oe_from := sum_status (rec_execution run);
                 oe_to := Failed; oe_error_code := Some "EXECUTION_RESULT_MISSING" |}))
        as (t' & Heq & Hobs); [done|simpl; by rewrite Hrun, Hfl, Hsu, Hres|done|].
      rewrite Heq. by eexists.
  - destruct (failing_observed (inr (e, true)) (errorInfo e) None
      (Some {| oe_kind := TerminalRecorded; oe_from := sum_status (rec_execution run);
               oe_to := Failed; oe_error_code := err_code (errorInfo e) |}))
      as (t' & Heq & Hobs); [done..|]. simpl. rewrite Heq. by eexists.
  - eexists. split; [reflexivity|]. unfold observed. simpl. split; [done|].
    split; [apply Hact|]. split; [done|]. rewrite bool_decide_eq_false_2 by done.
    split; [done|]. split; [split; [intros _; by right|done]|]. done.
Qed.
End Observe.

(** * The routines *)



(** One observation of an active execution records exactly what the Execution service
    said: running, succeeded with its result, or failed, a success without a result and
    a terminal polling error counting as failures; a failure also skips the publication,
    any other answer leaves the publication and the preparation alone; a transient
    polling error changes nothing; and an event is reported exactly when this call
    changed the status or has to poll again. *)
Theorem observation_outcomes parse_url now d k t st run answer :
  reachable parse_url d → d_runs d !! k = Some t → is_active st t →
  storage_valid (answer_storage answer) →
  ∃ r, observeExecutionRun now undisturbed run answer t = r ∧ observed run answer st t r.
Proof.
  intros Hd Ht Hact Hv. apply observe_outcome; [|done..]. by eapply reachable_run_inv.
Qed.

(** * Witnesses *)

(** The request was saved, and whether it was accepted is not known. *)
Definition uncertain_script : list (store_config * Z * op) :=
  save_script ++ [(gh, minute 4, OpFailPreparation "run-1" "prep-1"
    {| err_code := Some SUBMISSION_STATE_UNCERTAIN; err_message := "timeout" |} false 0)].

Definition no_answer : caught :=
  {| caught_uncertain := true; caught_code := None; caught_message := "timeout" |}.


(** Eight rounds, eleven minutes apart. *)
Definition later_rounds : list (Z * string) :=
  [(minute 16, "rec-2"); (minute 27, "rec-3"); (minute 38, "rec-4"); (minute 49, "rec-5");
   (minute 60, "rec-6"); (minute 71, "rec-7"); (minute 82, "rec-8"); (minute 93, "rec-9")].


Definition running_status : execution_status :=
  {| st_status := "running"; st_error := None; st_storage := None; st_result := None |}.

Lemma observation_outcomes_witness :
  ∃ run r, rowToRecord "run-1" (stored prepare_script) = Some (Ok run)
    ∧ observeExecutionRun (λ _, minute 5) undisturbed run (inl running_status)
        (stored prepare_script) = r
    ∧ observed run (inl running_status) Exec.queued (stored prepare_script) r.
Proof.
  assert (Hr : reachable file_url (after prepare_script)) by (by apply after_reachable).
  stored_record prepare_script run Hrec.
  destruct (observation_outcomes file_url (λ _, minute 5) (after prepare_script) "run-1"
    (stored prepare_script) Exec.queued run (inl running_status) Hr) as (r & Heq & Hobs).
  - evaluate.
  - split; [evaluate|by left].
  - intros v Hv. discriminate Hv.
  - exists run, r. exact (conj eq_refl (conj Heq Hobs)).
Defined.
