(* ===== verification/Stranded.v ===== *)
(** Two things no transaction of any store does: move a publication that waits although one of
    its steps is parked, and give the attempts of a publication step back, the operator's
    resume apart.  Each lemma runs one operation. *)

From S2P Require Import Prelude Schema StateMachines Tables Database RunRecord.
From S2P Require Import PreparationStore ExecutionStore InputBundles SubmissionTransitions.
From S2P Require Import PublicationStore OperatorDecisions Admission Notices Queries Invariant.
From S2P Require Import Preservation DatabaseSpecs System SystemSpecs Fencing.

Record stranded (t : run_rows) : Prop := {
  sd_prep : ∃ p, t_prep t = Some p ∧ (p_status p = Prep.submitted ∨ p_status p = Prep.failed);
  sd_exec : ∃ e, t_exec t = Some e ∧ e_status e = Exec.succeeded;
  sd_pub : ∃ u, t_pub t = Some u ∧ u_status u = Pub.pending;
  sd_step : any_step (step_is Step.disconnected) (t_steps t) = true;
}.

(** Whatever the operation answers, the rows it commits are still stranded. *)
Definition keeps {A} (m : tx run_rows A) (t : run_rows) : Prop :=
  wpe (λ _, true) m (λ _, stranded) t.

Section Rules.
Context (t : run_rows) (Ht : stranded t).

Lemma keeps_bind {A B} (m : tx run_rows A) (k : A → tx run_rows B) :
  keeps m t → (∀ a t', stranded t' → keeps (k a) t') → keeps (bind m k) t.
Proof. intros H Hk. apply wp_bind. eapply wp_mono; [exact H|]. intros a t' Ht'. by apply Hk. Qed.

Lemma keeps_ret {A} (a : A) : keeps (ret a) t.
Proof. exact Ht. Qed.

Lemma keeps_throw {A} e : keeps (throw (A := A) e) t.
Proof. done. Qed.

Lemma keeps_read {A B} (f : run_rows → A) (k : A → tx run_rows B) :
  keeps (k (f t)) t → keeps (bind (read f) k) t.
Proof. done. Qed.

(** An UPDATE that matches nothing. *)
Lemma keeps_none {R B} `{AxisTable R} (where_ : R → bool) set (k : option (R * R) → tx run_rows B) :
  (∀ r, row_of t = Some r → where_ r = false) → keeps (k None) t →
  keeps (bind (sql_update where_ set) k) t.
Proof. intros Hw Hk. unfold keeps, wpe, bind. by rewrite sql_update_none. Qed.

Lemma keeps_exec_columns (where_ : exec_row → bool) set :
  (∀ e, e_status (set e) = e_status e) → keeps (sql_update where_ set) t.
Proof.
  intros Hs. destruct Ht as [Hp (e & He & Hst) Hu Hd]. unfold keeps, wpe, sql_update. simpl.
  rewrite He. destruct (where_ e); [|done]. destruct (exec_check _); [|done].
  split; simpl; [done|exists (set e); by rewrite Hs|done|done].
Qed.

Lemma keeps_pub_columns (where_ : pub_row → bool) set :
  (∀ u, u_status (set u) = u_status u) → keeps (sql_update where_ set) t.
Proof.
  intros Hs. destruct Ht as [Hp He (u & Hu & Hst) Hd]. unfold keeps, wpe, sql_update. simpl.
  rewrite Hu. destruct (where_ u); [|done]. destruct (pub_check _); [|done].
  split; simpl; [done|done|exists (set u); by rewrite Hs|done].
Qed.

Lemma keeps_lock {B} token (k : bool → tx run_rows B) :
  keeps (k false) t → keeps (bind (lockPublicationOwnership token) k) t.
Proof.
  intros Hk. apply keeps_read. destruct (sd_pub t Ht) as (u & -> & Hs).
  unfold owns_publication. by rewrite Hs.
Qed.

Lemma keeps_ready {B} (k : bool → tx run_rows B) :
  keeps (k false) t → keeps (bind (read publishable) k) t.
Proof.
  intros Hk. apply keeps_read. unfold publishable. by rewrite (sd_step t Ht), andb_false_r.
Qed.

Lemma keeps_candidates where_ set : keeps (update_candidates where_ set) t.
Proof. unfold keeps, wpe, update_candidates. destruct (1 <? _); [done|]. by destruct Ht. Qed.

Lemma keeps_notice i where_ set : keeps (update_notice i where_ set) t.
Proof.
  unfold keeps, wpe, update_notice. destruct (_ !! i); [|exact Ht].
  destruct (where_ _); [|exact Ht]. destruct (notice_check _); [|done]. by destruct Ht.
Qed.

Lemma keeps_event now a from to reason : keeps (appendEvent now a from to reason) t.
Proof. unfold keeps, wpe, appendEvent. destruct (t_run t); [|done]. by destruct Ht. Qed.

Lemma keeps_queue now i kind a reason : keeps (queueRunNotice now i kind a reason) t.
Proof.
  unfold keeps, wpe, queueRunNotice. destruct (existsb _ _); [exact Ht|].
  destruct (existsb _ _); [|done]. by destruct Ht.
Qed.

Lemma stale_claim token p : t_prep t = Some p → holds_preparation token p = false.
Proof.
  intros Hp. destruct (sd_prep t Ht) as (q & Hq & [Hs|Hs]); simplify_eq;
    unfold holds_preparation; by rewrite Hs.
Qed.

Lemma keeps_refused {B} cfg now token (k : unit → tx run_rows B) :
  keeps (bind (requirePreparationClaim cfg now token) k) t.
Proof.
  unfold keeps, wpe. destruct (bind_err (requirePreparationClaim cfg now token) k t) as [f ->]; [|done].
  apply stale_requirement. apply stale_claim.
Qed.

Lemma keeps_storage storage : keeps (storage_column storage) t.
Proof. unfold storage_column. destruct storage; [|done]. by destruct (normalizeArtifactStorage _). Qed.

Lemma keeps_record runId : keeps (requireRecord runId) t.
Proof.
  apply keeps_bind; [unfold keeps, wpe, findRunRecord; by destruct (rowToRecord runId t) as [[]|]|].
  intros [r|] t' Ht'; [exact Ht'|done].
Qed.
End Rules.

(** The WHERE clause asks for a status the row does not have. *)
Ltac wrong_status :=
  let r := fresh "r" in let Hr := fresh in let Hs := fresh in
  intros r Hr; simpl in Hr;
  match goal with
  | Ht : stranded ?t, Hr' : t_prep ?t = Some r |- _ =>
      destruct (sd_prep t Ht) as (? & ? & [Hs|Hs]); simplify_eq;
      unfold holds_preparation; rewrite Hs; done
  | Ht : stranded ?t, Hr' : t_exec ?t = Some r |- _ =>
      destruct (sd_exec t Ht) as (? & ? & Hs); simplify_eq;
      unfold exec_active, recovery_claimable, holds_recovery; rewrite Hs; done
  | Ht : stranded ?t, Hr' : t_pub ?t = Some r |- _ =>
      destruct (sd_pub t Ht) as (? & ? & Hs); simplify_eq;
      unfold owns_publication; rewrite ?Hs; done
  end.

Ltac keep_step :=
  match goal with
  | |- keeps (ret _) _ => apply keeps_ret; assumption
  | |- keeps (throw _) _ => apply keeps_throw
  | |- keeps (bind (sql_update _ _) _) _ => apply keeps_none; [wrong_status|]
  | |- keeps (bind (lockPublicationOwnership _) _) _ => apply keeps_lock; [assumption|]; simpl
  | |- keeps (bind (read publishable) _) _ => apply keeps_ready; [assumption|]; simpl
  | |- keeps (bind (requirePreparationClaim _ _ _) _) _ => apply keeps_refused; assumption
  | |- keeps (read _) _ => apply keeps_ret; assumption
  | |- keeps (bind (read _) _) _ => apply keeps_read
  | |- keeps (bind _ _) _ => apply keeps_bind; [|intros ???]
  | |- keeps (sql_update _ _) _ =>
      first [ apply keeps_exec_columns; [assumption|done] | apply keeps_pub_columns; [assumption|done] ]
  | |- keeps (update_candidates _ _) _ => apply keeps_candidates; assumption
  | |- keeps (update_notice _ _ _) _ => apply keeps_notice; assumption
  | |- keeps (appendEvent _ _ _ _ _) _ => apply keeps_event; assumption
  | |- keeps (queueRunNotice _ _ _ _ _) _ => apply keeps_queue; assumption
  | |- keeps (storage_column _) _ => apply keeps_storage; assumption
  | |- keeps (requireRecord _) _ => apply keeps_record; assumption
  | |- keeps (if ?b then _ else _) _ => destruct b eqn:?
  | |- keeps (match ?x with _ => _ end) _ => destruct x eqn:?
  end.
Ltac keep_all := repeat keep_step.

Section Operations.
Context (cfg : store_config) (now : Z) (t : run_rows) (Ht : stranded t).

Lemma keeps_renew token : keeps (renewClaim cfg now token) t.
Proof. unfold renewClaim. keep_all. Qed.
Lemma keeps_checkpoint token input : keeps (checkpointInput now token input) t.
Proof. unfold checkpointInput. keep_all. Qed.
Lemma keeps_fail token error retry after : keeps (fail now token error retry after) t.
Proof.
  unfold keeps, wpe. rewrite stale_fail; [exact Ht|]. by apply stale_claim.
Qed.
Lemma keeps_touch : keeps (touchObservation now) t.
Proof. unfold touchObservation. keep_all. Qed.
Lemma keeps_running : keeps (markRunning now) t.
Proof. unfold markRunning. keep_all. Qed.
Lemma keeps_artifact storage : keeps (recordArtifactStorage now storage) t.
Proof. unfold recordArtifactStorage. keep_all. Qed.
Lemma keeps_success result storage : keeps (recordExecutionSuccess now result storage) t.
Proof. unfold recordExecutionSuccess. keep_all. Qed.
Lemma keeps_reserve parse_url runId token i : keeps (reserve cfg now parse_url runId token i) t.
Proof. unfold reserve, upsert_candidate. keep_all. Qed.
Lemma keeps_list token : keeps (list_candidates cfg now token) t.
Proof. unfold list_candidates. keep_all. Qed.
Lemma keeps_settle token digest st : keeps (settle cfg now token digest st) t.
Proof. unfold settle. keep_all. Qed.
Lemma keeps_save token context input : keeps (savePreparedSubmission cfg now token context input) t.
Proof. unfold savePreparedSubmission, abandonOpenCandidates. keep_all. Qed.
Lemma keeps_queued token context : keeps (markQueued now token context) t.
Proof. unfold markQueued. keep_all. Qed.
Lemma keeps_fail_execution error storage : keeps (failExecution now error storage) t.
Proof. unfold failExecution. keep_all. Qed.
Lemma keeps_claim_recovery token : keeps (claimSubmissionRecovery cfg now token) t.
Proof. unfold claimSubmissionRecovery. keep_all. Qed.
Lemma keeps_disconnect n : keeps (disconnectExhaustedSubmissionRecovery cfg now n) t.
Proof. unfold disconnectExhaustedSubmissionRecovery. keep_all. Qed.
Lemma keeps_unknown token : keeps (recordUnknownRecoveryOutcome now token) t.
Proof. unfold recordUnknownRecoveryOutcome. keep_all. Qed.
Lemma keeps_complete_recovery token : keeps (completeSubmissionRecovery now token) t.
Proof. unfold completeSubmissionRecovery. keep_all. Qed.
Lemma keeps_fail_recovery token error : keeps (failSubmissionRecovery now token error) t.
Proof. unfold failSubmissionRecovery. keep_all. Qed.
Lemma keeps_claim token : keeps (claim cfg now token) t.
Proof. unfold claim. keep_all. Qed.
Lemma keeps_renew_publication token : keeps (renewPublicationClaim now token) t.
Proof. unfold renewPublicationClaim. keep_all. Qed.
Lemma keeps_initialize token keys : keeps (initializePublicationSteps now token keys) t.
Proof. unfold initializePublicationSteps. keep_all. Qed.
Lemma keeps_claim_step token key : keeps (claimPublicationStep now token key) t.
Proof. unfold claimPublicationStep. keep_all. Qed.
Lemma keeps_settle_step token key found : keeps (settleExhaustedPublicationStep now token key found) t.
Proof. unfold settleExhaustedPublicationStep. keep_all. Qed.
Lemma keeps_complete_step token key remote : keeps (completePublicationStep now token key remote) t.
Proof. unfold completePublicationStep. keep_all. Qed.
Lemma keeps_fail_step token key error retry : keeps (failPublicationStep now token key error retry) t.
Proof. unfold failPublicationStep. keep_all. Qed.
Lemma keeps_complete token : keeps (complete now token) t.
Proof. unfold complete. keep_all. Qed.
Lemma keeps_fail_publication token error retry : keeps (failPublication now token error retry) t.
Proof. unfold failPublication. keep_all. Qed.
Lemma keeps_abandon runId reason : keeps (abandonBlockedPreparation now runId reason) t.
Proof. unfold abandonBlockedPreparation. keep_all. Qed.
Lemma keeps_complete_notice i token delivered url : keeps (completeNotice now i token delivered url) t.
Proof. unfold completeNotice. keep_all. Qed.
Lemma keeps_renew_notice i token : keeps (renewNoticeClaim now i token) t.
Proof. unfold renewNoticeClaim. keep_all. Qed.
Lemma keeps_claim_notice runId i seen token : keeps (claimNotice cfg now runId i seen token) t.
Proof. unfold claimNotice. keep_all. Qed.
Lemma keeps_classify token key : keeps (classifyRefusedClaim now token key) t.
Proof.
  unfold classifyRefusedClaim, listPublicationSteps, derivePublicationStatus. do 2 keep_step.
  destruct (snd <$> _); simpl; keep_all.
Qed.
Lemma keeps_decision runId choice seen :
  (∀ run m, choice run = Some m → keeps m t) → keeps (decide_run runId choice seen) t.
Proof.
  intros Hc. unfold decide_run. destruct (rowToRecord runId seen) as [[run|e]|]; try done.
  destruct (choice run) as [m|] eqn:Hm; [by eapply Hc|done].
Qed.
Lemma keeps_resume runId seen : keeps (resumeDisconnectedRun now runId seen) t.
Proof.
  apply keeps_decision. intros run m. unfold resume_choice.
  repeat (destruct (bool_decide _)); intros; simplify_eq.
  - unfold resumeDisconnectedPreparation. keep_all.
  - unfold resumeDisconnectedExecution, resumeDisconnectedSubmissionRecoveryOn. keep_all.
  - unfold resumeDisconnectedPublication, resumeDisconnectedOn. keep_all.
Qed.
Lemma keeps_give_up runId reason seen : keeps (giveUpDisconnectedRun now runId reason seen) t.
Proof.
  unfold giveUpDisconnectedRun. destruct (blank reason); [done|].
  apply keeps_decision. intros run m. unfold give_up_choice.
  repeat (destruct (bool_decide _)); intros; simplify_eq.
  - unfold giveUpDisconnectedPreparation. keep_all.
  - unfold giveUpDisconnectedExecution. keep_all.
  - unfold giveUpDisconnectedPublication. keep_all.
Qed.
Lemma keeps_claim_selected runId st token : keeps (claimSelected cfg now runId st token) t.
Proof.
  unfold claimSelected. keep_step. apply keeps_none; [|done].
  intros u _. by rewrite andb_false_r.
Qed.
End Operations.

Create HintDb strands.
#[export] Hint Resolve keeps_renew keeps_checkpoint keeps_fail keeps_touch keeps_running
  keeps_artifact keeps_success keeps_reserve keeps_list keeps_settle keeps_save keeps_queued
  keeps_fail_execution keeps_claim_recovery keeps_disconnect keeps_unknown keeps_complete_recovery
  keeps_fail_recovery keeps_claim keeps_renew_publication keeps_initialize keeps_claim_step
  keeps_settle_step keeps_complete_step keeps_fail_step keeps_complete keeps_fail_publication
  keeps_abandon keeps_complete_notice keeps_renew_notice keeps_classify keeps_resume keeps_give_up :
  strands.

(** * The whole database *)

Section Database.
Context (parse_url : string → option url).

(** The rows of run [k] are stranded. *)
Definition stranded_in (k : string) (d : db) : Prop := ∃ t, d_runs d !! k = Some t ∧ stranded t.

Lemma in_run_strands {A} cfg r (m : tx run_rows A) k d a d' t :
  d_runs d !! k = Some t → visible (connector_id cfg) t = true → stranded t →
  (∀ t, stranded t → keeps m t) → in_run cfg r m d = Ok (a, d') → stranded_in k d'.
Proof.
  intros Ht Hv Hst Hm Heq. destruct (decide (k = r)) as [<-|Hne].
  2:{ exists t. split; [|done]. by rewrite (in_run_frame _ _ _ _ _ _ Heq). }
  assert (Hs : stranded (scope (connector_id cfg) k d)).
  { rewrite (scope_visible _ _ _ _ Ht Hv). by destruct Hst. }
  specialize (Hm _ Hs). unfold keeps, wpe in Hm. unfold in_run in Heq.
  destruct (m _) as [[x t']|]; [|done]. injection Heq as <- <-.
  unfold commit_run. destruct (t_run t'); [|by exists t].
  exists t'. simpl. by rewrite lookup_insert_eq.
Qed.

Lemma commit_strands {A} (m : tx db A) k d :
  stranded_in k d → (∀ a d', m d = Ok (a, d') → stranded_in k d') →
  stranded_in k (outcome (transaction m d)).2.
Proof. intros Hd Hm. unfold transaction. destruct (m d) as [[a d']|]; [by eapply Hm|done]. Qed.

Lemma on_run_strands {A} cfg r (m : tx run_rows A) k d t :
  d_runs d !! k = Some t → visible (connector_id cfg) t = true → stranded t →
  (∀ t, stranded t → keeps m t) → stranded_in k (outcome (transaction (in_run cfg r m) d)).2.
Proof.
  intros Ht Hv Hst Hm. apply commit_strands; [by exists t|]. intros a d'. by eapply in_run_strands.
Qed.
(** Another run is written, or none. *)
Lemma elsewhere_strands {A} cfg r (m : tx run_rows A) k d a d' :
  stranded_in k d → k ≠ r → in_run cfg r m d = Ok (a, d') → stranded_in k d'.
Proof.
  intros (t & Ht & Hst) Hne Heq. exists t. split; [|done].
  by rewrite (in_run_frame _ _ _ _ _ _ Heq).
Qed.

Lemma stranded_not_selected cfg locked w k s d :
  stranded_in k d → (∀ t, stranded t → w t = false) → (k, s) ∉ select_runs cfg locked w d.
Proof.
  intros (t & Ht & Hst) Hw (Hs & _ & _ & Hwt)%elem_of_select_runs. simplify_eq.
  by rewrite Hw in Hwt.
Qed.

Lemma stranded_claimable now t : stranded t → claimable now t = false.
Proof.
  intros [(p & Hp & [Hs|Hs]) _ _ _]; unfold claimable; rewrite Hp, Hs; by destruct (t_exec t).
Qed.

Lemma stranded_lease cfg now t : stranded t → expired_lease cfg now t = false.
Proof. intros [(p & Hp & [Hs|Hs]) _ _ _]; unfold expired_lease; by rewrite Hp, Hs. Qed.

Lemma claimNext_strands cfg now locked token k d a d' :
  stranded_in k d → claimNext cfg now locked token d = Ok (a, d') → stranded_in k d'.
Proof.
  intros Hd. unfold claimNext, bind, read. destruct (first_by _ _) as [[j s]|] eqn:Hf.
  - apply elsewhere_strands; [done|]. intros <-.
    eapply (stranded_not_selected cfg locked (claimable now)); [done|apply stranded_claimable|].
    by eapply first_by_elem.
  - by intros [= <- <-].
Qed.

Lemma expire_strands cfg now locked k d a d' :
  db_inv d → stranded_in k d → expireStale cfg now locked d = Ok (a, d') → stranded_in k d'.
Proof.
  intros Hinv Hd Heq. pose proof (expireStale_ok cfg now locked d Hinv) as Hw.
  unfold wpe in Hw. rewrite Heq in Hw. destruct Hw as (_ & _ & _ & _ & Hout).
  pose proof Hd as (t & Ht & Hst). exists t. split; [|done]. rewrite Hout; [done|].
  intros ([j s] & -> & Hel)%list_elem_of_fmap. revert Hel. apply stranded_not_selected; [done|].
  intros x. apply stranded_lease.
Qed.

Lemma insert_strands cfg now a token k d x d' :
  stranded_in k d → insertWith cfg now a token d = Ok (x, d') → stranded_in k d'.
Proof.
  intros Hd. unfold insertWith. destruct (bool_decide _) eqn:Hid; [done|].
  destruct (ingress_taken cfg a d); [done|]. apply elsewhere_strands; [done|].
  intros ->. apply bool_decide_eq_false in Hid. destruct Hd as (t & Ht & _). apply Hid. by exists t.
Qed.

Lemma admit_strands cfg now kind key a token seen k d :
  stranded_in k d → stranded_in k (outcome (admitIngress cfg now kind key a token seen d)).2.
Proof.
  intros Hd. unfold admitIngress. destruct (find_ingress _ _ _ seen) as [kt|].
  { by destruct (replay kt). }
  match goal with |- context [insertWith cfg now ?x token] => set (a' := x) end.
  pose proof (commit_strands (insertWith cfg now a' token) k d Hd
    (λ x d', insert_strands cfg now a' token k d x d' Hd)) as Hi.
  destruct (transaction _ d) as [r d1]. destruct r as [ad|e]; [done|]. simpl in Hi.
  destruct e; try exact Hi. destruct (String.eqb _ _); [|exact Hi].
  destruct (find_ingress _ _ _ d1) as [kt|]; [|exact Hi]. by destruct (replay kt).
Qed.

Lemma run_op_strands cfg now o k d :
  connector_ok cfg → db_inv d → stranded_in k d → stranded_in k (run_op parse_url cfg now o d).2.
Proof.
  intros Hc Hinv Hd. pose proof Hd as (t & Ht & Hst).
  destruct (visible (connector_id cfg) t) eqn:Hv.
  2:{ destruct (run_op_good parse_url cfg now o d Hc Hinv) as [Hg _].
      exists t. split; [by apply (dg_isolated _ _ _ Hg)|done]. }
  destruct o; cbn [run_op];
    try (by eapply on_run_strands; [exact Ht|done|done|eauto with strands]).
  - apply commit_strands; [done|]. intros x d'. by apply insert_strands.
  - by apply admit_strands.
  - apply commit_strands; [done|]. intros x d'. by apply claimNext_strands.
  - apply commit_strands; [done|]. intros x d'. by apply expire_strands.
  - apply commit_strands; [done|]. intros x d'. unfold claimNextOnce, bind, read.
    destruct (first_by _ _) as [[j s]|]; [|by intros [= <- <-]].
    eapply in_run_strands; [exact Ht|done|done|]. intros. by apply keeps_claim_selected.
  - apply commit_strands; [done|]. intros x d'. unfold claimNextNotice, bind, read.
    destruct (first_by _ _) as [[[j s] [i n]]|]; [|by intros [= <- <-]].
    eapply in_run_strands; [exact Ht|done|done|]. intros. by apply keeps_claim_notice.
Qed.

(** Stranded once, stranded for good. *)
Lemma stranded_forever k d d' :
  db_inv d → stranded_in k d → rtc (step parse_url) d d' → stranded_in k d'.
Proof.
  intros Hinv Hd Hs. induction Hs as [|d d1 d2 Hstep _ IH]; [done|].
  apply IH; [by eapply step_inv|]. destruct Hstep as [cfg now o Hc <-]. by apply run_op_strands.
Qed.
End Database.

(** * Attempts *)

(** How often a step was attempted. *)
Definition attempts (key : string) (t : run_rows) : Z :=
  match t_steps t !! key with Some s => s_attempt_count s | None => 0 end.

Section Spares.
Context (key : string) (n : Z).

(** Whatever the statement answers, at least [n] attempts stay counted, and the trunk stays
    as it is. *)
Definition spares {A} (m : tx run_rows A) : Prop :=
  ∀ t, n <= attempts key t →
    wpe (λ _, true) m (λ _ t', n <= attempts key t' ∧ t_run t' = t_run t) t.

Lemma spares_ret {A} (a : A) : spares (ret a).
Proof. by intros t. Qed.
Lemma spares_throw {A} e : spares (throw (A := A) e).
Proof. by intros t. Qed.
Lemma spares_read {A} (f : run_rows → A) : spares (read f).
Proof. by intros t. Qed.

Lemma spares_bind {A B} (m : tx run_rows A) (k : A → tx run_rows B) :
  spares m → (∀ a, spares (k a)) → spares (bind m k).
Proof.
  intros Hm Hk t Ht. apply wp_bind. eapply wp_mono; [by apply Hm|]. intros a t' [Ht' Hr'].
  eapply wp_mono; [by apply Hk|]. intros b t'' [Ht'' Hr'']. by rewrite Hr''.
Qed.

Lemma spares_savepoint {A} (m : tx run_rows A) h :
  spares m → (∀ e k, h e = Some k → spares k) → spares (savepoint m h).
Proof.
  intros Hm Hh t Ht. apply wp_savepoint; [by apply Hm|]. intros e k _ Hk. by apply (Hh e k Hk).
Qed.

(** A statement that leaves the steps alone. *)
Lemma spares_same {A} (m : tx run_rows A) :
  (∀ t a t', m t = Ok (a, t') → t_steps t' = t_steps t ∧ t_run t' = t_run t) → spares m.
Proof.
  intros Hm t Ht. unfold wpe. destruct (m t) as [[a t']|e] eqn:Heq; [|done].
  destruct (Hm t a t' Heq) as [Hs Hr]. unfold attempts. by rewrite Hs, Hr.
Qed.

Lemma spares_prep (w : prep_row → bool) set : spares (sql_update w set).
Proof.
  apply spares_same. intros t a t'. unfold sql_update.
  by repeat case_match; intros; simplify_eq/=.
Qed.
Lemma spares_exec (w : exec_row → bool) set : spares (sql_update w set).
Proof.
  apply spares_same. intros t a t'. unfold sql_update.
  by repeat case_match; intros; simplify_eq/=.
Qed.
Lemma spares_pub (w : pub_row → bool) set : spares (sql_update w set).
Proof.
  apply spares_same. intros t a t'. unfold sql_update.
  by repeat case_match; intros; simplify_eq/=.
Qed.
Lemma spares_candidates w set : spares (update_candidates w set).
Proof. apply spares_same. intros t a t'. unfold update_candidates. by case_match; intros; simplify_eq/=. Qed.
Lemma spares_notice i w set : spares (update_notice i w set).
Proof.
  apply spares_same. intros t a t'. unfold update_notice. by repeat case_match; intros; simplify_eq/=.
Qed.
Lemma spares_event now a from to reason : spares (appendEvent now a from to reason).
Proof.
  apply spares_same. intros t x t'. unfold appendEvent. by case_match; intros; simplify_eq/=.
Qed.
Lemma spares_queue now i kind a reason : spares (queueRunNotice now i kind a reason).
Proof.
  apply spares_same. intros t x t'. unfold queueRunNotice. by repeat case_match; intros; simplify_eq/=.
Qed.
Lemma spares_supersede now a : spares (supersedeRunAttentionNotices now a).
Proof. apply spares_same. by intros t x t' [= <- <-]. Qed.
Lemma spares_storage storage : spares (storage_column storage).
Proof.
  apply spares_same. intros t x t'. unfold storage_column, ret, throw.
  by repeat case_match; intros; simplify_eq/=.
Qed.
Lemma spares_find runId : spares (findRunRecord runId).
Proof.
  apply spares_same. intros t x t'. unfold findRunRecord. by repeat case_match; intros; simplify_eq/=.
Qed.

(** A statement on one step may count an attempt, never take one back. *)
Lemma spares_step k w set :
  (∀ s, s_attempt_count s <= s_attempt_count (set s)) → spares (update_step k w set).
Proof.
  intros Hs t Ht. unfold wpe, update_step. destruct (t_steps t !! k) as [s|] eqn:Hk; [|done].
  destruct (w s); [|done]. destruct (step_check _); [|done]. split; [|done]. unfold attempts in *. simpl.
  destruct (decide (k = key)) as [->|Hne].
  - rewrite lookup_insert_eq. rewrite Hk in Ht. specialize (Hs s). lia.
  - by rewrite lookup_insert_ne.
Qed.

Lemma spares_release now : spares (releaseStepClaims now).
Proof.
  intros [r p e u steps cs evs ns ne nn] Ht. unfold wpe, releaseStepClaims, update_steps, attempts in *.
  simpl in *. rewrite lookup_fmap. split; [|done]. destruct (steps !! key) as [s|]; simpl; [|exact Ht].
  destruct (not_null _); exact Ht.
Qed.

(** New steps are only written where there were none. *)
Lemma spares_insert keys :
  ∀ now t, t_steps t = ∅ → n <= attempts key t →
  wpe (λ _, true) (insert_steps now keys) (λ _ t', n <= attempts key t' ∧ t_run t' = t_run t) t.
Proof.
  intros now t He Ht. unfold wpe, insert_steps, attempts in *. rewrite He in *.
  rewrite lookup_empty in Ht. simpl. split; [|done].
  assert (Hz : ∀ s, foldr (λ k m, <[k := fresh_step now]> m) (∅ : gmap string step_row) keys !! key = Some s →
    s_attempt_count s = 0).
  { induction keys as [|k keys IH]; simpl; [by rewrite lookup_empty|]. intros s.
    destruct (decide (k = key)) as [->|]; [rewrite lookup_insert_eq; by intros [= <-]|].
    rewrite lookup_insert_ne by done. apply IH. }
  destruct (_ !! key) as [s|] eqn:Hs; [|done]. by rewrite (Hz s eq_refl).
Qed.
End Spares.

Create HintDb spares.
#[export] Hint Resolve spares_ret spares_throw spares_read spares_prep spares_exec spares_pub
  spares_candidates spares_notice spares_event spares_queue spares_supersede spares_storage
  spares_find spares_release : spares.

Ltac spare_step :=
  match goal with
  | |- spares _ _ (bind _ _) => apply spares_bind; [|intros ?]
  | |- spares _ _ (savepoint _ _) => apply spares_savepoint; [|intros ?? ?]
  | |- spares _ _ (update_step _ _ _) => apply spares_step; let s := fresh in intros s; destruct s; simpl; repeat case_match; simpl; lia
  | |- spares _ _ (if ?b then _ else _) => destruct b eqn:?
  | |- spares _ _ (match ?x with _ => _ end) => destruct x eqn:?
  | |- spares _ _ ((match ?x with _ => _ end) _) => destruct x eqn:?
  | |- spares _ _ (λ _, _) => apply spares_same; intros ???; by repeat case_match; intros; simplify_eq/=
  | |- spares _ _ _ => solve [eauto with spares]
  end.
Ltac spare_all := repeat spare_step.

Section Operations.
Context (cfg : store_config) (now : Z) (key : string) (n : Z).
Abbreviation spares := (spares key n).

Lemma spares_skip : spares (skipPendingExecutions now).
Proof. unfold skipPendingExecutions. spare_all. Qed.
Lemma spares_abandon_candidates : spares (abandonOpenCandidates now).
Proof. unfold abandonOpenCandidates. spare_all. Qed.
Lemma spares_abandon : spares (abandonInFlightPublication now).
Proof. unfold abandonInFlightPublication, abandonOpenCandidates, skipPublication. spare_all. Qed.
Lemma spares_abandon_batch runId : spares (abandonInFlightPublications now runId).
Proof. unfold abandonInFlightPublications, abandonOpenCandidates, skipPublication. spare_all. Qed.
Lemma spares_abandoned from : spares (appendPublicationAbandoned now from).
Proof. unfold appendPublicationAbandoned. spare_all. Qed.
Lemma spares_lock token : spares (lockPublicationOwnership token).
Proof. unfold lockPublicationOwnership. spare_all. Qed.
Lemma spares_require_record runId : spares (requireRecord runId).
Proof. unfold requireRecord. spare_all. Qed.
Lemma spares_derive : spares (derivePublicationStatus now).
Proof. unfold derivePublicationStatus. spare_all. Qed.
End Operations.

#[export] Hint Resolve spares_skip spares_abandon_candidates spares_abandon spares_abandon_batch
  spares_abandoned spares_lock spares_require_record spares_derive : spares.

Section Stores.
Context (cfg : store_config) (now : Z) (key : string) (n : Z).
Abbreviation spares := (spares key n).

Lemma spares_required_claim token : spares (requirePreparationClaim cfg now token).
Proof. unfold requirePreparationClaim. spare_all. Qed.
#[local] Hint Resolve spares_required_claim : spares.

Lemma spares_renew token : spares (renewClaim cfg now token).
Proof. unfold renewClaim. spare_all. Qed.
Lemma spares_checkpoint token input : spares (checkpointInput now token input).
Proof. unfold checkpointInput. spare_all. Qed.
Lemma spares_fail token error retry after : spares (fail now token error retry after).
Proof.
  unfold fail, scheduleRetry, closePreparation, concludeFailure, markExecutionUncertain. spare_all.
Qed.
Lemma spares_expire runId count : spares (expireOne now runId count).
Proof.
  unfold expireOne. apply spares_savepoint; [unfold concludeExpiry; spare_all|].
  intros [] k Hk; simplify_eq. unfold disconnectExpired. spare_all.
Qed.
Lemma spares_touch : spares (touchObservation now).
Proof. unfold touchObservation. spare_all. Qed.
Lemma spares_running : spares (markRunning now).
Proof. unfold markRunning. spare_all. Qed.
Lemma spares_artifact storage : spares (recordArtifactStorage now storage).
Proof. unfold recordArtifactStorage. spare_all. Qed.
Lemma spares_success result storage : spares (recordExecutionSuccess now result storage).
Proof. unfold recordExecutionSuccess. spare_all. Qed.
Lemma spares_upsert token i : spares (upsert_candidate now token i).
Proof.
  apply spares_same. intros t c t'. unfold upsert_candidate.
  by repeat case_match; intros; simplify_eq/=.
Qed.
#[local] Hint Resolve spares_upsert : spares.
Lemma spares_reserve parse_url runId token i : spares (reserve cfg now parse_url runId token i).
Proof. unfold reserve. spare_all. Qed.
Lemma spares_list token : spares (list_candidates cfg now token).
Proof. unfold list_candidates. spare_all. Qed.
Lemma spares_settle token digest st : spares (settle cfg now token digest st).
Proof. unfold settle. spare_all. Qed.
Lemma spares_save token context input : spares (savePreparedSubmission cfg now token context input).
Proof. unfold savePreparedSubmission. spare_all. Qed.
Lemma spares_queued token context : spares (markQueued now token context).
Proof. unfold markQueued. spare_all. Qed.
Lemma spares_fail_execution error storage : spares (failExecution now error storage).
Proof. unfold failExecution. spare_all. Qed.
Lemma spares_claim_recovery token : spares (claimSubmissionRecovery cfg now token).
Proof. unfold claimSubmissionRecovery. spare_all. Qed.
Lemma spares_disconnect m : spares (disconnectExhaustedSubmissionRecovery cfg now m).
Proof. unfold disconnectExhaustedSubmissionRecovery. spare_all. Qed.
Lemma spares_unknown token : spares (recordUnknownRecoveryOutcome now token).
Proof. unfold recordUnknownRecoveryOutcome. spare_all. Qed.
Lemma spares_complete_recovery token : spares (completeSubmissionRecovery now token).
Proof. unfold completeSubmissionRecovery. spare_all. Qed.
Lemma spares_fail_recovery token error : spares (failSubmissionRecovery now token error).
Proof. unfold failSubmissionRecovery. spare_all. Qed.
Lemma spares_claim token : spares (claim cfg now token).
Proof. unfold claim, appendClaimEvent. spare_all. Qed.
Lemma spares_claim_selected runId st token : spares (claimSelected cfg now runId st token).
Proof. unfold claimSelected, appendClaimEvent. spare_all. Qed.
Lemma spares_renew_publication token : spares (renewPublicationClaim now token).
Proof. unfold renewPublicationClaim. spare_all. Qed.
Lemma spares_claim_step token k : spares (claimPublicationStep now token k).
Proof. unfold claimPublicationStep. spare_all. Qed.
Lemma spares_classify token k : spares (classifyRefusedClaim now token k).
Proof. unfold classifyRefusedClaim, listPublicationSteps. spare_all. Qed.
Lemma spares_settle_step token k found :
  spares (settleExhaustedPublicationStep now token k found).
Proof. unfold settleExhaustedPublicationStep. spare_all. Qed.
Lemma spares_complete_step token k remote : spares (completePublicationStep now token k remote).
Proof. unfold completePublicationStep. spare_all. Qed.
Lemma spares_fail_step token k error retry : spares (failPublicationStep now token k error retry).
Proof. unfold failPublicationStep. spare_all. Qed.
Lemma spares_complete token : spares (complete now token).
Proof. unfold complete. spare_all. Qed.
Lemma spares_fail_publication token error retry : spares (failPublication now token error retry).
Proof. unfold failPublication. spare_all. Qed.
Lemma spares_complete_notice i token delivered url : spares (completeNotice now i token delivered url).
Proof. unfold completeNotice. spare_all. Qed.
Lemma spares_renew_notice i token : spares (renewNoticeClaim now i token).
Proof. unfold renewNoticeClaim. spare_all. Qed.
Lemma spares_claim_notice runId i seen token : spares (claimNotice cfg now runId i seen token).
Proof. unfold claimNotice. spare_all. Qed.
Lemma spares_initialize token keys : spares (initializePublicationSteps now token keys).
Proof.
  unfold initializePublicationSteps. destruct (negb _); [apply spares_throw|].
  apply spares_bind; [apply spares_lock|]. intros [] t Ht; [|done]. simpl.
  apply wp_bind, wp_read. case_bool_decide.
  - by apply spares_insert.
  - by case_bool_decide.
Qed.
Lemma spares_abandon_preparation runId reason : spares (abandonBlockedPreparation now runId reason).
Proof. unfold abandonBlockedPreparation. spare_all. Qed.
Lemma spares_give_up runId reason seen : spares (giveUpDisconnectedRun now runId reason seen).
Proof.
  unfold giveUpDisconnectedRun, decide_run, give_up_choice, giveUpDisconnectedPreparation,
    giveUpDisconnectedExecution, giveUpDisconnectedPublication.
  destruct (blank reason); [apply spares_throw|].
  destruct (rowToRecord runId seen) as [[run|e]|]; [|apply spares_throw..].
  repeat (destruct (bool_decide _)); try apply spares_throw; spare_all.
Qed.
End Stores.

#[export] Hint Resolve spares_renew spares_checkpoint spares_fail spares_expire spares_touch
  spares_running spares_artifact spares_success spares_reserve spares_list spares_settle spares_save
  spares_queued spares_fail_execution spares_claim_recovery spares_disconnect spares_unknown
  spares_complete_recovery spares_fail_recovery spares_claim spares_claim_selected
  spares_renew_publication spares_claim_step spares_classify spares_settle_step spares_complete_step
  spares_fail_step spares_complete spares_fail_publication spares_complete_notice
  spares_renew_notice spares_initialize spares_abandon_preparation
  spares_claim_notice spares_give_up : spares.

(** * The whole database *)

Section Database.
Context (parse_url : string → option url) (cfg : store_config) (now : Z).
Context (k key : string) (n : Z).

(** Run [k] exists, and [n] attempts of its step are counted. *)
Definition counted (d : db) : Prop := ∃ t, d_runs d !! k = Some t ∧ n <= attempts key t.

Lemma in_run_counted {A} r (m : tx run_rows A) d a d' :
  (∀ n, spares key n m) → counted d → in_run cfg r m d = Ok (a, d') → counted d'.
Proof.
  intros Hm (t & Ht & Hn) Heq. destruct (decide (r = k)) as [->|Hne].
  2:{ exists t. by rewrite (in_run_frame _ _ _ _ _ _ Heq). }
  unfold in_run, scope in Heq. rewrite Ht in Heq. destruct (visible _ t); cbv iota in Heq.
  - match type of Heq with context [m ?rows] => specialize (Hm n rows Hn) end.
    unfold wpe in Hm. destruct (m _) as [[x t']|]; [|done]. destruct Hm as [Hn' _].
    injection Heq as <- <-. unfold commit_run. destruct (t_run t'); [|by exists t].
    exists t'. simpl. by rewrite lookup_insert_eq.
  - specialize (Hm 0 (no_rows (d_next_event d) (d_next_notice d))). unfold wpe in Hm.
    destruct (m _) as [[x t']|]; [|done]. destruct Hm as [_ Hr]; [by unfold attempts; simpl; rewrite lookup_empty|].
    injection Heq as <- <-. unfold commit_run. rewrite Hr. by exists t.
Qed.

Lemma commit_counted {A} (m : tx db A) d :
  counted d → (∀ a d', m d = Ok (a, d') → counted d') → counted (outcome (transaction m d)).2.
Proof. intros Hd Hm. unfold transaction. destruct (m d) as [[a d']|]; [by eapply Hm|done]. Qed.

Lemma on_run_counted {A} r (m : tx run_rows A) d :
  (∀ n, spares key n m) → counted d → counted (outcome (transaction (in_run cfg r m) d)).2.
Proof. intros Hm Hd. apply commit_counted; [done|]. intros a d'. by apply in_run_counted. Qed.

Lemma expire_each_counted candidates acc d a d' :
  counted d → expireEach cfg now candidates acc d = Ok (a, d') → counted d'.
Proof.
  revert acc d. induction candidates as [|[r c] rest IH]; intros acc d Hd; simpl.
  { by intros [= _ <-]. }
  unfold bind. destruct (in_run _ _ _ d) as [[o d1]|] eqn:Heq; [|done].
  apply in_run_counted in Heq; [|auto with spares|done]. by destruct o; apply IH.
Qed.

Lemma insert_counted a token d x d' :
  counted d → insertWith cfg now a token d = Ok (x, d') → counted d'.
Proof.
  intros (t & Ht & Hn). unfold insertWith. case_bool_decide as Hid; [done|].
  destruct (ingress_taken cfg a d); [done|]. intros Heq. exists t.
  rewrite (in_run_frame _ _ _ _ _ _ Heq); [done|].
  intros Hk. apply Hid. rewrite <- Hk. by exists t.
Qed.

Lemma admit_counted kind ikey a token seen d :
  counted d → counted (outcome (admitIngress cfg now kind ikey a token seen d)).2.
Proof.
  intros Hd. unfold admitIngress. destruct (find_ingress _ _ _ seen) as [kt|].
  { by destruct (replay kt). }
  match goal with |- context [insertWith cfg now ?x token] => set (a' := x) end.
  pose proof (commit_counted (insertWith cfg now a' token) d Hd
    (λ x d', insert_counted a' token d x d' Hd)) as Hi.
  destruct (transaction _ d) as [r d1]. destruct r as [ad|e]; [done|]. simpl in Hi.
  destruct e; try exact Hi. destruct (String.eqb _ _); [|exact Hi].
  destruct (find_ingress _ _ _ d1) as [kt|]; [|exact Hi]. by destruct (replay kt).
Qed.

(** The one operation that gives attempts back to run [k]. *)
Definition resumes (o : op) : Prop := ∃ seen, o = OpResume k seen.

Lemma resumes_dec o : resumes o ∨ ¬ resumes o.
Proof.
  destruct o as [| | | | | | | | | | | | | | | | | | | | | | | | | | | | | | | | | |r seen| | | |];
    try (right; by intros [? [=]]).
  destruct (decide (r = k)) as [->|Hne]; [left; by exists seen|right; intros [? [=]]; by destruct Hne].
Qed.

Lemma run_op_counted o d : ¬ resumes o → counted d → counted (run_op parse_url cfg now o d).2.
Proof.
  intros Ho Hd. destruct o; cbn [run_op];
    try (by apply on_run_counted; [eauto with spares|]).
  - apply commit_counted; [done|]. intros x d'. by apply insert_counted.
  - by apply admit_counted.
  - apply commit_counted; [done|]. intros x d'. unfold claimNext, bind, read.
    destruct (first_by _ _) as [[j s]|]; [|by intros [= <- <-]]. apply in_run_counted; [|done].
    intros m. unfold claimCandidate. spare_all.
  - apply commit_counted; [done|]. intros x d'. unfold expireStale, bind, read.
    by apply expire_each_counted.
  - apply commit_counted; [done|]. intros x d'. unfold claimNextOnce, bind, read.
    destruct (first_by _ _) as [[j s]|]; [|by intros [= <- <-]].
    apply in_run_counted; auto with spares.
  - apply commit_counted; [done|]. intros x d'. destruct (decide (runId = k)) as [->|Hne].
    { destruct Ho. by eexists. }
    destruct Hd as (t & Ht & Hn). intros Heq. exists t.
    by rewrite (in_run_frame _ _ _ _ _ _ Heq).
  - apply commit_counted; [done|]. intros x d'. unfold claimNextNotice, bind, read.
    destruct (first_by _ _) as [[[j s] [i nt]]|]; [|by intros [= <- <-]].
    apply in_run_counted; auto with spares.
Qed.

(** No transaction removes a run. *)
Lemma resume_keeps_run seen d :
  is_Some (d_runs d !! k) →
  is_Some (d_runs (outcome (transaction (in_run cfg k (resumeDisconnectedRun now k seen)) d)).2 !! k).
Proof.
  intros Hd. unfold transaction, in_run, commit_run. destruct (resumeDisconnectedRun _ _ _ _) as [[x t]|]; [|done].
  simpl. destruct (t_run t); [|done]. simpl. by rewrite lookup_insert_eq.
Qed.
End Database.
