(* ===== verification/PublicationOutcomes.v ===== *)
(** The results of the publication operations, one lemma per operation: what each answers
    and the rows it leaves, for rows that satisfy the invariant. *)

From S2P Require Import Prelude Schema StateMachines Tables Database RunRecord.
From S2P Require Import PreparationStore ExecutionStore InputBundles SubmissionTransitions.
From S2P Require Import PublicationStore OperatorDecisions Notices Queries Invariant Preservation.
From S2P Require Import PublicationSpecs OperatorSpecs DatabaseSpecs System SystemSpecs Scenario Fencing.
From S2P Require Import PreparationProperties SubmissionProperties Stranded.

(** * Steps that all succeeded *)

(** Every step of the set succeeded. *)
Definition all_succeeded (steps : gmap string step_row) : Prop :=
  ∀ key s, steps !! key = Some s → s_status s = Step.succeeded.

Lemma all_succeeded_true steps :
  negb (any_step (λ s, negb (step_is Step.succeeded s)) steps) = true ↔ all_succeeded steps.
Proof.
  rewrite negb_true_iff, any_step_false. unfold all_succeeded, step_is.
  split; intros H key s Hs; specialize (H key s Hs).
  - by apply negb_false_iff, bool_decide_eq_true in H.
  - by apply negb_false_iff, bool_decide_eq_true.
Qed.

(** With no step left to reconcile or park, an owned publication is in flight. *)
Lemma succeeded_publishing e u steps :
  steps_inv e u steps → all_succeeded steps → Pub.owned u = true → u = Pub.publishing.
Proof.
  intros [_ _ Hax] Hall Ho.
  assert (Hno : ∀ st, st ≠ Step.succeeded → any_step (step_is st) steps = false).
  { intros st Hst. apply any_step_false. intros key s Hs. apply bool_decide_eq_false.
    rewrite (Hall key s Hs). by apply not_eq_sym. }
  destruct u; try done; simpl in Hax; rewrite !Hno in Hax by done; done.
Qed.

Lemma pub_oldest_total (x y : string * run_rows) :
  (pub_updated_at x.2 <=? pub_updated_at y.2) = true
  ∨ (pub_updated_at y.2 <=? pub_updated_at x.2) = true.
Proof. rewrite !Z.leb_le. lia. Qed.

Lemma pub_oldest_trans (x y z : string * run_rows) :
  (pub_updated_at x.2 <=? pub_updated_at y.2) = true →
  (pub_updated_at y.2 <=? pub_updated_at z.2) = true →
  (pub_updated_at x.2 <=? pub_updated_at z.2) = true.
Proof. rewrite !Z.leb_le. lia. Qed.

Section Publishing.
Context (now : Z).

Lemma complete_outcomes token t u :
  run_inv t → t_pub t = Some u →
  wpt (complete now token) (λ b t',
    (b = true ↔ owns_publication token u = true ∧ all_succeeded (t_steps t))
    ∧ if b then u_status u = Pub.publishing ∧ t_exec t' = t_exec t ∧ t_steps t' = t_steps t
                ∧ ∃ u' x, t_pub t' = Some u' ∧ u_status u' = Pub.published
                    ∧ u_claim_token u' = None ∧ u_finished_at u' = Some now
                    ∧ t_events t' = x :: t_events t ∧ ev_from x = Some "publishing"
                    ∧ ev_to x = "published"
      else t' = t) t.
Proof.
  intros H Hu. open_rows H; [done|]. simpl in Hu. injection Hu as ->.
  unfold complete. wp_step. wp_step. wp_step. wp_step.
  - intros ? [= <-] [Ho Hall%all_succeeded_true]%andb_true_iff.
    pose proof (owns_publication_true _ _ Ho) as [Hown _].
    pose proof (succeeded_publishing _ _ _ Hsteps Hall Hown) as Hst.
    split. { destruct u as [? []]; simpl in *; try discriminate. solve_check. }
    wp_step. wp_step. split; [done|]. split; [done|]. split; [done|]. split; [done|].
    by eexists _, _.
  - intros Hw. specialize (Hw u eq_refl). wp_step. split; [|done]. split; [done|].
    intros [Ho Hall]. rewrite Ho in Hw. simpl in Hw.
    by rewrite (proj2 (all_succeeded_true steps) Hall) in Hw.
Qed.
End Publishing.

(** The rows a claim leaves, and what the claimer is handed. *)
Lemma claimSelected_outcome cfg now runId token t u :
  run_inv t → t_pub t = Some u → pub_claimable cfg now t = true →
  wpt (claimSelected cfg now runId (u_status u) token) (λ work t', ∃ w,
      work = Some w ∧ rec_run_id (pw_record w) = runId ∧ pw_claim_token w = token
      ∧ (e ← t_exec t; e_workflow_result e) = Some (pw_workflow_result w)
      ∧ t_run t' = t_run t ∧ t_exec t' = t_exec t ∧ t_steps t' = t_steps t
      ∧ t_pub t' = Some (claim_publishing now token u)) t.
Proof.
  intros H Hu Hc. destruct H as [|r p e u' steps cs evs ns ne nn Hl]; [done|].
  injection Hu as ->. unfold pub_claimable in Hc. apply andb_true_iff in Hc as [Hready Hfree].
  pose proof (claim_good cfg now token r p e u steps cs evs ns ne nn Hl Hready Hfree) as Hg.
  unfold claimSelected. apply wp_bind, wp_read, wp_bind, wp_sql_update.
  2:{ intros Hw. specialize (Hw u eq_refl). rewrite Hready in Hw. simpl in Hfree.
      rewrite bool_decide_eq_true_2, Hfree in Hw by done. done. }
  intros ? [= <-] _. split; [apply (claim_free_check cfg); [apply Hl|done]|].
  apply wp_bind. unfold wpe at 1. unfold wpe at 1 in Hg. simpl put_row.
  destruct (appendClaimEvent now (u_status u) _) as [[[] t1]|f] eqn:Ha; [|done].
  assert (Hrows : ∃ evs' ne', t1 = mk_rows r p e (claim_publishing now token u) steps cs evs' ns ne' nn).
  { unfold appendClaimEvent, bind, appendEvent, ret in Ha. simpl in Ha. injection Ha as <-.
    by eexists _, _. }
  destruct Hrows as (evs' & ne' & ->).
  destruct (representable runId _ (proj1 Hg)) as (rec & _ & _ & _ & Hrec & Hid & _); [by eexists|].
  apply wp_bind. unfold findRunRecord, wpe at 1. rewrite Hrec.
  apply wp_bind, wp_read. simpl in Hready |- *. unfold publishable in Hready. simpl in Hready.
  apply andb_true_iff in Hready as [Hready _]. apply andb_true_iff in Hready as [_ Hres].
  destruct (e_workflow_result e) as [v|] eqn:Hv; [|done]. simpl. apply wp_ret.
  eexists. split; [reflexivity|]. done.
Qed.

(** ** The axis after its steps moved *)

Lemma derive_outcome now r p e u steps cs evs ns ne nn steps' :
  live p e u steps cs evs ns ne nn → Pub.owned (u_status u) = true →
  wpt (derivePublicationStatus now) (λ _ t', t_steps t' = steps' ∧ t_exec t' = Some e
      ∧ ∃ u', t_pub t' = Some u' ∧ u_status u' = derived_status steps' (u_status u)
          ∧ u_claim_token u' = u_claim_token u)
    (mk_rows r p e u steps' cs evs ns ne nn).
Proof.
  intros [Hprep Hexec Hpub Haxes Hatt Hclaim Hsteps Hcands Hlog Hnot Hsto] Ho.
  assert (Hdo : Pub.owned (derived_status steps' (u_status u)) = true).
  { unfold derived_status. repeat case_match; done. }
  unfold derivePublicationStatus. do 4 wp_step.
  - intros ? [= <-] _. destruct u as [? st ???????]; simpl in *.
    destruct st, (derived_status steps' _); try discriminate.
    all: split; [solve_check|repeat wp_step; split; [done|]; split; [done|]; by eexists].
  - intros Hw. specialize (Hw u eq_refl). rewrite Ho in Hw. simpl in Hw. destruct_guard.
    wp_step. split; [done|]. split; [done|]. by eexists.
Qed.

(** ** Claims on steps *)

(** Looking a step up in the listed steps is looking it up by its key. *)
Lemma listed_step le (steps : gmap string step_row) key :
  snd <$> List.find (λ ks, String.eqb ks.1 key) (sort_by le (map_to_list steps)) = steps !! key.
Proof.
  destruct (List.find _ _) as [[j s]|] eqn:Hf.
  - apply List.find_some in Hf as [Hin Hj%String.eqb_eq]. simpl in Hj. subst j.
    apply list_elem_of_In, elem_of_sort_by, elem_of_map_to_list in Hin. by rewrite Hin.
  - destruct (steps !! key) as [s|] eqn:Hs; [|done]. exfalso.
    assert (Hin : (key, s) ∈ sort_by le (map_to_list steps)).
    { by apply elem_of_sort_by, elem_of_map_to_list. }
    apply list_elem_of_In in Hin. pose proof (List.find_none _ _ Hf _ Hin) as Hn.
    simpl in Hn. by rewrite String.eqb_refl in Hn.
Qed.

(** A step without attempts left that no attempt concluded. *)
Definition needs_reconciliation (s : step_row) : bool :=
  isStepExhausted s && (step_is Step.failed s || step_is Step.running s || step_is Step.uncertain s).

Definition claimed_step (now : Z) (token : string) (s : step_row) : step_row :=
  s <| s_status := Step.running |> <| s_claimed_by := Some token |>
    <| s_attempt_count := s_attempt_count s + 1 |>
    <| s_last_attempt_at := Some now |> <| s_updated_at := now |>.

Lemma owner_locks token t u :
  t_pub t = Some u → owns_publication token u = true →
  lockPublicationOwnership token t = Ok (true, t).
Proof. unfold lockPublicationOwnership, read. by intros -> ->. Qed.

Lemma claim_step_outcome now token key t u :
  run_inv t → t_pub t = Some u → owns_publication token u = true →
  claimPublicationStep now token key t =
    match t_steps t !! key with
    | Some s => if step_claimable token s
                then Ok (true, t <| t_steps ::= <[key := claimed_step now token s]> |>)
                else Ok (false, t)
    | None => Ok (false, t)
    end.
Proof.
  intros H Hu Ho. unfold claimPublicationStep. rewrite (bind_ok _ _ _ _ _ (owner_locks _ _ _ Hu Ho)).
  simpl. unfold update_step. destruct (t_steps t !! key) as [s|] eqn:Hs; [|done].
  destruct (step_claimable token s) eqn:Hc; [|done].
  destruct H as [|r p e u' steps cs evs ns ne nn Hl]; [done|]. simpl in Hs.
  pose proof (live_step_ok _ _ _ _ _ _ _ _ _ _ _ Hl Hs) as Hok.
  assert (Hck : step_check (claimed_step now token s) = true).
  { unfold step_claimable in Hc. destruct s; simpl in *. destruct_guard. solve_step. }
  transitivity (if step_check (claimed_step now token s)
                then Ok (true, (mk_rows r p e u' steps cs evs ns ne nn)
                           <| t_steps ::= <[key := claimed_step now token s]> |>)
                else Err (CheckViolation "publication_steps")); [done|]. by rewrite Hck.
Qed.

(** The second transaction of a refused claim. *)
Lemma classify_outcome now token key t u :
  run_inv t → t_pub t = Some u → owns_publication token u = true →
  wpt (classifyRefusedClaim now token key) (λ b t',
    b = match t_steps t !! key with Some s => needs_reconciliation s | None => false end
    ∧ t_exec t' = t_exec t
    ∧ (if b then ∃ s s' u', t_steps t !! key = Some s ∧ t_steps t' = <[key := s']> (t_steps t)
                  ∧ s_status s' = Step.uncertain ∧ s_attempt_count s' = s_attempt_count s
                  ∧ s_recovery_attempt_count s' = s_recovery_attempt_count s
                  ∧ t_pub t' = Some u' ∧ u_claim_token u' = u_claim_token u
                  ∧ (u_status u' = Pub.uncertain ∨ u_status u' = Pub.disconnected)
       else t_steps t' = t_steps t)) t.
Proof.
  intros H Hu Ho. destruct H as [|r p e u' steps cs evs ns ne nn Hl]; [done|].
  injection Hu as ->. destruct (owns_publication_true _ _ Ho) as [Hown _].
  unfold classifyRefusedClaim. apply wp_bind. unfold wpe at 1.
  rewrite (owner_locks _ (mk_rows _ _ _ _ _ _ _ _ _ _) u eq_refl Ho).
  apply wp_bind, wp_read. simpl. rewrite listed_step.
  set (b := match steps !! key with Some s => needs_reconciliation s | None => false end).
  replace (match steps !! key with Some s => isStepExhausted s && _ | None => false end) with b
    by done.
  assert (Hd : ∀ steps', wpt (derivePublicationStatus now ;;; ret b) (λ b' t', b' = b
      ∧ t_steps t' = steps' ∧ t_exec t' = Some e
      ∧ ∃ u', t_pub t' = Some u' ∧ u_status u' = derived_status steps' (u_status u)
              ∧ u_claim_token u' = u_claim_token u)
      (mk_rows r p e u steps' cs evs ns ne nn)).
  { intros steps'. apply wp_bind. eapply wp_mono; [by apply (derive_outcome now r p e u steps)|].
    intros [] t' (Hs & He & v & Hv & Hst & Htk). apply wp_ret. eauto 10. }
  assert (Hder : ∀ steps' s', steps' !! key = Some s' → s_status s' = Step.uncertain →
    derived_status steps' (u_status u) = Pub.uncertain
    ∨ derived_status steps' (u_status u) = Pub.disconnected).
  { intros steps' s' Hk Hs. unfold derived_status.
    destruct (any_step (step_is Step.disconnected) steps'); [by right|].
    rewrite (proj2 (any_step_true _ _)); [by left|]. exists key, s'. split; [done|].
    by apply bool_decide_eq_true. }
  apply wp_bind. destruct (b && _) eqn:Hb.
  - apply andb_true_iff in Hb as [Hb Hset]. subst b. destruct (steps !! key) as [s|] eqn:Hk; [|done].
    pose proof (live_step_ok _ _ _ _ _ _ _ _ _ _ _ Hl Hk) as Hok.
    unfold needs_reconciliation in Hb. apply andb_true_iff in Hb as [Hex Hst].
    assert (Hfr : step_is Step.failed s || step_is Step.running s = true).
    { apply negb_true_iff in Hset. rewrite Hset, orb_false_r in Hst. exact Hst. }
    apply wp_update_step; simpl; [|intros Hw; specialize (Hw s Hk); unfold isStepExhausted in Hex;
                                        by rewrite Hfr, Hex in Hw].
    intros s0 Hk0 _. simplify_eq. split.
    { destruct s as [st]; simpl in *. solve_step. }
    eapply wp_mono; [apply Hd|]. intros b' t' (-> & Hs & He & v & Hv & Hvs & Hvt).
    split; [done|]. split; [done|]. unfold needs_reconciliation. rewrite Hex, Hst. simpl.
    eexists s, _, v. split; [done|]. split; [exact Hs|]. split; [done|]. split; [done|].
    do 3 (split; [done|]). rewrite Hvs. eapply Hder; [apply lookup_insert_eq|done].
  - apply wp_ret. eapply wp_mono; [apply Hd|]. intros b' t' (-> & Hs & He & v & Hv & Hvs & Hvt).
    split; [done|]. split; [done|]. destruct b eqn:Hbb; [|done]. subst b.
    destruct (steps !! key) as [s|] eqn:Hk; [|done]. simpl in Hb. apply negb_false_iff in Hb.
    pose proof Hb as Hunc. apply bool_decide_eq_true in Hunc.
    exists s, s, v. split; [done|]. split; [by rewrite Hs, insert_id|]. split; [done|]. split; [done|].
    do 3 (split; [done|]). rewrite Hvs. by eapply Hder.
Qed.

(** Both transactions of a claim on a step. *)
Definition refuses (now : Z) (token key : string) (t : run_rows) : Prop :=
  ∃ t', requirePublicationStepClaim now token key t = (Err (Deterministic not_claimable), t')
    ∧ t_exec t' = t_exec t ∧ t_steps t' = t_steps t.

Lemma require_outcome now token key t u :
  run_inv t → t_pub t = Some u → owns_publication token u = true →
  match t_steps t !! key with
  | Some s =>
      if step_claimable token s then
        requirePublicationStepClaim now token key t
          = (Ok tt, t <| t_steps ::= <[key := claimed_step now token s]> |>)
      else if needs_reconciliation s then
        ∃ t' s' u', requirePublicationStepClaim now token key t
            = (Err (Deterministic retry_exhausted), t')
          ∧ t_exec t' = t_exec t ∧ t_steps t' = <[key := s']> (t_steps t)
          ∧ s_status s' = Step.uncertain ∧ s_attempt_count s' = s_attempt_count s
          ∧ s_recovery_attempt_count s' = s_recovery_attempt_count s
          ∧ t_pub t' = Some u' ∧ owns_publication token u' = true
          ∧ (u_status u' = Pub.uncertain ∨ u_status u' = Pub.disconnected)
      else refuses now token key t
  | None => refuses now token key t
  end.
Proof.
  intros H Hu Ho. unfold refuses, requirePublicationStepClaim, transaction.
  rewrite (claim_step_outcome now token key t u H Hu Ho).
  destruct (wpt_ok _ _ _ (classify_outcome now token key t u H Hu Ho)) as (b & t1 & Heq & Hb & He & Hout).
  destruct (t_steps t !! key) as [s|] eqn:Hk.
  - destruct (step_claimable token s); [done|]. rewrite Heq. rewrite Hb in Hout |- *.
    destruct (needs_reconciliation s); [|by exists t1].
    destruct Hout as (s0 & s' & u' & [= <-] & ? & ? & ? & ? & ? & Htk & Hus).
    exists t1, s', u'. do 7 (split; [done|]). split; [|done].
    unfold owns_publication. rewrite Htk. destruct (owns_publication_true _ _ Ho) as [_ ->].
    unfold sql_eq. rewrite bool_decide_eq_true_2, andb_true_r by done. by destruct Hus as [-> | ->].
  - rewrite Heq, Hb. rewrite Hb in Hout. by exists t1.
Qed.

(** ** Failures of steps *)

(** The status a failed attempt leaves its step in. *)
Definition failed_status (s : step_row) (retry : option bool) : Step.status :=
  match retry, s_status s with
  | Some false, _ => Step.terminal_failed
  | Some true, Step.uncertain =>
      if s_recovery_attempt_count s + 1 <? MAX_PUBLICATION_STEP_RECOVERY_ATTEMPTS
      then Step.uncertain else Step.disconnected
  | _, _ => Step.failed
  end.

Lemma failed_step_status now error retry s :
  s_status (failed_step now error retry s) = failed_status s retry.
Proof.
  unfold failed_step, failed_status, step_is. destruct s as [st ? rc]; simpl.
  destruct st, retry as [[]|]; simpl; try done.
  rewrite Z.ltb_antisym. by destruct (_ <=? _).
Qed.

Definition step_open (s : step_row) : bool := step_is Step.running s || step_is Step.uncertain s.

(** The publication half: a terminal failure ends the publication of its owner. *)
Lemma step_failure_ends_publication now token error t u :
  run_inv t → t_pub t = Some u → owns_publication token u = true →
  wpt (let! publication' := sql_update (owns_publication token)
          (λ u, u <| u_status := Pub.failed |> <| u_claim_token := None |>
                  <| u_claimed_at := None |>
                  <| u_failure_code := err_code error |>
                  <| u_failure_message := Some (err_message error) |>
                  <| u_finished_at := Some now |> <| u_updated_at := now |>) in
        match publication' with
        | None => throw (Thrown "Publication changed while its terminal step failed.")
        | Some (previous, _) =>
            let! eventId := appendEvent now publication
              (Some (Pub.text (u_status previous))) "failed" (err_code error) in
            queueRunNotice now eventId Notice.failure publication (err_code error) ;;;
            ret true
        end)
    (λ b t', b = true ∧ t_steps t' = t_steps t
      ∧ ∃ u', t_pub t' = Some u' ∧ u_status u' = Pub.failed ∧ u_claim_token u' = None
              ∧ u_failure_code u' = err_code error) t.
Proof.
  intros H Hu Ho. open_rows H; [done|]. simpl in Hu. injection Hu as ->. wp_step. wp_step.
  - intros ? [= <-] _. destruct (owns_publication_true _ _ Ho) as [Hown _].
    destruct u as [? []]; simpl in *; try discriminate.
    all: split; [solve_check|]; repeat wp_step; split; [done|]; split; [done|]; by eexists.
  - intros Hw. by rewrite (Hw u eq_refl) in Ho.
Qed.

Lemma fail_step_outcome now token key error retry t u :
  run_inv t → t_pub t = Some u → owns_publication token u = true →
  wpt (failPublicationStep now token key error retry) (λ b t',
    match t_steps t !! key with
    | Some s =>
        b = step_open s
        ∧ if b then ∃ s' u', t_steps t' = <[key := s']> (t_steps t)
                ∧ s_status s' = failed_status s retry ∧ s_attempt_count s' = s_attempt_count s
                ∧ t_pub t' = Some u'
                ∧ (if bool_decide (retry = Some false)
                   then u_status u' = Pub.failed ∧ u_claim_token u' = None
                   else u_status u' = derived_status (t_steps t') (u_status u)
                        ∧ u_claim_token u' = Some token)
          else t' = t
    | None => b = false ∧ t' = t
    end) t.
Proof.
  intros H Hu Ho. destruct H as [|r p e u' steps cs evs ns ne nn Hl]; [done|].
  injection Hu as ->. destruct (owns_publication_true _ _ Ho) as [Hown Htok].
  unfold failPublicationStep. apply wp_bind. unfold wpe at 1.
  rewrite (owner_locks _ (mk_rows _ _ _ _ _ _ _ _ _ _) u eq_refl Ho). simpl negb. cbv iota.
  apply wp_bind, wp_update_step; simpl.
  2:{ intros Hw. apply wp_ret. destruct (steps !! key) as [s|] eqn:Hk; [|done].
      specialize (Hw s eq_refl). unfold step_open. by rewrite Hw. }
  intros s Hk Hopen. rewrite Hk.
  assert (Hs : s_status s = Step.running ∨ s_status s = Step.uncertain).
  { unfold step_is in Hopen. apply orb_true_iff in Hopen as [Hw|Hw]; destruct_guard; auto. }
  pose proof (live_step_ok _ _ _ _ _ _ _ _ _ _ _ Hl Hk) as Hok.
  destruct (failed_step_ok now error retry s Hok Hs) as [Hok' Hck]. split; [exact Hck|].
  set (s' := failed_step now error retry s) in *.
  assert (Hg : wpt (derivePublicationStatus now) (λ _ t1, run_inv t1 ∧ t_steps t1 = <[key := s']> steps
      ∧ ∃ v, t_pub t1 = Some v ∧ u_status v = derived_status (<[key := s']> steps) (u_status u)
          ∧ u_claim_token v = u_claim_token u)
      (mk_rows r p e u (<[key := s']> steps) cs evs ns ne nn)).
  { pose proof (step_derive_good now r p e u steps cs evs ns ne nn key s s' Hl Hown Hk
      ltac:(by destruct Hs as [->| ->]) Hok'
      ltac:(intros Hf; destruct s as [st]; simpl in *; by destruct Hs as [->| ->])) as Hgood.
    pose proof (derive_outcome now r p e u steps cs evs ns ne nn (<[key := s']> steps) Hl Hown) as Hout.
    unfold wpe in *. destruct (derivePublicationStatus now _) as [[[] t1]|f]; [|done].
    destruct Hout as (Hs1 & _ & Hv). split; [apply Hgood|]. by split. }
  apply wp_bind. eapply wp_mono; [exact Hg|].
  intros [] t1 (Hinv1 & Hsteps1 & v & Hv & Hvs & Hvt).
  destruct (bool_decide (retry = Some false)) eqn:Hterm; simpl.
  - assert (Ho1 : owns_publication token v = true).
    { unfold owns_publication. rewrite Hvt, Htok, Hvs. unfold sql_eq.
      rewrite bool_decide_eq_true_2, andb_true_r by done.
      unfold derived_status. repeat case_match; done. }
    eapply wp_mono; [by eapply step_failure_ends_publication|].
    intros b t2 (-> & Hs2 & v' & Hv' & Hst' & Htk' & _). unfold step_open. rewrite Hopen.
    split; [done|]. exists s', v'. rewrite Hs2, Hsteps1. split; [done|].
    split; [apply failed_step_status|]. by split.
  - apply wp_ret. unfold step_open. rewrite Hopen. split; [done|]. exists s', v.
    rewrite Hsteps1. split; [done|]. split; [apply failed_step_status|]. split; [done|].
    split; [done|]. rewrite Hvt, Htok. done.
Qed.

(** ** A retry of a parked publication *)

Lemma retry_strands now token error t u :
  run_inv t → t_pub t = Some u → u_status u = Pub.disconnected → owns_publication token u = true →
  wpt (failPublication now token error true) (λ b t', b = true ∧ stranded t') t.
Proof.
  intros H Hu Hst Ho. open_rows H; [done|]. simpl in Hu. injection Hu as ->.
  pose proof (si_axis _ _ _ Hsteps) as Hdis. rewrite Hst in Hdis. simpl in Hdis.
  unfold failPublication. wp_step. wp_step.
  - intros ? [= <-] _. destruct u as [? st ???????]; simpl in *; subst st.
    destruct e as [est]; simpl in *. destruct p as [?? pst]; simpl in *. axes_cases.
    all: split; [solve_check|]; repeat wp_step; split; [done|].
    all: split; simpl; [eexists; split; [done|simpl; auto]|by eexists|by eexists|done].
  - intros Hw. by rewrite (Hw u eq_refl) in Ho.
Qed.

(** What is left for stranded rows: nothing claims them, lists them or decides on them. *)
Lemma stranded_answers cfg n k t :
  run_inv t → is_Some (t_run t) → stranded t →
  pub_claimable cfg n t = false ∧ parked_of_run (k, t) = []
  ∧ resumeDisconnectedRun n k t t = Err (HttpStatus 409 "no resumable disconnected axis")
  ∧ (∀ reason, blank reason = false →
       giveUpDisconnectedRun n k reason t t = Err (HttpStatus 409 "no resumable disconnected axis")).
Proof.
  intros Hinv Hr Hst.
  destruct (representable k t Hinv Hr) as (run & p & e & u & Hrec & _ & Hp & He & Hu & Hps & Hes & Hus & _).
  pose proof Hst as [(p' & Hp' & Hpst) (e' & He' & Hest) (u' & Hu' & Hust) Hd]. simplify_eq.
  split; [|split; [|split]].
  - unfold pub_claimable, publishable. by rewrite Hd, andb_false_r.
  - unfold parked_of_run. rewrite Hp, He, Hu, Hest, Hust. by destruct Hpst as [-> | ->].
  - unfold resumeDisconnectedRun, decide_run, resume_choice.
    rewrite Hrec, Hps, Hes, Hus, Hest, Hust. by destruct Hpst as [-> | ->].
  - intros reason Hb. unfold giveUpDisconnectedRun, decide_run, give_up_choice.
    rewrite Hb, Hrec, Hps, Hes, Hus, Hest, Hust. by destruct Hpst as [-> | ->].
Qed.

(** ** Reconciliation *)

Lemma settle_step_outcome now token key found t u :
  run_inv t → t_pub t = Some u → owns_publication token u = true →
  wpt (settleExhaustedPublicationStep now token key found) (λ b t',
    match t_steps t !! key with
    | Some s =>
        b = step_is Step.uncertain s
        ∧ if b then ∃ s' u', t_steps t' = <[key := s']> (t_steps t)
                ∧ s_attempt_count s' = s_attempt_count s
                ∧ match found with
                  | Some remote => s_status s' = Step.succeeded
                      ∧ s_remote_object_id s' = remote_id remote
                      ∧ s_remote_object_url s' = remote_url remote
                  | None => s_status s' = Step.terminal_failed
                  end
                ∧ t_pub t' = Some u' ∧ u_claim_token u' = Some token
                ∧ u_status u' = derived_status (t_steps t') (u_status u)
          else t' = t
    | None => b = false ∧ t' = t
    end) t.
Proof.
  intros H Hu Ho. destruct H as [|r p e u' steps cs evs ns ne nn Hl]; [done|].
  injection Hu as ->. destruct (owns_publication_true _ _ Ho) as [Hown Htok].
  unfold settleExhaustedPublicationStep. apply wp_bind. unfold wpe at 1.
  rewrite (owner_locks _ (mk_rows _ _ _ _ _ _ _ _ _ _) u eq_refl Ho). simpl negb. cbv iota.
  apply wp_bind, wp_update_step; simpl.
  - intros s Hk Hw. rewrite Hk. apply andb_true_iff in Hw as [Hunc _]. rewrite Hunc.
    pose proof (live_step_ok _ _ _ _ _ _ _ _ _ _ _ Hl Hk) as Hok.
    split. { unfold step_is in Hunc. destruct s as [st]; destruct found; simpl in *; solve_step. }
    apply wp_bind. eapply wp_mono; [by apply (derive_outcome now r p e u steps)|].
    intros [] t' (Hs & _ & v & Hv & Hvs & Hvt). apply wp_ret. split; [done|].
    eexists _, v. rewrite Hs. split; [done|]. rewrite Hvt, Htok. by destruct found.
  - intros Hw. apply wp_ret. destruct (steps !! key) as [s|] eqn:Hk; [|done].
    specialize (Hw s eq_refl). destruct (step_is Step.uncertain s) eqn:Hunc; [|done].
    pose proof (live_step_ok _ _ _ _ _ _ _ _ _ _ _ Hl Hk) as Hok.
    exfalso. unfold step_is in Hunc. apply bool_decide_eq_true in Hunc.
    unfold step_ok in Hok. rewrite Hunc in Hok. simpl in Hw. destruct_guard. lia.
Qed.

(** ** Resuming *)

Lemma reset_clears now (steps : gmap string step_row) key s :
  ((λ s, if step_is Step.disconnected s then reset_step now s else s) <$> steps) !! key = Some s →
  step_is Step.disconnected s = false.
Proof.
  rewrite lookup_fmap. destruct (steps !! key) as [x|]; [|done]. intros [= <-].
  by destruct (step_is Step.disconnected x) eqn:Hx.
Qed.

(** The statuses of a run with a parked publication. *)
Lemma parked_axes t p e u :
  run_inv t → t_prep t = Some p → t_exec t = Some e → t_pub t = Some u →
  u_status u = Pub.disconnected →
  p_status p ≠ Prep.disconnected ∧ e_status e = Exec.succeeded.
Proof.
  intros H Hp He Hu Hst. open_rows H; [done|]. simpl in *. simplify_eq. rewrite Hst in Haxes.
  by destruct (p_status p), (e_status e).
Qed.

Lemma resume_rows now t u :
  run_inv t → t_pub t = Some u → u_status u = Pub.disconnected →
  wpt (resumeDisconnectedOn now) (λ b t', b = true ∧ t_run t' = t_run t ∧ t_exec t' = t_exec t
    ∧ t_steps t' = (λ s, if step_is Step.disconnected s then reset_step now s else s) <$> t_steps t
    ∧ (∃ u', t_pub t' = Some u' ∧ u_status u' = Pub.pending)
    ∧ t_notices t' = supersede_notice now publication <$> t_notices t) t.
Proof.
  intros H Hu Hst. open_rows H; [done|]. simpl in Hu. injection Hu as ->.
  unfold resumeDisconnectedOn. wp_step. wp_step.
  - on_row. destruct u as [? st ???????]; simpl in *; subst.
    split; [solve_check|]. wp_step. unfold wpe at 1. simpl. repeat wp_step.
    repeat (split; [done|]). split; [by eexists|done].
  - intros Hw. specialize (Hw u eq_refl). by rewrite Hst in Hw.
Qed.

Lemma resume_outcome cfg now k t u :
  run_inv t → is_Some (t_run t) → t_pub t = Some u → u_status u = Pub.disconnected →
  wpt (resumeDisconnectedRun now k t) (λ run t', sum_status (rec_publication run) = Pub.pending
    ∧ t_steps t' = (λ s, if step_is Step.disconnected s then reset_step now s else s) <$> t_steps t
    ∧ (∀ n, pub_claimable cfg n t'
         = match t_exec t with Some e => json_not_null (e_workflow_result e) | None => false end)
    ∧ t_notices t' = supersede_notice now publication <$> t_notices t) t.
Proof.
  intros Hinv Hr Hu Hst.
  destruct (representable k t Hinv Hr) as (run & p & e & u0 & Hrec & _ & Hp & He & Hu0 & Hps & Hes & Hus & _).
  simplify_eq. destruct (parked_axes t p e u Hinv Hp He Hu Hst) as [Hpst Hest].
  unfold resumeDisconnectedRun, decide_run, resume_choice.
  rewrite Hrec, Hps, Hes, Hus, Hst, Hest, bool_decide_eq_false_2 by done. simpl.
  pose proof (resumeDisconnectedOn_good now t Hinv) as Hg.
  destruct (wpt_ok _ _ _ (resume_rows now t u Hinv Hu Hst))
    as (b & t' & Heq & -> & Hr' & He' & Hs' & (u' & Hu' & Hust') & Hn').
  unfold resumeDisconnectedPublication. apply wp_bind. unfold wpe in Hg |- *. rewrite Heq in Hg |- *.
  assert (Hrun' : is_Some (t_run t')) by (by rewrite Hr').
  destruct (representable k t' (proj1 Hg) Hrun')
    as (run' & p' & e' & u2 & Hrec' & _ & _ & _ & Hu2 & _ & _ & Hus' & _).
  unfold requireRecord, bind, findRunRecord. rewrite Hrec'. simpl. simplify_eq.
  split; [by rewrite Hus'|]. split; [done|]. split; [|done]. intros n.
  unfold pub_claimable, publishable. rewrite Hu', He', He, Hs', Hest. unfold lease_available.
  rewrite Hust', andb_true_r. rewrite (proj2 (any_step_false _ _)); [by rewrite andb_true_r|].
  intros key s. apply reset_clears.
Qed.
