(* ===== verification/PublicationProperties.v ===== *)
(** What the publication operations come to: the claim on a finished run, the budget of
    its steps, reconciliation, completion, and what a parked publication becomes. *)

From S2P Require Import Prelude Schema StateMachines Tables Database RunRecord.
From S2P Require Import PreparationStore ExecutionStore InputBundles SubmissionTransitions.
From S2P Require Import PublicationStore OperatorDecisions Notices Queries Invariant Preservation.
From S2P Require Import PublicationSpecs OperatorSpecs DatabaseSpecs System SystemSpecs Scenario Fencing.
From S2P Require Import PreparationProperties SubmissionProperties Stranded PublicationOutcomes.

(** * The properties *)

(** C7: a publication is concluded as published exactly by its owner and exactly when every
    step of its set succeeded; it was in flight then, the log records that edge, and
    any other call changes nothing. *)
Theorem publication_completes_iff parse_url now d k t u token :
  reachable parse_url d → d_runs d !! k = Some t → t_pub t = Some u →
  ∃ b t', complete now token t = Ok (b, t')
    ∧ (b = true ↔ owns_publication token u = true ∧ all_succeeded (t_steps t))
    ∧ if b then u_status u = Pub.publishing ∧ t_exec t' = t_exec t ∧ t_steps t' = t_steps t
                ∧ ∃ u' x, t_pub t' = Some u' ∧ u_status u' = Pub.published
                    ∧ u_claim_token u' = None ∧ u_finished_at u' = Some now
                    ∧ t_events t' = x :: t_events t ∧ ev_from x = Some "publishing"
                    ∧ ev_to x = "published"
      else t' = t.
Proof.
  intros Hd Ht Hu. apply wpt_ok. apply complete_outcomes; [|done].
  by eapply reachable_run_inv.
Qed.

(** The publication queue is served in order and never fails: on every reachable database
    the claim of the next publication takes a run that waits longest among those that
    are publishable (succeeded with a result, nothing parked) and free (pending, or
    abandoned by an owner whose lease ran out) and not locked, makes the fresh token its
    owner, hands out its record and its workflow result, and leaves every other run
    alone; it answers nothing, and changes nothing, exactly when no run qualifies. *)
Theorem next_publication_is_oldest parse_url cfg now locked token d :
  reachable parse_url d →
  let queue k t := d_runs d !! k = Some t ∧ visible (connector_id cfg) t = true
                   ∧ locked k = false ∧ pub_claimable cfg now t = true in
  ∃ work d', claimNextOnce cfg now locked token d = Ok (work, d') ∧
    match work with
    | None => d' = d ∧ ∀ k t, ¬ queue k t
    | Some w => ∃ k t t' u, queue k t ∧ rec_run_id (pw_record w) = k ∧ pw_claim_token w = token
        ∧ (∀ j s, queue j s → pub_updated_at t <= pub_updated_at s)
        ∧ (e ← t_exec t; e_workflow_result e) = Some (pw_workflow_result w)
        ∧ t_pub t = Some u ∧ d_runs d' !! k = Some t'
        ∧ t_pub t' = Some (claim_publishing now token u) ∧ t_exec t' = t_exec t
        ∧ ∀ j, j ≠ k → d_runs d' !! j = d_runs d !! j
    end.
Proof.
  intros Hd queue.
  assert (Hq : ∀ k t, queue k t ↔ (k, t) ∈ select_runs cfg locked (pub_claimable cfg now) d).
  { intros k t. by rewrite elem_of_select_runs. }
  unfold claimNextOnce, bind, read. destruct (first_by _ _) as [[k t]|] eqn:Hf.
  - pose proof (first_by_elem _ _ _ Hf) as Hin.
    assert (Hleast := first_by_least _ _ _ pub_oldest_total pub_oldest_trans Hf).
    destruct (proj2 (Hq k t) Hin) as (Ht & Hv & Hlk & Hc).
    pose proof (scope_visible _ _ _ _ Ht Hv) as Hscope.
    pose proof (scope_inv (connector_id cfg) k d (reachable_inv _ d Hd)) as Hinv.
    rewrite Hscope in Hinv.
    destruct (t_pub t) as [u|] eqn:Hu.
    2:{ unfold pub_claimable in Hc. by rewrite Hu, andb_false_r in Hc. }
    destruct (wpt_ok _ _ _ (claimSelected_outcome cfg now k token _ u Hinv Hu Hc))
      as (work & t' & Heq & w & -> & Hid & Htok & Hres & Hr' & He' & _ & Hu').
    assert (Hrun : in_run cfg k (claimSelected cfg now k (u_status u) token) d
                   = Ok (Some w, commit_run k t' d)).
    { unfold in_run. by rewrite Hscope, Heq. }
    eexists (Some w), _. split; [exact Hrun|]. exists k, t, t', u.
    split; [by apply Hq|]. split; [done|]. split; [done|].
    split; [intros j s Hj; apply Hq in Hj; by apply Z.leb_le, (Hleast (j, s))|].
    split; [done|]. split; [done|]. split.
    { destruct (visible_run _ _ Hv) as [r Hr]. pose proof (eq_trans Hr' Hr) as Hrun'.
      unfold commit_run. rewrite Hrun'. simpl. by rewrite lookup_insert_eq. }
    split; [done|]. split; [done|]. by apply (in_run_frame _ _ _ _ _ _ Hrun).
  - apply first_by_None in Hf. eexists None, d. split; [done|]. split; [done|].
    intros k t Hk. apply Hq in Hk. rewrite Hf in Hk. by apply elem_of_nil in Hk.
Qed.

(** What the owner of a publication may do with a step is decided by the step alone: it is
    claimed, with one more of its three attempts counted, while attempts are left and no
    live claim of the same owner is on it; a step whose attempts are spent is never
    attempted again but parked as uncertain, its attempts kept, and the axis says so; any
    other claim is refused and changes no step. *)
Theorem step_claim_outcomes parse_url now d k t u token key :
  reachable parse_url d → d_runs d !! k = Some t → t_pub t = Some u →
  owns_publication token u = true →
  ∃ r t', requirePublicationStepClaim now token key t = (r, t') ∧ t_exec t' = t_exec t ∧
    match t_steps t !! key with
    | Some s =>
        if step_claimable token s then
          r = Ok tt ∧ t' = t <| t_steps ::= <[key := claimed_step now token s]> |>
          ∧ s_attempt_count s < MAX_PUBLICATION_STEP_ATTEMPTS
        else if needs_reconciliation s then
          r = Err (Deterministic retry_exhausted)
          ∧ ∃ s' u', t_steps t' = <[key := s']> (t_steps t) ∧ s_status s' = Step.uncertain
              ∧ s_attempt_count s' = s_attempt_count s ∧ t_pub t' = Some u'
              ∧ (u_status u' = Pub.uncertain ∨ u_status u' = Pub.disconnected)
        else r = Err (Deterministic not_claimable) ∧ t_steps t' = t_steps t
    | None => r = Err (Deterministic not_claimable) ∧ t_steps t' = t_steps t
    end.
Proof.
  intros Hd Ht Hu Ho. pose proof (reachable_run_inv _ _ _ _ Hd Ht) as Hinv.
  pose proof (require_outcome now token key t u Hinv Hu Ho) as Hout.
  destruct (t_steps t !! key) as [s|]; [destruct (step_claimable token s) eqn:Hc|].
  - eexists _, _. split; [exact Hout|]. split; [by destruct t|]. split; [done|]. split; [done|].
    unfold step_claimable in Hc. destruct_guard. lia.
  - destruct (needs_reconciliation s).
    + destruct Hout as (t' & s' & u' & Heq & He & Hs' & ? & ? & _ & ? & _ & ?).
      eexists _, t'. split; [exact Heq|]. split; [done|]. split; [done|]. by exists s', u'.
    + destruct Hout as (t' & Heq & He & Hs'). by eexists _, t'.
  - destruct Hout as (t' & Heq & He & Hs'). by eexists _, t'.
Qed.

(** How a step attempt fails: the owner's failure of a running or uncertain step is final
    only when it says so, and then ends the publication as failed and gives up its claim;
    a failed reconciliation keeps the step uncertain until the third one parks it; every
    other failure leaves the step failed.  The attempts stay counted and the axis is the
    summary of its steps; any other step is left alone and nothing is recorded. *)
Theorem step_failure_outcomes parse_url now d k t u token key error retry :
  reachable parse_url d → d_runs d !! k = Some t → t_pub t = Some u →
  owns_publication token u = true →
  ∃ b t', failPublicationStep now token key error retry t = Ok (b, t') ∧
    match t_steps t !! key with
    | Some s =>
        b = step_open s
        ∧ if b then ∃ s' u', t_steps t' = <[key := s']> (t_steps t)
                ∧ s_status s' = failed_status s retry ∧ s_attempt_count s' = s_attempt_count s
                ∧ t_pub t' = Some u'
                ∧ (if bool_decide (retry = Some false)
                   then u_status u' = Pub.failed ∧ u_claim_token u' = None
                   else u_status u' = derived_status (t_steps t') (u_status u)
                        ∧ u_claim_token u' = Some token)
          else t' = t
    | None => b = false ∧ t' = t
    end.
Proof.
  intros Hd Ht Hu Ho. apply wpt_ok, (fail_step_outcome now token key error retry t u); [|done..].
  by eapply reachable_run_inv.
Qed.

(** An owner that gives a parked publication back for a retry loses it for good: the
    publication waits again while its parked step stays parked, and after any later
    transactions of any connector it still waits, no claim ever takes it, it is not
    listed as parked, and every operator decision on it is refused. *)
Theorem retried_parked_publication_is_stranded parse_url cfg now k t u token error d d' :
  reachable parse_url d → connector_ok cfg → d_runs d !! k = Some t →
  visible (connector_id cfg) t = true → t_pub t = Some u →
  u_status u = Pub.disconnected → owns_publication token u = true →
  rtc (step parse_url) (run_op parse_url cfg now (OpFailPublication k token error true) d).2 d' →
  ∃ t' u', d_runs d' !! k = Some t' ∧ t_pub t' = Some u' ∧ u_status u' = Pub.pending
    ∧ any_step (step_is Step.disconnected) (t_steps t') = true
    ∧ ∀ cfg' n, pub_claimable cfg' n t' = false ∧ parked_of_run (k, t') = []
        ∧ resumeDisconnectedRun n k t' t'
          = Err (HttpStatus 409 "no resumable disconnected axis")
        ∧ (∀ reason, blank reason = false → giveUpDisconnectedRun n k reason t' t'
             = Err (HttpStatus 409 "no resumable disconnected axis")).
Proof.
  intros Hd Hc Ht Hv Hu Hst Ho Hs. pose proof (reachable_inv _ d Hd) as Hinv.
  set (d1 := (run_op _ _ _ _ _).2) in *.
  assert (Hstep : step parse_url d d1) by by eapply step_op.
  assert (Hd1 : stranded_in k d1).
  { pose proof (scope_inv (connector_id cfg) k d Hinv) as Hri.
    rewrite (scope_visible _ _ _ _ Ht Hv) in Hri.
    destruct (wpt_ok _ _ _ (retry_strands now token error _ u Hri Hu Hst Ho))
      as (b & t' & Heq & _ & Hst').
    unfold d1. cbn [run_op]. unfold transaction, in_run. rewrite (scope_visible _ _ _ _ Ht Hv), Heq.
    pose proof (failPublication_good now token error true _ Hri) as Hg. unfold wpe in Hg.
    rewrite Heq in Hg. destruct Hg as [_ Hev]. destruct (visible_run _ _ Hv) as [r Hr].
    exists t'. split; [|done]. simpl. unfold commit_run.
    rewrite (eq_trans (ev_run_same _ _ Hev) Hr). simpl. by rewrite lookup_insert_eq. }
  destruct (stranded_forever parse_url k d1 d' (step_inv _ _ _ Hinv Hstep) Hd1 Hs) as (t' & Ht' & Hst').
  assert (Hd' : reachable parse_url d').
  { eapply reachable_steps; [|exact Hs]. by eapply reachable_step. }
  destruct (sd_pub _ Hst') as (u' & Hu' & Hus). exists t', u'.
  do 3 (split; [done|]). split; [apply Hst'|]. intros cfg' n.
  destruct (di_runs _ (reachable_inv _ d' Hd') k t' Ht') as (Hri & Hrun & _).
  by apply stranded_answers.
Qed.

(** only what was seen on the remote side ends an exhausted step: for the owner, an
    uncertain step becomes succeeded with the remote object that was found, or failed for
    good when it was confirmed absent, with no attempt added, and the axis follows its
    steps; a step that is not waiting for reconciliation is left alone. *)
Theorem reconciliation_concludes_step parse_url now d k t u token key found :
  reachable parse_url d → d_runs d !! k = Some t → t_pub t = Some u →
  owns_publication token u = true →
  ∃ b t', settleExhaustedPublicationStep now token key found t = Ok (b, t') ∧
    match t_steps t !! key with
    | Some s =>
        b = step_is Step.uncertain s
        ∧ if b then ∃ s' u', t_steps t' = <[key := s']> (t_steps t)
                ∧ s_attempt_count s' = s_attempt_count s
                ∧ match found with
                  | Some remote => s_status s' = Step.succeeded
                      ∧ s_remote_object_id s' = remote_id remote
                      ∧ s_remote_object_url s' = remote_url remote
                  | None => s_status s' = Step.terminal_failed
                  end
                ∧ t_pub t' = Some u' ∧ u_claim_token u' = Some token
                ∧ u_status u' = derived_status (t_steps t') (u_status u)
          else t' = t
    | None => b = false ∧ t' = t
    end.
Proof.
  intros Hd Ht Hu Ho. apply wpt_ok, (settle_step_outcome now token key found t u); [|done..].
  by eapply reachable_run_inv.
Qed.

(** Resuming a parked publication always works: the operator gets a record whose
    publication waits, the parked steps start over with both budgets refilled while all
    other steps are kept, the pending attention notices of the axis become historical,
    and the run is claimable at once, given that its execution left a result. *)
Theorem resume_restores_parked_publication parse_url cfg now d k t u :
  reachable parse_url d → d_runs d !! k = Some t → t_pub t = Some u →
  u_status u = Pub.disconnected →
  ∃ run t', resumeDisconnectedRun now k t t = Ok (run, t')
    ∧ sum_status (rec_publication run) = Pub.pending
    ∧ t_steps t' = (λ s, if step_is Step.disconnected s then reset_step now s else s) <$> t_steps t
    ∧ (∀ n, pub_claimable cfg n t'
         = match t_exec t with Some e => json_not_null (e_workflow_result e) | None => false end)
    ∧ t_notices t' = supersede_notice now publication <$> t_notices t.
Proof.
  intros Hd Ht Hu Hst. destruct (di_runs _ (reachable_inv _ d Hd) k t Ht) as (Hinv & Hr & _).
  by apply wpt_ok, (resume_outcome cfg now k t u).
Qed.

(** * Witnesses *)

Lemma publication_completes_iff_witness :
  let script := branch_script ++ step_script "review" in
  ∃ t', complete (minute 10) "pub-1" (stored script) = Ok (true, t')
    ∧ ∃ u', t_pub t' = Some u' ∧ u_status u' = Pub.published.
Proof.
  intros script. assert (Hr : reachable file_url (after script)) by (by apply after_reachable).
  stored_pub script u Hu.
  destruct (publication_completes_iff file_url (minute 10) (after script) "run-1" (stored script) u
    "pub-1" Hr) as (b & t' & Heq & _ & Hb); [evaluate|exact Hu|].
  assert (Hw : match complete (minute 10) "pub-1" (stored script) with
    | Ok (x, _) => x | Err _ => false end = true) by evaluate.
  rewrite Heq in Hw. subst b. destruct Hb as (_ & _ & _ & u' & _ & Hu' & Hs' & _).
  exists t'. split; [exact Heq|]. exists u'. exact (conj Hu' Hs').
Defined.

Lemma next_publication_is_oldest_witness :
  ∃ w d', claimNextOnce gh (minute 7) (λ _, false) "pub-1" (after execute_script) = Ok (Some w, d')
    ∧ rec_run_id (pw_record w) = "run-1" ∧ pw_claim_token w = "pub-1".
Proof.
  assert (Hr : reachable file_url (after execute_script)) by (by apply after_reachable).
  destruct (next_publication_is_oldest file_url gh (minute 7) (λ _, false) "pub-1" _ Hr)
    as (work & d' & Heq & Hcase).
  assert (Hw : match claimNextOnce gh (minute 7) (λ _, false) "pub-1" (after execute_script) with
    | Ok (Some w, _) => Some (rec_run_id (pw_record w)) | _ => None end = Some "run-1") by evaluate.
  rewrite Heq in Hw. destruct work as [w|]; [|discriminate Hw]. injection Hw as Hid.
  destruct Hcase as (_ & _ & _ & _ & _ & _ & Htok & _).
  exists w, d'. exact (conj Heq (conj Hid Htok)).
Defined.

(** The first claim of a step, and the claim after its last attempt. *)
Definition spent_script : list (store_config * Z * op) := take (length exhaust_script - 2) exhaust_script.

Lemma step_claim_outcomes_witness :
  ∃ t' s' u', requirePublicationStepClaim (minute 9) "pub-1" "branch" (stored spent_script)
      = (Err (Deterministic retry_exhausted), t')
    ∧ t_steps t' = <["branch" := s']> (t_steps (stored spent_script))
    ∧ s_status s' = Step.uncertain ∧ t_pub t' = Some u'.
Proof.
  assert (Hr : reachable file_url (after spent_script)) by (by apply after_reachable).
  stored_pub spent_script u Hu.
  assert (Ho : owns_publication "pub-1" u = true) by (vm_compute in Hu; by injection Hu as <-).
  destruct (step_claim_outcomes file_url (minute 9) (after spent_script) "run-1"
    (stored spent_script) u "pub-1" "branch" Hr) as (r & t' & Heq & _ & Hcase);
    [evaluate|exact Hu|exact Ho|].
  destruct (t_steps (stored spent_script) !! "branch") as [s|] eqn:Hs;
    [|vm_compute in Hs; discriminate Hs].
  assert (Hb : step_claimable "pub-1" s = false ∧ needs_reconciliation s = true).
  { vm_compute in Hs. injection Hs as <-. split; reflexivity. }
  destruct Hb as [Hb1 Hb2]. rewrite Hb1, Hb2 in Hcase.
  destruct Hcase as (-> & s' & u' & Hs' & Hst & _ & Hu' & _).
  exists t', s', u'. exact (conj Heq (conj Hs' (conj Hst Hu'))).
Defined.

Lemma step_failure_outcomes_witness :
  ∃ t' s', failPublicationStep (minute 10) "pub-1" "branch" boom (Some true) (stored exhaust_script)
      = Ok (true, t')
    ∧ t_steps t' = <["branch" := s']> (t_steps (stored exhaust_script))
    ∧ s_status s' = Step.uncertain.
Proof.
  assert (Hr : reachable file_url (after exhaust_script)) by (by apply after_reachable).
  stored_pub exhaust_script u Hu.
  assert (Ho : owns_publication "pub-1" u = true) by (vm_compute in Hu; by injection Hu as <-).
  destruct (step_failure_outcomes file_url (minute 10) (after exhaust_script) "run-1"
    (stored exhaust_script) u "pub-1" "branch" boom (Some true) Hr) as (b & t' & Heq & Hcase);
    [evaluate|exact Hu|exact Ho|].
  destruct (t_steps (stored exhaust_script) !! "branch") as [s|] eqn:Hs;
    [|vm_compute in Hs; discriminate Hs].
  assert (Hb : step_open s = true ∧ failed_status s (Some true) = Step.uncertain).
  { vm_compute in Hs. injection Hs as <-. split; reflexivity. }
  destruct Hb as [Hb1 Hb2]. destruct Hcase as [-> Hcase]. rewrite Hb1 in Heq, Hcase.
  destruct Hcase as (s' & _ & Hs' & Hst & _). rewrite Hb2 in Hst.
  exists t', s'. exact (conj Heq (conj Hs' Hst)).
Defined.

Lemma retried_parked_publication_is_stranded_witness :
  let later := [(gh, minute 60, OpClaimNextPublication (λ _, false) "pub-2");
                (gh, minute 61, OpResume "run-1" (stored strand_script))] in
  ∃ t', d_runs (run_ops file_url later
          (run_op file_url gh (minute 11) (OpFailPublication "run-1" "pub-1" boom true)
             (after disconnect_script)).2) !! "run-1" = Some t'
    ∧ any_step (step_is Step.disconnected) (t_steps t') = true
    ∧ ∀ n, pub_claimable gh n t' = false.
Proof.
  intros later. assert (Hr : reachable file_url (after disconnect_script)) by (by apply after_reachable).
  stored_pub disconnect_script u Hu.
  assert (Ho : owns_publication "pub-1" u = true ∧ u_status u = Pub.disconnected).
  { vm_compute in Hu. injection Hu as <-. split; reflexivity. }
  destruct (retried_parked_publication_is_stranded file_url gh (minute 11) "run-1"
    (stored disconnect_script) u "pub-1" boom (after disconnect_script)
    (run_ops file_url later (run_op file_url gh (minute 11)
       (OpFailPublication "run-1" "pub-1" boom true) (after disconnect_script)).2) Hr)
    as (t' & u' & Ht' & _ & _ & Hd' & Hans).
  - exact eq_refl.
  - evaluate.
  - evaluate.
  - exact Hu.
  - apply Ho.
  - apply Ho.
  - apply run_ops_steps. by repeat constructor.
  - exists t'. split; [exact Ht'|]. split; [exact Hd'|]. intros n. apply (Hans gh n).
Defined.

Lemma reconciliation_concludes_step_witness :
  ∃ t' s', settleExhaustedPublicationStep (minute 10) "pub-1" "branch" (Some remote1)
      (stored exhaust_script) = Ok (true, t')
    ∧ t_steps t' = <["branch" := s']> (t_steps (stored exhaust_script))
    ∧ s_status s' = Step.succeeded ∧ s_remote_object_id s' = Some "99".
Proof.
  assert (Hr : reachable file_url (after exhaust_script)) by (by apply after_reachable).
  stored_pub exhaust_script u Hu.
  assert (Ho : owns_publication "pub-1" u = true) by (vm_compute in Hu; by injection Hu as <-).
  destruct (reconciliation_concludes_step file_url (minute 10) (after exhaust_script) "run-1"
    (stored exhaust_script) u "pub-1" "branch" (Some remote1) Hr) as (b & t' & Heq & Hcase);
    [evaluate|exact Hu|exact Ho|].
  destruct (t_steps (stored exhaust_script) !! "branch") as [s|] eqn:Hs;
    [|vm_compute in Hs; discriminate Hs].
  assert (Hb : step_is Step.uncertain s = true) by (vm_compute in Hs; by injection Hs as <-).
  destruct Hcase as [-> Hcase]. rewrite Hb in Heq, Hcase.
  destruct Hcase as (s' & _ & Hs' & _ & (Hst & Hid & _) & _).
  exists t', s'. exact (conj Heq (conj Hs' (conj Hst Hid))).
Defined.

Lemma resume_restores_parked_publication_witness :
  ∃ run t', resumeDisconnectedRun (minute 30) "run-1" (stored disconnect_script) (stored disconnect_script)
      = Ok (run, t')
    ∧ sum_status (rec_publication run) = Pub.pending ∧ pub_claimable gh (minute 30) t' = true.
Proof.
  assert (Hr : reachable file_url (after disconnect_script)) by (by apply after_reachable).
  stored_pub disconnect_script u Hu.
  assert (Hs : u_status u = Pub.disconnected) by (vm_compute in Hu; by injection Hu as <-).
  destruct (resume_restores_parked_publication file_url gh (minute 30) (after disconnect_script) "run-1"
    (stored disconnect_script) u Hr) as (run & t' & Heq & Hst & _ & Hc & _); [evaluate|exact Hu|exact Hs|].
  exists run, t'. split; [exact Heq|]. split; [exact Hst|]. rewrite Hc. evaluate.
Defined.
