(* ===== verification/ConnectorOutcomes.v ===== *)
(** What the calls of the GitHub connector come to: each store operation it uses, one
    request over a network that may lose it, and the attempts a call spends. *)

From S2P Require Import Prelude Schema StateMachines Tables Database RunRecord.
From S2P Require Import PreparationStore ExecutionStore InputBundles SubmissionTransitions.
From S2P Require Import PublicationStore OperatorDecisions Notices Queries Invariant Preservation.
From S2P Require Import PublicationSpecs OperatorSpecs DatabaseSpecs System SystemSpecs Scenario Fencing.
From S2P Require Import Stranded PublicationOutcomes ConnectorErrors ConnectorSteps.

(** * The operations *)

(** Whether the claim of the publication is [token]'s. *)
Definition owned_by (token : string) (t : run_rows) : bool :=
  match t_pub t with Some u => owns_publication token u | None => false end.

Definition completed_step (now : Z) (remote : remote_object) (s : step_row) : step_row :=
  s <| s_status := Step.succeeded |> <| s_claimed_by := None |>
    <| s_remote_object_id := remote_id remote |> <| s_remote_object_url := remote_url remote |>
    <| s_failure_code := None |> <| s_failure_message := None |> <| s_updated_at := now |>.

Definition renewed (now : Z) (u : pub_row) : pub_row :=
  u <| u_claimed_at := Some now |> <| u_updated_at := now |>.

Lemma not_owner_locks token t :
  owned_by token t = false → lockPublicationOwnership token t = Ok (false, t).
Proof. unfold owned_by, lockPublicationOwnership, read. by intros ->. Qed.

Lemma owned_by_true token t :
  owned_by token t = true ↔ ∃ u, t_pub t = Some u ∧ owns_publication token u = true.
Proof.
  unfold owned_by. destruct (t_pub t) as [u|].
  - split; [by exists u|]. by intros (u' & [= <-] & ?).
  - split; [done|]. by intros (u' & ? & ?).
Qed.

Section Operations.
Context (now : Z) (token key : string) (t : run_rows).
Implicit Types (u : pub_row).

Lemma claim_not_owned :
  owned_by token t = false → claimPublicationStep now token key t = Ok (false, t).
Proof.
  intros Ho. unfold claimPublicationStep. by rewrite (bind_ok _ _ _ _ _ (not_owner_locks _ _ Ho)).
Qed.

Lemma complete_not_owned remote :
  owned_by token t = false → completePublicationStep now token key remote t = Ok (false, t).
Proof.
  intros Ho. unfold completePublicationStep. by rewrite (bind_ok _ _ _ _ _ (not_owner_locks _ _ Ho)).
Qed.

Lemma fail_not_owned error retry :
  owned_by token t = false → failPublicationStep now token key error retry t = Ok (false, t).
Proof.
  intros Ho. unfold failPublicationStep. by rewrite (bind_ok _ _ _ _ _ (not_owner_locks _ _ Ho)).
Qed.

Lemma settle_not_owned found :
  owned_by token t = false → settleExhaustedPublicationStep now token key found t = Ok (false, t).
Proof.
  intros Ho. unfold settleExhaustedPublicationStep.
  by rewrite (bind_ok _ _ _ _ _ (not_owner_locks _ _ Ho)).
Qed.

Lemma complete_step_outcome remote u :
  run_inv t → t_pub t = Some u → owns_publication token u = true →
  completePublicationStep now token key remote t =
    match t_steps t !! key with
    | Some s => if step_is Step.running s
                then Ok (true, t <| t_steps ::= <[key := completed_step now remote s]> |>)
                else Ok (false, t)
    | None => Ok (false, t)
    end.
Proof.
  intros H Hu Ho. unfold completePublicationStep.
  rewrite (bind_ok _ _ _ _ _ (owner_locks _ _ _ Hu Ho)).
  simpl. unfold update_step. destruct (t_steps t !! key) as [s|] eqn:Hs; [|done].
  destruct (step_is Step.running s) eqn:Hc; [|done].
  destruct H as [|r p e u' steps cs evs ns ne nn Hl]; [done|]. simpl in Hs.
  pose proof (live_step_ok _ _ _ _ _ _ _ _ _ _ _ Hl Hs) as Hok.
  assert (Hck : step_check (completed_step now remote s) = true).
  { unfold step_is in Hc. destruct s; simpl in *. destruct_guard. solve_step. }
  transitivity (if step_check (completed_step now remote s)
                then Ok (true, (mk_rows r p e u' steps cs evs ns ne nn)
                           <| t_steps ::= <[key := completed_step now remote s]> |>)
                else Err (CheckViolation "publication_steps")); [done|]. by rewrite Hck.
Qed.

Lemma renew_outcome :
  run_inv t →
  renewPublicationClaim now token t =
    match t_pub t with
    | Some u => if owns_publication token u
                then Ok (true, t <| t_pub := Some (renewed now u) |>)
                else Ok (false, t)
    | None => Ok (false, t)
    end.
Proof.
  intros H. destruct H as [|r p e u steps cs evs ns ne nn Hl]; [done|].
  unfold renewPublicationClaim, bind, sql_update. simpl.
  destruct (owns_publication token u) eqn:Ho; [|done].
  assert (Hck : pub_check (renewed now u) = true).
  { pose proof (lv_pub _ _ _ _ _ _ _ _ _ Hl) as Hc.
    destruct (owns_publication_true _ _ Ho) as [Hown _].
    destruct u as [? []]; simpl in *; try discriminate; solve_check. }
  transitivity (match (if pub_check (renewed now u)
                       then Ok (Some (u, renewed now u), mk_rows r p e (renewed now u) steps cs evs ns ne nn)
                       else Err (CheckViolation "publications")) : result _ with
                | Ok (a, s') => ret (match a with Some _ => true | None => false end) s'
                | Err e => Err e
                end); [done|]. by rewrite Hck.
Qed.
End Operations.

(** * Attempts *)

(** From [t] to [t'] the step was attempted [n] more times. *)
Definition spends (key : string) (n : Z) (t t' : run_rows) : Prop :=
  run_inv t' ∧ attempts key t' = attempts key t + n.

Lemma spends_refl key t : run_inv t → spends key 0 t t.
Proof. intros H. split; [done|lia]. Qed.

Lemma attempts_insert key s s' t t' :
  t_steps t !! key = Some s → t_steps t' = <[key := s']> (t_steps t) →
  s_attempt_count s' = s_attempt_count s → attempts key t' = attempts key t.
Proof. intros Hs Hs' Ha. unfold attempts. by rewrite Hs', lookup_insert_eq, Hs. Qed.

Lemma attempts_bounded key t : run_inv t → attempts key t <= MAX_PUBLICATION_STEP_ATTEMPTS.
Proof.
  intros [|r p e u steps cs evs ns ne nn Hl]; [done|]. unfold attempts. simpl.
  destruct (steps !! key) as [s|] eqn:Hk; [|done].
  pose proof (live_step_ok _ _ _ _ _ _ _ _ _ _ _ Hl Hk) as Hok.
  unfold step_ok in Hok. destruct_guard. lia.
Qed.

Lemma derive_steps now t :
  wpe (λ _, true) (derivePublicationStatus now) (λ _ t', t_steps t' = t_steps t) t.
Proof.
  destruct t as [r p e [u|] steps cs evs ns ne nn]; [|done].
  unfold derivePublicationStatus. apply wp_bind, wp_read, wp_bind. unfold wpe at 1, sql_update. simpl.
  destruct (_ && _); [|done]. destruct (pub_check _); [|done].
  apply wp_bind. unfold wpe at 1, appendEvent. simpl. destruct r as [r|]; [|done].
  destruct (bool_decide _); [|done]. unfold wpe, queueRunNotice. by repeat case_match; simplify_eq.
Qed.

(** A transaction keeps the invariant and the attempts. *)
Lemma transaction_spends {A} (m : tx run_rows A) key t :
  run_inv t → wp m (λ _, good t) t → wpt m (λ _ t', attempts key t' = attempts key t) t →
  spends key 0 t (transaction m t).2.
Proof.
  intros H Hg Ha. unfold wpe, transaction in *. destruct (m t) as [[a t']|f]; [|done].
  split; [apply Hg|]. simpl. lia.
Qed.

Section Spending.
Context (now : Z) (token key : string) (t : run_rows) (H : run_inv t).

Lemma renew_spends : spends key 0 t (transaction (renewPublicationClaim now token) t).2.
Proof.
  apply transaction_spends; [done|by apply renewPublicationClaim_good|].
  unfold wpe. rewrite renew_outcome by done. destruct (t_pub t) as [u|]; [|done].
  by destruct (owns_publication token u).
Qed.

Lemma complete_spends remote :
  spends key 0 t (transaction (completePublicationStep now token key remote) t).2.
Proof.
  apply transaction_spends; [done|by apply completePublicationStep_good|]. unfold wpe.
  destruct (owned_by token t) eqn:Ho; [|by rewrite complete_not_owned].
  apply owned_by_true in Ho as (u & Hu & Ho). rewrite (complete_step_outcome _ _ _ _ _ u) by done.
  destruct (t_steps t !! key) as [s|] eqn:Hs; [|done].
  destruct (step_is Step.running s); [|done]. by eapply attempts_insert.
Qed.

Lemma fail_spends error retry :
  spends key 0 t (transaction (failPublicationStep now token key error retry) t).2.
Proof.
  apply transaction_spends; [done|by apply failPublicationStep_good|].
  destruct (owned_by token t) eqn:Ho; [|unfold wpe; by rewrite fail_not_owned].
  apply owned_by_true in Ho as (u & Hu & Ho).
  eapply wp_mono; [by apply (fail_step_outcome now token key error retry t u)|].
  intros b t' Hout. simpl in Hout. destruct (t_steps t !! key) as [s|] eqn:Hs.
  - destruct Hout as [-> Hout]. destruct (step_open s); [|by subst].
    destruct Hout as (s' & u' & Hs' & _ & Ha & _). by eapply attempts_insert.
  - by destruct Hout as [_ ->].
Qed.

Lemma settle_spends found :
  spends key 0 t (transaction (settleExhaustedPublicationStep now token key found) t).2.
Proof.
  apply transaction_spends; [done|by apply settleExhaustedPublicationStep_good|].
  destruct (owned_by token t) eqn:Ho; [|unfold wpe; by rewrite settle_not_owned].
  apply owned_by_true in Ho as (u & Hu & Ho).
  eapply wp_mono; [by apply (settle_step_outcome now token key found t u)|].
  intros b t' Hout. simpl in Hout. destruct (t_steps t !! key) as [s|] eqn:Hs.
  - destruct Hout as [-> Hout]. destruct (step_is Step.uncertain s); [|by subst].
    destruct Hout as (s' & u' & Hs' & Ha & _). by eapply attempts_insert.
  - by destruct Hout as [_ ->].
Qed.

Lemma classify_spends :
  spends key 0 t (transaction (classifyRefusedClaim now token key) t).2.
Proof.
  split.
  { pose proof (classifyRefusedClaim_good now token key t H) as Hg.
    unfold wpe, transaction in *. destruct (classifyRefusedClaim _ _ _ t) as [[a t']|]; [apply Hg|done]. }
  destruct (owned_by token t) eqn:Ho.
  - apply owned_by_true in Ho as (u & Hu & Ho).
    destruct (wpt_ok _ _ _ (classify_outcome now token key t u H Hu Ho))
      as (b & t1 & Heq & _ & _ & Hout). unfold transaction. rewrite Heq. simpl.
    destruct b; [|unfold attempts; rewrite Hout; lia].
    destruct Hout as (s & s' & u' & Hs & Hs' & _ & Ha & _).
    rewrite (attempts_insert key s s' t t1) by done. lia.
  - unfold classifyRefusedClaim, transaction.
    rewrite (bind_ok _ _ _ _ _ (not_owner_locks _ _ Ho)). unfold listPublicationSteps, bind, read. simpl.
    pose proof (derive_steps now t) as Hd. unfold wpe in Hd. unfold ret.
    destruct (snd <$> _); simpl; destruct (derivePublicationStatus now t) as [[a t']|f]; simpl;
      unfold attempts; rewrite ?Hd; lia.
Qed.
End Spending.

(** The claim is what counts: it spends one attempt exactly when it succeeds. *)
Lemma require_spends now token key t :
  run_inv t →
  spends key (match (requirePublicationStepClaim now token key t).1 with Ok _ => 1 | Err _ => 0 end)
    t (requirePublicationStepClaim now token key t).2.
Proof.
  intros H. unfold requirePublicationStepClaim.
  assert (Hc : ∃ b t1, transaction (claimPublicationStep now token key) t = (Ok b, t1)
    ∧ spends key (if b : bool then 1 else 0) t t1).
  { pose proof (claimPublicationStep_good now token key t H) as Hg. unfold wpe in Hg. unfold transaction.
    destruct (owned_by token t) eqn:Ho.
    - apply owned_by_true in Ho as (u & Hu & Ho). revert Hg.
      rewrite (claim_step_outcome now token key t u) by done.
      destruct (t_steps t !! key) as [s|] eqn:Hs; [|intros _; eexists _, _; split; [done|by apply spends_refl]].
      destruct (step_claimable token s); [|intros _; eexists _, _; split; [done|by apply spends_refl]].
      intros [Hinv _]. eexists _, _. split; [done|]. split; [done|].
      unfold attempts. simpl. by rewrite lookup_insert_eq, Hs.
    - rewrite claim_not_owned by done. eexists _, _. split; [done|by apply spends_refl]. }
  destruct Hc as (b & t1 & -> & Hs1). destruct b; [exact Hs1|].
  pose proof (classify_spends now token key t1 (proj1 Hs1)) as Hs2.
  destruct (transaction (classifyRefusedClaim now token key) t1) as [r t2]. simpl in Hs2.
  destruct Hs1 as [_ Ha1], Hs2 as [Hinv2 Ha2]. simpl in Ha1; destruct r as [[]|e]; simpl; (split; [done|]; simpl; lia).
Qed.

(** * Calls over a network *)

(** How often the effect was performed. *)
Definition effects (actions : list remote_action) : Z :=
  Z.of_nat (length (List.filter (λ a, match a with Acted => true | Looked => false end) actions)).

(** At least [n] more attempts were counted. *)
Definition spent (key : string) (n : Z) (t t' : run_rows) : Prop :=
  run_inv t' ∧ attempts key t + n <= attempts key t'.

Lemma spent_trans key a b c t1 t2 t3 :
  spent key a t1 t2 → spent key b t2 t3 → c <= a + b → spent key c t1 t3.
Proof. intros [_ H1] [H2 H3] Hc. split; [done|lia]. Qed.

(** What other workers may do between two calls: anything that keeps the invariant, except
    giving the step attempts back, which only an operator's resume does. *)
Definition env_ok (key : string) (env : nat → run_rows → run_rows) : Prop :=
  ∀ i t, run_inv t → spent key 0 t (env i t).

Section Calls.
Context (now : nat → Z) (env : nat → run_rows → run_rows) (net : nat → transport).
Context (message_of : failure → string) (key : string) (Henv : env_ok key env).

Lemma request_spent {A} i (m : Z → run_rows → result A * run_rows) t :
  run_inv t → (∀ n t, run_inv t → spends key 0 t (m n t).2) →
  spent key 0 t (request now env net message_of i m t).2.
Proof.
  intros H Hm. unfold request. pose proof (Henv i t H) as [He Ha].
  destruct (Hm (now i) _ He) as [Hi Hs].
  destruct (net i); simpl; [|done|split; [done|lia]].
  destruct (m (now i) (env i t)) as [[a|f] t2]; simpl in *; (split; [done|lia]).
Qed.

Lemma list_spent runId n t : run_inv t → spends key 0 t (list_steps runId n t).2.
Proof.
  intros H. unfold list_steps. destruct (rowToRecord runId t) as [[]|]; by apply spends_refl.
Qed.

Lemma renew_spent i runId token lost t :
  run_inv t → spent key 0 t (renewSerially now env net message_of i runId token lost t).2.2.
Proof.
  intros H. unfold renewSerially. destruct lost; [split; [done|simpl; lia]|].
  pose proof (request_spent i (serve (λ n, renewPublicationClaim n token)) t H) as Hr.
  destruct (request _ _ _ _ _ _ _) as [[[]|] t1]; simpl in *; apply Hr; intros;
    by apply renew_spends.
Qed.

Lemma settle_spent i token find t :
  run_inv t → spent key 0 t (settleExhaustedStep now env net message_of i token key find t).2.
Proof.
  intros H. unfold settleExhaustedStep. destruct find as [found|e]; [|split; [done|simpl; lia]].
  pose proof (request_spent i (serve (λ n, settleExhaustedPublicationStep n token key found)) t H) as Hr.
  destruct (request _ _ _ _ _ _ _) as [[[]|] t1]; simpl in *; apply Hr; intros;
    by apply settle_spends.
Qed.

Lemma fail_attempt_spent i token e t :
  run_inv t → spent key 0 t (fail_attempt now env net message_of i token key e t).2.
Proof.
  intros H. unfold fail_attempt. destruct (te_claim_lost e); [split; [done|simpl; lia]|].
  match goal with |- context [request _ _ _ _ i ?m t] =>
    pose proof (request_spent i m t H) as Hr; destruct (request _ _ _ _ i m t) as [[b|e'] t1] end;
  simpl in *; apply Hr; intros; by apply fail_spends.
Qed.

(** The claim, over the network: an answer means an attempt was counted. *)
Lemma require_spent i token t :
  run_inv t →
  let r := request now env net message_of i (λ n, requirePublicationStepClaim n token key) t in
  spent key (match r.1 with inl _ => 1 | inr _ => 0 end) t r.2.
Proof.
  intros H. unfold request. pose proof (Henv i t H) as [He Ha].
  pose proof (require_spends (now i) token key _ He) as [Hi Hs].
  destruct (net i); simpl; [|split; [done|lia]|].
  - destruct (requirePublicationStepClaim _ _ _ _) as [[a|f] t2]; simpl in *; (split; [done|lia]).
  - split; [done|]. destruct (requirePublicationStepClaim _ _ _ _) as [[a|f] t2]; simpl in *; lia.
Qed.

Lemma attempt_step_spent runId token previous effect lost t :
  run_inv t →
  let r := attempt_step now env net message_of runId token key previous effect lost t in
  spent key 0 t r.2.2 ∧ effects r.1.2 <= 1.
Proof.
  intros H. unfold attempt_step. pose proof (renew_spent 2 runId token lost t H) as H1.
  destruct (renewSerially _ _ _ _ _ _ _ _ _) as [[[]|e] [lost1 t1]]; simpl in H1.
  - destruct effect as [created|e].
    + pose proof (request_spent 3 (serve (λ n, completePublicationStep n token key
        (coalesce created {| remote_id := None; remote_url := None |}))) t1 (proj1 H1)
        (λ n t Ht, complete_spends n token key t Ht _)) as H2.
      destruct (request _ _ _ _ _ _ _) as [[[]|e] t2]; simpl in H2.
      * split; [by eapply spent_trans|done].
      * pose proof (fail_attempt_spent 4 token (claim_lost_error runId) t2 (proj1 H2)) as H3.
        destruct (fail_attempt _ _ _ _ _ _ _ _ _) as [r t3]. simpl in *.
        split; [eapply spent_trans; [exact H1|by eapply spent_trans|done]|done].
      * pose proof (fail_attempt_spent 4 token e t2 (proj1 H2)) as H3.
        destruct (fail_attempt _ _ _ _ _ _ _ _ _) as [r t3]. simpl in *.
        split; [eapply spent_trans; [exact H1|by eapply spent_trans|done]|done].
    + pose proof (fail_attempt_spent 4 token e t1 (proj1 H1)) as H3.
      destruct (fail_attempt _ _ _ _ _ _ _ _ _) as [r t3]. simpl in *.
      split; [by eapply spent_trans|done].
  - pose proof (fail_attempt_spent 4 token e t1 (proj1 H1)) as H3.
    destruct (fail_attempt _ _ _ _ _ _ _ _ _) as [r t3]. simpl in *.
    split; [by eapply spent_trans|done].
Qed.

Lemma claim_and_run_spent runId token previous find effect lost t :
  run_inv t →
  let r := claim_and_run now env net message_of runId token key previous find effect lost t in
  spent key (effects r.1.2) t r.2.2.
Proof.
  intros H. unfold claim_and_run. pose proof (require_spent 1 token t H) as H1. simpl in H1.
  destruct (request _ _ _ _ _ _ _) as [[[]|e] t1]; simpl in H1.
  - pose proof (attempt_step_spent runId token previous effect lost t1 (proj1 H1)) as [H2 He].
    destruct (attempt_step _ _ _ _ _ _ _ _ _ _ _) as [[r actions] [lost1 t2]]. simpl in *.
    eapply spent_trans; [exact H1|exact H2|lia].
  - destruct (negb _); [done|].
    pose proof (settle_spent 5 token find t1 (proj1 H1)) as H2.
    destruct (settleExhaustedStep _ _ _ _ _ _ _ _ _) as [[[]|] t2]; simpl in *;
      by eapply spent_trans.
Qed.

(** The whole routine performs no effect that no attempt was counted for. *)
Lemma runPublicationStep_spent runId token find effect lost t :
  run_inv t →
  let r := runPublicationStep now env net message_of runId token key find effect lost t in
  spent key (effects r.1.2) t r.2.2.
Proof.
  intros H. unfold runPublicationStep.
  pose proof (request_spent 0 (list_steps runId) t H (λ n t, list_spent runId n t)) as H1.
  destruct (request _ _ _ _ _ _ _) as [[steps|e] t1]; simpl in H1; [|done].
  set (step := snd <$> _). clearbody step.
  assert (Hc : ∀ previous,
    let r := claim_and_run now env net message_of runId token key previous find effect lost t1 in
    spent key (effects r.1.2) t r.2.2).
  { intros previous. pose proof (claim_and_run_spent runId token previous find effect lost t1 (proj1 H1)).
    simpl in *. eapply spent_trans; [exact H1|done|lia]. }
  destruct step as [s|]; [|apply Hc]. destruct (step_is Step.succeeded s); [done|apply Hc].
Qed.
End Calls.

(** ** A step over any number of calls *)

(** One call of [runPublicationStep]: its clock, what other workers and the network do
    during it, its claim, and what GitHub answers. *)
Record round := {
  rd_now : nat → Z; rd_env : nat → run_rows → run_rows; rd_net : nat → transport;
  rd_token : string; rd_lost : bool;
  rd_find : outcome_of (option remote_object); rd_effect : outcome_of (option remote_object);
}.

(** The actions of the calls, one after the other. *)
Fixpoint run_rounds (message_of : failure → string) (runId key : string) (rounds : list round)
    (t : run_rows) : list remote_action :=
  match rounds with
  | [] => []
  | rd :: rest =>
      let '(_, actions, (_, t1)) :=
        runPublicationStep (rd_now rd) (rd_env rd) (rd_net rd) message_of runId (rd_token rd) key
          (rd_find rd) (rd_effect rd) (rd_lost rd) t in
      actions ++ run_rounds message_of runId key rest t1
  end.

Lemma effects_app l l' : effects (l ++ l') = effects l + effects l'.
Proof. unfold effects. rewrite List.filter_app, length_app. lia. Qed.

(** * Calls nobody disturbs *)

Definition quiet : nat → run_rows → run_rows := λ _ t, t.
Definition delivered : nat → transport := λ _, Delivered.

(** The step after an attempt of its owner. *)
Definition attempted_status (effect : outcome_of (option remote_object)) : Step.status :=
  match effect with
  | inl _ => Step.succeeded
  | inr e => if te_claim_lost e then Step.running
             else if cl_retry (classifyPublicationFailure e) then Step.failed
             else Step.terminal_failed
  end.

(** The step after the owner looked for what its attempts may have left. *)
Definition looked_status (find : outcome_of (option remote_object)) : Step.status :=
  match find with
  | inl (Some _) => Step.succeeded
  | inl None => Step.terminal_failed
  | inr _ => Step.uncertain
  end.

Section Undisturbed.
Context (now : nat → Z) (message_of : failure → string).

(** The error a refusal of the service arrives as. *)
Definition refused (code : string) : thrown_error := served message_of (Deterministic code).

Lemma quiet_tx {A} i (m : Z → tx run_rows A) t a t' :
  m (now i) t = Ok (a, t') →
  request now quiet delivered message_of i (serve m) t = (inl a, t').
Proof. intros Heq. unfold request, serve, transaction, delivered, quiet. by rewrite Heq. Qed.

Lemma quiet_renew i runId token t u :
  run_inv t → t_pub t = Some u → owns_publication token u = true →
  renewSerially now quiet delivered message_of i runId token false t =
    (inl tt, (false, t <| t_pub := Some (renewed (now i) u) |>)).
Proof.
  intros H Hu Ho. unfold renewSerially.
  rewrite (quiet_tx _ _ t true (t <| t_pub := Some (renewed (now i) u) |>)); [done|].
  by rewrite renew_outcome, Hu, Ho.
Qed.

Lemma quiet_renew_lost i runId token t :
  run_inv t → owned_by token t = false →
  renewSerially now quiet delivered message_of i runId token false t =
    (inr (claim_lost_error runId), (true, t)).
Proof.
  intros H Ho. unfold renewSerially. rewrite (quiet_tx _ _ t false t); [done|].
  rewrite renew_outcome by done. unfold owned_by in Ho. destruct (t_pub t) as [u|]; [|done].
  by rewrite Ho.
Qed.

Lemma renewed_inv n token t u :
  run_inv t → t_pub t = Some u → owns_publication token u = true →
  run_inv (t <| t_pub := Some (renewed n u) |>).
Proof.
  intros H Hu Ho. pose proof (renewPublicationClaim_good n token t H) as Hg.
  unfold wpe in Hg. rewrite renew_outcome, Hu, Ho in Hg by done. apply Hg.
Qed.

(** A failure that is recorded: the step is where its classification puts it. *)
Lemma quiet_fail_attempt token key e t u s :
  run_inv t → t_pub t = Some u → owns_publication token u = true →
  t_steps t !! key = Some s → s_status s = Step.running → te_claim_lost e = false →
  ∃ s' t', fail_attempt now quiet delivered message_of 4 token key e t = (inr e, t')
    ∧ t_steps t' = <[key := s']> (t_steps t) ∧ s_attempt_count s' = s_attempt_count s
    ∧ s_status s' = attempted_status (inr e).
Proof.
  intros H Hu Ho Hs Hst Hl. unfold fail_attempt. rewrite Hl.
  destruct (wpt_ok _ _ _ (fail_step_outcome (now 4%nat) token key
    {| err_code := cl_code (classifyPublicationFailure e); err_message := te_message e |}
    (Some (cl_retry (classifyPublicationFailure e))) t u H Hu Ho)) as (b & t' & Heq & Hout).
  rewrite Hs in Hout. unfold step_open, step_is in Hout. rewrite Hst in Hout. simpl in Hout.
  destruct Hout as (-> & s' & u' & Hs' & Hfs & Ha & _).
  exists s', t'. rewrite (quiet_tx 4 _ t true t') by exact Heq. split; [done|]. split; [done|].
  split; [done|]. unfold attempted_status. rewrite Hl, Hfs. unfold failed_status. rewrite Hst.
  by destruct (cl_retry _).
Qed.

(** The attempt of an owner whose claim was just counted. *)
Lemma quiet_attempt runId token key previous effect t u s :
  run_inv t → t_pub t = Some u → owns_publication token u = true →
  t_steps t !! key = Some s → s_status s = Step.running →
  ∃ r s' lost' t', attempt_step now quiet delivered message_of runId token key previous effect false t
      = (r, [Acted], (lost', t'))
    ∧ t_steps t' = <[key := s']> (t_steps t) ∧ s_attempt_count s' = s_attempt_count s
    ∧ s_status s' = attempted_status effect
    ∧ match effect with
      | inl created =>
          let remote := coalesce created {| remote_id := None; remote_url := None |} in
          r = inl {| sr_remote := remote; sr_already_succeeded := false;
                     sr_reconciled := false; sr_previous_attempts := previous |}
          ∧ recordedRemote s' = remote
      | inr e => r = inr e
      end.
Proof.
  intros H Hu Ho Hs Hst. unfold attempt_step. rewrite (quiet_renew 2 _ _ _ u) by done.
  pose proof (renewed_inv (now 2%nat) token t u H Hu Ho) as H1.
  set (t1 := t <| t_pub := _ |>) in *.
  assert (Ho1 : owns_publication token (renewed (now 2%nat) u) = true) by exact Ho.
  destruct effect as [created|e].
  - set (remote := coalesce created _).
    rewrite (quiet_tx 3 _ t1 true
      (t1 <| t_steps ::= <[key := completed_step (now 3%nat) remote s]> |>)).
    2:{ rewrite (complete_step_outcome _ _ _ _ _ (renewed (now 2%nat) u)) by done.
        change (t_steps t1) with (t_steps t). rewrite Hs. unfold step_is. by rewrite Hst. }
    eexists _, (completed_step (now 3%nat) remote s), _, _. split; [reflexivity|]. by destruct remote.
  - destruct (te_claim_lost e) eqn:Hl.
    + eexists _, s, _, _. unfold fail_attempt, attempted_status. rewrite Hl.
      split; [reflexivity|]. split; [by rewrite insert_id|]. by rewrite Hst.
    + destruct (quiet_fail_attempt token key e t1 (renewed (now 2%nat) u) s) as (s' & t' & -> & ? & ? & ?);
        [done..|]. by eexists _, s', _, t'.
Qed.

(** The end of a step whose attempts are spent. *)
Lemma quiet_settle token key find t u s :
  run_inv t → t_pub t = Some u → owns_publication token u = true →
  t_steps t !! key = Some s → s_status s = Step.uncertain →
  ∃ s' t', settleExhaustedStep now quiet delivered message_of 5 token key find t
      = (match find with
         | inl (Some remote) => inl (RecordedSuccess remote)
         | inl None => inl RecordedFailure
         | inr e => inr e
         end, t')
    ∧ t_steps t' = <[key := s']> (t_steps t) ∧ s_attempt_count s' = s_attempt_count s
    ∧ s_status s' = looked_status find
    ∧ match find with
      | inl (Some remote) => recordedRemote s' = remote
      | inl None => True
      | inr _ => t' = t
      end.
Proof.
  intros H Hu Ho Hs Hst. unfold settleExhaustedStep. destruct find as [found|e].
  - destruct (wpt_ok _ _ _ (settle_step_outcome (now 5%nat) token key found t u H Hu Ho))
      as (b & t' & Heq & Hout).
    rewrite Hs in Hout. unfold step_is in Hout. rewrite Hst in Hout. simpl in Hout.
    destruct Hout as (-> & s' & u' & Hs' & Ha & Hf & _).
    exists s', t'. rewrite (quiet_tx 5 _ t true t') by exact Heq.
    destruct found as [[i v]|]; [|done]. destruct Hf as (Hf & Hi & Hv). do 4 (split; [done|]).
    unfold recordedRemote. by rewrite Hi, Hv.
  - exists s, t. split; [done|]. split; [by rewrite insert_id|]. done.
Qed.

(** ** A whole call, by the step it finds *)

Context (runId token key : string) (find effect : outcome_of (option remote_object)).

Lemma claimed_call previous t u s :
  run_inv t → t_pub t = Some u → owns_publication token u = true →
  t_steps t !! key = Some s → step_claimable token s = true →
  ∃ r actions lost' t', claim_and_run now quiet delivered message_of runId token key previous find
      effect false t = (r, actions, (lost', t'))
    ∧ actions = [Acted] ∧ ∃ s', t_steps t' = <[key := s']> (t_steps t)
        ∧ s_attempt_count s' = s_attempt_count s + 1 ∧ s_status s' = attempted_status effect
        ∧ match effect with
          | inl created =>
              let remote := coalesce created {| remote_id := None; remote_url := None |} in
              r = inl {| sr_remote := remote; sr_already_succeeded := false;
                         sr_reconciled := false; sr_previous_attempts := previous |}
              ∧ recordedRemote s' = remote
          | inr e => r = inr e
          end.
Proof.
  intros H Hu Ho Hs Hc. pose proof (require_outcome (now 1%nat) token key t u H Hu Ho) as Heq.
  rewrite Hs, Hc in Heq. unfold claim_and_run, request at 1, delivered, quiet. rewrite Heq.
  set (t1 := t <| t_steps ::= _ |>) in *.
  assert (H1 : run_inv t1).
  { pose proof (requirePublicationStepClaim_good (now 1%nat) token key t H) as Hg.
    rewrite Heq in Hg. apply Hg. }
  destruct (quiet_attempt runId token key previous effect t1 u (claimed_step (now 1%nat) token s))
    as (r & s' & lost' & t' & Hat & Hs' & Ha & Hst & Hout); [done|done|done|apply lookup_insert_eq|done|].
  eexists r, _, lost', t'. split; [exact Hat|]. split; [done|]. exists s'.
  split; [rewrite Hs'; apply insert_insert_eq|]. by split.
Qed.

Lemma exhausted_call previous t u s :
  run_inv t → t_pub t = Some u → owns_publication token u = true →
  t_steps t !! key = Some s → step_claimable token s = false → needs_reconciliation s = true →
  ∃ r actions lost' t', claim_and_run now quiet delivered message_of runId token key previous find
      effect false t = (r, actions, (lost', t'))
    ∧ actions = [Looked] ∧ ∃ s', t_steps t' = <[key := s']> (t_steps t)
        ∧ s_attempt_count s' = s_attempt_count s ∧ s_status s' = looked_status find
        ∧ match find with
          | inl (Some remote) =>
              r = inl {| sr_remote := remote; sr_already_succeeded := true;
                         sr_reconciled := true; sr_previous_attempts := previous |}
              ∧ recordedRemote s' = remote
          | inl None => r = inr (refused retry_exhausted)
          | inr e => r = inr e ∧ s_recovery_attempt_count s' = s_recovery_attempt_count s
          end.
Proof.
  intros H Hu Ho Hs Hc Hn. pose proof (require_outcome (now 1%nat) token key t u H Hu Ho) as Heq.
  rewrite Hs, Hc, Hn in Heq.
  destruct Heq as (t1 & s1 & u1 & Heq & _ & Hs1 & Hst1 & Ha1 & Hr1 & Hu1 & Ho1 & _).
  unfold claim_and_run, request at 1, delivered, quiet. rewrite Heq. simpl negb. cbv iota.
  assert (H1 : run_inv t1).
  { pose proof (requirePublicationStepClaim_good (now 1%nat) token key t H) as Hg.
    rewrite Heq in Hg. apply Hg. }
  destruct (quiet_settle token key find t1 u1 s1) as (s' & t' & Hse & Hs' & Ha & Hst & Hout);
    [done|done|done|by rewrite Hs1, lookup_insert_eq|done|].
  fold quiet delivered. rewrite Hse.
  assert (Hs2 : t_steps t' = <[key := s']> (t_steps t)).
  { by rewrite Hs', Hs1, insert_insert_eq. }
  destruct find as [[remote|]|e]; eexists _, _, _, t'; (split; [reflexivity|]; split; [done|];
    exists s'; split; [done|]; split; [congruence|]; split; [done|]); try done.
  subst t'. split; [done|]. rewrite Hs1 in Hs'. rewrite <- Hr1. f_equal.
  apply (f_equal (lookup key)) in Hs'. rewrite lookup_insert_eq, lookup_insert_eq in Hs'. congruence.
Qed.

Lemma refused_call previous t u :
  run_inv t → t_pub t = Some u → owns_publication token u = true →
  match t_steps t !! key with
  | Some s => step_claimable token s = false ∧ needs_reconciliation s = false
  | None => True
  end →
  ∃ t', claim_and_run now quiet delivered message_of runId token key previous find effect false t
      = (inr (refused not_claimable), [], (false, t'))
    ∧ t_steps t' = t_steps t.
Proof.
  intros H Hu Ho Hk. pose proof (require_outcome (now 1%nat) token key t u H Hu Ho) as Heq.
  assert (Hr : refuses (now 1%nat) token key t).
  { destruct (t_steps t !! key) as [s|]; [|done]. destruct Hk as [Hc Hn]. by rewrite Hc, Hn in Heq. }
  destruct Hr as (t' & Hreq & _ & Hs'). exists t'. split; [|done].
  unfold claim_and_run, request at 1, delivered, quiet. by rewrite Hreq.
Qed.
End Undisturbed.

(** * A pass *)

(** The publication left its owner for status [st]; the steps are those of [t]. *)
Definition released (st : Pub.status) (t t' : run_rows) : Prop :=
  t_steps t' = t_steps t
  ∧ ∃ u', t_pub t' = Some u' ∧ u_status u' = st ∧ u_claim_token u' = None.

Lemma fail_publication_outcome now token error retry t u :
  run_inv t → t_pub t = Some u → owns_publication token u = true →
  wpt (failPublication now token error retry)
    (λ b t', b = true ∧ released (if retry then Pub.pending else Pub.failed) t t') t.
Proof.
  intros H Hu Ho. open_rows H; [done|]. simpl in Hu. injection Hu as ->.
  destruct (owns_publication_true _ _ Ho) as [Hown _].
  pose proof (owned_succeeded _ _ _ Haxes Hown) as Hes.
  unfold failPublication. wp_step. wp_step.
  - intros ? [= <-] _. destruct retry; destruct u as [? []]; simpl in *; try discriminate.
    all: split; [solve_check|]; repeat wp_step; split; [done|]; split; [done|]; by eexists.
  - intros Hw. by rewrite (Hw u eq_refl) in Ho.
Qed.

Lemma fail_publication_not_owned now token error retry t :
  owned_by token t = false → failPublication now token error retry t = Ok (false, t).
Proof.
  intros Ho. unfold failPublication, bind. rewrite sql_update_none; [done|].
  intros u Hu. unfold owned_by in Ho. simpl in Hu. by rewrite Hu in Ho.
Qed.

Section Passes.
Context (now : nat → Z) (message_of : failure → string) (k token : string).

Lemma quiet_fail_pass i e t :
  run_inv t → te_claim_lost e = false →
  let retry := cl_retry (classifyPublicationFailure e) in
  ∃ t', fail_pass now quiet delivered message_of i token e t
      = (PassFailed retry (owned_by token t), t')
    ∧ if owned_by token t then released (if retry then Pub.pending else Pub.failed) t t' else t' = t.
Proof.
  intros H Hl retry. unfold fail_pass. rewrite Hl. fold retry.
  set (err := {| err_code := _; err_message := _ |}).
  destruct (owned_by token t) eqn:Ho.
  - apply owned_by_true in Ho as (u & Hu & Ho).
    destruct (wpt_ok _ _ _ (fail_publication_outcome (now i) token err retry t u H Hu Ho))
      as (b & t' & Heq & -> & Hrel).
    exists t'. split; [|done]. by rewrite (quiet_tx now message_of i _ t true t').
  - exists t. split; [|done].
    rewrite (quiet_tx now message_of i _ t false t); [done|]. by apply fail_publication_not_owned.
Qed.

(** The end of a pass that never lost its claim. *)
Lemma quiet_conclude t u :
  run_inv t → t_pub t = Some u → owns_publication token u = true →
  let done_ := negb (any_step (λ s, negb (step_is Step.succeeded s)) (t_steps t)) in
  ∃ t', (if done_
         then request now quiet delivered message_of 3 (serve (λ n, complete n token)) t = (inl true, t')
         else request now quiet delivered message_of 3 (serve (λ n, complete n token)) t = (inl false, t)
              ∧ request now quiet delivered message_of 4
                  (serve (λ n, failPublication n token incomplete_error false)) t = (inl true, t'))
    ∧ released (if done_ then Pub.published else Pub.failed) t t'.
Proof.
  intros H Hu Ho done_.
  destruct (wpt_ok _ _ _ (complete_outcomes (now 3%nat) token t u H Hu)) as (b & t' & Heq & Hb & Hout).
  assert (Hdone : b = done_).
  { apply eq_true_iff_eq. rewrite Hb. subst done_. rewrite all_succeeded_true. naive_solver. }
  rewrite <- Hdone. clearbody done_. subst done_.
  pose proof (quiet_tx now message_of 3 (λ n, complete n token) t b t' Heq) as Hreq. destruct b.
  - destruct Hout as (_ & _ & Hs & u' & _ & Hu' & Hst & Htk & _). exists t'. split; [done|].
    split; [done|]. by exists u'.
  - subst t'.
    destruct (wpt_ok _ _ _ (fail_publication_outcome (now 4%nat) token incomplete_error false t u H Hu Ho))
      as (b & t' & Heq' & -> & Hrel).
    exists t'. split; [|done]. split; [done|]. by apply quiet_tx.
Qed.
End Passes.

(** * The delivery of a repository review *)

(** A look that fails for the third time: the step is parked, and the batch stops with an
    error of its own. *)
Lemma third_look now message_of k token key delivery effect lost e t u s :
  run_inv t → t_pub t = Some u → owns_publication token u = true →
  t_steps t !! key = Some s → s_status s = Step.uncertain →
  s_recovery_attempt_count s + 1 = MAX_PUBLICATION_STEP_RECOVERY_ATTEMPTS →
  te_claim_lost e = false → cl_retry (classifyPublicationFailure e) = true →
  cl_scope (classifyPublicationFailure e) = PublicationScope →
  ∃ t', publish_delivery now quiet delivered message_of k token key delivery (Some s) (inr e) effect lost t
      = (inr (delivery_error ("Failed to publish repository delivery " +:+ delivery +:+ ": "
                +:+ te_message e)), [Looked], (lost, t'))
    ∧ run_inv t' ∧ t_run t' = t_run t
    ∧ ∃ u', t_pub t' = Some u' ∧ u_status u' = Pub.disconnected ∧ owns_publication token u' = true.
Proof.
  intros H Hu Ho Hs Hst Hrc Hl Hretry Hscope.
  pose proof (require_outcome (now 1%nat) token key t u H Hu Ho) as Heq.
  pose proof (requirePublicationStepClaim_good (now 1%nat) token key t H) as Hg1.
  assert (Hn : step_claimable token s = false ∧ needs_reconciliation s = true).
  { destruct H as [|r p ex u0 steps cs evs ns ne nn Hlive]; [done|]. simpl in Hs.
    pose proof (live_step_ok _ _ _ _ _ _ _ _ _ _ _ Hlive Hs) as Hok.
    unfold step_ok in Hok. rewrite Hst in Hok. destruct_guard.
    unfold step_claimable, needs_reconciliation, isStepExhausted, step_is. rewrite Hst. simpl.
    rewrite andb_false_r, andb_true_r. split; [done|]. by apply Z.leb_le. }
  destruct Hn as [Hc Hn]. rewrite Hs, Hc, Hn in Heq.
  destruct Heq as (t1 & s1 & u1 & Heq & _ & Hs1 & Hst1 & _ & Hr1 & Hu1 & Ho1 & _).
  rewrite Heq in Hg1. destruct Hg1 as [H1 Hev1].
  set (err := {| err_code := cl_code (classifyPublicationFailure e); err_message := te_message e |}).
  destruct (wpt_ok _ _ _ (fail_step_outcome (now 4%nat) token key err (Some true) t1 u1 H1 Hu1 Ho1))
    as (b & t2 & Hf & Hout).
  pose proof (failPublicationStep_good (now 4%nat) token key err (Some true) t1 H1) as Hg2.
  unfold wpe in Hg2. rewrite Hf in Hg2. destruct Hg2 as [H2 Hev2].
  rewrite Hs1, lookup_insert_eq in Hout. unfold step_open, step_is in Hout. rewrite Hst1 in Hout.
  destruct Hout as (-> & s2 & u2 & Hs2 & Hst2 & _ & Hu2 & Hus2 & Htk2).
  unfold failed_status in Hst2. rewrite Hst1, Hr1, Hrc in Hst2. simpl in Hst2.
  exists t2. split.
  - unfold publish_delivery, step_is. rewrite Hst. simpl.
    unfold publishOrReconcileDelivery, request at 1, delivered, quiet. rewrite Heq. simpl.
    rewrite Hl, Hretry, Hscope. fold quiet delivered err.
    by rewrite (quiet_tx now message_of 4 _ t1 true t2).
  - split; [done|]. split; [exact (eq_trans (ev_run_same _ _ Hev2) (ev_run_same _ _ Hev1))|].
    exists u2. split; [done|].
    assert (Hd : u_status u2 = Pub.disconnected).
    { rewrite Hus2. unfold derived_status.
      rewrite (proj2 (any_step_true (step_is Step.disconnected) (t_steps t2))); [done|].
      exists key, s2. rewrite Hs2, lookup_insert_eq. split; [done|]. by apply bool_decide_eq_true. }
    split; [done|]. unfold owns_publication, sql_eq. rewrite Hd, Htk2. simpl.
    by apply bool_decide_eq_true.
Qed.

(** * What the step operations throw *)

(** Refusals, and failures of the statements; never an HTTP status of their own. *)
Definition step_failure (f : failure) : bool :=
  match f with
  | Deterministic code => bool_decide (code ∈ [set_duplicate; set_changed; retry_exhausted; not_claimable])
  | HttpStatus _ _ => false
  | _ => true
  end.

Abbreviation throws m t := (wpe step_failure m (λ _ _, True) t).

Lemma throws_total {A} (m : tx run_rows A) t :
  (∀ f, m t = Err f → step_failure f = true) → throws m t.
Proof. unfold wpe. by destruct (m t) as [[]|f]; [|auto]. Qed.

Lemma update_step_throws key where_ set t : throws (update_step key where_ set) t.
Proof. unfold wpe, update_step. by repeat case_match; simplify_eq. Qed.

Lemma derive_throws now t : throws (derivePublicationStatus now) t.
Proof.
  apply throws_total. intros f. unfold derivePublicationStatus, bind, read, sql_update, ret. simpl.
  unfold appendEvent, queueRunNotice. by repeat case_match; intros; simplify_eq.
Qed.

Lemma throws_bind {A B} (m : tx run_rows A) (c : A → tx run_rows B) t :
  throws m t → (∀ a t', throws (c a) t') → throws (bind m c) t.
Proof. intros Hm Hc. apply wp_bind. eapply wp_mono; [exact Hm|]. auto. Qed.

Lemma claim_throws now token key t : throws (claimPublicationStep now token key) t.
Proof.
  apply throws_bind; [done|]. intros [] t'; [apply update_step_throws|done].
Qed.

Lemma classify_throws now token key t : throws (classifyRefusedClaim now token key) t.
Proof.
  unfold classifyRefusedClaim. do 2 (apply throws_bind; [done|intros]). apply throws_bind.
  - destruct (_ && _); [apply update_step_throws|done].
  - intros ? ?. apply throws_bind; [apply derive_throws|done].
Qed.

Lemma initialize_throws now token keys t : throws (initializePublicationSteps now token keys) t.
Proof.
  unfold initializePublicationSteps. destruct (negb _); [done|].
  apply throws_bind; [done|]. intros [] t'; [|done]. apply throws_bind; [done|].
  intros existing t''. destruct (bool_decide _); [done|]. by destruct (bool_decide _).
Qed.

Lemma require_throws now token key t t' f :
  requirePublicationStepClaim now token key t = (Err f, t') → step_failure f = true.
Proof.
  pose proof (claim_throws now token key t) as Hc. unfold requirePublicationStepClaim, transaction.
  unfold wpe in Hc. destruct (claimPublicationStep _ _ _ t) as [[[] t1]|f1]; [done| |by intros; simplify_eq].
  pose proof (classify_throws now token key t1) as Hf. unfold wpe in Hf.
  by destruct (classifyRefusedClaim _ _ _ t1) as [[[] t2]|f2]; intros; simplify_eq.
Qed.
