(* ===== verification/ConnectorProperties.v ===== *)
(** What the GitHub connector does with the publication steps: when it acts on GitHub, how
    often, how a step and a pass end, and how the service's refusals reach it. *)

From S2P Require Import Prelude Schema StateMachines Tables Database RunRecord.
From S2P Require Import PreparationStore ExecutionStore InputBundles SubmissionTransitions.
From S2P Require Import PublicationStore OperatorDecisions Notices Queries Invariant Preservation.
From S2P Require Import PublicationSpecs OperatorSpecs DatabaseSpecs System SystemSpecs Scenario Fencing.
From S2P Require Import PreparationProperties SubmissionProperties Stranded PublicationOutcomes.
From S2P Require Import ConnectorErrors ConnectorSteps ConnectorOutcomes.

(** * Lemmas *)

(** Only an owner's claim is renewed. *)
Lemma renewed_owned now token t t' :
  renewPublicationClaim now token t = Ok (true, t') → owned_by token t = true.
Proof.
  unfold renewPublicationClaim, bind, sql_update, owned_by. simpl.
  destruct (t_pub t) as [u|]; [|by intros [=]]. by destruct (owns_publication token u).
Qed.

(** A claim that was counted. *)
Lemma required_claim now token key t t' :
  requirePublicationStepClaim now token key t = (Ok tt, t') →
  owned_by token t = true ∧ ∃ s, t_steps t !! key = Some s ∧ step_claimable token s = true
    ∧ t' = t <| t_steps ::= <[key := claimed_step now token s]> |>.
Proof.
  unfold requirePublicationStepClaim, transaction.
  destruct (owned_by token t) eqn:Ho.
  2:{ rewrite claim_not_owned by done. by repeat case_match; intros; simplify_eq. }
  unfold claimPublicationStep. apply owned_by_true in Ho as (u & Hu & Ho).
  rewrite (bind_ok _ _ _ _ _ (owner_locks _ _ _ Hu Ho)). simpl. unfold update_step.
  destruct (t_steps t !! key) as [s|] eqn:Hs; [|by repeat case_match; intros; simplify_eq].
  destruct (step_claimable token s) eqn:Hc; [|by repeat case_match; intros; simplify_eq].
  destruct (step_check _); [|by intros; simplify_eq]. intros [= <-]. split; [done|]. by exists s.
Qed.

Lemma attempt_acts now env net message_of runId token key previous effect lost t r actions x :
  attempt_step now env net message_of runId token key previous effect lost t = (r, actions, x) →
  Acted ∈ actions →
  actions = [Acted] ∧ lost = false ∧ net 2%nat = Delivered ∧ owned_by token (env 2%nat t) = true.
Proof.
  intros Heq Hact. unfold attempt_step, renewSerially in Heq. destruct lost.
  { destruct (fail_attempt _ _ _ _ _ _ _ _ _). simplify_eq. by apply elem_of_nil in Hact. }
  unfold request at 1, serve, transaction in Heq.
  destruct (net 2%nat) eqn:Hn.
  2,3: destruct (fail_attempt _ _ _ _ _ _ _ _ _); simplify_eq; by apply elem_of_nil in Hact.
  destruct (renewPublicationClaim _ token (env 2%nat t)) as [[[] t1]|f] eqn:Hr.
  2,3: destruct (fail_attempt _ _ _ _ _ _ _ _ _); simplify_eq; by apply elem_of_nil in Hact.
  apply renewed_owned in Hr. split; [|done]. revert Heq.
  destruct effect as [c|e]; repeat case_match; by intros [= <- <- <-].
Qed.

Lemma claim_acts now env net message_of runId token key previous find effect lost t r actions x :
  claim_and_run now env net message_of runId token key previous find effect lost t = (r, actions, x) →
  Acted ∈ actions →
  let t1 := env 1%nat t in
  actions = [Acted] ∧ lost = false ∧ net 1%nat = Delivered ∧ net 2%nat = Delivered
  ∧ owned_by token t1 = true
  ∧ ∃ s, t_steps t1 !! key = Some s ∧ step_claimable token s = true
      ∧ owned_by token
          (env 2%nat (t1 <| t_steps ::= <[key := claimed_step (now 1%nat) token s]> |>)) = true.
Proof.
  intros Heq Hact t1. unfold claim_and_run in Heq.
  destruct (request _ _ _ _ 1 _ t) as [[[]|e] t2] eqn:Hreq.
  - unfold request in Hreq. destruct (net 1%nat) eqn:Hn; [|by simplify_eq..].
    destruct (requirePublicationStepClaim _ _ _ _) as [[[]|f] t3] eqn:Hc; [|by simplify_eq].
    simplify_eq. apply required_claim in Hc as (Ho & s & Hs & Hcl & ->).
    apply (attempt_acts now env net message_of) in Heq as (-> & -> & Hn2 & Ho2); [|done]. eauto 10.
  - destruct (negb _); [simplify_eq; by apply elem_of_nil in Hact|].
    revert Heq. repeat case_match; intros [= <- <- <-];
      apply list_elem_of_singleton in Hact; discriminate.
Qed.

(** Every failure another attempt may repair concerns the publication. *)
Lemma retry_scope e :
  cl_retry (classifyPublicationFailure e) = true →
  cl_scope (classifyPublicationFailure e) = PublicationScope.
Proof. unfold classifyPublicationFailure. by repeat case_match. Qed.

(** * The properties *)

(** C9: the connector acts on GitHub at most once per call of a step, whatever other workers and the
    network do meanwhile, and only under a claim it can prove: the claim of the step was
    answered, so the step had attempts left, was neither concluded nor already claimed by
    this owner, and one attempt is counted; and the publication was this owner's once
    more, asked right before acting, and never in doubt since the pass began. *)
Theorem effect_needs_fresh_claim now env net message_of runId token key find effect lost t r actions x :
  runPublicationStep now env net message_of runId token key find effect lost t = (r, actions, x) →
  Acted ∈ actions →
  let t1 := env 1%nat (env 0%nat t) in
  actions = [Acted] ∧ lost = false ∧ net 1%nat = Delivered ∧ net 2%nat = Delivered
  ∧ owned_by token t1 = true
  ∧ ∃ s, t_steps t1 !! key = Some s ∧ step_claimable token s = true
      ∧ owned_by token
          (env 2%nat (t1 <| t_steps ::= <[key := claimed_step (now 1%nat) token s]> |>)) = true.
Proof.
  intros Heq Hact. unfold runPublicationStep in Heq.
  assert (Hrows : (request now env net message_of 0 (list_steps runId) t).2 = env 0%nat t).
  { unfold request, list_steps. destruct (net 0%nat); try done;
      by destruct (rowToRecord runId _) as [[]|]. }
  destruct (request _ _ _ _ _ _ _) as [[steps|e] t1]; simpl in Hrows; subst t1;
    [|simplify_eq; by apply elem_of_nil in Hact].
  revert Heq. destruct (snd <$> _) as [s|]; [destruct (step_is Step.succeeded s)|].
  - intros [= <- <- <-]. by apply elem_of_nil in Hact.
  - intros Heq. by eapply claim_acts.
  - intros Heq. by eapply claim_acts.
Qed.

(** C4: over any number of calls, by any workers, with any loss of messages and any crash of
    the remote side, the effect of one step is performed at most three times in all, less
    the attempts already counted, as long as the others give no attempts back, which only
    an operator's resume does. *)
Theorem effects_bounded message_of runId key rounds t :
  run_inv t → Forall (λ rd, env_ok key (rd_env rd)) rounds →
  attempts key t + effects (run_rounds message_of runId key rounds t) <= MAX_PUBLICATION_STEP_ATTEMPTS.
Proof.
  intros H Hr. revert t H. induction Hr as [|rd rest Hrd _ IH]; intros t H; simpl.
  { pose proof (attempts_bounded key t H). unfold effects. simpl. lia. }
  pose proof (runPublicationStep_spent (rd_now rd) (rd_env rd) (rd_net rd) message_of key Hrd runId
    (rd_token rd) (rd_find rd) (rd_effect rd) (rd_lost rd) t H) as [H1 Ha].
  destruct (runPublicationStep _ _ _ _ _ _ _ _ _ _ _) as [[r actions] [lost t1]]. simpl in *.
  rewrite effects_app. specialize (IH t1 H1). lia.
Qed.

(** A transaction of any store, of any connector and at any time, that leaves a publication
    step with fewer attempts than it had is an operator's resume of that very run; every
    other one keeps the run and counts at least as many attempts. *)
Theorem only_resume_gives_attempts_back parse_url cfg now o d k t key :
  d_runs d !! k = Some t →
  ∃ t', d_runs (run_op parse_url cfg now o d).2 !! k = Some t' ∧
    (attempts key t' < attempts key t → ∃ seen, o = OpResume k seen).
Proof.
  intros Ht. destruct (resumes_dec k o) as [[seen ->]|Ho].
  - destruct (resume_keeps_run cfg now k seen d) as [t' Ht']; [by exists t|]. by eauto.
  - destruct (run_op_counted parse_url cfg now k key (attempts key t) o d Ho) as (t' & Ht' & Hn).
    { by exists t. }
    exists t'. split; [done|]. lia.
Qed.

(** C23: how an undisturbed call ends a step, by the step it finds: a concluded one is reported
    without acting; a claimable one is attempted once, and its status afterwards is the
    answer of GitHub as the connector classifies it; one without attempts left is only
    looked for, and ends as succeeded when its effect exists and as failed for good when
    it is absent.  A look that could not be performed leaves the step as it was,
    uncertain, and spends none of its reconciliation budget. *)
Theorem publication_step_outcomes parse_url message_of now d k t u token key find effect :
  reachable parse_url d → d_runs d !! k = Some t → t_pub t = Some u →
  owns_publication token u = true →
  ∃ r actions lost' t', runPublicationStep now quiet delivered message_of k token key find effect false t
      = (r, actions, (lost', t')) ∧
    match t_steps t !! key with
    | None => r = inr (refused message_of not_claimable) ∧ actions = [] ∧ t_steps t' = t_steps t
    | Some s =>
        if step_is Step.succeeded s then
          r = inl {| sr_remote := recordedRemote s; sr_already_succeeded := true;
                     sr_reconciled := false; sr_previous_attempts := s_attempt_count s |}
          ∧ actions = [] ∧ t' = t
        else if step_claimable token s then
          actions = [Acted] ∧ ∃ s', t_steps t' = <[key := s']> (t_steps t)
            ∧ s_attempt_count s' = s_attempt_count s + 1 ∧ s_status s' = attempted_status effect
            ∧ match effect with
              | inl created =>
                  let remote := coalesce created {| remote_id := None; remote_url := None |} in
                  r = inl {| sr_remote := remote; sr_already_succeeded := false;
                             sr_reconciled := false; sr_previous_attempts := s_attempt_count s |}
                  ∧ recordedRemote s' = remote
              | inr e => r = inr e
              end
        else if needs_reconciliation s then
          actions = [Looked] ∧ ∃ s', t_steps t' = <[key := s']> (t_steps t)
            ∧ s_attempt_count s' = s_attempt_count s ∧ s_status s' = looked_status find
            ∧ match find with
              | inl (Some remote) =>
                  r = inl {| sr_remote := remote; sr_already_succeeded := true;
                             sr_reconciled := true; sr_previous_attempts := s_attempt_count s |}
                  ∧ recordedRemote s' = remote
              | inl None => r = inr (refused message_of retry_exhausted)
              | inr e => r = inr e ∧ s_recovery_attempt_count s' = s_recovery_attempt_count s
              end
        else r = inr (refused message_of not_claimable) ∧ actions = [] ∧ t_steps t' = t_steps t
    end.
Proof.
  intros Hd Ht Hu Ho. destruct (di_runs _ (reachable_inv _ d Hd) k t Ht) as (Hinv & Hr & _).
  destruct (representable k t Hinv Hr) as (run & _ & _ & _ & Hrec & _).
  unfold runPublicationStep.
  assert (Hlist : request now quiet delivered message_of 0 (list_steps k) t
    = (inl (sort_by (λ x y, String.leb x.1 y.1) (map_to_list (t_steps t))), t)).
  { unfold request, delivered, quiet, list_steps. by rewrite Hrec. }
  rewrite Hlist, listed_step. clear Hlist Hrec.
  destruct (t_steps t !! key) as [s|] eqn:Hs.
  - destruct (step_is Step.succeeded s); [by eexists _, _, _, _|].
    destruct (step_claimable token s) eqn:Hc.
    + by apply (claimed_call now message_of k token key find effect _ t u s).
    + destruct (needs_reconciliation s) eqn:Hn.
      * by apply (exhausted_call now message_of k token key find effect _ t u s).
      * destruct (refused_call now message_of k token key find effect (s_attempt_count s) t u Hinv Hu Ho)
          as (t' & -> & ?); [by rewrite Hs|]. by eexists _, _, _, _.
  - destruct (refused_call now message_of k token key find effect 0 t u Hinv Hu Ho)
      as (t' & -> & ?); [by rewrite Hs|]. by eexists _, _, _, _.
Qed.

(** How an undisturbed pass over a claimed publication ends: it is published exactly when the
    publisher returned without an error, under a claim that was never in doubt, and every
    step of the set succeeded; it is failed for good when steps are missing or the error
    is one no retry repairs, given back for a retry when one may; and in each of these
    cases nobody owns it afterwards.  A pass that lost its claim writes nothing more. *)
Theorem pass_outcomes message_of now k token operation t u r actions lost t2 :
  run_inv t → t_pub t = Some u → owns_publication token u = true →
  operation false (t <| t_pub := Some (renewed (now 0%nat) u) |>) = (r, actions, (lost, t2)) →
  run_inv t2 →
  ∃ res t', publish_claimed now quiet delivered message_of k token operation t = (res, actions, t') ∧
    match r with
    | inr e =>
        if te_claim_lost e then res = PassClaimLost ∧ t' = t2
        else
          let retry := cl_retry (classifyPublicationFailure e) in
          res = PassFailed retry (owned_by token t2)
          ∧ if owned_by token t2 then released (if retry then Pub.pending else Pub.failed) t2 t'
            else t' = t2
    | inl _ =>
        if lost || negb (owned_by token t2) then res = PassClaimLost ∧ t' = t2
        else
          let complete_ := negb (any_step (λ s, negb (step_is Step.succeeded s)) (t_steps t2)) in
          res = (if complete_ then PassCompleted else PassFailed false true)
          ∧ released (if complete_ then Pub.published else Pub.failed) t2 t'
    end.
Proof.
  intros H Hu Ho Hop H2. unfold publish_claimed, withPublicationHeartbeat.
  rewrite (quiet_renew now message_of 0 k token t u) by done.
  change (request now quiet delivered message_of 1 (λ _ t, (Ok tt, t)) ?x) with (inl tt : outcome_of unit, x).
  cbn iota beta. rewrite Hop. destruct r as [[]|e].
  - destruct lost; [by eexists _, _|]. destruct (owned_by token t2) eqn:Ho2.
    2:{ rewrite (quiet_renew_lost now message_of 2) by done. by eexists _, _. }
    apply owned_by_true in Ho2 as (u2 & Hu2 & Ho2).
    rewrite (quiet_renew now message_of 2 k token t2 u2) by done. cbn iota beta. simpl negb. cbn iota.
    destruct (quiet_conclude now message_of token (t2 <| t_pub := Some (renewed (now 2%nat) u2) |>)
      (renewed (now 2%nat) u2)) as (t' & Heq & Hrel); [by eapply renewed_inv|done|done|].
    set (all := negb (any_step _ (t_steps t2))). change (negb (any_step _ _)) with all in Heq, Hrel.
    destruct all; [rewrite Heq|destruct Heq as [-> ->]]; by eexists _, t'.
  - destruct (te_claim_lost e) eqn:Hl.
    + unfold fail_pass. rewrite Hl. by eexists _, _.
    + destruct (quiet_fail_pass now message_of token 5 e t2 H2 Hl) as (t' & -> & Hrel).
      by eexists _, t'.
Qed.

(** A repository delivery whose effect cannot be looked for a third time is lost: the batch
    parks the step and stops with an error that names no cause to the pass, the pass gives
    the publication back for a retry, and from then on it waits with a parked step, so that
    no claim takes it, nothing lists it as parked and no operator decision applies. *)
Theorem third_failed_look_strands parse_url message_of now d k t u s token key delivery effect lost e :
  reachable parse_url d → d_runs d !! k = Some t → t_pub t = Some u →
  owns_publication token u = true → t_steps t !! key = Some s → s_status s = Step.uncertain →
  s_recovery_attempt_count s + 1 = MAX_PUBLICATION_STEP_RECOVERY_ATTEMPTS →
  te_claim_lost e = false → cl_retry (classifyPublicationFailure e) = true →
  ∃ stop t1 t2,
    publish_delivery now quiet delivered message_of k token key delivery (Some s) (inr e) effect lost t
      = (inr stop, [Looked], (lost, t1))
    ∧ fail_pass now quiet delivered message_of 5 token stop t1 = (PassFailed true true, t2)
    ∧ (∃ u2, t_pub t2 = Some u2 ∧ u_status u2 = Pub.pending)
    ∧ any_step (step_is Step.disconnected) (t_steps t2) = true
    ∧ ∀ cfg n, pub_claimable cfg n t2 = false ∧ parked_of_run (k, t2) = []
        ∧ resumeDisconnectedRun n k t2 t2 = Err (HttpStatus 409 "no resumable disconnected axis")
        ∧ (∀ reason, blank reason = false → giveUpDisconnectedRun n k reason t2 t2
             = Err (HttpStatus 409 "no resumable disconnected axis")).
Proof.
  intros Hd Ht Hu Ho Hs Hst Hrc Hl Hretry.
  destruct (di_runs _ (reachable_inv _ d Hd) k t Ht) as (H & Hrun & _).
  destruct (third_look now message_of k token key delivery effect lost e t u s H Hu Ho Hs Hst Hrc Hl
    Hretry (retry_scope e Hretry)) as (t1 & Hpub & H1 & Hrun1 & u1 & Hu1 & Hst1 & Ho1).
  set (stop := delivery_error _) in *.
  set (err := {| err_code := None; err_message := te_message stop |}).
  destruct (wpt_ok _ _ _ (retry_strands (now 5%nat) token err t1 u1 H1 Hu1 Hst1 Ho1))
    as (b & t2 & Hf & -> & Hstr).
  pose proof (failPublication_good (now 5%nat) token err true t1 H1) as Hg. unfold wpe in Hg.
  rewrite Hf in Hg. destruct Hg as [H2 Hev]. exists stop, t1, t2. split; [done|]. split.
  { change (fail_pass now quiet delivered message_of 5 token stop t1) with
      (match request now quiet delivered message_of 5 (serve (λ n, failPublication n token err true)) t1 with
       | (inl committed, t1) => (PassFailed true committed, t1)
       | (inr e', t1) => (PassThrew e', t1)
       end).
    by rewrite (quiet_tx now message_of 5 _ t1 true t2). }
  destruct (sd_pub _ Hstr) as (u2 & Hu2 & Hus2).
  split; [by exists u2|]. split; [apply Hstr|]. intros cfg n. apply stranded_answers; [done| |done].
  by rewrite (ev_run_same _ _ Hev), Hrun1.
Qed.

(** The service's answers reach the connector as they are meant: of the failures a claim or an
    initialisation of steps can end with, the refusals arrive as verdicts no retry repairs,
    which concern the step and keep their code, and every other failure arrives without a
    code as one that concerns the whole publication and stays retryable.  What never got an
    answer, or got a proxy's, is never taken for the verdict that the attempts are spent. *)
Theorem refusals_classified message_of now token key keys f t t' :
  initializePublicationSteps now token keys t = Err f
  ∨ requirePublicationStepClaim now token key t = (Err f, t') →
  let c := classifyPublicationFailure (served message_of f) in
  match f with
  | Deterministic code =>
      code ∈ [set_duplicate; set_changed; retry_exhausted; not_claimable]
      ∧ cl_retry c = false ∧ cl_scope c = StepScope ∧ cl_code c = Some code
  | _ => cl_retry c = true ∧ cl_scope c = PublicationScope ∧ cl_code c = None
  end
  ∧ ∀ e, isPublicationStepExhausted e = true → te_deterministic e = false →
      match te_status e with None => True | Some n => 500 <= n end →
      cl_retry (classifyPublicationFailure e) = true.
Proof.
  intros Hf c. split.
  - assert (Hb : step_failure f = true).
    { destruct Hf as [Hf|Hf]; [|by eapply require_throws].
      pose proof (initialize_throws now token keys t) as Hi. unfold wpe in Hi. by rewrite Hf in Hi. }
    subst c. destruct f as [c|c|c|c|m|k m|n m|code|r]; try done. apply bool_decide_eq_true in Hb.
    split; [done|]. repeat (apply elem_of_cons in Hb as [->|Hb]; [by repeat split|]).
    by apply elem_of_nil in Hb.
  - intros e He Hd Hs. unfold classifyPublicationFailure. rewrite Hd, He. simpl.
    unfold isTransportFault. destruct (te_status e); [|done]. by apply Z.leb_le.
Qed.

(** * Witnesses *)

Definition message_text (f : failure) : string := "Review Runs refused the request.".
Definition clock9 : nat → Z := λ _, minute 9.
(** GitHub answered with a server error. *)
Definition bad_gateway : thrown_error := {|
  te_claim_lost := false; te_deterministic := false; te_code := None; te_status := Some 502;
  te_message := "Bad gateway"; te_retry_after := None; te_rate_remaining := None;
  te_response_message := None |}.

Lemma effect_needs_fresh_claim_witness :
  let call := runPublicationStep clock9 quiet delivered message_text "run-1" "pub-1" "branch"
                (inl None) (inl (Some remote1)) false (stored publish_script) in
  Acted ∈ call.1.2 ∧ call.1.2 = [Acted] ∧ owned_by "pub-1" (stored publish_script) = true.
Proof.
  intros call. assert (Hact : Acted ∈ call.1.2).
  { assert (Hc : call.1.2 = [Acted]) by evaluate. rewrite Hc. apply list_elem_of_here. }
  destruct call as [[r actions] x] eqn:Heq. split; [exact Hact|].
  destruct (effect_needs_fresh_claim clock9 quiet delivered message_text "run-1" "pub-1" "branch"
    (inl None) (inl (Some remote1)) false (stored publish_script) r actions x Heq Hact)
    as (Hone & _ & _ & _ & Ho & _).
  exact (conj Hone Ho).
Defined.

(** Four calls whose effect fails, while a worker without the claim asks for the step too. *)
Definition rival : nat → run_rows → run_rows := λ _ t,
  (requirePublicationStepClaim (minute 9) "pub-2" "branch" t).2.
Definition failing_round : round := {|
  rd_now := clock9; rd_env := rival; rd_net := delivered; rd_token := "pub-1"; rd_lost := false;
  rd_find := inr bad_gateway; rd_effect := inr bad_gateway |}.

Lemma effects_bounded_witness :
  let rounds := [failing_round; failing_round; failing_round; failing_round] in
  effects (run_rounds message_text "run-1" "branch" rounds (stored publish_script)) = 3
  ∧ attempts "branch" (stored publish_script)
    + effects (run_rounds message_text "run-1" "branch" rounds (stored publish_script)) <= 3.
Proof.
  intros rounds. split; [evaluate|].
  assert (Hr : reachable file_url (after publish_script)) by (by apply after_reachable).
  assert (Henv : env_ok "branch" rival).
  { intros i t H. pose proof (require_spends (minute 9) "pub-2" "branch" t H) as [Hi Ha].
    split; [exact Hi|]. unfold rival. rewrite Ha. destruct (requirePublicationStepClaim _ _ _ t).1; lia. }
  apply (effects_bounded message_text "run-1" "branch" rounds (stored publish_script)).
  - apply (reachable_run_inv file_url (after publish_script) "run-1"); [exact Hr|evaluate].
  - repeat (constructor; [exact Henv|]). constructor.
Defined.

Lemma only_resume_gives_attempts_back_witness :
  let t := stored disconnect_script in
  attempts "branch" t = 3 ∧
  ∃ t', d_runs (run_op file_url gh (minute 12) (OpResume "run-1" t) (after disconnect_script)).2 !! "run-1"
      = Some t' ∧ attempts "branch" t' = 0 ∧ ∃ seen, OpResume "run-1" t = OpResume "run-1" seen.
Proof.
  intros t. assert (Ha : attempts "branch" t = 3) by evaluate. split; [exact Ha|].
  destruct (only_resume_gives_attempts_back file_url gh (minute 12) (OpResume "run-1" t)
    (after disconnect_script) "run-1" t "branch") as (t' & Ht' & Hlow); [evaluate|].
  exists t'. split; [exact Ht'|].
  assert (H0 : attempts "branch" t' = 0) by (vm_compute in Ht'; injection Ht' as <-; evaluate).
  split; [exact H0|]. apply Hlow. rewrite H0, Ha. done.
Defined.

Lemma publication_step_outcomes_witness :
  ∃ r actions lost' t' s', runPublicationStep clock9 quiet delivered message_text "run-1" "pub-1" "branch"
      (inr bad_gateway) (inl (Some remote1)) false (stored exhaust_script) = (r, actions, (lost', t'))
    ∧ actions = [Looked] ∧ t_steps t' = <["branch" := s']> (t_steps (stored exhaust_script))
    ∧ s_status s' = Step.uncertain ∧ r = inr bad_gateway.
Proof.
  assert (Hr : reachable file_url (after exhaust_script)) by (by apply after_reachable).
  stored_pub exhaust_script u Hu.
  assert (Ho : owns_publication "pub-1" u = true) by (vm_compute in Hu; by injection Hu as <-).
  destruct (publication_step_outcomes file_url message_text clock9 (after exhaust_script) "run-1"
    (stored exhaust_script) u "pub-1" "branch" (inr bad_gateway) (inl (Some remote1)) Hr)
    as (r & actions & lost' & t' & Heq & Hcase); [evaluate|exact Hu|exact Ho|].
  destruct (t_steps (stored exhaust_script) !! "branch") as [s|] eqn:Hs;
    [|vm_compute in Hs; discriminate Hs].
  assert (Hb : step_is Step.succeeded s = false ∧ step_claimable "pub-1" s = false
               ∧ needs_reconciliation s = true).
  { vm_compute in Hs. injection Hs as <-. repeat split; reflexivity. }
  destruct Hb as (Hb1 & Hb2 & Hb3). rewrite Hb1, Hb2, Hb3 in Hcase.
  destruct Hcase as (Hact & s' & Hs' & _ & Hst & Hr' & _).
  exists r, actions, lost', t', s'. exact (conj Heq (conj Hact (conj Hs' (conj Hst Hr')))).
Defined.

(** A publisher that finds nothing left to do. *)
Definition idle_publisher : publisher := λ lost t, (inl tt, [], (lost, t)).

Lemma pass_outcomes_witness :
  let script := branch_script ++ step_script "review" in
  ∃ t', publish_claimed clock9 quiet delivered message_text "run-1" "pub-1" idle_publisher (stored script)
      = (PassCompleted, [], t')
    ∧ ∃ u', t_pub t' = Some u' ∧ u_status u' = Pub.published.
Proof.
  intros script. assert (Hr : reachable file_url (after script)) by (by apply after_reachable).
  stored_pub script u Hu.
  assert (Ho : owns_publication "pub-1" u = true) by (vm_compute in Hu; by injection Hu as <-).
  assert (Hinv : run_inv (stored script)).
  { apply (reachable_run_inv file_url (after script) "run-1"); [exact Hr|evaluate]. }
  set (t2 := (stored script) <| t_pub := Some (renewed (clock9 0%nat) u) |>).
  assert (Hinv2 : run_inv t2) by (by apply (renewed_inv _ "pub-1" _ u)).
  destruct (pass_outcomes message_text clock9 "run-1" "pub-1" idle_publisher (stored script) u
    (inl tt) [] false t2 Hinv Hu Ho eq_refl Hinv2) as (res & t' & Heq & Hcase).
  assert (Hb : owned_by "pub-1" t2 = true) by exact Ho.
  rewrite Hb in Hcase. cbn [negb orb] in Hcase.
  assert (Hall : negb (any_step (λ s, negb (step_is Step.succeeded s)) (t_steps t2)) = true) by evaluate.
  rewrite Hall in Hcase. destruct Hcase as (-> & _ & u' & Hu' & Hst & _).
  exists t'. split; [exact Heq|]. exists u'. exact (conj Hu' Hst).
Defined.

(** Two looks have failed already. *)
Definition two_looks_script : list (store_config * Z * op) :=
  take (length disconnect_script - 1) disconnect_script.

Lemma third_failed_look_strands_witness :
  ∃ s stop t1 t2,
    publish_delivery clock9 quiet delivered message_text "run-1" "pub-1" "branch" "d-1" (Some s)
      (inr bad_gateway) (inl remote1) false (stored two_looks_script) = (inr stop, [Looked], (false, t1))
    ∧ fail_pass clock9 quiet delivered message_text 5 "pub-1" stop t1 = (PassFailed true true, t2)
    ∧ (∀ n, pub_claimable gh n t2 = false).
Proof.
  assert (Hr : reachable file_url (after two_looks_script)) by (by apply after_reachable).
  stored_pub two_looks_script u Hu.
  assert (Ho : owns_publication "pub-1" u = true) by (vm_compute in Hu; by injection Hu as <-).
  destruct (t_steps (stored two_looks_script) !! "branch") as [s|] eqn:Hs;
    [|vm_compute in Hs; discriminate Hs].
  assert (Hb : s_status s = Step.uncertain ∧ s_recovery_attempt_count s + 1 = 3).
  { vm_compute in Hs. injection Hs as <-. split; reflexivity. }
  destruct (third_failed_look_strands file_url message_text clock9 (after two_looks_script) "run-1"
    (stored two_looks_script) u s "pub-1" "branch" "d-1" (inl remote1) false bad_gateway Hr)
    as (stop & t1 & t2 & H1 & H2 & _ & _ & Hans);
    [evaluate|exact Hu|exact Ho|exact Hs|apply Hb|apply Hb|reflexivity|reflexivity|].
  exists s, stop, t1, t2. split; [exact H1|]. split; [exact H2|]. intros n. apply (Hans gh n).
Defined.

Lemma refusals_classified_witness :
  ∃ t', requirePublicationStepClaim (minute 10) "pub-1" "branch" (stored exhaust_script)
      = (Err (Deterministic retry_exhausted), t')
    ∧ cl_retry (classifyPublicationFailure (served message_text (Deterministic retry_exhausted))) = false.
Proof.
  destruct (requirePublicationStepClaim (minute 10) "pub-1" "branch" (stored exhaust_script))
    as [r t'] eqn:Heq.
  assert (Hr : (requirePublicationStepClaim (minute 10) "pub-1" "branch" (stored exhaust_script)).1
               = Err (Deterministic retry_exhausted)) by evaluate.
  rewrite Heq in Hr. simpl in Hr. subst r. exists t'. split; [reflexivity|].
  destruct (refusals_classified message_text (minute 10) "pub-1" "branch" [] (Deterministic retry_exhausted)
    (stored exhaust_script) t' (or_intror Heq)) as [(_ & Hret & _) _].
  exact Hret.
Defined.
