(* ===== verification/RunListProperties.v ===== *)
(** What the run list comes to: a cursor survives the wire, and following the cursors reads
    the whole list, every run once. *)

From S2P Require Import Prelude Schema Tables Database RunRecord ExecutionStore Queries.
From S2P Require Import PreparationStore Statistics StatisticsStore RunList Admission System Scenario.
From Stdlib Require DecimalString DecimalZ DecimalFacts.

(** * base64url *)

Lemma char_of_sextet x : char_sextet (sextet_char x) = Some x ∧ Ascii.eqb (sextet_char x) padding = false.
Proof. by destruct x as [[] [] [] [] [] []]. Qed.

Lemma read_sextet x s : read_sextets (String (sextet_char x) s) = x :: read_sextets s.
Proof. destruct (char_of_sextet x) as [Hc Hp]. cbn [read_sextets]. by rewrite Hp, Hc. Qed.

Lemma base64url_roundtrip_length n s :
  (String.length s <= n)%nat → of_base64url (to_base64url s) = s.
Proof.
  revert s. induction n as [|n IH]; intros s Hn; [destruct s; simpl in Hn; [done|lia]|].
  destruct s as [|[a0 a1 a2 a3 a4 a5 a6 a7] [|[b0 b1 b2 b3 b4 b5 b6 b7] [|[c0 c1 c2 c3 c4 c5 c6 c7] s]]];
    unfold of_base64url; cbn [to_base64url]; rewrite ?read_sextet; cbn [join_sextets read_sextets];
    [done..|].
  do 3 f_equal. apply IH. simpl in Hn. lia.
Qed.

(** * Cursors *)

(** Text without a bar. *)
Fixpoint no_bar (s : string) : bool :=
  match s with
  | EmptyString => true
  | String a rest => negb (Ascii.eqb a bar) && no_bar rest
  end.

Fixpoint ascii_only (s : string) : bool :=
  match s with
  | EmptyString => true
  | String a rest => (Ascii.N_of_ascii a <? 128)%N && ascii_only rest
  end.

(** Half of a cursor that its wire form keeps apart. *)
Definition cursor_text (s : string) : bool :=
  negb (String.eqb s "") && no_bar s && ascii_only s.

Lemma cursor_text_true s :
  cursor_text s = true → String.eqb s "" = false ∧ no_bar s = true ∧ ascii_only s = true.
Proof.
  unfold cursor_text. intros H. apply andb_true_iff in H as [H Ha].
  apply andb_true_iff in H as [He Hb]. apply negb_true_iff in He. done.
Qed.

Lemma split_no_bar s : no_bar s = true → split_bar s = [s].
Proof.
  induction s as [|a s IH]; [done|]. simpl. intros [Ha Hs]%andb_true_iff.
  apply negb_true_iff in Ha. by rewrite Ha, IH.
Qed.

Lemma split_joined s s' : no_bar s = true → no_bar s' = true → split_bar (s +:+ "|" +:+ s') = [s; s'].
Proof.
  intros Hs Hs'. induction s as [|a s IH]; simpl.
  - by rewrite split_no_bar.
  - simpl in Hs. apply andb_true_iff in Hs as [Ha Hs]. apply negb_true_iff in Ha.
    by rewrite Ha, IH.
Qed.

Lemma split_parts s part : part ∈ split_bar s → no_bar part = true.
Proof.
  revert part. induction s as [|a s IH]; intros part Hin; simpl in Hin.
  { by apply list_elem_of_singleton in Hin as ->. }
  destruct (Ascii.eqb a bar) eqn:Ha.
  - apply elem_of_cons in Hin as [->|Hin]; [done|by apply IH].
  - destruct (split_bar s) as [|p ps].
    + apply list_elem_of_singleton in Hin as ->. simpl. by rewrite Ha.
    + apply elem_of_cons in Hin as [->|Hin]; [|apply IH; set_solver].
      simpl. rewrite Ha. apply IH. set_solver.
Qed.

(** * Pages *)

Definition listed (cfg : store_config) (o : ListRunsOptions) (d : db) : list (string * run_rows) :=
  sort_by newest_first (select_runs cfg (λ _, false) (row_matches o) d).

Lemma before_strict x y : before (created_at y.2) y.1 x = negb (order_by created_at y x).
Proof.
  unfold before, order_by.
  assert (Hs : String.ltb x.1 y.1 = negb (String.leb y.1 x.1)).
  { unfold String.ltb, String.leb. rewrite (String.compare_antisym y.1 x.1).
    by destruct (String.compare x.1 y.1). }
  rewrite Hs. destruct (Ztrichotomy_inf (created_at x.2) (created_at y.2)) as [[H|H]|H].
  - rewrite (proj2 (Z.ltb_lt _ _) H), (proj2 (Z.ltb_ge _ _)) by lia.
    by rewrite (proj2 (Z.eqb_neq (created_at y.2) (created_at x.2))) by lia.
  - rewrite H, Z.ltb_irrefl, Z.eqb_refl. done.
  - rewrite (proj2 (Z.ltb_ge _ _)) by lia. rewrite (proj2 (Z.eqb_neq (created_at x.2) _)) by lia.
    by rewrite (proj2 (Z.ltb_lt (created_at y.2) _)) by lia.
Qed.

(** Rows of a table: the id names the row. *)
Definition keyed (l : list (string * run_rows)) : Prop :=
  ∀ x y, x ∈ l → y ∈ l → x.1 = y.1 → x = y.

Lemma newest_antisymm l x y :
  keyed l → x ∈ l → y ∈ l → newest_first x y = true → newest_first y x = true → x = y.
Proof.
  unfold newest_first. rewrite !order_by_true. intros Hk Hx Hy [?|[? H1]] [?|[? H2]]; try lia.
  apply Hk; [done..|]. by apply String.leb_antisym.
Qed.

Lemma newest_sorted l : StronglySorted (λ x y, newest_first x y = true) (sort_by newest_first l).
Proof.
  apply Sorted_StronglySorted.
  - intros x y z Hxy Hyz. unfold newest_first in *. by eapply order_by_trans.
  - apply sort_by_sorted. intros x y. apply order_by_total.
Qed.

Lemma filter_perm {A} (f : A → bool) (l l' : list A) : l ≡ₚ l' → List.filter f l ≡ₚ List.filter f l'.
Proof.
  induction 1 as [|x l l' _ IH|x y l|l l' l'' _ IH1 _ IH2]; simpl; [done| | |by rewrite IH1].
  - destruct (f x); [by constructor|done].
  - destruct (f x), (f y); try done. constructor.
Qed.

Lemma filter_all {A} (f : A → bool) (l : list A) (b : bool) :
  (∀ x, x ∈ l → f x = b) → List.filter f l = if b then l else [].
Proof.
  induction l as [|x l IH]; intros H; [by destruct b|]. simpl.
  rewrite (H x) by apply list_elem_of_here. rewrite IH; [by destruct b|].
  intros y Hy. apply H. by apply list_elem_of_further.
Qed.

(** What follows a row in the list is what the cursor of that row selects. *)
Lemma after_cursor rows l1 y l2 :
  keyed rows → NoDup rows → sort_by newest_first rows = l1 ++ y :: l2 →
  sort_by newest_first (List.filter (before (created_at y.2) y.1) rows) = l2.
Proof.
  intros Hk Hnd Heq. pose proof (sort_by_perm newest_first rows) as Hp. rewrite Heq in Hp.
  pose proof (newest_sorted rows) as Hs. rewrite Heq in Hs.
  assert (Hin : ∀ x, x ∈ l1 ++ y :: l2 → x ∈ rows) by (intros x Hx; by rewrite <- Hp).
  assert (Hnd' : NoDup (l1 ++ y :: l2)) by by rewrite Hp.
  apply NoDup_app in Hnd' as (_ & _ & [Hy Hnd2]%NoDup_cons).
  apply StronglySorted_app in Hs as (Hrel & _ & Hs). apply StronglySorted_inv in Hs as [Hs2 Hall].
  rewrite Forall_forall in Hall.
  assert (Hf : List.filter (before (created_at y.2) y.1) rows ≡ₚ l2).
  { rewrite (filter_perm _ _ _ (symmetry Hp)), List.filter_app. simpl.
    rewrite (filter_all _ l1 false), (filter_all _ l2 true).
    - simpl. rewrite before_strict. destruct (order_by_total created_at y y) as [-> | ->]; done.
    - intros x Hx. rewrite before_strict. apply negb_true_iff, not_true_is_false. intros Hyx.
      assert (x = y); [|by subst].
      apply (newest_antisymm rows); [done| | |done|by apply Hall].
      + apply Hin. set_solver.
      + apply Hin. set_solver.
    - intros x Hx. rewrite before_strict. apply negb_false_iff. apply Hrel; [done|set_solver]. }
  apply (StronglySorted_unique_strong (λ x y, newest_first x y = true)); [|apply newest_sorted|done|].
  - intros x1 x2 H1 H2. apply (newest_antisymm rows); [done| |apply Hin; set_solver].
    rewrite sort_by_perm, Hf in H1. apply Hin. set_solver.
  - by rewrite sort_by_perm.
Qed.

Lemma project_app l l' :
  pr_runs (projectRunRows (l ++ l')) = pr_runs (projectRunRows l) ++ pr_runs (projectRunRows l')
  ∧ pr_dropped (projectRunRows (l ++ l'))
    = pr_dropped (projectRunRows l) ++ pr_dropped (projectRunRows l').
Proof.
  induction l as [|[k t] l [IH1 IH2]]; [done|]. simpl.
  destruct (rowToRecord k t) as [[r|e]|]; simpl; by rewrite IH1, IH2.
Qed.

Lemma join_cons {A B} (f : A → list B) x l : mjoin (f <$> x :: l) = f x ++ mjoin (f <$> l).
Proof. done. Qed.

Lemma project_length l :
  (length (pr_runs (projectRunRows l)) + length (pr_dropped (projectRunRows l)) <= length l)%nat.
Proof.
  induction l as [|[k t] l IH]; [done|]. simpl. destruct (rowToRecord k t) as [[r|e]|]; simpl; lia.
Qed.

Lemma selected_keyed cfg w d : keyed (select_runs cfg (λ _, false) w d).
Proof.
  intros [k t] [k' t'] (Hx & _)%elem_of_select_runs (Hy & _)%elem_of_select_runs ?. simpl in *. congruence.
Qed.

Lemma selected_nodup cfg w d : NoDup (select_runs cfg (λ _, false) w d).
Proof.
  unfold select_runs. apply NoDup_ListNoDup, List.NoDup_filter, NoDup_ListNoDup, NoDup_map_to_list.
Qed.

(** A caller that follows the cursors from page to page. *)
Fixpoint walk_pages (utf8 : string → string) (date_parses : string → bool)
    (timestamp_text : Z → string) (timestamp_of : string → option Z) (cfg : store_config)
    (fuel : nat) (o : ListRunsOptions) (d : db) : result (list run_page) :=
  match fuel with
  | O => Ok []
  | S fuel' =>
      match listRunsPage utf8 date_parses timestamp_text timestamp_of cfg o d with
      | Err e => Err e
      | Ok p =>
          match pg_next_cursor p with
          | None => Ok [p]
          | Some c =>
              match walk_pages utf8 date_parses timestamp_text timestamp_of cfg fuel'
                   {| o_limit := o_limit o; o_cursor := Some c;
                      o_execution_status := o_execution_status o;
                      o_publication_status := o_publication_status o;
                      o_preparation_status := o_preparation_status o;
                      o_source_platform := o_source_platform o; o_workflow := o_workflow o;
                      o_from := o_from o; o_to := o_to o |} d with
              | Err e => Err e
              | Ok rest => Ok (p :: rest)
              end
          end
      end
  end.
(** Up to the end of the year 9999. *)
Definition in_range (n : Z) : Prop := 0 <= n < 253402300800000000.

(** The rows a cursor can name. *)
Definition listable (d : db) : Prop :=
  ∀ k t, d_runs d !! k = Some t → cursor_text k = true ∧ in_range (created_at t).

Section Walk.
Context (utf8 : string → string) (date_parses : string → bool).
Context (timestamp_text : Z → string) (timestamp_of : string → option Z).
Context (Hutf8 : ∀ s, ascii_only s = true → utf8 s = s).
Context (Htime : ∀ n, in_range n → cursor_text (timestamp_text n) = true
  ∧ date_parses (timestamp_text n) = true ∧ timestamp_of (timestamp_text n) = Some n).
Context (cfg : store_config) (d : db) (Hd : listable d).

Lemma ascii_joined s s' : ascii_only s = true → ascii_only s' = true → ascii_only (s +:+ "|" +:+ s') = true.
Proof.
  intros Hs Hs'. induction s as [|a s IH]; simpl; [done|].
  simpl in Hs. apply andb_true_iff in Hs as [-> Hs]. by apply IH.
Qed.

Lemma decode_encoded at_ id :
  cursor_text at_ = true → cursor_text id = true → date_parses at_ = true →
  let c := {| created_at_cursor := at_; cursor_run_id := id |} in
  decodeRunListCursor utf8 date_parses (encodeRunListCursor c) = Some c.
Proof.
  intros (Ha1 & Ha2 & Ha3)%cursor_text_true (Hi1 & Hi2 & Hi3)%cursor_text_true Hp c.
  unfold decodeRunListCursor, encodeRunListCursor. simpl.
  rewrite (base64url_roundtrip_length _ _ (le_n _)), Hutf8 by by apply ascii_joined.
  rewrite split_joined by done. by rewrite Ha1, Hi1, Hp.
Qed.

(** The rows still to be read: all of them, or the ones after the row a cursor names. *)
Definition still_to_read (o : ListRunsOptions) (l : list (string * run_rows)) : Prop :=
  o_cursor o = None ∧ l = listed cfg o d
  ∨ ∃ l1 y, o_cursor o = Some (encodeRunListCursor (row_cursor timestamp_text y))
      ∧ listed cfg o d = l1 ++ y :: l.

Lemma rows_read o l limit :
  still_to_read o l →
  listRunRows utf8 date_parses timestamp_of cfg o limit d = Ok (take limit l).
Proof.
  intros [[Hc ->]|(l1 & [k t] & Hc & Hl)]; unfold listRunRows; rewrite Hc; [done|].
  assert (Hk : (k, t) ∈ listed cfg o d) by (rewrite Hl; set_solver).
  unfold listed in Hk. rewrite sort_by_perm in Hk. apply elem_of_select_runs in Hk as (Hk & _).
  destruct (Hd k t Hk) as [Hid Hr]. destruct (Htime _ Hr) as (Ht1 & Ht2 & Ht3).
  unfold row_cursor. rewrite decode_encoded by done. simpl. rewrite Ht3. do 2 f_equal.
  by apply (after_cursor _ l1 (k, t)); [apply selected_keyed|apply selected_nodup|].
Qed.

Lemma page_read o l limit :
  coalesce (o_limit o) 50%nat = limit → still_to_read o l →
  listRunsPage utf8 date_parses timestamp_text timestamp_of cfg o d = Ok {|
    pg_runs := pr_runs (projectRunRows (take limit l));
    pg_next_cursor := if (limit <? length l)%nat
                      then (encodeRunListCursor ∘ row_cursor timestamp_text) <$> last (take limit l)
                      else None;
    pg_dropped := pr_dropped (projectRunRows (take limit l)) |}.
Proof.
  intros Hlim Hl. unfold listRunsPage. rewrite Hlim, (rows_read o l) by done.
  rewrite take_take, Nat.min_l by lia. do 2 f_equal.
  rewrite length_take. destruct (limit <? length l)%nat eqn:Hlt.
  - apply Nat.ltb_lt in Hlt. by rewrite (proj2 (Nat.ltb_lt _ _)) by lia.
  - apply Nat.ltb_ge in Hlt. by rewrite (proj2 (Nat.ltb_ge _ _)) by lia.
Qed.

Lemma pages_read fuel limit o l :
  coalesce (o_limit o) 50%nat = S limit → still_to_read o l → (length l < fuel)%nat →
  ∃ pages, walk_pages utf8 date_parses timestamp_text timestamp_of cfg fuel o d = Ok pages
    ∧ mjoin (pg_runs <$> pages) = pr_runs (projectRunRows l)
    ∧ mjoin (pg_dropped <$> pages) = pr_dropped (projectRunRows l)
    ∧ Forall (λ p, (length (pg_runs p) + length (pg_dropped p) <= S limit)%nat) pages
    ∧ ∃ p, last pages = Some p ∧ pg_next_cursor p = None.
Proof.
  revert o l. induction fuel as [|fuel IH]; intros o l Hlim Hl Hf; [lia|].
  assert (Hsize : ∀ l, (length (pr_runs (projectRunRows (take (S limit) l)))
                        + length (pr_dropped (projectRunRows (take (S limit) l))) <= S limit)%nat).
  { intros l'. pose proof (project_length (take (S limit) l')). rewrite length_take in *. lia. }
  cbn [walk_pages]. rewrite (page_read o l (S limit)) by done. cbn [pg_next_cursor].
  destruct (S limit <? length l)%nat eqn:Hlt.
  - apply Nat.ltb_lt in Hlt.
    destruct (last (take (S limit) l)) as [y|] eqn:Hlast.
    2:{ apply last_None in Hlast. apply (f_equal length) in Hlast. rewrite length_take in Hlast.
        change (length []) with 0%nat in Hlast. lia. }
    cbn [fmap option_fmap option_map]. apply last_Some in Hlast as [m Hm].
    assert (Heq : l = m ++ y :: drop (S limit) l).
    { rewrite <- (take_drop (S limit) l) at 1. by rewrite Hm, <- (assoc_L (++)). }
    match goal with |- context [walk_pages _ _ _ _ _ fuel ?o' d] =>
      destruct (IH o' (drop (S limit) l)) as (pages & Hw & Hr & Hdr & Hsz & Hend) end.
    + done.
    + right. destruct Hl as [[_ Hl]|(l1 & y0 & _ & Hl)].
      * exists m, y. split; [done|]. etransitivity; [symmetry; exact Hl|exact Heq].
      * exists (l1 ++ y0 :: m), y. split; [done|]. etransitivity; [exact Hl|].
        rewrite Heq at 1. by rewrite <- (assoc_L (++)).
    + rewrite length_drop. lia.
    + eexists (_ :: pages). rewrite Hw. split; [reflexivity|]. rewrite !join_cons, Hr, Hdr.
      destruct (project_app (take (S limit) l) (drop (S limit) l)) as [H1 H2].
      rewrite take_drop in H1, H2. split; [exact (eq_sym H1)|]. split; [exact (eq_sym H2)|].
      split; [constructor; [exact (Hsize l)|exact Hsz]|].
      destruct Hend as (p & Hp & Hn). exists p. split; [|done]. by destruct pages.
  - apply Nat.ltb_ge in Hlt. eexists [_]. split; [reflexivity|].
    rewrite !join_cons. simpl. rewrite take_ge, !app_nil_r by lia.
    split; [done|]. split; [done|]. split; [|by eexists]. constructor; [|constructor].
    specialize (Hsize l). rewrite take_ge in Hsize by lia. exact Hsize.
Qed.
End Walk.

(** * The properties *)

(** A cursor survives the wire: what the encoder writes for a row whose id and timestamp
    contain no bar is read back as the same cursor, byte for byte; and whatever the decoder
    accepts at all names exactly two parts, neither empty, with a timestamp the ordering
    can compare, so that a damaged cursor is refused instead of restarting the list. *)
Theorem cursor_roundtrip utf8 date_parses :
  (∀ s, ascii_only s = true → utf8 s = s) →
  (∀ c, cursor_text (created_at_cursor c) = true → cursor_text (cursor_run_id c) = true →
     date_parses (created_at_cursor c) = true →
     decodeRunListCursor utf8 date_parses (encodeRunListCursor c) = Some c)
  ∧ (∀ wire c, decodeRunListCursor utf8 date_parses wire = Some c →
       created_at_cursor c ≠ "" ∧ cursor_run_id c ≠ "" ∧ no_bar (created_at_cursor c) = true
       ∧ no_bar (cursor_run_id c) = true ∧ date_parses (created_at_cursor c) = true).
Proof.
  intros Hutf8. split.
  - intros [at_ id] H1 H2 H3. by apply decode_encoded.
  - intros wire c. unfold decodeRunListCursor.
    pose proof (split_parts (utf8 (of_base64url wire))) as Hparts.
    destruct (split_bar _) as [|at_ [|id [|]]]; try done.
    destruct (String.eqb at_ "") eqn:Ha; [done|]. destruct (String.eqb id "") eqn:Hi; [done|].
    destruct (date_parses at_) eqn:Hp; [|done]. intros [= <-]. simpl.
    apply String.eqb_neq in Ha, Hi. do 2 (split; [done|]).
    split; [apply Hparts; set_solver|]. split; [apply Hparts; set_solver|done].
Qed.

(** C37: following the cursors reads the whole list: for any filter and any page size from one
    up, the walk ends, no page is larger than asked for, and the pages one after the other
    are exactly the runs that match, newest first, each once; the rows that cannot be
    represented are reported on the page they fall on and cost no run its place. *)
Theorem pages_partition utf8 date_parses timestamp_text timestamp_of cfg d o limit :
  (∀ s, ascii_only s = true → utf8 s = s) →
  (∀ n, in_range n → cursor_text (timestamp_text n) = true
     ∧ date_parses (timestamp_text n) = true ∧ timestamp_of (timestamp_text n) = Some n) →
  listable d → o_cursor o = None → coalesce (o_limit o) 50%nat = S limit →
  let all := sort_by newest_first (select_runs cfg (λ _, false) (row_matches o) d) in
  NoDup (fst <$> all)
  ∧ ∃ pages, walk_pages utf8 date_parses timestamp_text timestamp_of cfg (S (length all)) o d = Ok pages
    ∧ mjoin (pg_runs <$> pages) = pr_runs (projectRunRows all)
    ∧ mjoin (pg_dropped <$> pages) = pr_dropped (projectRunRows all)
    ∧ Forall (λ p, (length (pg_runs p) + length (pg_dropped p) <= S limit)%nat) pages
    ∧ ∃ p, last pages = Some p ∧ pg_next_cursor p = None.
Proof.
  intros Hutf8 Htime Hd Hc Hlim all. split.
  - unfold all. rewrite sort_by_perm. apply NoDup_fmap_2_strong; [|apply selected_nodup].
    intros x y Hx Hy. by apply (selected_keyed cfg (row_matches o) d).
  - eapply (pages_read utf8 date_parses timestamp_text timestamp_of); [done..| |lia].
    left. by split.
Qed.

(** * Witnesses *)

(** Concrete text for instants: the decimal digits. *)
Definition digits_text (n : Z) : string := DecimalString.NilZero.string_of_int (Z.to_int n).
Definition digits_of (s : string) : option Z := Z.of_int <$> DecimalString.NilZero.int_of_string s.

Lemma digits_plain d :
  no_bar (DecimalString.NilEmpty.string_of_uint d) = true
  ∧ ascii_only (DecimalString.NilEmpty.string_of_uint d) = true.
Proof. by induction d as [|d [IH1 IH2]|d [IH1 IH2]|d [IH1 IH2]|d [IH1 IH2]|d [IH1 IH2]|d [IH1 IH2]|d [IH1 IH2]|d [IH1 IH2]|d [IH1 IH2]|d [IH1 IH2]]. Qed.

Lemma digits_laws n : in_range n →
  cursor_text (digits_text n) = true ∧ digits_of (digits_text n) = Some n.
Proof.
  intros [Hn _]. unfold digits_text, digits_of.
  assert (Hz : ∀ d, Z.to_int n = d → Z.of_int d = n) by (intros d <-; apply DecimalZ.of_to).
  rewrite DecimalString.NilZero.isi.
  - split; [|by rewrite <- (DecimalZ.of_to n) at 2].
    destruct (Z.to_int n) as [d|d] eqn:Hd.
    + simpl. unfold DecimalString.NilZero.string_of_uint. pose proof (digits_plain d) as [H1 H2].
      destruct d; try done; unfold cursor_text; by rewrite H1, H2.
    + exfalso. destruct n; [by simpl in Hd|by simpl in Hd|lia].
  - intros Hd. pose proof (Hz _ Hd) as H0. simpl in H0. subst n. discriminate Hd.
  - intros Hd. pose proof (Hz _ Hd) as H0. simpl in H0. subst n. discriminate Hd.
Qed.

Lemma cursor_roundtrip_witness :
  let c := {| created_at_cursor := "2026-01-01T00:00:00.000000Z"; cursor_run_id := "run-1" |} in
  decodeRunListCursor (λ s, s) (λ _, true) (encodeRunListCursor c) = Some c
  ∧ decodeRunListCursor (λ s, s) (λ _, true) "bm8gYmFy" = None.
Proof.
  intros c. split; [|evaluate].
  destruct (cursor_roundtrip (λ s, s) (λ _, true)) as [Hrt _]; [intros s _; reflexivity|].
  apply Hrt; reflexivity.
Defined.

(** Three runs, read one at a time. *)
Definition admission_of (id : string) : CreateReviewRunArgs := admission1 <| a_run_id := id |>.
Definition three_runs : db := after
  [(gh, minute 0, OpAdmit "github_webhook" "delivery-1" (admission_of "run-1") "prep-1" empty_db);
   (gh, minute 1, OpAdmit "github_webhook" "delivery-2" (admission_of "run-2") "prep-2" empty_db);
   (gh, minute 1, OpAdmit "github_webhook" "delivery-3" (admission_of "run-3") "prep-3" empty_db)].
Definition one_at_a_time : ListRunsOptions := {|
  o_limit := Some 1%nat; o_cursor := None; o_execution_status := None; o_publication_status := None;
  o_preparation_status := None; o_source_platform := None; o_workflow := None; o_from := None;
  o_to := None |}.

Lemma listable_check d :
  forallb (λ kt, cursor_text kt.1 && (0 <=? created_at kt.2) && (created_at kt.2 <? 253402300800000000))
    (map_to_list (d_runs d)) = true → listable d.
Proof.
  intros H k t Ht. rewrite forallb_forall in H.
  specialize (H (k, t) (proj1 (list_elem_of_In _ _) (proj2 (elem_of_map_to_list _ _ _) Ht))).
  simpl in H. destruct_guard. done.
Qed.

Lemma pages_partition_witness :
  ∃ pages, walk_pages (λ s, s) (λ _, true) digits_text digits_of gh 4 one_at_a_time three_runs = Ok pages
    ∧ length pages = 3%nat
    ∧ rec_run_id <$> mjoin (pg_runs <$> pages) = ["run-3"; "run-2"; "run-1"].
Proof.
  destruct (pages_partition (λ s, s) (λ _, true) digits_text digits_of gh three_runs one_at_a_time 0)
    as (_ & pages & Hw & Hr & _).
  - intros s _. reflexivity.
  - intros n Hn. destruct (digits_laws n Hn) as [H1 H2]. exact (conj H1 (conj eq_refl H2)).
  - apply listable_check. evaluate.
  - reflexivity.
  - reflexivity.
  - assert (Hfuel : S (length (sort_by newest_first (select_runs gh (λ _, false) (row_matches one_at_a_time)
      three_runs))) = 4%nat) by evaluate.
    rewrite Hfuel in Hw. exists pages. split; [exact Hw|]. split.
    + assert (Hlen : match walk_pages (λ s, s) (λ _, true) digits_text digits_of gh 4 one_at_a_time
        three_runs with Ok ps => length ps | Err _ => 0%nat end = 3%nat) by evaluate.
      rewrite Hw in Hlen. exact Hlen.
    + rewrite Hr. evaluate.
Defined.
