(* ===== verification/StatisticsProperties.v ===== *)
(** What a statistics pass comes to: rows stay well formed, concluded rows stay as they are,
    and the groups of every row account for all of its calls and tokens. *)

From S2P Require Import Prelude Schema Tables Database InputBundles Statistics StatisticsStore.
From S2P Require Import StatisticsSpecs RunRecord System Scenario.

(** * Sums over groups *)

Definition total {A} (f : A → Z) (l : list A) : Z := foldr (λ x n, f x + n) 0 l.

Lemma total_perm {A} (f : A → Z) l l' : l ≡ₚ l' → total f l = total f l'.
Proof. induction 1; simpl; lia. Qed.

Lemma total_fmap {A B} (f : B → Z) (g : A → B) l : total f (g <$> l) = total (f ∘ g) l.
Proof. induction l as [|x l IH]; [done|]. cbn. unfold total in IH. cbn in IH. by rewrite IH. Qed.

(** The counters of a row are those of its groups, and so is every token total it reports. *)
Record accounted (calls reported : Z) (usage : token_usage) (gs : list ExecutionStatisticsGroup) :
    Prop := {
  an_calls : calls = total sg_calls gs;
  an_reported : reported = total sg_reported_calls gs;
  an_usage : ∀ f n, usage f = Some n →
    Forall (λ g, is_Some (sg_usage g f)) gs ∧ n = total (λ g, coalesce (sg_usage g f) 0) gs;
}.

Lemma completeTotals_Some a f n :
  completeTotals a f = Some n → 0 < ac_calls a ∧ ac_reported a f = ac_calls a ∧ n = ac_sums a f.
Proof.
  unfold completeTotals. destruct (_ && _) eqn:H; [|done].
  apply andb_true_iff in H as [H1%Z.ltb_lt H2%Z.eqb_eq]. by intros [= <-].
Qed.

Lemma completeTotals_all a f :
  0 < ac_calls a → ac_reported a f = ac_calls a → completeTotals a f = Some (ac_sums a f).
Proof.
  intros Hc Hr. unfold completeTotals. rewrite Hr, Z.eqb_refl.
  by rewrite (proj2 (Z.ltb_lt _ _) Hc).
Qed.

Section Aggregate.
Context (locale_le code_unit_le : string → string → bool).
Context (fingerprint_hash : list string → list string → token_usage →
           list ExecutionStatisticsGroup → string).

Lemma aggregate_accounted r :
  let sn := aggregateExecutionStatistics locale_le code_unit_le fingerprint_hash r in
  accounted (sn_calls sn) (sn_reported_calls sn) (sn_usage sn) (sn_groups sn).
Proof.
  pose proof (group_calls_sum (rd_generations r)) as [H1 H2 H3 H4].
  pose proof (fold_calls_count (rd_generations r)) as Hn.
  pose proof (group_calls_ok (rd_generations r)) as Hok.
  assert (Hok' : Forall (λ ka, acc_ok ka.2) (group_calls (rd_generations r))).
  { eapply Forall_impl; [exact Hok|]. by intros ka [? _]. }
  simpl in *. rewrite Hn in H1. split; simpl.
  - rewrite (total_perm _ _ _ (sorted_groups_perm locale_le _)), total_fmap. by symmetry.
  - rewrite (total_perm _ _ _ (sorted_groups_perm locale_le _)), total_fmap. by symmetry.
  - intros f n (_ & Hr & ->)%completeTotals_Some. simpl in Hr |- *. rewrite <- H4, <- H1 in Hr.
    pose proof (reported_by_all _ f Hok' Hr) as Hall.
    assert (Hg : Forall (λ ka, completeTotals ka.2 f = Some (ac_sums ka.2 f))
                   (group_calls (rd_generations r))).
    { rewrite Forall_forall in Hok, Hall |- *. intros ka Hka. destruct (Hok ka Hka) as [_ Hc].
      by apply completeTotals_all; [|apply Hall]. }
    split.
    + rewrite sorted_groups_perm, Forall_fmap. eapply Forall_impl; [exact Hg|].
      intros ka Hka. simpl. by rewrite Hka.
    + rewrite (total_perm _ _ _ (sorted_groups_perm locale_le _)), total_fmap, <- H3.
      clear -Hg. induction Hg as [|ka l Hka _ IH]; [done|]. unfold total in *. simpl in *.
      rewrite IH. unfold completeTotals in Hka |- *. rewrite Hka. done.
Qed.
End Aggregate.

(** * The queue *)

Definition rows_accounted (s : stats) : Prop :=
  map_Forall (λ _ x, accounted (k_calls x.1) (k_reported_calls x.1) (k_usage x.1) x.2) s.

Definition stats_sound (maxFailures : Z) (s : stats) : Prop := stats_inv maxFailures s ∧ rows_accounted s.

(** From [s] to [s']: sound rows, the concluded ones untouched. *)
Definition stats_step (maxFailures : Z) (s s' : stats) : Prop := stats_sound maxFailures s' ∧ stats_evolve s s'.

Abbreviation accounts m s := (wpe (λ _, true) m (λ _, rows_accounted) s).

Section Queue.
Context (cfg : store_config) (now initialDelayMs settlementWindowMs : Z).

Lemma admit_accounts d s : rows_accounted s → accounts (admit_terminal cfg now initialDelayMs d) s.
Proof.
  intros Hs. unfold wpe, admit_terminal.
  induction (select_runs _ _ _ d) as [|[k t] l IH]; simpl; [done|].
  destruct (terminal_times t) as [[st f]|]; [|done]. destruct (_ !! k) as [x|]; [done|].
  apply map_Forall_insert_2; [|done]. by split.
Qed.

Lemma put_stat_accounts k row gs s :
  rows_accounted s → accounted (k_calls row) (k_reported_calls row) (k_usage row) gs →
  accounts (put_stat k row gs) s.
Proof.
  intros Hs Ha. unfold wpe, put_stat. destruct (negb _); [done|]. destruct (negb _); [done|]. by apply map_Forall_insert_2.
Qed.

Lemma claim_accounts d locked token s :
  rows_accounted s →
  accounts (claimNextStatistics cfg now initialDelayMs settlementWindowMs d locked token) s.
Proof.
  intros Hs. unfold claimNextStatistics. apply wp_bind.
  eapply wp_mono; [by apply admit_accounts|]. intros [] s1 Hs1.
  apply wp_bind, wp_read. destruct (first_by _ _) as [[k [row gs]]|] eqn:Hf; [|done].
  apply first_by_elem, list_elem_of_In in Hf. unfold due_rows in Hf.
  apply filter_In in Hf as [Hin _]. apply list_elem_of_In, elem_of_map_to_list in Hin.
  destruct (d_runs d !! k ≫= t_exec) as [e|]; [|done].
  apply wp_bind. eapply wp_mono; [apply put_stat_accounts; [done|apply (Hs1 _ _ Hin)]|]. done.
Qed.

Lemma conclude_accounts work set s :
  rows_accounted s →
  (∀ k, k_calls (set k) = k_calls k ∧ k_reported_calls (set k) = k_reported_calls k
        ∧ k_usage (set k) = k_usage k) →
  accounts (conclude_read work set) s.
Proof.
  intros Hs Hset. unfold conclude_read. apply wp_bind, wp_read.
  destruct (s !! _) as [[k gs]|] eqn:Hk; [|done]. destruct (holds_statistics _ k); [|done].
  apply wp_bind. eapply wp_mono; [apply put_stat_accounts; [done|]|done].
  destruct (Hset k) as (-> & -> & ->). apply (Hs _ _ Hk).
Qed.

Lemma snapshot_accounts work sn delay s :
  rows_accounted s → accounted (sn_calls sn) (sn_reported_calls sn) (sn_usage sn) (sn_groups sn) →
  accounts (recordSnapshot now work sn delay) s.
Proof.
  intros Hs Ha. unfold recordSnapshot. apply wp_bind, wp_read.
  destruct (s !! _) as [[k gs]|] eqn:Hk; [|done]. destruct (holds_statistics _ k); [|done].
  apply wp_bind. unfold wpe at 1, put_stat. destruct (negb _); [done|]. destruct (negb _); [done|].
  apply wp_bind. unfold wpe at 1, put_groups. destruct (insert_groups _ _); [done|].
  rewrite insert_insert_eq. by apply map_Forall_insert_2.
Qed.

(** A statement batch, committed or rolled back. *)
Lemma committed_step {A} maxf (allowed : failure → bool) (m : tx stats A) s :
  stats_sound maxf s → wpe allowed m (λ _, stats_good maxf s) s → accounts m s →
  stats_step maxf s (transaction m s).2
  ∧ match (transaction m s).1 with Ok _ => True | Err f => allowed f = true end.
Proof.
  intros Hs Hg Ha. unfold wpe, transaction in *. destruct (m s) as [[a s']|f]; simpl.
  - destruct Hg as [Hi He]. split; [split; [split|]|]; done.
  - split; [|done]. split; [done|reflexivity].
Qed.
End Queue.

(** An error of a pass over readings of which [fit] says whether they all fit. *)
Definition pass_error (fit : Prop) (f : failure) : Prop := benign f = true ∨ unfit f = true ∧ ¬ fit.

Section Pass.
Context (cfg : store_config) (initialDelayMs settlementWindowMs : Z).
Context (confirmationDelayMs maxFailures retryDelayMs : Z) (Hmax : maxFailures < 2 ^ 31).
Context (now : nat → Z) (rows : nat → db) (locked : nat → string → bool) (token : nat → string).
Context (readRun : string → Z → Z → read_answer).
Context (Hread : ∀ k a b sn, readRun k a b = ReadSnapshot sn →
  snapshot_ok sn ∧ accounted (sn_calls sn) (sn_reported_calls sn) (sn_usage sn) (sn_groups sn)).

(** Every reading fits the columns of the database. *)
Definition readings_fit : Prop := ∀ k a b sn, readRun k a b = ReadSnapshot sn → snapshot_fits sn = true.

Abbreviation step := (stats_step maxFailures).
Abbreviation error := (pass_error readings_fit).

Lemma work_step i w s :
  stats_sound maxFailures s →
  let r := reconcileClaimedWork confirmationDelayMs maxFailures retryDelayMs now readRun i w s in
  step s r.2 ∧ match r.1 with Ok _ => True | Err f => error f end.
Proof.
  intros Hs. unfold reconcileClaimedWork.
  destruct (read_work _ w) as [sn|delay|] eqn:Hr.
  - destruct (Hread _ _ _ _ Hr) as [Hok Ha].
    destruct (committed_step maxFailures _ _ s Hs (recordSnapshot_good (now i) _ w sn confirmationDelayMs s (proj1 Hs) Hok)
      (snapshot_accounts (now i) w sn confirmationDelayMs s (proj2 Hs) Ha)) as [H1 H2].
    destruct (transaction _ s) as [[r|f] s']; [done|]. split; [done|]. simpl in H2.
    apply orb_true_iff in H2 as [H2|[Hf H2]%andb_true_iff]; [by left|]. right. split; [done|]. intros Hfit.
    by rewrite (Hfit _ _ _ _ Hr) in Hf.
  - destruct (committed_step maxFailures _ _ s Hs
      (recordRateLimit_good (now i) _ w (coalesce delay retryDelayMs) s (proj1 Hs))
      (conclude_accounts w (rate_limit_row (now i) (coalesce delay retryDelayMs)) s (proj2 Hs)
         ltac:(done))) as [H1 H2].
    destruct (transaction _ s) as [[r|f] s']; [done|]. split; [done|by left].
  - destruct (committed_step maxFailures _ _ s Hs
      (recordFailure_good (now i) w maxFailures retryDelayMs s Hmax (proj1 Hs))
      (conclude_accounts w (failure_row (now i) maxFailures retryDelayMs) s (proj2 Hs)
         ltac:(done))) as [H1 H2].
    destruct (transaction _ s) as [[[]|f] s']; (split; [done|]); [done..|by left].
Qed.

Lemma pass_steps todo : ∀ i acc s, stats_sound maxFailures s →
  let pass := reconcile_from cfg initialDelayMs settlementWindowMs confirmationDelayMs maxFailures
                retryDelayMs now rows locked token readRun todo i acc s in
  step s pass.2 ∧ match pass.1 with
                  | Ok (processed, _) => (processed <= i + todo)%nat
                  | Err f => error f
                  end.
Proof.
  induction todo as [|todo IH]; intros i acc s Hs; simpl.
  { split; [split; [done|reflexivity]|lia]. }
  destruct (committed_step maxFailures _ _ s Hs
    (claimNextStatistics_good cfg (now i) initialDelayMs settlementWindowMs _ (rows i) (locked i) (token i)
       s (proj1 Hs))
    (claim_accounts cfg (now i) initialDelayMs settlementWindowMs (rows i) (locked i) (token i)
       s (proj2 Hs))) as [[H1 H2] H3].
  destruct (transaction _ s) as [[[w|]|f] s1]; simpl in *; [|split; [done|lia]|split; [done|by left]].
  destruct (work_step i w s1 H1) as [[H4 H5] H6].
  destruct (reconcileClaimedWork _ _ _ _ _ _ _ _) as [[reports|f] s2]; simpl in *.
  - destruct (IH (S i) (acc ++ reports) s2 H4) as [[H7 H8] H9]. split.
    + split; [done|]. by etransitivity; [|etransitivity].
    + destruct (reconcile_from _ _ _ _ _ _ _ _ _ _ _ _ _ _ _) as [[[n rs]|f] s3]; simpl in *; [lia|done].
  - split; [|done]. split; [done|]. by etransitivity.
Qed.
End Pass.

(** * The properties *)


(** * Witnesses *)

(** Two generations of one agent, one of them without usage. *)
Definition observed_calls : ExecutionStatisticsRead := {|
  rd_roots := ["trace-1"]; rd_excluded := 0;
  rd_generations :=
    [{| lo_id := "g-1"; lo_metadata := JObject [("sec_review_agent", JString "triage")];
        lo_model := Some (JString "m-1");
        lo_usage := Some (JObject [("input", JNumber 10); ("output", JNumber 5)]) |};
     {| lo_id := "g-2"; lo_metadata := JObject [("sec_review_agent", JString "triage")];
        lo_model := Some (JString "m-1"); lo_usage := None |}] |}.
Definition snapshot1 : ExecutionStatisticsSnapshot :=
  aggregateExecutionStatistics String.leb String.leb (λ _ _ _ _, "hash-1") observed_calls.
Definition read_snapshot1 : string → Z → Z → read_answer := λ _ _ _, ReadSnapshot snapshot1.
(** Two items: the run is due again at once, and the second reading settles it. *)
Definition pass1 : result (nat * list pass_report) * stats :=
  reconcileExecutionStatisticsPass gh 0 600000 0 3 1000 (λ i, minute (30 + Z.of_nat i))
    (λ _, after execute_script) (λ _ _, false) (λ _, "stat-1") read_snapshot1 2 ∅.

