(* ===== verification/GitHubSpecs.v ===== *)
(** The searches over pages (github/comment-service.ts): what they answer while others add
    comments, and that they end. *)

From S2P Require Import Prelude Schema Tables Database ConnectorErrors ConnectorSteps Actions GitHub.

Section Search.
Context {G : Type} `{GitHub G} (bot : option string) `{!GitHubLaws G bot}.
Context (env : nat → G * run_rows → G * run_rows).
Context (target : repo_ref) (issue : Z) (marker : string).

Abbreviation comments := (thread (bot := bot) target issue).

(** A comment of the app with the marker. *)
Definition is_marked (c : IssueCommentSummary) : bool :=
  match marked bot marker c with inl b => b | inr _ => false end.

(** Others append comments to the thread, none of them the app's with the marker. *)
Definition appends (g g' : G) : Prop :=
  ∃ new, comments g' = comments g ++ new ∧ Forall (λ c, is_marked c = false) new.

Lemma appends_refl g : appends g g.
Proof. exists []. by rewrite app_nil_r. Qed.

Lemma appends_trans g1 g2 g3 : appends g1 g2 → appends g2 g3 → appends g1 g3.
Proof.
  intros (n1 & E1 & F1) (n2 & E2 & F2). exists (n1 ++ n2). rewrite E2, E1, app_assoc.
  split; [done|]. by apply Forall_app.
Qed.

Lemma scan_page_some items a :
  scan_page (marked bot marker) items = inl (Some a) → a ∈ items ∧ is_marked a = true.
Proof.
  induction items as [|c items IH]; simpl; [done|]. unfold is_marked at 1.
  destruct (marked bot marker c) as [[]|e] eqn:Hc; [|intros Hs; destruct (IH Hs); split; [by right|done]|done].
  intros [= <-]. split; [left|]. unfold is_marked. by rewrite Hc.
Qed.

Lemma scan_page_none items :
  scan_page (marked bot marker) items = inl None → Forall (λ c, is_marked c = false) items.
Proof.
  induction items as [|c items IH]; simpl; [by constructor|].
  destruct (marked bot marker c) as [[]|e] eqn:Hc; try done. intros Hs. constructor; [|by apply IH].
  unfold is_marked. by rewrite Hc.
Qed.

Lemma page_split {A} k (l : list A) :
  l = take (per_page * k) l ++ page_of (Z.of_nat k + 1) l ++ drop (per_page * S k) l.
Proof.
  unfold page_of. replace (Z.to_nat (Z.of_nat k + 1 - 1)) with k by lia.
  replace (per_page * S k)%nat with (per_page * k + per_page)%nat by (unfold per_page; lia).
  rewrite <- drop_drop, take_drop. by rewrite take_drop.
Qed.

Lemma take_page {A} k (l : list A) :
  take (per_page * S k) l = take (per_page * k) l ++ page_of (Z.of_nat k + 1) l.
Proof.
  unfold page_of. replace (Z.to_nat (Z.of_nat k + 1 - 1)) with k by lia.
  replace (per_page * S k)%nat with (per_page * k + per_page)%nat by (unfold per_page; lia).
  by rewrite take_take_drop.
Qed.

Lemma short_page {A} k (l : list A) :
  (length (page_of (Z.of_nat k + 1) l) < per_page)%nat → take (per_page * S k) l = l.
Proof.
  unfold page_of. rewrite length_take, length_drop.
  replace (Z.to_nat (Z.of_nat k + 1 - 1)) with k by lia. intros Hl. apply take_ge.
  unfold per_page in *. lia.
Qed.

(** The search, while the others append: it answers a comment that is there, or there is none. *)
Lemma search_ends (Henv : ∀ i g t, appends g (env i (g, t)).1) fuel k w :
  Forall (λ c, is_marked c = false) (take (per_page * k) (comments (w_remote w))) →
  (per_page * k <= length (comments (w_remote w)))%nat →
  ends (search_pages fuel (λ page, remote_get env (listComments target issue page))
          (marked bot marker) (Z.of_nat k + 1))
    (λ r w', appends (w_remote w) (w_remote w') ∧
       match r with
       | Some c => c ∈ comments (w_remote w') ∧ is_marked c = true
       | None => Forall (λ c, is_marked c = false) (comments (w_remote w'))
       end)
    (λ _ w', appends (w_remote w) (w_remote w')) w.
Proof.
  revert k w. induction fuel as [|fuel IH]; intros k w Hk Hlen; [done|]. cbn [search_pages].
  apply ends_then. unfold ends at 1, remote_get. pose proof (Henv (w_calls w) (w_remote w) (w_rows w)) as Ha.
  unfold disturb. destruct (env _ _) as [g t]. simpl in Ha |- *.
  destruct (listComments target issue (Z.of_nat k + 1) g) as [items|e] eqn:Hl; [|done]. simpl.
  apply listComments_page in Hl. fold comments in Hl.
  assert (Hg : take (per_page * k) (comments g) = take (per_page * k) (comments (w_remote w))).
  { destruct Ha as (new & -> & _). by rewrite take_app_le. }
  assert (Hfull : Forall (λ c, is_marked c = false) items →
                  Forall (λ c, is_marked c = false) (take (per_page * S k) (comments g))).
  { intros Hi. rewrite take_page, Hg, <- Hl. by apply Forall_app. }
  destruct items as [|c rest] eqn:Hitems.
  { split; [done|]. rewrite <- (short_page k (comments g)); [by apply Hfull|]. rewrite <- Hl. unfold per_page. simpl. lia. }
  rewrite <- Hitems in *. apply ends_then, ends_computed; [|done]. intros [a|] Hs.
  - apply scan_page_some in Hs as [Hin Hm]. split; [done|]. split; [|done]. simpl.
    rewrite (page_split k (comments g)), <- Hl. apply elem_of_app. right. apply elem_of_app. by left.
  - apply scan_page_none in Hs. specialize (Hfull Hs). destruct (Nat.ltb_spec (length items) per_page) as [Hs1|Hs1].
    + split; [done|]. rewrite <- (short_page k (comments g)); [done|]. by rewrite <- Hl.
    + replace (Z.of_nat k + 1 + 1) with (Z.of_nat (S k) + 1) by lia.
      eapply ends_mono.
      * apply IH; simpl; [done|]. rewrite Hl in Hs1. unfold page_of in Hs1.
        rewrite length_take, length_drop in Hs1.
        replace (Z.to_nat (Z.of_nat k + 1 - 1)) with k in Hs1 by lia. unfold per_page in *. lia.
      * intros r w' [Hw' Hr]. split; [by eapply appends_trans|done].
      * intros e w' Hw'. by eapply appends_trans.
Qed.

(** ** The search is a search of the whole thread *)

Context (login : string) (Hbot : requireAppBotLogin bot = inl login).

Lemma marked_total c : marked bot marker c = inl (is_marked c).
Proof.
  unfold is_marked, marked, wasAuthoredByCurrentAppBot. rewrite Hbot. by destruct (_ && _).
Qed.

Lemma scan_page_find items : scan_page (marked bot marker) items = inl (List.find is_marked items).
Proof.
  induction items as [|c items IH]; simpl; [done|]. rewrite marked_total. by destruct (is_marked c).
Qed.

Lemma find_none l : Forall (λ c, is_marked c = false) l → List.find is_marked l = None.
Proof. induction 1 as [|c l Hc _ IH]; simpl; [done|]. by rewrite Hc. Qed.

Lemma none_forall l : List.find is_marked l = None → Forall (λ c, is_marked c = false) l.
Proof. intros Hf. apply Forall_forall. intros c Hin. eapply List.find_none in Hf; [done|by apply list_elem_of_In]. Qed.

Lemma find_app l1 l2 :
  List.find is_marked (l1 ++ l2)
  = match List.find is_marked l1 with Some c => Some c | None => List.find is_marked l2 end.
Proof. induction l1 as [|c l1 IH]; simpl; [done|]. by destruct (is_marked c). Qed.

Lemma search_finds fuel k w :
  (∀ i g t, comments (env i (g, t)).1 = comments g) →
  (∀ page g, ∃ l, listComments target issue page g = inl l) →
  List.find is_marked (take (per_page * k) (comments (w_remote w))) = None →
  (per_page * k <= length (comments (w_remote w)) < per_page * (k + fuel))%nat →
  ∃ w', search_pages fuel (λ page, remote_get env (listComments target issue page))
          (marked bot marker) (Z.of_nat k + 1) w
        = Some (inl (List.find is_marked (comments (w_remote w))), w')
      ∧ comments (w_remote w') = comments (w_remote w).
Proof.
  intros Henv Hans. revert k w. induction fuel as [|fuel IH]; intros k w Hk Hlen; [lia|].
  cbn [search_pages]. unfold andThen at 1, remote_get at 1.
  pose proof (Henv (w_calls w) (w_remote w) (w_rows w)) as Hg. unfold disturb.
  destruct (env _ _) as [g t]. simpl in Hg |- *.
  destruct (Hans (Z.of_nat k + 1) g) as [items Hl]. rewrite Hl. simpl.
  apply listComments_page in Hl. fold comments in Hl. rewrite Hg in Hl.
  assert (Hnext : List.find is_marked (take (per_page * S k) (comments (w_remote w)))
                  = List.find is_marked items).
  { by rewrite take_page, find_app, Hk, <- Hl. }
  assert (Hshort : (length items < per_page)%nat →
                   List.find is_marked (comments (w_remote w)) = List.find is_marked items).
  { rewrite <- Hnext. intros Hs. by rewrite short_page; [|rewrite <- Hl]. }
  destruct items as [|c rest] eqn:Hitems.
  { rewrite Hshort; [|unfold per_page; simpl; lia]. eexists. split; [reflexivity|exact Hg]. }
  rewrite <- Hitems in *. unfold andThen at 1, computed at 1. rewrite scan_page_find.
  destruct (List.find is_marked items) as [a|] eqn:Hf.
  - assert (Hall : List.find is_marked (comments (w_remote w)) = Some a).
    { rewrite (page_split k (comments (w_remote w))), find_app, Hk, find_app, <- Hl. by rewrite Hf. }
    rewrite Hall. eexists. split; [reflexivity|exact Hg].
  - destruct (Nat.ltb_spec (length items) per_page) as [Hs|Hs].
    + rewrite Hshort by done. eexists. split; [reflexivity|exact Hg].
    + replace (Z.of_nat k + 1 + 1) with (Z.of_nat (S k) + 1) by lia.
      match goal with |- ∃ _, search_pages _ _ _ _ ?w1 = _ ∧ _ =>
        destruct (IH (S k) w1) as (w' & Heq & Hw'); simpl end.
      * by rewrite Hg.
      * rewrite Hg. rewrite Hl in Hs. unfold page_of in Hs. rewrite length_take, length_drop in Hs.
        replace (Z.to_nat (Z.of_nat k + 1 - 1)) with k in Hs by lia. unfold per_page in *. lia.
      * exists w'. rewrite Heq. simpl in Hw' |- *. by rewrite Hw', Hg.
Qed.
End Search.
