(* ===== verification/NoticeOutcomes.v ===== *)
(** One undisturbed pass over a notice: the claim it holds stays held until the pass concludes
    the notice, and what it is concluded as. *)

From S2P Require Import Prelude Schema Tables Database PublicationStore Notices ConnectorErrors.
From S2P Require Import ConnectorSteps Actions GitHub NoticeDelivery.

(** Nobody else acts, no message is lost. *)
Definition quiet_world {G} (i : nat) (gt : G * run_rows) : G * run_rows := gt.
Definition reliable (i : nat) : transport := Delivered.

Section Quiet.
Context {G : Type} `{GitHub G}.
Context (now : nat → Z) (message_of : failure → string) (bot : option string) (fuel : nat).
Context (i : Z) (token : string).

(** The notice, claimed. *)
Definition notice_held (t : run_rows) : Prop :=
  ∃ n, t_notices t !! i = Some n ∧ holds_notice token n = true.

Definition held (w : world G) : Prop := w_lost w = false ∧ notice_held (w_rows w).

(** The claim is still held however [m] ends, and it is no lost claim that ends it. *)
Definition calm {A} (m : act G A) : Prop :=
  ∀ w, held w →
    ends m (λ _, held) (λ e w', held w' ∧ ra_class e ≠ RunNoticeClaimLostError) w.

Lemma calm_pure {A} (a : A) : calm (pure a).
Proof. by intros w. Qed.
Lemma calm_raise {A} e : ra_class e ≠ RunNoticeClaimLostError → calm (raise (A := A) e).
Proof. by intros ? w. Qed.
Lemma calm_then {A B} (m : act G A) (k : A → act G B) :
  calm m → (∀ a, calm (k a)) → calm (andThen m k).
Proof.
  intros Hm Hk w Hw. apply ends_then. eapply ends_mono; [by apply Hm| |done].
  intros a w'. apply Hk.
Qed.
Lemma calm_catch {A} (m : act G A) h :
  calm m → (∀ e, ra_class e ≠ RunNoticeClaimLostError → calm (h e)) → calm (catch m h).
Proof.
  intros Hm Hh w Hw. apply ends_catch. eapply ends_mono; [by apply Hm|done|].
  intros e w' [Hw' He]. by apply Hh.
Qed.
Lemma calm_computed {A} (r : A + raised) :
  (∀ e, r = inr e → ra_class e ≠ RunNoticeClaimLostError) → calm (computed r).
Proof. intros Hr w Hw. apply ends_computed; [done|]. intros e He. split; [done|]. by apply Hr. Qed.

Lemma calm_get {A} (f : G → outcome_of A) : calm (remote_get quiet_world f).
Proof. intros w Hw. unfold ends, remote_get. simpl. by destruct (f _). Qed.
Lemma calm_post {A} (f : G → outcome_of A * G) : calm (remote_post quiet_world f).
Proof. intros w Hw. unfold ends, remote_post. simpl. destruct (f _) as [[a|e] g]; done. Qed.

(** A renewal in time. *)
Definition renewed_notice (at_ : Z) (n : notice_row) : notice_row :=
  n <| n_claimed_at := Some at_ |> <| n_updated_at := at_ |>.

Lemma renew_held at_ t n :
  t_notices t !! i = Some n → holds_notice token n = true →
  renewNoticeClaim at_ i token t = Ok (true, t <| t_notices ::= <[i := renewed_notice at_ n]> |>).
Proof.
  intros Hn Hh. unfold renewNoticeClaim, update_notice. rewrite Hn, Hh.
  assert (Hc : notice_check (renewed_notice at_ n) = true).
  { apply andb_true_iff in Hh as [Hs Ht]. apply bool_decide_eq_true in Hs. apply sql_eq_true in Ht.
    clear Hn. destruct n; simpl in *; subst. done. }
  transitivity (if notice_check (renewed_notice at_ n)
                then Ok (true, t <| t_notices ::= <[i := renewed_notice at_ n]> |>)
                else Err (CheckViolation "run_notices")); [done|]. by rewrite Hc.
Qed.

Lemma renewed_held at_ t n :
  holds_notice token n = true → notice_held (t <| t_notices ::= <[i := renewed_notice at_ n]> |>).
Proof. intros Hh. exists (renewed_notice at_ n). split; [simpl; apply lookup_insert_eq|exact Hh]. Qed.

(** The world after a confirmed renewal. *)
Lemma renewal_ends (w : world G) n :
  w_lost w = false → t_notices (w_rows w) !! i = Some n → holds_notice token n = true →
  let t := (w_rows w) <| t_notices ::= <[i := renewed_notice (now (w_calls w)) n]> |> in
  renewNoticeSerially now quiet_world reliable message_of i token w
  = Some (inl tt, {| w_calls := S (w_calls w); w_remote := w_remote w; w_rows := t;
                     w_lost := false; w_trace := Renewed t :: w_trace w |}).
Proof.
  intros Hl Hn Hh t. unfold renewNoticeSerially, andThen at 1, read_lost. rewrite Hl.
  unfold renewNotice, catch, andThen, store_call, request, serve, transaction, reliable.
  cbn [w_rows disturb quiet_world]. by rewrite (renew_held _ _ _ Hn Hh), Hl.
Qed.

Lemma calm_renewal : calm (renewNoticeSerially now quiet_world reliable message_of i token).
Proof.
  intros w [Hl (n & Hn & Hh)]. unfold ends. rewrite (renewal_ends w n) by done. split; [done|].
  by apply renewed_held.
Qed.

Lemma calm_search {A} k page (fetch : Z → act G (list A)) matches :
  (∀ p, calm (fetch p)) → (∀ a e, matches a = inr e → ra_class e ≠ RunNoticeClaimLostError) →
  calm (search_pages k fetch matches page).
Proof.
  intros Hf Hm. revert page. induction k as [|k IH]; intros page; [by intros w Hw|]. cbn [search_pages].
  apply calm_then; [done|]. intros [|a items]; [apply calm_pure|]. apply calm_then.
  - apply calm_computed. intros e. generalize (a :: items). intros l.
    induction l as [|b l IHl]; simpl; [done|]. destruct (matches b) as [[]|e'] eqn:Hb; [done|done|].
    intros [= <-]. by eapply Hm.
  - intros [c|]; [apply calm_pure|]. destruct (Nat.ltb _ _); [apply calm_pure|apply IH].
Qed.

Lemma marked_class marker c e :
  marked bot marker c = inr e → ra_class e ≠ RunNoticeClaimLostError.
Proof.
  unfold marked, wasAuthoredByCurrentAppBot, requireAppBotLogin.
  destruct (normalizeLogin bot); [by destruct (_ && _)|]. by intros [= <-].
Qed.

Lemma text_class value label e :
  requireText value label = inr e → ra_class e ≠ RunNoticeClaimLostError.
Proof. unfold requireText. by repeat case_match; intros [= <-]. Qed.

Lemma repository_class input e :
  noticeRepository input = inr e → ra_class e ≠ RunNoticeClaimLostError.
Proof.
  unfold noticeRepository. repeat case_match; intros [= <-]; by eapply text_class.
Qed.

Lemma input_class value e :
  requireNoticeInput value = inr e → ra_class e ≠ RunNoticeClaimLostError.
Proof. unfold requireNoticeInput. case_match; by intros [= <-]. Qed.

Lemma name_class name e :
  splitRepoFullName name = inr e → ra_class e ≠ RunNoticeClaimLostError.
Proof. unfold splitRepoFullName. by repeat case_match; intros [= <-]. Qed.
End Quiet.

Ltac calm_step :=
  match goal with
  | |- calm _ _ (pure _) => apply calm_pure
  | |- calm _ _ (raise _) => apply calm_raise; done
  | |- calm _ _ (remote_get _ _) => apply calm_get
  | |- calm _ _ (remote_post _ _) => apply calm_post
  | |- calm _ _ (renewNoticeSerially _ _ _ _ _ _) => apply calm_renewal
  | |- calm _ _ (search_pages _ _ _ _) => apply calm_search; [intros ?|]
  | |- calm _ _ (andThen _ _) => apply calm_then; [|intros ?]
  | |- calm _ _ (catch _ _) => apply calm_catch; [|intros ??]
  | |- calm _ _ (computed _) => apply calm_computed
  | |- calm _ _ (if ?b then _ else _) => destruct b
  | |- calm _ _ (match ?x with _ => _ end) => destruct x
  end.

Section Passes.
Context {G : Type} `{GitHub G}.
Context (now : nat → Z) (message_of : failure → string) (bot : option string) (fuel : nat).
Context (work : RunNoticeWork).
Abbreviation i := (nw_notice_id work).
Abbreviation token := (nw_claim_token work).

Lemma calm_reply : calm i token (reply_to_notice now quiet_world reliable message_of bot fuel work).
Proof.
  unfold reply_to_notice, installationOctokitForRepo, sendRunNoticeReply, assertRepositoryIsInstalled,
    post_reply, ensureSummaryIssueNumber, createIssueCommentUnlessMarkerExists, createIssueComment,
    findRepositorySecuritySummaryIssue, findIssueCommentByMarker.
  repeat calm_step; try (by eauto using input_class, repository_class, name_class, marked_class).
Qed.

(** The notice, concluded. *)
Definition concluded_notice (at_ : Z) (delivered : bool) (url : option string) (n : notice_row) :
    notice_row :=
  n <| n_status := if delivered then Notice.delivered else Notice.failed |>
    <| n_claim_token := None |> <| n_claimed_at := None |>
    <| n_comment_url := url |> <| n_updated_at := at_ |>.

Lemma complete_held at_ t n delivered url :
  not_null url = delivered → t_notices t !! i = Some n → holds_notice token n = true →
  completeNotice at_ i token delivered url t
  = Ok (true, t <| t_notices ::= <[i := concluded_notice at_ delivered url n]> |>).
Proof.
  intros Hu Hn Hh. unfold completeNotice.
  replace (delivered && is_null url) with false by (subst; by destruct url).
  replace (negb delivered && not_null url) with false by (subst; by destruct url).
  unfold update_notice. rewrite Hn, Hh. by destruct n, delivered.
Qed.

(** The call that concludes the notice. *)
Lemma conclude_ends delivered url (w : world G) :
  not_null url = delivered → held i token w →
  ∃ n w', t_notices (w_rows w) !! i = Some n
    ∧ (complete_notice now quiet_world reliable message_of work delivered url ;;> pure tt) w
      = Some (inl tt, w')
    ∧ w_remote w' = w_remote w
    ∧ t_notices (w_rows w') !! i = Some (concluded_notice (now (w_calls w)) delivered url n).
Proof.
  intros Hu [Hl (n & Hn & Hh)].
  exists n. unfold complete_notice, andThen, store_call, request, serve, transaction, reliable.
  cbn [w_rows disturb quiet_world]. rewrite (complete_held _ _ _ _ _ Hu Hn Hh).
  eexists. split; [done|]. split; [reflexivity|]. split; [done|]. simpl. apply lookup_insert_eq.
Qed.

(** The heartbeat starts with a renewal. *)
Lemma start_ends (w : world G) :
  held i token w →
  ∃ w1, startRunNoticeClaimHeartbeat now quiet_world reliable message_of i token w = Some (inl tt, w1)
    ∧ held i token w1 ∧ w_remote w1 = w_remote w.
Proof.
  intros [Hl (n & Hn & Hh)]. unfold startRunNoticeClaimHeartbeat, andThen, store_call, request, reliable.
  cbn [thrown_or]. erewrite renewal_ends by done.
  eexists. split; [reflexivity|]. split; [|done]. split; [done|]. by apply renewed_held.
Qed.
End Passes.
