(* ===== verification/Hub.v ===== *)
(** A small GitHub, a small object store and a workflow, for the witnesses. *)

From stdpp Require Import strings gmap.
From S2P Require Import Prelude Schema Tables Database PreparationStore InputBundles Runtime PublicationStore Notices.
From S2P Require Import ConnectorErrors ConnectorSteps Actions GitHub NoticeDelivery ObjectStore PreparationCommand.
From S2P Require Import Scenario.

(** * GitHub *)

Record hub := {
  hub_installed : list (string * string);
  hub_threads : gmap (string * string * Z) (list IssueCommentSummary);
  hub_issues : gmap (string * string) (list RepositoryIssue);
}.

Definition ref_key (r : repo_ref) : string * string := (owner_login r, repo_name r).

Definition hub_thread (r : repo_ref) (n : Z) (g : hub) : list IssueCommentSummary :=
  default [] (hub_threads g !! (ref_key r, n)).

Definition status_error (status : Z) (message : string) : thrown_error := {|
  te_claim_lost := false; te_deterministic := false; te_code := None; te_status := Some status;
  te_message := message; te_retry_after := None; te_rate_remaining := None;
  te_response_message := None |}.

Definition hub_access (r : repo_ref) (g : hub) : outcome_of unit :=
  if bool_decide (ref_key r ∈ hub_installed g) then inl tt else inr (status_error 404 "Not Found").

Definition bot_login : option string := bot_login_of (Some "sec-review-bot").
Definition bot_user : github_user := {| us_login := bot_login; us_type := Some "Bot" |}.

Definition hub_comment (body : string) (id : Z) : IssueCommentSummary := {|
  ic_id := id; ic_body := Some body;
  ic_html_url := "https://github.com/comment"; ic_user := Some bot_user |}.

#[export] Instance hub_github : GitHub hub := {
  getRepoInstallation := hub_access;
  getRepo := hub_access;
  listComments r n p g := inl (page_of p (hub_thread r n g));
  createComment r n body g :=
    let c := hub_comment body (Z.of_nat (length (hub_thread r n g))) in
    (inl c, {| hub_installed := hub_installed g;
               hub_threads := <[(ref_key r, n) := hub_thread r n g ++ [c]]> (hub_threads g);
               hub_issues := hub_issues g |});
  listForRepo r p g := inl (page_of p (default [] (hub_issues g !! ref_key r)));
  createIssue r title g :=
    let open := default [] (hub_issues g !! ref_key r) in
    let n := Z.of_nat (length open) + 1 in
    (inl n, {| hub_installed := hub_installed g; hub_threads := hub_threads g;
               hub_issues := <[ref_key r :=
                 open ++ [{| ri_number := n; ri_title := title; ri_pull_request := false |}]]>
                 (hub_issues g) |});
}.

#[export] Instance hub_laws : GitHubLaws hub bot_login.
Proof.
  refine {| thread := hub_thread; comment_sends := 1 |}.
  - by intros r n p g l [= <-].
  - intros r n body g res g' [= <- <-]. eexists [_]. split; [|split; [|split]].
    + unfold hub_thread at 1. simpl. by rewrite lookup_insert_eq.
    + simpl. lia.
    + constructor; [|done]. split; [done|]. intros login [= <-]. vm_compute. reflexivity.
    + intros c [= <-]. left.
Defined.

Definition repository1 : repo_ref := {| owner_login := "octo"; repo_name := "app" |}.

(** An app installed on one repository, with a conversation somebody opened. *)
Definition hub1 : hub := {|
  hub_installed := [("octo", "app")];
  hub_threads := {[ ("octo", "app", 7) :=
    [{| ic_id := 100; ic_body := Some "Please review."; ic_html_url := "https://github.com/first";
        ic_user := Some {| us_login := Some "octocat"; us_type := Some "User" |} |}] ]};
  hub_issues := ∅ |}.

(** The input of a run about issue 7 of it. *)
Definition issue_input (repo : string) : json :=
  JObject [("issue", JObject [("repo_full_name", JString repo); ("owner_login", JString "octo");
                              ("repo_name", JString "app"); ("issue_number", JNumber 7)])].

Definition notice_work (input : json) (token : string) : RunNoticeWork := {|
  nw_notice_id := 3; nw_run_id := "run-1"; nw_input := input; nw_kind := Notice.failure;
  nw_axis := execution; nw_reason_code := Some "BOOM"; nw_claim_token := token |}.

Definition claimed_notice (token : string) (at_ : Z) : notice_row := {|
  n_kind := Notice.failure; n_source_event_id := 3; n_status := Notice.delivering;
  n_axis := execution; n_reason_code := Some "BOOM"; n_comment_url := None;
  n_claim_token := Some token; n_claimed_at := Some at_; n_created_at := 0; n_updated_at := at_ |}.

Definition notice_rows (token : string) (at_ : Z) : run_rows :=
  (no_rows 9 9) <| t_notices := {[ 3 := claimed_notice token at_ ]} |>.

Definition world_of (g : hub) (t : run_rows) : world hub :=
  {| w_calls := 0; w_remote := g; w_rows := t; w_lost := false; w_trace := [] |}.

(** * The object store *)

(** A bucket in memory. *)
Definition shelf : Type := gmap string object_meta.

Definition store_refusal (status : Z) (message : string) : store_error :=
  {| so_status := Some status; so_error := error_of message |}.

#[export] Instance shelf_store : ObjectStore shelf := {
  headObject k o := match o !! k with Some m => inl m | None => inr (store_refusal 404 "NotFound") end;
  listObjects k o := inl (match o !! k with Some _ => [k] | None => [] end);
  putNewObject k m o :=
    match o !! k with
    | Some _ => (inr (store_refusal 412 "PreconditionFailed"), o)
    | None => (inl tt, <[k := m]> o)
    end;
}.

#[export] Instance shelf_laws : ObjectStoreLaws shelf.
Proof.
  refine {| object_at k (o : shelf) := o !! k |}.
  - intros k o m. simpl. destruct (o !! k); naive_solver.
  - intros k o l. simpl. destruct (o !! k) eqn:Hk; [|done]. intros [= <-] Hn. set_solver.
  - intros k m o r o'. simpl. destruct (o !! k) eqn:Hk; intros [= <- <-]; [naive_solver|].
    split; [|intros _; apply lookup_insert_eq]. right. split; [done|]. split; [apply lookup_insert_eq|].
    intros k' Hne. by apply lookup_insert_ne.
Defined.

(** [new URL(uri)], on the two shapes of URI there are below. *)
Definition location (uri : string) : option (string * string * string) :=
  if String.prefix "s3://bundles/" uri
  then Some ("s3:", "bundles", String.substring 12 (String.length uri - 12) uri)
  else if String.prefix "file:" uri then Some ("file:", "", String.substring 5 (String.length uri - 5) uri)
  else None.

Definition bundle_url (uri : string) : option url :=
  match location uri with
  | Some (protocol, _, path) =>
      Some {| url_protocol := protocol; url_search := ""; url_hash := ""; url_username := "";
              url_password := ""; url_port := ""; url_pathname := path |}
  | None => None
  end.

Definition any_context (workflow : string) (context : json) : json + raised := inl context.
Definition accepts (workflow : string) (input : json) : submit_answer := Accepted.
Definition plain_failure (f : failure) : caught := {|
  caught_uncertain := false; caught_code := None; caught_message := "" |}.

(** A workflow that prepares the bundle of [Scenario], and one that fails. *)
Definition workflow_of (m : act shelf (json * json)) : workflows := {|
  wf_begin := λ _ _, pure tt; wf_prepare := λ _ _, m; wf_validated := λ _, inl tt;
  wf_resolve := λ _, pure tt |}.
Definition ready : workflows := workflow_of (pure (context1, input1)).
Definition overloaded : raised := raised_plain {|
  te_claim_lost := false; te_deterministic := false; te_code := None; te_status := Some 503;
  te_message := "Service Unavailable"; te_retry_after := None; te_rate_remaining := None;
  te_response_message := None |}.
Definition failing : workflows := workflow_of (raise overloaded).

(** The admitted run, whose preparation its admission claimed. *)
Definition admitted_rows : run_rows := stored (take 1 prepare_script).
Definition issue_work : PreparationWork := {|
  w_run_id := "run-1"; w_workflow := "issue-review"; w_input_version := "v1";
  w_input := JObject [("kind", JString "github_issue_review")]; w_claim_token := "prep-1";
  w_attempt_count := 1 |}.

Definition shelf_world (o : shelf) (t : run_rows) : world shelf :=
  {| w_calls := 0; w_remote := o; w_rows := t; w_lost := false; w_trace := [] |}.
Definition first_world : world shelf := shelf_world ∅ admitted_rows.

(** A clock that ticks once a request. *)
Definition second (i : nat) : Z := Z.of_nat i * 1000 * 1000.
