(* ===== verification/NoticeProperties.v ===== *)
(** What the delivery of run notices guarantees: a reply is posted under a fresh claim and by one
    call, and how a pass ends. *)

From stdpp Require Import pretty.
From S2P Require Import Prelude Schema Tables Database PublicationStore Notices ConnectorErrors.
From S2P Require Import ConnectorSteps Actions GitHub GitHubSpecs NoticeDelivery.
From S2P Require Import NoticeOutcomes Hub.

(** * Under a fresh claim *)

(** Right before every write the claim of the notice was renewed: the rows the renewal left
    show it held by the token. *)
Definition fresh_writes (notice_id : Z) (token : string) (trace : list event) : Prop :=
  ∀ l1 l2, trace = l1 ++ Wrote :: l2 →
    ∃ t l3 n, l2 = Renewed t :: l3 ∧ t_notices t !! notice_id = Some n ∧ holds_notice token n = true.

Lemma fresh_nil i token : fresh_writes i token [].
Proof. by intros [] l2. Qed.

Lemma fresh_renewed i token t tr : fresh_writes i token tr → fresh_writes i token (Renewed t :: tr).
Proof. intros Hf [|e l1] l2; [done|]. intros [= <- ->]. by eapply Hf. Qed.

Lemma fresh_wrote i token t tr n :
  fresh_writes i token (Renewed t :: tr) → t_notices t !! i = Some n → holds_notice token n = true →
  fresh_writes i token (Wrote :: Renewed t :: tr).
Proof. intros Hf Hn Hh [|e l1] l2 Heq; simpl in Heq.
  - injection Heq as Heq. subst. eauto 10.
  - injection Heq as _ Heq. by eapply Hf. Qed.

(** A renewal that is confirmed leaves the claim held. *)
Lemma renewed_holds now i token t t' :
  renewNoticeClaim now i token t = Ok (true, t') →
  ∃ n, t_notices t' !! i = Some n ∧ holds_notice token n = true.
Proof.
  unfold renewNoticeClaim, update_notice. destruct (t_notices t !! i) as [n|]; [|done].
  destruct (holds_notice token n) eqn:Hh; [|done]. destruct (notice_check _); [|done].
  intros [= <-]. eexists. split; [simpl; apply lookup_insert_eq|]. exact Hh.
Qed.

Section Fresh.
Context {G : Type} `{GitHub G}.
Context (now : nat → Z) (env : nat → G * run_rows → G * run_rows) (net : nat → transport).
Context (message_of : failure → string) (bot : option string) (fuel : nat).
Context (i : Z) (token : string).

Definition fresh (w : world G) : Prop := fresh_writes i token (w_trace w).
Definition armed (w : world G) : Prop :=
  fresh w ∧ ∃ t tr n, w_trace w = Renewed t :: tr ∧ t_notices t !! i = Some n ∧ holds_notice token n = true.

Lemma disturb_trace w : w_trace (disturb env w) = w_trace w.
Proof. unfold disturb. by destruct (env _ _). Qed.

Lemma keeps_store {A} (m : Z → run_rows → result A * run_rows) :
  keeps_world fresh (store_call now env net message_of m).
Proof.
  intros w Hw. unfold ends, store_call. destruct (request _ _ _ _ _ _ _) as [r t].
  unfold fresh. destruct r; simpl; by rewrite disturb_trace.
Qed.

Lemma keeps_get {A} (f : G → outcome_of A) : keeps_world fresh (remote_get env f).
Proof.
  intros w Hw. unfold ends, remote_get, fresh. by destruct (f _); simpl; rewrite disturb_trace.
Qed.

Lemma keeps_read_lost : keeps_world fresh read_lost.
Proof. by intros w Hw. Qed.
Lemma keeps_mark_lost : keeps_world fresh mark_lost.
Proof. by intros w Hw. Qed.

Lemma renew_armed w : fresh w →
  ends (renewNoticeSerially now env net message_of i token) (λ _, armed) (λ _, fresh) w.
Proof.
  intros Hw. unfold renewNoticeSerially. apply ends_then. unfold ends at 1, read_lost.
  destruct (w_lost w); [done|]. unfold renewNotice. apply ends_catch, ends_then.
  assert (Hstop : ∀ e w', fresh w' → ends (mark_lost ;;>
      raise (if bool_decide (ra_class e = RunNoticeClaimLostError) then e else notice_claim_lost i))
      (λ _ : unit, armed) (λ _, fresh) w').
  { intros e w' Hw'. by apply ends_then, ends_raise. }
  unfold ends at 1, store_call. destruct (request _ _ _ _ _ _ _) as [r t] eqn:Hreq.
  assert (Hf : ∀ t, fresh {| w_calls := w_calls (disturb env w); w_remote := w_remote (disturb env w);
      w_rows := t; w_lost := w_lost (disturb env w); w_trace := w_trace (disturb env w) |}).
  { intros t'. unfold fresh. simpl. by rewrite disturb_trace. }
  destruct r as [[]|e]; cbn [thrown_or]; [|apply ends_raise, Hstop, Hf|apply Hstop, Hf].
  assert (Hn : ∃ n, t_notices t !! i = Some n ∧ holds_notice token n = true).
  { revert Hreq. unfold request, serve, transaction. destruct (net _); [|by intros [=]..].
    destruct (renewNoticeClaim _ i token _) as [[b t']|f] eqn:Hr; [|by intros [=]].
    intros [= -> ->]. by eapply renewed_holds. }
  destruct Hn as (n & Hn & Hh). unfold ends, confirm, armed, fresh. simpl.
  split; [apply fresh_renewed, (Hf t)|]. by exists t, (w_trace (disturb env w)), n.
Qed.

Lemma post_fresh {A} (f : G → outcome_of A * G) w : armed w →
  ends (remote_post env f) (λ _, fresh) (λ _, fresh) w.
Proof.
  intros (Hw & t & tr & n & Htr & Hn & Hh). unfold ends, remote_post.
  destruct (f _) as [r g]. unfold fresh in *. rewrite Htr in Hw.
  destruct r; simpl; rewrite disturb_trace, Htr; by eapply fresh_wrote.
Qed.

Lemma keeps_renewal : keeps_world fresh (renewNoticeSerially now env net message_of i token).
Proof. intros w Hw. eapply ends_mono; [by apply renew_armed|by intros ? ? []|done]. Qed.

Lemma keeps_write {A} (f : G → outcome_of A * G) :
  keeps_world fresh (renewNoticeSerially now env net message_of i token ;;> remote_post env f).
Proof.
  intros w Hw. apply ends_then. eapply ends_mono; [by apply renew_armed| |done].
  intros [] w'. apply post_fresh.
Qed.

Lemma keeps_search {A} n page (fetch : Z → act G (list A)) matches :
  (∀ p, keeps_world fresh (fetch p)) → keeps_world fresh (search_pages n fetch matches page).
Proof.
  intros Hf. revert page. induction n as [|n IH]; intros page; [by intros w Hw|]. cbn [search_pages].
  apply keeps_then; [done|]. intros [|a items]; [auto with acts|]. apply keeps_then; [auto with acts|].
  intros [c|]; [auto with acts|]. destruct (Nat.ltb _ _); auto with acts.
Qed.
End Fresh.

#[export] Hint Resolve keeps_store keeps_get keeps_read_lost keeps_mark_lost keeps_renewal
  keeps_write keeps_search : acts.

(** A routine is a composition of routines that keep the property. *)
Ltac act_step :=
  match goal with
  | |- keeps_world _ (andThen _ (λ _, remote_post _ _)) => solve [eauto with acts]
  | |- keeps_world _ (andThen _ _) => apply keeps_then; [|intros ?]
  | |- keeps_world _ (catch _ _) => apply keeps_catch; [|intros ?]
  | |- keeps_world _ (if ?b then _ else _) => destruct b eqn:?
  | |- keeps_world _ (match ?x with _ => _ end) => destruct x eqn:?
  | |- keeps_world _ _ => solve [eauto with acts]
  end.

(** The connector writes on GitHub for a notice, be it the comment or the summary issue
    of a scan, only under a claim it has just proved: right before each write the service
    confirmed a renewal, and the rows it left show the notice held by this very token. *)
Theorem notice_writes_under_fresh_claim {G : Type} `{GitHub G} now env net message_of bot fuel work
    (w w' : world G) r :
  deliver_claimed now env net message_of bot fuel work w = Some (r, w') → w_trace w = [] →
  fresh_writes (nw_notice_id work) (nw_claim_token work) (w_trace w').
Proof.
  intros Heq Htr.
  assert (Hk : keeps_world (fresh (nw_notice_id work) (nw_claim_token work))
                 (deliver_claimed now env net message_of bot fuel work)).
  { unfold deliver_claimed, try_delivery, reply_to_notice, startRunNoticeClaimHeartbeat, complete_notice,
      installationOctokitForRepo, sendRunNoticeReply, assertRepositoryIsInstalled, post_reply,
      ensureSummaryIssueNumber, createIssueCommentUnlessMarkerExists, createIssueComment,
      findRepositorySecuritySummaryIssue, findIssueCommentByMarker.
    repeat act_step. }
  specialize (Hk w). unfold fresh at 1 in Hk. rewrite Htr in Hk. specialize (Hk (fresh_nil _ _)).
  unfold ends in Hk. rewrite Heq in Hk. by destruct r.
Qed.

(** * Once *)

Lemma prefix_app s s' : String.prefix s (s +:+ s') = true.
Proof.
  induction s as [|a s IH]; simpl; [by destruct s'|]. by destruct (Ascii.ascii_dec a a).
Qed.

Lemma includes_prefix s s' : includes s (s +:+ s') = true.
Proof.
  assert (Hp := prefix_app s s'). destruct (s +:+ s'); cbn [includes]; by rewrite Hp.
Qed.

(** The text of a notice carries its marker. *)
Lemma body_marked work : includes (notice_marker (nw_notice_id work)) (notice_body work) = true.
Proof. unfold notice_body. apply includes_prefix. Qed.

Section Once.
Context {G : Type} `{GitHub G} (bot : option string) `{!GitHubLaws G bot}.
Context (now : nat → Z) (env : nat → G * run_rows → G * run_rows) (net : nat → transport).
Context (message_of : failure → string) (fuel : nat).
Context (work : RunNoticeWork) (target : reply_target).

Abbreviation marker := (notice_marker (nw_notice_id work)).
Abbreviation appends := (appends bot (rt_repo target) (rt_issue_number target) marker).

(** The replies to the notice on the conversation it belongs to. *)
Definition replies (g : G) : list IssueCommentSummary :=
  List.filter (is_marked bot marker) (thread (bot := bot) (rt_repo target) (rt_issue_number target) g).

Lemma appends_replies g g' : appends g g' → replies g' = replies g.
Proof.
  intros (new & Hg & Hn). unfold replies. rewrite Hg, List.filter_app.
  assert (Hnew : List.filter (is_marked bot marker) new = []).
  { clear Hg. induction Hn as [|c new Hc _ IH]; simpl; [done|]. by rewrite Hc. }
  by rewrite Hnew, app_nil_r.
Qed.

Context (Henv : ∀ i g t, appends g (env i (g, t)).1).

(** The replies that were there stay as they are; where there was none, one call of the client
    may have left some, as many as it sends requests. *)
Definition replied_once (g g' : G) : Prop :=
  replies g' = replies g ∨ replies g = [] ∧ (length (replies g') <= comment_sends (bot := bot))%nat.

Lemma replied_once_trans g1 g2 g3 : replied_once g1 g2 → replied_once g2 g3 → replied_once g1 g3.
Proof. unfold replied_once. intros [->|[-> H1]] [->|[H2 H3]]; eauto. Qed.

Lemma once_none g1 g2 : replied_once g1 g2 → replies g2 = [] → replies g1 = [].
Proof. intros [->|[-> _]]; done. Qed.

(** Since the state [g0]. *)
Context (g0 : G).
Definition single (w : world G) : Prop := replied_once g0 (w_remote w).

Lemma disturb_appends w : appends (w_remote w) (w_remote (disturb env w)).
Proof. unfold disturb. pose proof (Henv (w_calls w) (w_remote w) (w_rows w)). by destruct (env _ _). Qed.

Lemma single_disturb w : single w → single (disturb env w).
Proof. unfold single, replied_once. by rewrite (appends_replies _ _ (disturb_appends w)). Qed.

Lemma single_store {A} (m : Z → run_rows → result A * run_rows) :
  keeps_world single (store_call now env net message_of m).
Proof.
  intros w Hw. unfold ends, store_call. destruct (request _ _ _ _ _ _ _) as [r t].
  destruct r; by apply single_disturb.
Qed.

Lemma single_get {A} (f : G → outcome_of A) : keeps_world single (remote_get env f).
Proof. intros w Hw. unfold ends, remote_get. by destruct (f _); apply single_disturb. Qed.

Lemma single_read_lost : keeps_world single read_lost.
Proof. by intros w Hw. Qed.
Lemma single_mark_lost : keeps_world single mark_lost.
Proof. by intros w Hw. Qed.
Lemma single_confirm : keeps_world single confirm.
Proof. by intros w Hw. Qed.
#[local] Hint Resolve single_store single_get single_read_lost single_mark_lost single_confirm : acts.

(** A renewal only lets the others append. *)
Lemma renew_appends w :
  ends (renewNoticeSerially now env net message_of (nw_notice_id work) (nw_claim_token work))
    (λ _ w', appends (w_remote w) (w_remote w')) (λ _ _, True) w.
Proof.
  apply ends_then. unfold ends at 1, read_lost. destruct (w_lost w); [done|].
  apply ends_catch, ends_then. unfold ends at 1, store_call. pose proof (disturb_appends w) as Ha.
  destruct (request _ _ _ _ _ _ _) as [[[]|e] t]; cbn [thrown_or]; [exact Ha|done|done].
Qed.

Abbreviation renew :=
  (renewNoticeSerially now env net message_of (nw_notice_id work) (nw_claim_token work)).

Lemma single_renew : keeps_world single renew.
Proof.
  unfold renewNoticeSerially, renewNotice. repeat act_step.
Qed.

(** Where there is no reply, one call leaves no more than it sends. *)
Lemma post_single body w :
  single w → replies (w_remote w) = [] →
  ends (createIssueComment env renew (rt_repo target) (rt_issue_number target) body)
    (λ _, single) (λ _, single) w.
Proof.
  intros Hs Hw. unfold createIssueComment. apply ends_then. pose proof (once_none _ _ Hs Hw) as Hw0.
  pose proof (single_renew w Hs) as Hk. pose proof (renew_appends w) as Ha. unfold ends in Hk, Ha |- *.
  destruct (renew w) as [[[[]|e] w1]|]; [|exact Hk|done].
  unfold remote_post. pose proof (disturb_appends w1) as Hd.
  destruct (createComment _ _ _ _) as [r g] eqn:Hc.
  destruct (createComment_appends _ _ _ _ _ _ Hc) as (posted & Hg & Hl & _).
  assert (Hbatch : (length (replies g) <= comment_sends (bot := bot))%nat).
  { assert (H0 : replies (w_remote (disturb env w1)) = []).
    { by rewrite (appends_replies _ _ Hd), (appends_replies _ _ Ha). }
    unfold replies in H0 |- *. rewrite Hg, List.filter_app, H0. simpl.
    pose proof (List.filter_length_le (is_marked bot marker) posted). lia. }
  by destruct r; right.
Qed.

Lemma none_replies g :
  Forall (λ c, is_marked bot marker c = false)
    (thread (bot := bot) (rt_repo target) (rt_issue_number target) g) → replies g = [].
Proof. unfold replies. induction 1 as [|c l Hc _ IH]; simpl; [done|]. by rewrite Hc. Qed.

Lemma single_reply body :
  keeps_world single
    (createIssueCommentUnlessMarkerExists env fuel bot renew (rt_repo target) (rt_issue_number target)
       body marker).
Proof.
  intros w Hw. unfold createIssueCommentUnlessMarkerExists. apply ends_then.
  eapply ends_mono; [apply (search_ends bot env (rt_repo target) (rt_issue_number target) marker Henv fuel 0);
    [by rewrite Nat.mul_0_r|rewrite Nat.mul_0_r; lia]| |].
  - intros [c|] w' [Ha Hr].
    + apply ends_pure. unfold single, replied_once. by rewrite (appends_replies _ _ Ha).
    + apply ends_then. eapply ends_mono; [apply post_single; [|apply none_replies, Hr]|done|done].
      unfold single, replied_once. by rewrite (appends_replies _ _ Ha).
  - intros e w' Ha. unfold single, replied_once. by rewrite (appends_replies _ _ Ha).
Qed.
#[local] Hint Resolve single_renew single_reply : acts.

Lemma single_delivery :
  replyTarget (nw_input work) = Some target →
  keeps_world single (deliver_claimed now env net message_of bot fuel work).
Proof.
  intros Ht. unfold deliver_claimed, try_delivery, startRunNoticeClaimHeartbeat, complete_notice.
  apply keeps_catch; [|intros e; repeat act_step].
  apply keeps_then; [repeat act_step|intros _]. apply keeps_then; [|intros d; repeat act_step].
  unfold reply_to_notice. apply keeps_computed_then. intros input Hi. unfold requireNoticeInput in Hi. destruct (json_is_object _); [|done].
  injection Hi as <-. unfold installationOctokitForRepo, sendRunNoticeReply. rewrite Ht.
  unfold assertRepositoryIsInstalled, post_reply. repeat act_step.
Qed.

(** ** The reply is there *)

Lemma ends_any {A} (m : act G A) w : ends m (λ _ _, True) (λ _ _, True) w.
Proof. unfold ends. by destruct (m w) as [[[]]|]. Qed.

(** A reply of the app, at this address. *)
Definition replied (url : string) (g : G) : Prop :=
  ∃ c, c ∈ replies g ∧ ic_html_url c = url.

Lemma replied_at c g :
  c ∈ thread (bot := bot) (rt_repo target) (rt_issue_number target) g →
  is_marked bot marker c = true → replied (ic_html_url c) g.
Proof.
  intros Hin Hm. exists c. split; [|done]. apply list_elem_of_In, List.filter_In.
  split; [by apply list_elem_of_In|done].
Qed.

Lemma create_replied login w :
  requireAppBotLogin bot = inl login →
  ends (createIssueComment env renew (rt_repo target) (rt_issue_number target) (notice_body work))
    (λ c w', replied (ic_html_url c) (w_remote w')) (λ _ _, True) w.
Proof.
  intros Hbot. apply ends_then. eapply ends_mono; [apply ends_any| |done]. intros [] w1 _.
  unfold ends, remote_post. destruct (createComment _ _ _ _) as [r g] eqn:Hc.
  destruct (createComment_appends _ _ _ _ _ _ Hc) as (posted & Hg & _ & Hb & Hr).
  destruct r as [c|e]; [|done]. cbn [thrown_or w_remote]. specialize (Hr c eq_refl).
  rewrite Forall_forall in Hb. destruct (Hb c Hr) as [Hbody Ha]. apply replied_at.
  - rewrite Hg. apply elem_of_app. by right.
  - unfold is_marked, marked. by rewrite (Ha login Hbot), Hbody, body_marked.
Qed.

Lemma post_replied login w :
  requireAppBotLogin bot = inl login →
  ends (post_reply now env net message_of bot fuel work target)
    (λ url w', replied url (w_remote w')) (λ _ _, True) w.
Proof.
  intros Hbot. apply ends_then, ends_then.
  eapply ends_mono; [apply (search_ends bot env (rt_repo target) (rt_issue_number target) marker Henv fuel 0);
    [by rewrite Nat.mul_0_r|rewrite Nat.mul_0_r; lia]| |done].
  intros [c|] w' [_ Hr].
  - destruct Hr as [Hin Hm]. by apply replied_at.
  - apply ends_then. eapply ends_mono; [by eapply create_replied|done|done].
Qed.

Lemma reply_there login w :
  replyTarget (nw_input work) = Some target → requireAppBotLogin bot = inl login →
  ends (reply_to_notice now env net message_of bot fuel work)
    (λ r w', match r with Some url => replied url (w_remote w') | None => True end) (λ _ _, True) w.
Proof.
  intros Ht Hbot. apply ends_then, ends_computed; [|done].
  intros input Hi. unfold requireNoticeInput in Hi. destruct (json_is_object _); [|done].
  injection Hi as <-. apply ends_then, ends_computed; [|done]. intros [name|] _; [|done].
  apply ends_then. eapply ends_mono; [apply ends_any| |done]. intros [] w1 _.
  unfold sendRunNoticeReply. rewrite Ht.
  apply ends_then. eapply ends_mono; [apply ends_any| |done]. intros [] w2 _.
  apply ends_then. eapply ends_mono; [by eapply post_replied| |done]. by intros url w3 Hr.
Qed.
End Once.

(** One pass of some worker over the notice: its clock, its network, its claim, and what
    everybody else does before each of its requests. *)
Record notice_round (G : Type) := {
  nr_now : nat → Z;
  nr_env : nat → G * run_rows → G * run_rows;
  nr_net : nat → transport;
  nr_fuel : nat;
  nr_token : string;
}.
Arguments nr_now {G}. Arguments nr_env {G}. Arguments nr_net {G}. Arguments nr_fuel {G}.
Arguments nr_token {G}.

(** The passes one after the other, None when one of them does not end in its fuel. *)
Fixpoint notice_rounds {G} `{GitHub G} (message_of : failure → string) (bot : option string)
    (work : RunNoticeWork) (rounds : list (notice_round G)) (g : G) (t : run_rows) :
    option (G * run_rows) :=
  match rounds with
  | [] => Some (g, t)
  | rd :: rest =>
      match deliver_claimed (nr_now rd) (nr_env rd) (nr_net rd) message_of bot (nr_fuel rd)
              (work <| nw_claim_token := nr_token rd |>)
              {| w_calls := 0; w_remote := g; w_rows := t; w_lost := false; w_trace := [] |} with
      | Some (_, w) => notice_rounds message_of bot work rest (w_remote w) (w_rows w)
      | None => None
      end
  end.

(** C11: a notice about an issue or a pull request is answered by one call of the GitHub client at
    most, however often its delivery is tried: over any number of passes, one after the
    other, by any workers, with any loss of messages and of the answers of GitHub, and while
    others comment on the conversation (nobody else puts the app's marker there, as a pass
    that overlaps would), the comments with the marker of the notice stay what they are once
    there is one; and those there are come from one call, which leaves as many as the client
    sends its request, the retries of its own included: one, unless the client has to send
    the request again. *)
Theorem one_reply_per_notice {G : Type} `{GitHub G} bot `{!GitHubLaws G bot} message_of work target rounds g t g' t' :
  replyTarget (nw_input work) = Some target →
  Forall (λ rd, ∀ i g t, appends bot (rt_repo target) (rt_issue_number target)
    (notice_marker (nw_notice_id work)) g (nr_env rd i (g, t)).1) rounds →
  notice_rounds message_of bot work rounds g t = Some (g', t') →
  replies bot work target g' = replies bot work target g
  ∨ replies bot work target g = []
    ∧ (length (replies bot work target g') <= comment_sends (bot := bot))%nat.
Proof.
  intros Ht Hr. change (notice_rounds message_of bot work rounds g t = Some (g', t') → replied_once bot work target g g').
  revert g t. induction Hr as [|rd rest Hrd _ IH]; intros g t; cbn [notice_rounds].
  { intros [= <- <-]. by left. }
  match goal with |- context [deliver_claimed _ _ _ _ _ _ ?wk ?w0] =>
    pose proof (single_delivery bot (nr_now rd) (nr_env rd) (nr_net rd) message_of (nr_fuel rd)
      wk target Hrd g Ht w0 (or_introl eq_refl)) as Hs end.
  unfold ends in Hs. destruct (deliver_claimed _ _ _ _ _ _ _ _) as [[r w]|]; [|by intros [=]].
  intros Hn. eapply replied_once_trans; [|by eapply IH]. by destruct r.
Qed.

(** The search for an earlier comment of the app reads as many pages as it takes and answers
    the first one that carries the marker, out of the whole conversation: on a conversation
    that stands still, with pages that are answered, it ends once it has the fuel for the
    pages there are, and its answer is the search of the list of all comments. *)
Theorem marker_search_is_find {G : Type} `{GitHub G} bot `{!GitHubLaws G bot} env target issue marker login
    fuel (w : world G) :
  requireAppBotLogin bot = inl login →
  (∀ i g t, thread (bot := bot) target issue (env i (g, t)).1 = thread (bot := bot) target issue g) →
  (∀ page g, ∃ l, listComments target issue page g = inl l) →
  (length (thread (bot := bot) target issue (w_remote w)) < per_page * fuel)%nat →
  ∃ w', findIssueCommentByMarker env fuel bot target issue marker w
        = Some (inl (List.find (is_marked bot marker) (thread (bot := bot) target issue (w_remote w))), w').
Proof.
  intros Hbot Henv Hans Hlen.
  destruct (search_finds bot env target issue marker login Hbot fuel 0 w Henv Hans) as (w' & Heq & _).
  - by rewrite Nat.mul_0_r.
  - rewrite Nat.mul_0_r. lia.
  - exists w'. exact Heq.
Qed.

(** How an undisturbed pass over a claimed notice ends, by what sending the reply came to: a
    reply that was sent or found makes the notice delivered, with the address of a comment of
    the app that carries the marker and is there; a notice with nowhere to go is concluded as
    failed; an exception concludes it as failed, unless the connector takes it for transient,
    and then the notice stays claimed, to be tried again once the lease is over. *)
Theorem notice_pass_outcomes {G : Type} `{GitHub G} bot `{!GitHubLaws G bot} now message_of fuel work
    target login (w : world G) :
  let i := nw_notice_id work in let token := nw_claim_token work in
  replyTarget (nw_input work) = Some target → requireAppBotLogin bot = inl login →
  held i token w →
  ∃ w1, startRunNoticeClaimHeartbeat now quiet_world reliable message_of i token w = Some (inl tt, w1)
    ∧ w_remote w1 = w_remote w ∧
    match reply_to_notice now quiet_world reliable message_of bot fuel work w1 with
    | None => deliver_claimed now quiet_world reliable message_of bot fuel work w = None
    | Some (sent, w2) =>
        ∃ w' n, deliver_claimed now quiet_world reliable message_of bot fuel work w = Some (inl tt, w')
          ∧ w_remote w' = w_remote w2 ∧ t_notices (w_rows w') !! i = Some n ∧
          match sent with
          | inl (Some url) => n_status n = Notice.delivered ∧ n_comment_url n = Some url
                              ∧ replied bot work target url (w_remote w')
          | inl None => n_status n = Notice.failed ∧ n_comment_url n = None
          | inr e =>
              if pf_retry (classifyPreparationFailure e 1
                             (bool_decide (ra_class e = InvalidRunNoticeInputError)))
              then holds_notice token n = true
              else n_status n = Notice.failed ∧ n_comment_url n = None
          end
    end.
Proof.
  intros i token Ht Hbot Hw. destruct (start_ends now message_of work w Hw) as (w1 & Hstart & Hw1 & Hg1).
  exists w1. split; [exact Hstart|]. split; [exact Hg1|].
  assert (Henv : ∀ j g t, appends bot (rt_repo target) (rt_issue_number target)
    (notice_marker i) g (quiet_world j (g, t)).1) by (intros; apply appends_refl).
  pose proof (reply_there bot now quiet_world reliable message_of fuel work target Henv login w1 Ht Hbot) as Hthere.
  pose proof (calm_reply now message_of bot fuel work w1 Hw1) as Hcalm.
  unfold ends in Hthere, Hcalm. subst i token. unfold deliver_claimed, try_delivery, catch.
  rewrite (then_value _ _ _ _ _ Hstart).
  destruct (reply_to_notice _ _ _ _ _ _ _ w1) as [[[r|e] w2]|] eqn:Hsent.
  - rewrite (then_value _ _ _ _ _ Hsent). pose proof Hcalm as [Hl _].
    rewrite (then_value read_lost _ false w2 w2) by (unfold read_lost; by rewrite Hl).
    destruct r as [url|].
    + destruct (conclude_ends now message_of work true (Some url) w2 eq_refl Hcalm) as (n & w' & _ & -> & Hg & Hn).
      exists w'. eexists. rewrite Hg. eauto 10.
    + destruct (conclude_ends now message_of work false None w2 eq_refl Hcalm) as (n & w' & _ & -> & Hg & Hn).
      exists w'. eexists. rewrite Hg. eauto 10.
  - rewrite (then_raised _ _ _ _ _ Hsent). destruct Hcalm as [Hcalm Hclass].
    rewrite bool_decide_eq_false_2 by done. destruct (pf_retry _); cbn [negb].
    + pose proof Hcalm as [_ (n & Hn & Hh)]. exists w2, n. eauto 10.
    + destruct (conclude_ends now message_of work false None w2 eq_refl Hcalm) as (n & w' & _ & -> & Hg & Hn).
      exists w'. eexists. rewrite Hg. eauto 10.
  - by rewrite (then_stuck _ _ _ Hsent).
Qed.

(** * What is retried, and what is not *)

Lemma repository_of_object input name :
  noticeRepository input = inl (Some name) → json_is_object input = true.
Proof. destruct input; try done; unfold noticeRepository, record_field; simpl; done. Qed.

(** The error of an invalid name has no status. *)
Lemma invalid_name_retried name e :
  splitRepoFullName name = inr e →
  pf_retry (classifyPreparationFailure e 1 (bool_decide (ra_class e = InvalidRunNoticeInputError))) = true
  ∧ ra_class e ≠ RunNoticeClaimLostError.
Proof. unfold splitRepoFullName. by repeat case_match; intros [= <-]. Qed.

(** A notice whose input names a repository with an invalid name is never concluded: although
    no later pass can fare better, each pass ends with the notice still claimed, nothing
    written, and the notice claimable again as soon as the lease is over. *)
Theorem invalid_repository_never_concludes {G : Type} `{GitHub G} now message_of bot fuel work name e
    (w : world G) :
  let i := nw_notice_id work in let token := nw_claim_token work in
  noticeRepository (nw_input work) = inl (Some name) → splitRepoFullName name = inr e →
  held i token w →
  ∃ w' n, deliver_claimed now quiet_world reliable message_of bot fuel work w = Some (inl tt, w')
    ∧ w_remote w' = w_remote w ∧ t_notices (w_rows w') !! i = Some n ∧ holds_notice token n = true
    ∧ n_status n = Notice.delivering
    ∧ ∀ cfg later, lease_expired (n_claimed_at n) later (claim_timeout_ms cfg) = true →
        notice_claimable cfg later n = true.
Proof.
  intros i token Hr Hs Hw. destruct (start_ends now message_of work w Hw) as (w1 & Hstart & Hw1 & Hg1).
  destruct (invalid_name_retried name e Hs) as [Hretry Hclass].
  subst i token. unfold deliver_claimed, try_delivery, catch. rewrite (then_value _ _ _ _ _ Hstart).
  assert (Hsent : reply_to_notice now quiet_world reliable message_of bot fuel work w1 = Some (inr e, w1)).
  { unfold reply_to_notice, requireNoticeInput. rewrite (repository_of_object _ _ Hr).
    unfold andThen at 1, computed at 1. unfold andThen at 1, computed at 1. rewrite Hr.
    apply then_raised. unfold installationOctokitForRepo. apply then_raised. unfold computed. by rewrite Hs. }
  rewrite (then_raised _ _ _ _ _ Hsent), bool_decide_eq_false_2 by done.
  rewrite Hretry. cbn [negb]. destruct Hw1 as [_ (n & Hn & Hh)]. exists w1, n.
  assert (Hst : n_status n = Notice.delivering).
  { unfold holds_notice in Hh. by destruct_guard. }
  split; [done|]. split; [done|]. split; [done|]. split; [done|]. split; [done|].
  intros cfg later Hl. unfold notice_claimable. rewrite Hl, Hst. by rewrite orb_true_r.
Qed.

(** A rate limit on the check of the installation is transient, and is taken for a verdict. *)
Lemma rate_limited_check_is_final {G : Type} `{GitHub G} (now : nat → Z) env target (e : thrown_error)
    (w : world G) :
  (∀ g, getRepo target g = inr e) → te_status e = Some 403 → isRateLimited e = true →
  isRateLimited (ra_error (not_installed target 403)) = false →
  pf_retry (classifyPreparationFailure (raised_plain e) 1 false) = true ∧
  ∃ w', assertRepositoryIsInstalled env target w = Some (inr (not_installed target 403), w')
    ∧ pf_retry (classifyPreparationFailure (not_installed target 403) 1 false) = false.
Proof.
  intros Hg Hs Hr Hn. split.
  - unfold classifyPreparationFailure. simpl. by rewrite Hs, Hr.
  - eexists. split.
    + unfold assertRepositoryIsInstalled, catch, remote_get. rewrite Hg. simpl. by rewrite Hs.
    + unfold classifyPreparationFailure. simpl. simpl in Hn. by rewrite Hn.
Qed.

(** * Witnesses *)

Definition no_text (_ : failure) : string := "refused".
Definition tick (n : nat) : Z := Z.of_nat n.
Definition octo_work : RunNoticeWork := notice_work (issue_input "octo/app") "notice-1".
Definition octo_target : reply_target := {| rt_repo := repository1; rt_issue_number := 7 |}.
Definition octo_world : world hub := world_of hub1 (notice_rows "notice-1" 0).

(** The answer to the fourth request of the store (the conclusion) gets lost. *)
Definition last_lost (i : nat) : transport :=
  if Nat.ltb i 6 then Delivered else ResponseLost (error_of "socket hang up").

Definition deliver_octo (net : nat → transport) : option ((unit + raised) * world hub) :=
  deliver_claimed tick quiet_world net no_text bot_login 2 octo_work octo_world.

Lemma held_octo : held 3 "notice-1" octo_world.
Proof. split; [done|]. exists (claimed_notice "notice-1" 0). by split; vm_compute. Qed.

Lemma notice_writes_under_fresh_claim_witness :
  ∃ r w' t rest, deliver_octo reliable = Some (r, w') ∧ w_trace w' = Wrote :: Renewed t :: rest
    ∧ ∃ n, t_notices t !! 3 = Some n ∧ holds_notice "notice-1" n = true.
Proof.
  destruct (deliver_octo reliable) as [[r w']|] eqn:Heq; [|vm_compute in Heq; discriminate Heq].
  pose proof (notice_writes_under_fresh_claim tick quiet_world reliable no_text bot_login 2 octo_work
    octo_world w' r Heq eq_refl) as Hf.
  destruct (w_trace w') as [|[t0|] l] eqn:Htr.
  1,2: exfalso; vm_compute in Heq; injection Heq as _ <-; vm_compute in Htr; discriminate Htr.
  destruct (Hf [] l eq_refl) as (t & l3 & n & -> & Hn & Hh).
  exists r, w', t, l3. split; [done|]. split; [exact Htr|]. by exists n.
Defined.

Definition octo_round (net : nat → transport) (token : string) : notice_round hub := {|
  nr_now := tick; nr_env := λ _ gt, (gt.1, notice_rows token 0); nr_net := net; nr_fuel := 2;
  nr_token := token |}.

(** Two passes: the first one cannot conclude the notice, the second finds its comment. *)
Lemma one_reply_per_notice_witness :
  ∃ g' t', notice_rounds no_text bot_login octo_work
      [octo_round last_lost "notice-1"; octo_round reliable "notice-2"] hub1 (notice_rows "notice-1" 0)
    = Some (g', t')
    ∧ length (hub_thread repository1 7 g') = 2%nat
    ∧ (length (replies bot_login octo_work octo_target g') <= 1)%nat.
Proof.
  destruct (notice_rounds no_text bot_login octo_work
      [octo_round last_lost "notice-1"; octo_round reliable "notice-2"] hub1 (notice_rows "notice-1" 0))
    as [[g' t']|] eqn:Heq; [|vm_compute in Heq; discriminate Heq].
  exists g', t'. split; [reflexivity|].
  assert (Hl : length (hub_thread repository1 7 g') = 2%nat)
    by (vm_compute in Heq; injection Heq as <- _; vm_compute; reflexivity).
  split; [exact Hl|].
  destruct (one_reply_per_notice bot_login no_text octo_work octo_target
    [octo_round last_lost "notice-1"; octo_round reliable "notice-2"] hub1 (notice_rows "notice-1" 0) g' t')
    as [Hsame|[_ Hone]].
  - vm_compute. reflexivity.
  - repeat constructor; intros i g t; apply appends_refl.
  - exact Heq.
  - rewrite Hsame. vm_compute. lia.
  - exact Hone.
Defined.

Lemma marker_search_is_find_witness :
  ∃ w', findIssueCommentByMarker quiet_world 1 bot_login repository1 7 (notice_marker 3) octo_world
        = Some (inl None, w').
Proof.
  destruct (marker_search_is_find bot_login quiet_world repository1 7 (notice_marker 3)
    "sec-review-bot[bot]" 1 octo_world) as (w' & Heq).
  - vm_compute. reflexivity.
  - reflexivity.
  - intros page g. by eexists.
  - vm_compute. lia.
  - exists w'. rewrite Heq. vm_compute. reflexivity.
Defined.

Lemma notice_pass_outcomes_witness :
  ∃ w' n, deliver_octo reliable = Some (inl tt, w') ∧ t_notices (w_rows w') !! 3 = Some n
    ∧ n_status n = Notice.delivered ∧ replied bot_login octo_work octo_target "https://github.com/comment" (w_remote w').
Proof.
  destruct (notice_pass_outcomes bot_login tick no_text 2 octo_work octo_target "sec-review-bot[bot]" octo_world)
    as (w1 & Hs & _ & Hcase); [vm_compute; reflexivity|vm_compute; reflexivity|exact held_octo|].
  destruct (reply_to_notice tick quiet_world reliable no_text bot_login 2 octo_work w1) as [[sent w2]|] eqn:Hr;
    [|exfalso; vm_compute in Hs; injection Hs as <-; vm_compute in Hr; discriminate Hr].
  destruct Hcase as (w' & n & Hd & _ & Hn & Hsent). exists w', n.
  assert (Hu : sent = inl (Some "https://github.com/comment"))
    by (vm_compute in Hs; injection Hs as <-; vm_compute in Hr; by injection Hr as <- _).
  subst sent. destruct Hsent as (Hst & _ & Hrep). split; [exact Hd|]. by split; [exact Hn|split].
Defined.

Lemma invalid_repository_never_concludes_witness :
  ∃ w' n, deliver_claimed tick quiet_world reliable no_text bot_login 2
      (notice_work (issue_input "under_score/app") "notice-1") octo_world = Some (inl tt, w')
    ∧ t_notices (w_rows w') !! 3 = Some n ∧ notice_claimable (make_config "gh-1" "github" 60000) 100000000 n = true.
Proof.
  destruct (invalid_repository_never_concludes tick no_text bot_login 2
    (notice_work (issue_input "under_score/app") "notice-1") "under_score/app"
    (raised_plain (error_of "Invalid repository full name: under_score/app")) octo_world)
    as (w' & n & Hd & _ & Hn & _ & _ & Hc); [vm_compute; reflexivity..|exact held_octo|].
  exists w', n. split; [exact Hd|]. split; [exact Hn|]. apply Hc.
  assert (Hx : w' = match deliver_claimed tick quiet_world reliable no_text bot_login 2
    (notice_work (issue_input "under_score/app") "notice-1") octo_world with Some (_, w) => w | None => octo_world end)
    by (by rewrite Hd).
  rewrite Hx in Hn. vm_compute in Hn. injection Hn as <-. vm_compute. reflexivity.
Defined.
