(* ===== verification/CommandOutcomes.v ===== *)
(** How a preparation command leaves the rows: the routines that submit end only when the
    claim was consumed, and a reported failure always gives it up. *)

From S2P Require Import Prelude Schema StateMachines Tables Database RunRecord.
From S2P Require Import PreparationStore ExecutionStore InputBundles SubmissionTransitions.
From S2P Require Import PublicationStore Runtime Invariant Preservation PreparationSpecs.
From S2P Require Import ExecutionSpecs DatabaseSpecs System SystemSpecs Scenario Fencing.
From S2P Require Import PreparationProperties SubmissionProperties.
From S2P Require Import ConnectorErrors ConnectorSteps Actions GitHub ObjectStore.
From S2P Require Import PreparationCommand.

(** Nobody prepares the run under this token. *)
Definition released (token : string) (t : run_rows) : Prop :=
  ∀ p, t_prep t = Some p → holds_preparation token p = false.

Lemma released_dec token t :
  released token t ∨ ∃ p, t_prep t = Some p ∧ holds_preparation token p = true.
Proof.
  unfold released. destruct (t_prep t) as [p|]; [|by left].
  destruct (holds_preparation token p) eqn:Hh; [by right; exists p|left; by intros ? [= <-]].
Qed.

Lemma axes_released token t p e u : axes_are t p e u → p ≠ Prep.preparing → released token t.
Proof.
  unfold axes_are, statuses, released. intros Hax Hp q Hq. rewrite Hq in Hax. simpl in Hax.
  injection Hax as Hs _ _. unfold holds_preparation. rewrite Hs. by rewrite bool_decide_eq_false_2.
Qed.

(** A failure report gives the claim up, or there was none. *)
Lemma fail_releases now token error retry after t :
  run_inv t → ∃ b t', fail now token error retry after t = Ok (b, t') ∧ run_inv t' ∧ released token t'.
Proof.
  intros Hinv. destruct (released_dec token t) as [Hr|(p & Hp & Hh)].
  - rewrite (stale_fail token t Hr). eauto.
  - pose proof (fail_outcomes now token error retry after t p Hinv Hp Hh) as Hw.
    apply wpt_ok in Hw as (b & t' & Heq & q & _ & _ & _ & Hax & _).
    pose proof (fail_good now token error retry after t Hinv) as Hg. unfold wpe in Hg. rewrite Heq in Hg.
    exists b, t'. split; [done|]. split; [apply Hg|].
    destruct b; [destruct Hax as [Hax _]|destruct (opt_eqb _ _)]; by eapply axes_released.
Qed.

(** A queued run was given up by its preparer. *)
Lemma queue_releases now token context t t' :
  run_inv t → markQueued now token context t = Ok (tt, t') → run_inv t' ∧ released token t'.
Proof.
  intros Hinv Heq. pose proof (markQueued_good now token context t Hinv) as Hg.
  unfold wpe in Hg. rewrite Heq in Hg. split; [apply Hg|].
  destruct (released_dec token t) as [Hr|(p & Hp & Hh)].
  - destruct (stale_markQueued token t Hr now context) as [f Hf]. by rewrite Hf in Heq.
  - pose proof (markQueued_outcome now token context t p Hinv Hp Hh) as Hw.
    unfold wpe in Hw. rewrite Heq in Hw. destruct Hw as [Hax _]. by eapply axes_released.
Qed.

Lemma transaction_inv {A} (m : tx run_rows A) t :
  run_inv t → wp m (λ _, good t) t → run_inv (transaction m t).2.
Proof.
  intros Hinv Hw. unfold transaction. unfold wpe in Hw. destruct (m t) as [[a t']|e]; [apply Hw|done].
Qed.

(** The submission on the side of the service. *)
Lemma submission_inv cfg now thrown run_id token context input submit t out t' :
  run_inv t →
  submitPreparedRun cfg now (λ _ t, t) thrown run_id token context input submit t = (out, t') →
  run_inv t' ∧ ∀ workflow, out = Queued workflow → released token t'.
Proof.
  intros Hinv. unfold submitPreparedRun. destruct (rowToRecord run_id t) as [[run|e]|].
  2,3: by intros [= <- <-].
  assert (Hclean : ∀ a b e t, run_inv t → ∀ out t',
    abandonSubmission now (λ _ t, t) token a b e t = (out, t') →
    run_inv t' ∧ ∀ workflow, out = Queued workflow → released token t').
  { intros a b e s Hs o s'. unfold abandonSubmission, call. intros [= <- <-]. split; [|done].
    apply transaction_inv; [done|]. by apply fail_good. }
  unfold call at 1, transaction at 1.
  pose proof (savePreparedSubmission_good cfg (now 0%nat) token context input t Hinv) as Hg. unfold wpe in Hg.
  destruct (savePreparedSubmission _ _ _ _ _ t) as [[[] t1]|f]; [|by apply Hclean].
  destruct (submit _ _) as [|e]; [|by apply Hclean; apply Hg].
  unfold call at 1, transaction at 1. destruct (markQueued _ _ _ t1) as [[[] t2]|f] eqn:Hq.
  - apply queue_releases in Hq as [? ?]; [|apply Hg]. by intros [= <- <-].
  - apply Hclean, Hg.
Qed.

Section Command.
Context {O : Type} `{ObjectStore O}.
Context (now : nat → Z) (env : nat → O * run_rows → O * run_rows) (net : nat → transport).
Context (message_of : failure → string) (thrown : failure → caught).
Context (cfg : store_config) (parse_url : string → option url) (bucket : string).
Context (parse_location : string → option (string * string * string)).
Context (parse_context : string → json → json + raised) (submit : string → json → submit_answer).
Context (run_id token : string).

(** The others keep the rows sound, and none of them claims with this token. *)
Definition fair : Prop :=
  ∀ i o t, run_inv t → run_inv (env i (o, t)).2 ∧ (released token t → released token (env i (o, t)).2).
Context (Hfair : fair).

Definition sound (w : world O) : Prop := run_inv (w_rows w).
Definition given_up (w : world O) : Prop := sound w ∧ released token (w_rows w).

Lemma disturb_sound w : sound w → sound (disturb env w).
Proof.
  intros Hw. unfold sound, disturb. destruct (Hfair (w_calls w) (w_remote w) (w_rows w) Hw) as [Hi _].
  by destruct (env _ _).
Qed.

Lemma disturb_calls w : w_calls (disturb env w) = S (w_calls w).
Proof. unfold disturb. by destruct (env _ _). Qed.

(** A request the service answers with sound rows. *)
Lemma sound_call {A} (m : Z → run_rows → result A * run_rows) :
  (∀ n t, run_inv t → run_inv (m n t).2) →
  keeps_world sound (store_call now env net message_of m).
Proof.
  intros Hm w Hw. apply disturb_sound in Hw. unfold ends, store_call, request.
  destruct (net _); simpl.
  - specialize (Hm (now (w_calls w)) _ Hw). destruct (m _ _) as [[a|f] t]; exact Hm.
  - exact Hw.
  - specialize (Hm (now (w_calls w)) _ Hw). by destruct (m _ _).
Qed.

Lemma sound_tx {A} (m : Z → tx run_rows A) :
  (∀ n t, run_inv t → wp (m n) (λ _, good t) t) →
  keeps_world sound (store_call now env net message_of (serve m)).
Proof. intros Hm. apply sound_call. intros n t Ht. apply transaction_inv; [done|]. by apply Hm. Qed.

Lemma sound_get {A} (f : O → outcome_of A) : keeps_world sound (remote_get env f).
Proof. intros w Hw. apply disturb_sound in Hw. unfold ends, remote_get. by destruct (f _). Qed.
Lemma sound_post {A} (f : O → outcome_of A * O) : keeps_world sound (remote_post env f).
Proof.
  intros w Hw. apply disturb_sound in Hw. unfold ends, remote_post.
  by destruct (f _) as [[a|e] o].
Qed.
Lemma sound_read_lost : keeps_world sound read_lost.
Proof. by intros w Hw. Qed.
Lemma sound_mark_lost : keeps_world sound mark_lost.
Proof. by intros w Hw. Qed.
Lemma sound_confirm : keeps_world sound confirm.
Proof. by intros w Hw. Qed.
(** Sound however it ends, and the claim is given up when it ends normally. *)
Definition submits {A} (m : act O A) : Prop :=
  ∀ w, sound w → ends m (λ _, given_up) (λ _, sound) w.

Lemma submits_then {A B} (m : act O A) (k : A → act O B) :
  keeps_world sound m → (∀ a, submits (k a)) → submits (andThen m k).
Proof.
  intros Hm Hk w Hw. apply ends_then. eapply ends_mono; [by apply Hm| |done]. intros a w'. apply Hk.
Qed.
Lemma submits_raise {A} e : submits (raise (A := A) e).
Proof. by intros w. Qed.
Lemma submits_keeps {A} (m : act O A) : submits m → keeps_world sound m.
Proof. intros Hm w Hw. eapply ends_mono; [by apply Hm| |done]. by intros a w' [? _]. Qed.

(** Nothing more is asked of anybody after the submission. *)
Lemma submits_pure {A B} (m : act O A) (b : B) : submits m → submits (m ;;> pure b).
Proof. intros Hm w Hw. apply ends_then. eapply ends_mono; [by apply Hm|done|done]. Qed.

Lemma submits_catch {A} (m : act O A) h :
  submits m → (∀ e, submits (h e)) → submits (catch m h).
Proof.
  intros Hm Hh w Hw. apply ends_catch. eapply ends_mono; [by apply Hm|done|]. intros e w'. apply Hh.
Qed.
(** *** The requests of a preparer *)

Abbreviation call m := (store_call now env net message_of m).

Lemma sound_renewal : keeps_world sound (renewPreparation now env net message_of cfg token).
Proof.
  apply keeps_then; [|intros []; [apply sound_confirm|apply sound_mark_lost]].
  apply sound_tx. intros n t. apply renewClaim_good.
Qed.

Lemma sound_ownership :
  keeps_world sound (assertPreparationOwned now env net message_of cfg run_id token).
Proof.
  apply keeps_then; [apply sound_renewal|]. intros _.
  apply keeps_then; [apply sound_read_lost|]. intros []; [apply keeps_raise|apply keeps_pure].
Qed.

Lemma sound_start :
  keeps_world sound (startPreparationClaimHeartbeat now env net message_of cfg run_id token).
Proof. apply keeps_then; [by apply sound_call|intros _; apply sound_ownership]. Qed.

Lemma sound_settle digest settled :
  settled = Candidate.present ∨ settled = Candidate.abandoned →
  keeps_world sound (call (serve (λ n, settle cfg n token digest settled))).
Proof. intros Hs. apply sound_tx. intros n t Ht. by apply settle_good. Qed.

Lemma sound_reserve i : keeps_world sound (call (serve (λ n, reserve cfg n parse_url run_id token i))).
Proof. apply sound_tx. intros n t. apply reserve_good. Qed.

Lemma sound_candidates : keeps_world sound (call (serve (λ n, list_candidates cfg n token))).
Proof.
  apply sound_call. intros n t Ht. pose proof (list_candidates_good cfg n token t Ht) as Hg.
  unfold wpe in Hg. unfold serve, transaction. destruct (list_candidates _ _ _ _) as [[l t']|f]; [|done].
  simpl. by subst.
Qed.

Lemma sound_context context :
  keeps_world sound (validateContext now env net message_of parse_context run_id context).
Proof.
  apply keeps_then; [|intros [r|]; [apply keeps_computed|apply keeps_raise]].
  apply sound_call. intros n t Ht. unfold serve_run. by destruct (rowToRecord run_id t) as [[]|].
Qed.

(** The report of a failure, if it is delivered, ends the claim. *)
Definition reported (w : world O) : Prop :=
  sound w ∧ (net (pred (w_calls w)) = Delivered → released token (w_rows w)).

Lemma report_ends code fallback attempt e det w :
  sound w →
  ends (failPreparation now env net message_of token code fallback attempt e det)
    (λ _, reported) (λ _, reported) w.
Proof.
  intros Hw. apply disturb_sound in Hw. unfold ends, failPreparation, store_call, request, serve, transaction.
  destruct (fail_releases (now (w_calls w)) token
    {| err_code := Some code; err_message := message_or fallback e |}
    (pf_retry (classifyPreparationFailure e attempt det))
    (coalesce (pf_retryAfterMs (classifyPreparationFailure e attempt det)) 0) _ Hw)
    as (b & t' & Heq & Hi & Hr).
  destruct (net (w_calls w)) eqn:Hnet; simpl; rewrite ?Heq; (split; [done|]); simpl; [done|..];
    rewrite disturb_calls; simpl; by rewrite Hnet.
Qed.
(** *** The object store *)

Lemma sound_existing key r : keeps_world sound (existingObjectMatches env key r).
Proof.
  unfold existingObjectMatches. apply keeps_then; [apply sound_get|].
  intros [m|e]; [apply keeps_pure|]. apply keeps_if; [|apply keeps_raise].
  apply keeps_then; [apply sound_get|]. intros [l|e']; [|apply keeps_raise].
  apply keeps_if; [apply keeps_raise|apply keeps_pure].
Qed.

Lemma sound_exists r : keeps_world sound (inputBundleExists env bucket parse_location r).
Proof.
  unfold inputBundleExists. destruct (parse_location _) as [[[protocol host] path]|]; [|apply keeps_raise].
  apply keeps_if; [apply keeps_raise|]. apply keeps_then; [apply sound_existing|].
  intros [[]|]; [apply keeps_pure|apply keeps_raise|apply keeps_pure].
Qed.

Lemma sound_publish r : keeps_world sound (publishInputBundle env bucket parse_location r run_id).
Proof.
  unfold publishInputBundle. apply keeps_if; [apply keeps_raise|].
  destruct (parse_location _) as [[[protocol host] path]|]; [|apply keeps_raise].
  apply keeps_if; [apply keeps_raise|]. apply keeps_then; [apply sound_existing|].
  intros [[]|]; [apply keeps_pure|apply keeps_raise|]. apply keeps_then; [apply sound_post|].
  intros [a|e]; [apply keeps_pure|]. apply keeps_if; [apply keeps_raise|].
  apply keeps_then; [apply sound_existing|]. intros [[]|]; [apply keeps_pure|apply keeps_raise..].
Qed.

(** *** The submission *)

Lemma submits_call context input :
  submits (call (serve_submission thrown cfg submit run_id token context input)).
Proof.
  intros w Hw. apply disturb_sound in Hw. unfold ends, store_call, request.
  set (n := now (w_calls w)). set (t := w_rows (disturb env w)) in *.
  assert (Hs : let (r, t') := serve_submission thrown cfg submit run_id token context input n t in
               run_inv t' ∧ (r = Ok tt → released token t')).
  { unfold serve_submission. destruct (submitPreparedRun _ _ _ _ _ _ _ _ _ t) as [out t'] eqn:Heq.
    apply submission_inv in Heq as [Hi Hr]; [|done]. destruct out as [wf| |]; (split; [done|]); [|done..].
    intros _. by apply (Hr wf). }
  destruct (net _); simpl; [|done|]; destruct (serve_submission _ _ _ _ _ _ _ _ _) as [[[]|f] t'];
    simpl; destruct Hs as [Hi Hr]; try done. split; [done|]. by apply Hr.
Qed.

Abbreviation submit_prepared :=
  (submit_prepared now env net message_of thrown cfg parse_context submit run_id token).

Lemma submits_prepared context input : submits (submit_prepared context input).
Proof.
  apply submits_then; [apply sound_context|]. intros c.
  apply submits_catch; [apply submits_call|]. intros e. apply submits_raise.
Qed.

Lemma submits_publish context input :
  submits (publishAndSubmitInputBundle now env net message_of thrown cfg parse_url bucket
             parse_location parse_context submit run_id token context input).
Proof.
  apply submits_then; [apply keeps_computed|]. intros local.
  apply submits_then; [apply keeps_computed|]. intros _.
  apply submits_then; [apply sound_reserve|]. intros _.
  apply submits_then; [apply sound_publish|]. intros _.
  apply submits_then; [apply sound_settle; auto|]. intros _. apply submits_prepared.
Qed.

(** Recovery gives the claim up when it reports that it has submitted. *)
Definition settles (m : act O bool) : Prop :=
  ∀ w, sound w → ends m (λ b w', sound w' ∧ (b = true → released token (w_rows w'))) (λ _, sound) w.

Lemma settles_then {A} (m : act O A) (k : A → act O bool) :
  keeps_world sound m → (∀ a, settles (k a)) → settles (andThen m k).
Proof.
  intros Hm Hk w Hw. apply ends_then. eapply ends_mono; [by apply Hm| |done]. intros a w'. apply Hk.
Qed.
Lemma settles_submit (m : act O unit) : submits m → settles (m ;;> pure true).
Proof.
  intros Hm w Hw. apply submits_pure with (b := true) in Hm.
  eapply ends_mono; [by apply Hm| |done]. by intros b w' [? ?].
Qed.
Lemma settles_raise e : settles (raise e).
Proof. by intros w. Qed.

Lemma settles_candidates candidates :
  settles (recover_candidates now env net message_of thrown cfg bucket parse_location parse_context
             submit run_id token candidates).
Proof.
  induction candidates as [|[digest c] rest IH]; [by intros w|]. cbn [recover_candidates].
  apply settles_then; [apply sound_exists|]. intros []; simpl.
  - apply settles_then; [|intros _; apply settles_submit, submits_prepared].
    destruct (bool_decide _); [apply keeps_pure|].
    apply keeps_then; [apply sound_settle; auto|intros _; apply keeps_pure].
  - destruct (bool_decide _); [apply settles_raise|].
    apply settles_then; [apply sound_settle; auto|]. by intros _.
Qed.

Lemma settles_recovery :
  settles (recoverInputBundlePublication now env net message_of thrown cfg bucket parse_location
             parse_context submit run_id token).
Proof. apply settles_then; [apply sound_candidates|]. intros l. apply settles_candidates. Qed.
(** *** A pass *)

Lemma settles_pure_false : settles (pure false).
Proof. by intros w. Qed.

Lemma settles_else (m k : act O bool) :
  settles m → settles k → settles (await b := m in if b then pure true else k).
Proof.
  intros Hm Hk w Hw. apply ends_then. eapply ends_mono; [by apply Hm| |done].
  intros [] w' [Hi Hr]; [by split|by apply Hk].
Qed.

Lemma settles_catch (m : act O bool) h :
  settles m → (∀ e, settles (h e)) → settles (catch m h).
Proof.
  intros Hm Hh w Hw. apply ends_catch. eapply ends_mono; [by apply Hm|done|]. intros e w'. apply Hh.
Qed.

Lemma settled_submits (m : act O bool) (k : act O unit) :
  settles m → submits k → submits (await b := m in if b then pure tt else k).
Proof.
  intros Hm Hk w Hw. apply ends_then. eapply ends_mono; [by apply Hm| |done].
  intros [] w' [Hi Hr]; [|by apply Hk]. split; [done|]. by apply Hr.
Qed.

Lemma sound_record code fallback attempt e det :
  keeps_world sound (record_failure now env net message_of token code fallback attempt e det).
Proof.
  apply keeps_then; [apply sound_read_lost|]. intros lost. apply keeps_if; [apply keeps_pure|].
  apply keeps_then; [|intros b; apply keeps_pure].
  intros w Hw. eapply ends_mono; [by apply report_ends|by intros ?? [? _]..].
Qed.

Lemma submits_failed fallback attempt e :
  submits (start_failed now env net message_of token fallback attempt e).
Proof. apply submits_then; [apply sound_record|]. intros _. apply submits_raise. Qed.

Lemma submits_prepare prepare :
  keeps_world sound prepare →
  submits (prepare_and_submit now env net message_of thrown cfg parse_url bucket parse_location
             parse_context submit run_id token prepare).
Proof.
  intros Hp. apply submits_then; [done|]. intros [context input].
  apply submits_then; [apply sound_ownership|]. intros _. apply submits_publish.
Qed.

Lemma submits_command attempt prepare :
  keeps_world sound prepare →
  submits (runPreparationCommand now env net message_of thrown cfg parse_url bucket parse_location
             parse_context submit run_id token attempt prepare).
Proof.
  intros Hp. apply submits_then; [apply sound_start|]. intros _.
  apply submits_catch; [|apply submits_failed].
  apply settled_submits; [apply settles_recovery|by apply submits_prepare].
Qed.

Lemma submits_dispatch attempt validated resolve prepare :
  keeps_world sound resolve → keeps_world sound prepare →
  submits (dispatchRepositoryReview now env net message_of thrown cfg parse_url bucket parse_location
             parse_context submit run_id token attempt validated resolve prepare).
Proof.
  intros Hr Hp. unfold dispatchRepositoryReview. destruct validated; [|apply submits_raise].
  apply submits_then; [apply sound_start|]. intros _. apply settled_submits.
  - apply settles_catch.
    + apply settles_else; [apply settles_recovery|].
      apply settles_then; [done|intros _; apply settles_pure_false].
    + intros e. apply settles_then; [apply sound_record|intros _; apply settles_raise].
  - apply submits_catch; [by apply submits_prepare|apply submits_failed].
Qed.

(** What a workflow does of its own leaves the rows sound. *)
Definition workflows_sound (wf : workflows (O := O)) : Prop :=
  (∀ kind input, keeps_world sound (wf_begin wf kind input))
  ∧ (∀ kind input, keeps_world sound (wf_prepare wf kind input))
  ∧ ∀ input, keeps_world sound (wf_resolve wf input).

Lemma submits_execute wf work :
  workflows_sound wf →
  submits (executeClaimedPreparation now env net message_of thrown cfg parse_url bucket parse_location
             parse_context submit run_id token wf work).
Proof.
  intros (Hb & Hp & Hr). unfold executeClaimedPreparation.
  repeat (case_match; try apply submits_raise);
    apply submits_then; try apply Hb; intros _; try (by apply submits_command).
  by apply submits_dispatch.
Qed.

Lemma pass_ends wf work w :
  workflows_sound wf → sound w →
  ends (prepare_claimed now env net message_of thrown cfg parse_url bucket parse_location
          parse_context submit run_id token wf work) (λ _, reported) (λ _ _, False) w.
Proof.
  intros Hwf Hw. apply ends_catch. eapply ends_mono; [by apply submits_execute| |].
  - intros _ w' [Hi Hr]. by split.
  - intros e w' Hw'. apply ends_catch, ends_then. by eapply ends_mono; [by apply report_ends|..].
Qed.
End Command.

#[export] Hint Resolve sound_get sound_post sound_read_lost sound_mark_lost sound_confirm : acts.
