(* ===== verification/BundleOutcomes.v ===== *)
(** What the objects of the store are when a submission has been made: nothing that is there is
    ever replaced, the bundle a submitted input names is there, and recovery passes over no
    bundle that is. *)

From S2P Require Import Prelude Schema StateMachines Tables Database RunRecord.
From S2P Require Import PreparationStore InputBundles SubmissionTransitions Runtime Invariant.
From S2P Require Import Preservation PreparationSpecs ExecutionSpecs PreparationProperties.
From S2P Require Import SubmissionProperties ConnectorErrors ConnectorSteps Actions ObjectStore.
From S2P Require Import PreparationCommand CommandOutcomes.

(** The request of a queued execution is the one that was submitted. *)
Lemma queued_input cfg now thrown run_id token context input submit t workflow t' :
  run_inv t →
  submitPreparedRun cfg now (λ _ t, t) thrown run_id token context input submit t = (Queued workflow, t') →
  (e_input <$> t_exec t') = Some (Some input).
Proof.
  intros Hinv. unfold submitPreparedRun, abandonSubmission, call, transaction.
  destruct (rowToRecord run_id t) as [[run|e]|]; [|done..].
  destruct (savePreparedSubmission _ _ _ _ _ t) as [[[] t1]|f] eqn:Hsave; [|done].
  destruct (submit _ _); [|done].
  destruct (markQueued _ _ _ t1) as [[[] t2]|f] eqn:Hq; [|done]. intros [= _ <-].
  pose proof (savePreparedSubmission_good cfg (now 0%nat) token context input t Hinv) as Hg.
  unfold wpe in Hg. rewrite Hsave in Hg. destruct Hg as [Hi1 _].
  destruct (save_attaches _ _ _ _ _ _ _ Hsave) as ((p & Hp & Hh & _) & _).
  destruct (save_keeps_prep _ _ _ _ _ _ _ Hsave) as (Hp1 & _ & _). rewrite Hp in Hp1.
  pose proof (markQueued_outcome (now 1%nat) token context t1 p Hi1 Hp1 Hh) as Hw.
  unfold wpe in Hw. rewrite Hq in Hw. destruct Hw as (_ & Hin & _). rewrite Hin.
  apply (saved_input _ _ _ _ _ _ _ Hsave).
Qed.

Lemma sent_meta_matches r : matchesReference (sent_meta r) r = true.
Proof.
  unfold matchesReference. simpl. by rewrite Z.eqb_refl, !String.eqb_refl.
Qed.

Section Bundles.
Context {O : Type} `{ObjectStoreLaws O}.
Context (now : nat → Z) (env : nat → O * run_rows → O * run_rows) (net : nat → transport).
Context (message_of : failure → string) (thrown : failure → caught).
Context (cfg : store_config) (parse_url : string → option url) (bucket : string).
Context (parse_location : string → option (string * string * string)).
Context (parse_context : string → json → json + raised) (submit : string → json → submit_answer).
Context (run_id token : string).

(** The others replace no object. *)
Definition immutable : Prop :=
  ∀ i o t k m, object_at k o = Some m → object_at k (env i (o, t)).1 = Some m.
Context (Henv : immutable) (Hfair : fair env token).

(** The object [m] under the key [k]. *)
Definition kept (k : string) (m : object_meta) (w : world O) : Prop := object_at k (w_remote w) = Some m.

(** The object of a reference. *)
Definition bundle_at (k : string) (r : artifact_reference) (w : world O) : Prop :=
  ∃ m, kept k m w ∧ matchesReference m r = true.

Lemma kept_disturb k m w : kept k m w → kept k m (disturb env w).
Proof.
  intros Hw. unfold kept, disturb. pose proof (Henv (w_calls w) _ (w_rows w) _ _ Hw) as He.
  by destruct (env _ _).
Qed.

Lemma kept_call {A} k m (f : Z → run_rows → result A * run_rows) :
  keeps_world (kept k m) (store_call now env net message_of f).
Proof.
  intros w Hw. apply kept_disturb in Hw. unfold ends, store_call. destruct (request _ _ _ _ _ _ _) as [[a|e] t].
  all: exact Hw.
Qed.

Lemma kept_get {A} k m (f : O → outcome_of A) : keeps_world (kept k m) (remote_get env f).
Proof. intros w Hw. apply kept_disturb in Hw. unfold ends, remote_get. by destruct (f _). Qed.

(** The upload, and any other that only creates. *)
Definition put key meta : act O (unit + store_error) :=
  remote_post env (λ o, let (a, o') := putNewObject key meta o in (inl a, o')).

Lemma put_ends key meta w :
  ends (put key meta)
    (λ r w', (r = inl tt → kept key meta w') ∧ ∀ k m, kept k m w → kept k m w') (λ _ _, False) w.
Proof.
  unfold ends, put, remote_post. destruct (putNewObject _ _ _) as [r o'] eqn:Hput. simpl.
  apply putNewObject_creates in Hput as [Hcreate Hok]. split; [exact Hok|].
  intros k m Hk. apply kept_disturb in Hk. unfold kept in *. simpl.
  destruct Hcreate as [->|(Hnone & Hm & Hothers)]; [done|].
  destruct (decide (k = key)) as [->|Hne]; [congruence|]. by rewrite Hothers.
Qed.

Lemma kept_put k m key meta : keeps_world (kept k m) (put key meta).
Proof. intros w Hw. eapply ends_mono; [by apply put_ends| |done]. intros r w' [_ Hk]. by apply Hk. Qed.

(** What an answer about the object of a reference says of the store it came from. *)
Definition answered (key : string) (r : artifact_reference) (b : option bool) (w : world O) : Prop :=
  match b with
  | Some true => bundle_at key r w
  | Some false => ∃ m, kept key m w ∧ matchesReference m r = false
  | None => object_at key (w_remote w) = None
  end.

Lemma existing_ends key r w :
  ends (existingObjectMatches env key r) (answered key r) (λ _ _, True) w.
Proof.
  unfold existingObjectMatches. apply ends_then. unfold ends at 1, sent, remote_get. simpl.
  destruct (headObject _ _) as [m|e] eqn:Hhead.
  - apply headObject_there in Hhead. unfold ends, pure, answered.
    destruct (matchesReference m r) eqn:Hm; by exists m.
  - destruct (opt_bool _ _); [|done]. unfold ends, andThen, remote_get. simpl.
    destruct (listObjects _ _) as [l|e'] eqn:Hlist; [|done]. simpl.
    destruct (existsb _ l) eqn:Hin; [done|]. simpl. eapply listObjects_absent; [done|].
    intros Hl. apply list_elem_of_In in Hl. apply not_true_iff_false in Hin. apply Hin, existsb_exists.
    exists key. split; [done|]. by apply String.eqb_eq.
Qed.

Lemma kept_existing k m key r : keeps_world (kept k m) (existingObjectMatches env key r).
Proof.
  unfold existingObjectMatches. apply keeps_then; [apply kept_get|].
  intros [m'|e]; [apply keeps_pure|]. apply keeps_if; [|apply keeps_raise].
  apply keeps_then; [apply kept_get|]. intros [l|e']; [|apply keeps_raise].
  apply keeps_if; [apply keeps_raise|apply keeps_pure].
Qed.

(** A bundle that was asked for is there, or certainly is not. *)
Definition found (r : artifact_reference) (b : bool) (w : world O) : Prop :=
  ∃ path, parse_location (ref_uri r) = Some ("s3:", bucket, path)
    ∧ answered (String.substring 1 (String.length path - 1) path) r (if b then Some true else None) w.

Lemma exists_ends r w :
  ends (inputBundleExists env bucket parse_location r) (found r) (λ _ _, True) w.
Proof.
  unfold inputBundleExists. destruct (parse_location _) as [[[protocol host] path]|] eqn:Hu; [|done].
  destruct (String.eqb protocol "s3:") eqn:Hp; [|done]. destruct (String.eqb host bucket) eqn:Hh; [|done].
  apply String.eqb_eq in Hp as ->, Hh as ->. simpl. apply ends_then.
  eapply ends_mono; [by apply existing_ends| |done]. by intros [[]|] w' Hw'; [exists path|..|exists path].
Qed.

(** The upload of a bundle. *)
Definition uploaded (r : artifact_reference) (a : artifact_reference) (w : world O) : Prop :=
  a = publishedInputBundleReference bucket r run_id
  ∧ bundle_at (inputObjectKey run_id (ref_digest r)) r w.

Lemma publish_ends r w :
  ends (publishInputBundle env bucket parse_location r run_id) (uploaded r) (λ _ _, True) w.
Proof.
  unfold publishInputBundle. destruct (String.eqb bucket ""); [done|].
  destruct (parse_location _) as [[[protocol host] path]|]; [|done]. destruct (negb _); [done|].
  apply ends_then. eapply ends_mono; [by apply existing_ends| |done].
  intros [[]|] w1 Hw1; [by split|done|]. apply ends_then. eapply ends_mono; [by apply put_ends| |done].
  intros [[]|e] w2 [Hok _].
  - split; [done|]. exists (sent_meta r). split; [by apply Hok|apply sent_meta_matches].
  - destruct (negb _); [done|]. apply ends_then. eapply ends_mono; [by apply existing_ends| |done].
    by intros [[]|] w3 Hw3.
Qed.

Lemma kept_publish k m r : keeps_world (kept k m) (publishInputBundle env bucket parse_location r run_id).
Proof.
  unfold publishInputBundle. apply keeps_if; [apply keeps_raise|].
  destruct (parse_location _) as [[[protocol host] path]|]; [|apply keeps_raise].
  apply keeps_if; [apply keeps_raise|]. apply keeps_then; [apply kept_existing|].
  intros [[]|]; [apply keeps_pure|apply keeps_raise|]. apply keeps_then; [apply kept_put|].
  intros [a|e]; [apply keeps_pure|]. apply keeps_if; [apply keeps_raise|].
  apply keeps_then; [apply kept_existing|]. intros [[]|]; [apply keeps_pure|apply keeps_raise..].
Qed.

(** ** The submission *)

Abbreviation submit_prepared :=
  (submit_prepared now env net message_of thrown cfg parse_context submit run_id token).

Lemma kept_submit k m context input : keeps_world (kept k m) (submit_prepared context input).
Proof.
  apply keeps_then; [|intros a; apply keeps_catch; [apply kept_call|intros; apply keeps_raise]].
  apply keeps_then; [apply kept_call|]. intros [r|]; [apply keeps_computed|apply keeps_raise].
Qed.

(** The execution waits with this request. *)
Definition requested (input : json) (w : world O) : Prop := (e_input <$> t_exec (w_rows w)) = Some (Some input).

Lemma submit_ends context input w :
  sound w → ends (submit_prepared context input) (λ _, requested input) (λ _ _, True) w.
Proof.
  intros Hw. apply ends_then. eapply ends_mono; [by apply (sound_context _ _ _ _ _ _ _ Hfair)| |done].
  intros c w1 Hw1. apply ends_catch. apply (disturb_sound _ _ Hfair) in Hw1.
  unfold ends, store_call, request. set (n := now (w_calls w1)). set (t := w_rows (disturb env w1)) in *.
  destruct (net _); simpl; [|done|done].
  unfold serve_submission. destruct (submitPreparedRun _ _ _ _ _ _ _ _ _ t) as [[wf| |e] t'] eqn:Heq; simpl.
  - unfold requested. simpl. by eapply queued_input.
  - done.
  - done.
Qed.
(** A bundle that is in the store and the request that was submitted. *)
Lemma submit_keeps k r context input w :
  sound w → bundle_at k r w →
  ends (submit_prepared context input) (λ _ w', bundle_at k r w' ∧ requested input w') (λ _ _, True) w.
Proof.
  intros Hw (m & Hm & Hr). eapply ends_mono; [apply ends_and; [by apply (kept_submit k m)|by apply submit_ends]| |done].
  intros _ w' [Hk Hq]. split; [by exists m|done].
Qed.

(** The input with the reference of its published bundle. *)
Definition published (local : artifact_reference) (input : json) : json :=
  json_set "input_bundle" (reference_json (publishedInputBundleReference bucket local run_id)) input.

Lemma publication_ends context input w :
  sound w →
  ends (publishAndSubmitInputBundle now env net message_of thrown cfg parse_url bucket parse_location
          parse_context submit run_id token context input)
    (λ _ w', ∃ local, bundle_of input = inl local
       ∧ json_size (published local input) <= MAX_WORKFLOW_INPUT_BYTES
       ∧ requested (published local input) w'
       ∧ bundle_at (inputObjectKey run_id (ref_digest local)) local w')
    (λ _ _, True) w.
Proof.
  intros Hw. apply ends_then, ends_computed; [|done]. intros local Hl.
  apply ends_then, ends_computed; [|done]. unfold assertWorkflowInputFits.
  destruct (Z.ltb_spec MAX_WORKFLOW_INPUT_BYTES
    (json_size (json_set "input_bundle" (reference_json (publishedInputBundleReference bucket local run_id))
                  input))) as [|Hfit]; [done|]. intros _ _.
  apply ends_then. eapply ends_mono; [by apply (sound_reserve _ _ _ _ _ _ _ _ Hfair)| |done].
  intros a w1 Hw1. apply ends_then.
  eapply ends_mono; [apply ends_and; [by apply publish_ends|by apply (sound_publish _ _ _ _ _ Hfair)]| |done].
  intros _ w2 [[_ (m & Hm & Hr)] Hw2]. apply ends_then.
  eapply ends_mono; [apply ends_and; [by eapply (kept_call _ m)|
    by apply (sound_settle _ _ _ _ _ _ Hfair); auto]| |done].
  intros _ w3 [Hk Hw3]. eapply ends_mono; [apply submit_keeps; [done|by exists m]| |done].
  intros _ w4 [Hb Hq]. by exists local.
Qed.

(** No object is replaced on the way. *)
Lemma kept_publication k m context input :
  keeps_world (kept k m)
    (publishAndSubmitInputBundle now env net message_of thrown cfg parse_url bucket parse_location
       parse_context submit run_id token context input).
Proof.
  apply keeps_then; [apply keeps_computed|]. intros local.
  apply keeps_then; [apply keeps_computed|]. intros _.
  apply keeps_then; [apply kept_call|]. intros _. apply keeps_then; [apply kept_publish|]. intros _.
  apply keeps_then; [apply kept_call|]. intros _. apply kept_submit.
Qed.

(** ** The recovery *)

Definition object_key (path : string) : string := String.substring 1 (String.length path - 1) path.

(** Recovery submits the first candidate whose bundle is there: those before it are not selected,
    and their bundles were not in the store when the recovery began. *)
Definition selected (dc : string * candidate_row) : Prop := c_status dc.2 = Candidate.selected.

Definition location_of (dc : string * candidate_row) (path : string) : Prop :=
  parse_location (ref_uri (reference_of (c_reference dc.2))) = Some ("s3:", bucket, path).

Definition passed_over (w : world O) (dc : string * candidate_row) : Prop :=
  ¬ selected dc ∧ ∃ path, location_of dc path ∧ object_at (object_key path) (w_remote w) = None.

Definition first_stored (candidates : list (string * candidate_row)) (w w' : world O) : Prop :=
  ∃ before d c rest path, candidates = before ++ (d, c) :: rest
    ∧ Forall (passed_over w) before
    ∧ location_of (d, c) path
    ∧ bundle_at (object_key path) (reference_of (c_reference c)) w'
    ∧ requested (c_input c) w'.

Lemma kept_exists k m r : keeps_world (kept k m) (inputBundleExists env bucket parse_location r).
Proof.
  unfold inputBundleExists. destruct (parse_location _) as [[[protocol host] path]|]; [|apply keeps_raise].
  apply keeps_if; [apply keeps_raise|]. apply keeps_then; [apply kept_existing|].
  intros [[]|]; [apply keeps_pure|apply keeps_raise|apply keeps_pure].
Qed.

(** What is missing later was missing before. *)
Definition since (w w' : world O) : Prop := ∀ k m, kept k m w → kept k m w'.

Lemma ends_since {A} (m : act O A) w :
  (∀ k x, keeps_world (kept k x) m) → ends m (λ _, since w) (λ _, since w) w.
Proof.
  intros Hm. pose proof (λ k x, Hm k x w) as Hk. unfold ends in *.
  destruct (m w) as [[[]]|]; [intros k x; apply Hk..|done].
Qed.

Lemma passed_since w w' dc : since w w' → passed_over w' dc → passed_over w dc.
Proof.
  intros Hs (Hn & path & Hp & Ho). split; [done|]. exists path. split; [done|].
  destruct (object_at _ (w_remote w)) as [m|] eqn:Hm; [|done]. apply Hs in Hm. unfold kept in Hm. congruence.
Qed.

Definition recovered (candidates : list (string * candidate_row)) (w : world O) (b : bool) (w' : world O) : Prop :=
  if b then first_stored candidates w w' else Forall (passed_over w) candidates.

Lemma recovered_since candidates w1 w2 b w' :
  since w1 w2 → recovered candidates w2 b w' → recovered candidates w1 b w'.
Proof.
  intros Hs. destruct b.
  - intros (before & d & c & rest & path & -> & Hb & Hr). exists before, d, c, rest, path. split; [done|].
    split; [|done]. eapply Forall_impl; [done|]. intros x. by apply passed_since.
  - intros Hb. eapply Forall_impl; [done|]. intros x. by apply passed_since.
Qed.

Lemma recovered_next dc rest w b w' :
  passed_over w dc → recovered rest w b w' → recovered (dc :: rest) w b w'.
Proof.
  intros Hdc. destruct b; [|by constructor]. intros (before & d & c & rest' & path & -> & Hb & Hr).
  exists (dc :: before), d, c, rest', path. split; [done|]. by split; [constructor|].
Qed.

Lemma recovery_ends candidates w :
  sound w →
  ends (recover_candidates now env net message_of thrown cfg bucket parse_location parse_context
          submit run_id token candidates)
    (recovered candidates w) (λ _ _, True) w.
Proof.
  revert w. induction candidates as [|[d c] rest IH]; intros w Hw; [by apply ends_pure, Forall_nil_2|].
  cbn [recover_candidates]. apply ends_then. eapply ends_mono;
    [apply ends_and; [by apply exists_ends|apply ends_and; [by apply (sound_exists _ _ _ _ Hfair)|]];
     apply ends_since; intros; apply kept_exists| |done].
  intros [] w1 [(path & Hpath & Hans) [Hw1 Hs1]]; simpl.
  - destruct Hans as (m & Hm & Hr). fold (object_key path) in Hm. apply ends_then.
    assert (Hpost : ∀ w2, sound w2 → kept (object_key path) m w2 →
      ends (submit_prepared (c_publish_context c) (c_input c) ;;> pure true)
        (recovered ((d, c) :: rest) w) (λ _ _, True) w2).
    { intros w2 Hw2 Hm2. apply ends_then. eapply ends_mono; [apply submit_keeps; [done|by exists m]| |done].
      intros _ w3 [Hb Hq]. by exists [], d, c, rest, path. }
    destruct (bool_decide _); [by apply Hpost|]. apply ends_then.
    eapply ends_mono; [apply ends_and; [by eapply (kept_call _ m)|
      by apply (sound_settle _ _ _ _ _ _ Hfair); auto]| |done].
    intros _ w2 [Hk Hw2]. by apply Hpost.
  - destruct (bool_decide _) eqn:Hs; [done|]. apply bool_decide_eq_false in Hs. apply ends_then.
    eapply ends_mono; [apply ends_and; [by apply (sound_settle _ _ _ _ _ _ Hfair); auto|];
      apply ends_since; intros; apply kept_call| |done].
    intros a w2 [Hw2 Hs2]. eapply ends_mono; [by apply IH| |done]. intros b w3 Hw3.
    apply recovered_next; [|apply (recovered_since _ _ w2); [|done]].
    + apply (passed_since _ w1); [done|]. split; [done|]. by exists path.
    + intros k m Hk. by apply Hs2, Hs1.
Qed.
End Bundles.
