(* ===== verification/BackoffOutcomes.v ===== *)
(** An undisturbed preparation that fails: its claim is renewed, nothing is there to recover, and
    the failure it reports decides when the run is prepared again. *)

From S2P Require Import Prelude Schema StateMachines Tables Database.
From S2P Require Import PreparationStore InputBundles Runtime Invariant Preservation.
From S2P Require Import PreparationSpecs SystemSpecs Fencing PreparationProperties.
From S2P Require Import ConnectorErrors ConnectorSteps Actions GitHub ObjectStore.
From S2P Require Import PreparationCommand NoticeOutcomes CommandOutcomes.

(** ** The wait *)

Lemma read_digits_nonneg acc s n : 0 <= acc → read_digits acc s = Some n → 0 <= n.
Proof.
  revert acc. induction s as [|a s IH]; simpl; intros acc Hacc; [by intros [= <-]|].
  destruct (_ && _) eqn:Hd; [|done]. apply andb_true_iff in Hd as [Hlo _]. apply Z.leb_le in Hlo.
  apply IH. lia.
Qed.

Lemma retryAfterMs_nonneg e attempt : 0 <= retryAfterMs e attempt.
Proof.
  unfold retryAfterMs. destruct (te_retry_after e ≫= header_number) as [n|] eqn:Hn.
  - apply bind_Some in Hn as (v & _ & Hn). apply read_digits_nonneg in Hn; lia.
  - pose proof (Z.pow_nonneg 2 (Z.min (attempt - 1) 7)). lia.
Qed.

Lemma retryAfterMs_bounds e attempt :
  te_retry_after e = None → 1 <= attempt → 5000 <= retryAfterMs e attempt <= 600000.
Proof.
  intros Hn Ha. unfold retryAfterMs. rewrite Hn. simpl.
  pose proof (Z.pow_pos_nonneg 2 (Z.min (attempt - 1) 7)). lia.
Qed.

(** What [classifyPreparationFailure] makes of the wait. *)
Lemma classified_wait e attempt det :
  pf_retry (classifyPreparationFailure e attempt det) = true →
  coalesce (pf_retryAfterMs (classifyPreparationFailure e attempt det)) 0 = retryAfterMs (ra_error e) attempt.
Proof. unfold classifyPreparationFailure. destruct (_ || _); simpl; [done|]. by intros ->. Qed.

(** ** The claim *)

Definition renewed_prep (at_ : Z) (p : prep_row) : prep_row :=
  p <| p_claimed_at := Some at_ |> <| p_updated_at := at_ |>.

Lemma renew_live cfg at_ token t p :
  run_inv t → t_prep t = Some p → holds_preparation token p = true →
  lease_live (p_claimed_at p) at_ (claim_timeout_ms cfg) = true →
  renewClaim cfg at_ token t = Ok (true, t <| t_prep := Some (renewed_prep at_ p) |>)
  ∧ run_inv (t <| t_prep := Some (renewed_prep at_ p) |>).
Proof.
  intros Hinv Hp Hh Hl. pose proof (renewClaim_good cfg at_ token t Hinv) as Hg. revert Hg.
  unfold wpe, renewClaim, bind, sql_update. cbn [row_of put_row row_check prep_table].
  rewrite Hp, Hh, Hl. cbn [andb]. fold (renewed_prep at_ p).
  destruct (prep_check (renewed_prep at_ p)); [|done]. intros Hg. split; [done|]. apply Hg.
Qed.

(** ** The pass *)

Section Backoff.
Context {O : Type} `{ObjectStore O}.
Context (now : nat → Z) (message_of : failure → string) (thrown : failure → caught).
Context (cfg : store_config) (parse_url : string → option url) (bucket : string).
Context (parse_location : string → option (string * string * string)).
Context (parse_context : string → json → json + raised) (submit : string → json → submit_answer).
Context (run_id token : string).

(** Two requests in a row are not a lease apart. *)
Definition timely : Prop := ∀ i, now (S i) - ms (claim_timeout_ms cfg) < now i.

(** Work that leaves the rows and the flag of the heartbeat alone. *)
Definition undisturbing (w w' : world O) : Prop :=
  w_rows w' = w_rows w ∧ w_lost w' = w_lost w ∧ (w_calls w <= w_calls w')%nat.

(** No candidate is open. *)
Definition nothing_reserved (t : run_rows) : Prop :=
  ∀ d c, t_candidates t !! d = Some c → c_status c = Candidate.abandoned.

Abbreviation call m := (store_call now quiet_world reliable message_of m).

Lemma quiet_call {A} (m : Z → run_rows → result A * run_rows) a (w : world O) t' :
  m (now (w_calls w)) (w_rows w) = (Ok a, t') →
  call m w = Some (inl a, {| w_calls := S (w_calls w); w_remote := w_remote w; w_rows := t';
                             w_lost := w_lost w; w_trace := w_trace w |}).
Proof. intros Hm. unfold store_call, request, reliable. simpl. by rewrite Hm. Qed.

Lemma nothing_listed n t p :
  t_prep t = Some p → holds_preparation token p = true →
  lease_live (p_claimed_at p) n (claim_timeout_ms cfg) = true → nothing_reserved t →
  list_candidates cfg n token t = Ok ([], t).
Proof.
  intros Hp Hh Hl Hnone. unfold list_candidates, requirePreparationClaim, bind, read.
  rewrite Hp, Hh, Hl. simpl. f_equal. f_equal.
  destruct (List.filter _ _) as [|[d c] l] eqn:Hf; [done|]. exfalso.
  assert (Hin : In (d, c) (List.filter
    (λ kc, negb (bool_decide (c_status kc.2 = Candidate.abandoned))) (map_to_list (t_candidates t))))
    by (rewrite Hf; by left).
  apply filter_In in Hin as [Hin Hs]. apply list_elem_of_In, elem_of_map_to_list in Hin.
  apply Hnone in Hin. simpl in Hs. by rewrite bool_decide_eq_true_2 in Hs.
Qed.

(** The world after [n] more requests that nobody else saw, with these rows. *)
Definition after_calls (n : nat) (t : run_rows) (trace : list event) (w : world O) : world O :=
  {| w_calls := n + w_calls w; w_remote := w_remote w; w_rows := t; w_lost := w_lost w;
     w_trace := trace |}.

(** The claim is renewed. *)
Lemma owned (w : world O) p :
  run_inv (w_rows w) → w_lost w = false → t_prep (w_rows w) = Some p →
  holds_preparation token p = true →
  lease_live (p_claimed_at p) (now (w_calls w)) (claim_timeout_ms cfg) = true →
  let t1 := (w_rows w) <| t_prep := Some (renewed_prep (now (w_calls w)) p) |> in
  run_inv t1
  ∧ assertPreparationOwned now quiet_world reliable message_of cfg run_id token w
    = Some (inl tt, after_calls 1 t1 (Renewed t1 :: w_trace w) w).
Proof.
  intros Hinv Hl Hp Hh Hlease t1. destruct (renew_live cfg _ _ _ _ Hinv Hp Hh Hlease) as [Hren Hinv1].
  split; [done|]. unfold assertPreparationOwned, renewPreparation, andThen at 1 2.
  rewrite (quiet_call _ true _ t1) by (unfold serve, transaction; cbn beta; rewrite Hren; reflexivity).
  unfold confirm, andThen, read_lost, after_calls. simpl. rewrite Hl. reflexivity.
Qed.

(** The heartbeat is on, and no candidate asks for recovery. *)
Lemma command_starts attempt prepare (w : world O) p :
  run_inv (w_rows w) → w_lost w = false → t_prep (w_rows w) = Some p →
  holds_preparation token p = true → nothing_reserved (w_rows w) → timely →
  lease_live (p_claimed_at p) (now (S (w_calls w))) (claim_timeout_ms cfg) = true →
  ∃ w1, runPreparationCommand now quiet_world reliable message_of thrown cfg parse_url bucket
          parse_location parse_context submit run_id token attempt prepare w
        = catch (prepare_and_submit now quiet_world reliable message_of thrown cfg parse_url bucket
                   parse_location parse_context submit run_id token prepare)
            (start_failed now quiet_world reliable message_of token "" attempt) w1
    ∧ w_calls w1 = (3 + w_calls w)%nat ∧ w_lost w1 = false ∧ run_inv (w_rows w1)
    ∧ t_prep (w_rows w1) = Some (renewed_prep (now (S (w_calls w))) p).
Proof.
  intros Hinv Hl Hp Hh Hnone Htime Hlease.
  destruct (owned (after_calls 1 (w_rows w) (w_trace w) w) p) as [Hinv1 Hown]; [done..|].
  cbn [after_calls w_rows w_calls w_trace Nat.add] in Hinv1, Hown.
  set (p1 := renewed_prep (now (S (w_calls w))) p) in *.
  set (t1 := (w_rows w) <| t_prep := Some p1 |>) in *.
  set (w1 := after_calls 2 t1 (Renewed t1 :: w_trace w) w).
  exists (after_calls 3 t1 (Renewed t1 :: w_trace w) w). split; [|by repeat split].
  assert (Hstart : startPreparationClaimHeartbeat now quiet_world reliable message_of cfg run_id token w
                   = Some (inl tt, w1)).
  { unfold startPreparationClaimHeartbeat. erewrite then_value by by apply quiet_call. exact Hown. }
  unfold runPreparationCommand. rewrite (then_value _ _ _ _ _ Hstart).
  assert (Hlist : list_candidates cfg (now (w_calls w1)) token t1 = Ok ([], t1)).
  { apply (nothing_listed _ t1 p1); [done|done| |done]. simpl. apply Z.ltb_lt, Htime. }
  assert (Hnot : recoverInputBundlePublication now quiet_world reliable message_of thrown cfg bucket
                   parse_location parse_context submit run_id token w1
                 = Some (inl false, after_calls 3 t1 (Renewed t1 :: w_trace w) w)).
  { assert (Hcall : call (serve (λ n, list_candidates cfg n token)) w1
                    = Some (inl [], after_calls 3 t1 (Renewed t1 :: w_trace w) w)).
    { apply (quiet_call _ [] w1 t1). unfold serve, transaction. change (w_rows w1) with t1.
      by rewrite Hlist. }
    unfold recoverInputBundlePublication. by rewrite (then_value _ _ _ _ _ Hcall). }
  unfold catch. by rewrite (then_value _ _ _ _ _ Hnot).
Qed.

(** What a report at [at_] of the failure [e] leaves: another try after the wait, or the end. *)
Definition backed_off (at_ : Z) (e : raised) (attempt : Z) (det : bool) (code : string) (p : prep_row)
    (t : run_rows) : Prop :=
  ∃ p', t_prep t = Some p' ∧ p_last_failure_code p' = Some code
    ∧ if pf_retry (classifyPreparationFailure e attempt det)
         && (p_attempt_count p <? MAX_PREPARATION_ATTEMPTS)
      then axes_are t Prep.pending Exec.pending Pub.pending ∧ p_attempt_count p' = p_attempt_count p
           ∧ ∀ n, claimable n t = true ↔ at_ + ms (retryAfterMs (ra_error e) attempt) <= n
      else axes_are t Prep.failed Exec.skipped Pub.skipped.

Lemma backed_off_released at_ e attempt det code p t :
  backed_off at_ e attempt det code p t → released token t.
Proof.
  intros (p' & _ & _ & Hb). destruct (_ && _); [destruct Hb as [Hb _]|]; by eapply axes_released.
Qed.

Lemma report_of code fallback attempt e det (w : world O) p :
  run_inv (w_rows w) → t_prep (w_rows w) = Some p → holds_preparation token p = true →
  code ≠ SUBMISSION_STATE_UNCERTAIN →
  ∃ b t', failPreparation now quiet_world reliable message_of token code fallback attempt e det w
          = Some (inl b, after_calls 1 t' (w_trace w) w)
    ∧ backed_off (now (w_calls w)) e attempt det code p t'.
Proof.
  intros Hinv Hp Hh Hcode. set (c := classifyPreparationFailure e attempt det).
  pose proof (fail_outcomes (now (w_calls w)) token
    {| err_code := Some code; err_message := message_or fallback e |}
    (pf_retry c) (coalesce (pf_retryAfterMs c) 0) _ p Hinv Hp Hh) as Hw.
  apply wpt_ok in Hw as (b & t' & Heq & p' & Hb & Hp' & Hl & Hax & _). exists b, t'. split.
  - unfold failPreparation. apply quiet_call. unfold serve, transaction. fold c. by rewrite Heq.
  - exists p'. split; [done|]. split; [done|]. fold c. rewrite <- Hb. destruct b.
    + destruct Hax as (Hax & Ha & Hn). split; [done|]. split; [done|]. intros n.
      symmetry in Hb. apply andb_true_iff in Hb as [Hr _].
      rewrite Hn. unfold c. rewrite classified_wait by done.
      by rewrite Z.max_r by apply retryAfterMs_nonneg.
    + simpl in Hax. by rewrite (proj2 (String.eqb_neq _ _) Hcode) in Hax.
Qed.

(** A second report finds the claim given up. *)
Lemma stale_report code fallback attempt e det (w : world O) :
  released token (w_rows w) →
  failPreparation now quiet_world reliable message_of token code fallback attempt e det w
  = Some (inl false, after_calls 1 (w_rows w) (w_trace w) w).
Proof.
  intros Hr. unfold failPreparation. apply quiet_call. unfold serve, transaction.
  by rewrite stale_fail.
Qed.

(** ** A pass whose preparation throws *)

(** The command leaves errors of the submission and of the claim to the pass. *)
Definition left_to_pass (e : raised) : bool :=
  bool_decide (ra_class e = ReviewRunsSubmissionError)
  || bool_decide (ra_class e = PreparationClaimLostError).

Definition failure_code (e : raised) : string :=
  if left_to_pass e then "PREPARATION_RECOVERY_FAILED"
  else if is_setup_error e then "SETUP_DECLARATION_INVALID" else "REVIEW_START_FAILED".

(** The report of the command, then the one of the pass: one of them counts. *)
Lemma start_failure_ends attempt e (w : world O) p :
  run_inv (w_rows w) → t_prep (w_rows w) = Some p → holds_preparation token p = true →
  w_lost w = false →
  ∃ w', catch (start_failed now quiet_world reliable message_of token "" attempt e)
          (λ e, catch (failPreparation now quiet_world reliable message_of token
                         "PREPARATION_RECOVERY_FAILED" "" attempt e false ;;> pure tt) (λ _, pure tt)) w
        = Some (inl tt, w')
    ∧ backed_off (now (w_calls w)) e attempt (is_setup_error e) (failure_code e) p (w_rows w').
Proof.
  intros Hinv Hp Hh Hl. unfold start_failed, record_failure, failure_code.
  fold (left_to_pass e). destruct (left_to_pass e) eqn:Hleft.
  - assert (Hset : is_setup_error e = false).
    { unfold left_to_pass, is_setup_error in *. by destruct (ra_class e). }
    rewrite Hset. destruct (report_of "PREPARATION_RECOVERY_FAILED" "" attempt e false w p)
      as (b & t' & Heq & Hback); [done..|].
    unfold catch, andThen, read_lost. rewrite orb_true_r. unfold pure, raise. rewrite Heq. by eexists.
  - destruct (report_of (if is_setup_error e then "SETUP_DECLARATION_INVALID" else "REVIEW_START_FAILED")
      "" attempt e (is_setup_error e) w p) as (b & t' & Heq & Hback); [done..|by destruct (is_setup_error e)|].
    unfold catch, andThen, read_lost. rewrite Hl. cbn [orb]. rewrite Heq. unfold pure, raise.
    rewrite stale_report by by eapply backed_off_released. by eexists.
Qed.
End Backoff.
