(* ===== verification/CommandProperties.v ===== *)
(** The properties of the preparation pass of the connector: no claim is left behind, when a
    failed preparation is tried again, and which bundles are submitted. *)

From S2P Require Import Prelude Schema StateMachines Tables Database RunRecord.
From S2P Require Import PreparationStore InputBundles SubmissionTransitions Runtime Invariant.
From S2P Require Import Preservation PreparationSpecs System SystemSpecs Scenario.
From S2P Require Import ConnectorErrors ConnectorSteps Actions GitHub ObjectStore.
From S2P Require Import PreparationCommand NoticeOutcomes CommandOutcomes BundleOutcomes.
From S2P Require Import ExecutionSpecs BackoffOutcomes Hub PreparationProperties Fencing Correctness.

(** * Termination *)

Ltac returns_step :=
  match goal with
  | |- returns (andThen _ _) => apply returns_then; [|intros ?]
  | |- returns (catch _ _) => apply returns_catch; [|intros ?]
  | |- returns (match ?x with _ => _ end) => destruct x
  | |- returns (if ?x then _ else _) => destruct x
  | |- _ => solve [eauto with acts]
  end.

Section Returning.
Context {O : Type} `{ObjectStore O}.
Context (now : nat → Z) (env : nat → O * run_rows → O * run_rows) (net : nat → transport).
Context (message_of : failure → string) (thrown : failure → caught).
Context (cfg : store_config) (parse_url : string → option url) (bucket : string).
Context (parse_location : string → option (string * string * string)).
Context (parse_context : string → json → json + raised) (submit : string → json → submit_answer).
Context (run_id token : string).

Lemma returns_existing key r : returns (existingObjectMatches env key r).
Proof. unfold existingObjectMatches, sent. repeat returns_step. Qed.
Hint Resolve returns_existing : acts.

Lemma returns_submit context input :
  returns (submit_prepared now env net message_of thrown cfg parse_context submit run_id token context input).
Proof. unfold submit_prepared, validateContext. repeat returns_step. Qed.
Hint Resolve returns_submit : acts.

Lemma returns_recover candidates :
  returns (recover_candidates now env net message_of thrown cfg bucket parse_location parse_context
             submit run_id token candidates).
Proof.
  induction candidates as [|[d c] rest IH]; cbn [recover_candidates]; unfold inputBundleExists;
    repeat returns_step; done.
Qed.
Hint Resolve returns_recover : acts.

Lemma returns_start :
  returns (startPreparationClaimHeartbeat now env net message_of cfg run_id token).
Proof.
  unfold startPreparationClaimHeartbeat, assertPreparationOwned, renewPreparation. repeat returns_step.
Qed.

Lemma returns_prepare prepare :
  returns prepare →
  returns (prepare_and_submit now env net message_of thrown cfg parse_url bucket parse_location
             parse_context submit run_id token prepare).
Proof.
  intros Hp. unfold prepare_and_submit, assertPreparationOwned, renewPreparation,
    publishAndSubmitInputBundle, publishInputBundle. repeat returns_step.
Qed.

Lemma returns_failed fallback attempt e :
  returns (start_failed now env net message_of token fallback attempt e).
Proof. unfold start_failed, record_failure, failPreparation. repeat returns_step. Qed.

(** What a workflow does of its own ends. *)
Definition workflows_return (wf : workflows (O := O)) : Prop :=
  (∀ kind input, returns (wf_begin wf kind input)) ∧ (∀ kind input, returns (wf_prepare wf kind input))
  ∧ ∀ input, returns (wf_resolve wf input).

Lemma pass_returns wf work :
  workflows_return wf →
  returns (prepare_claimed now env net message_of thrown cfg parse_url bucket parse_location
             parse_context submit run_id token wf work).
Proof.
  intros (Hb & Hp & Hr). unfold prepare_claimed, failPreparation, executeClaimedPreparation,
    runPreparationCommand, dispatchRepositoryReview, record_failure, failPreparation,
    recoverInputBundlePublication.
  repeat first [apply returns_start|apply returns_failed|by apply returns_prepare|apply Hb|apply Hr|returns_step].
Qed.
End Returning.

(** * The properties *)

(** C16: a pass over claimed work leaves no claim behind: whatever the preparation of the workflow,
    GitHub, the object store and the Execution service answer, whatever messages are lost
    and whatever the others do meanwhile, the pass ends, it ends without an exception, the
    rows are sound, and nobody prepares the run under the token of the pass any more,
    unless the very last message, the report of the failure, did not get through. *)
Theorem preparation_pass_gives_claim_up {O : Type} `{ObjectStore O} now env net message_of thrown cfg
    parse_url bucket parse_location parse_context submit run_id token wf work (w : world O) :
  fair env token → workflows_sound wf → workflows_return wf → run_inv (w_rows w) →
  ∃ w', prepare_claimed now env net message_of thrown cfg parse_url bucket parse_location parse_context
          submit run_id token wf work w = Some (inl tt, w')
    ∧ run_inv (w_rows w')
    ∧ (net (pred (w_calls w')) = Delivered → released token (w_rows w')).
Proof.
  intros Hfair Hwf Hret Hinv.
  pose proof (pass_ends now env net message_of thrown cfg parse_url bucket parse_location parse_context
    submit run_id token Hfair wf work w Hwf Hinv) as Hend.
  destruct (pass_returns now env net message_of thrown cfg parse_url bucket parse_location parse_context
    submit run_id token wf work Hret w) as [[r w'] Heq].
  unfold ends in Hend. rewrite Heq in Hend. destruct r as [[]|e]; [|done].
  exists w'. split; [done|]. exact Hend.
Qed.

(** The kinds of work that [runPreparationCommand] prepares, and their workflows. *)
Definition commands : list (string * string) :=
  [("github_issue_review", "issue-review"); ("github_pull_request_review", "pull-request-review")].

Lemma execute_command {O : Type} `{ObjectStore O} now env net message_of thrown cfg
    parse_url bucket parse_location parse_context submit run_id token wf work kind :
  w_input_version work = "v1" → In (kind, w_workflow work) commands →
  json_get "kind" (w_input work) = Some (JString kind) →
  executeClaimedPreparation now env net message_of thrown cfg parse_url bucket parse_location
    parse_context submit run_id token wf work
  = (wf_begin wf kind (w_input work) ;;>
     runPreparationCommand now env net message_of thrown cfg parse_url bucket parse_location
       parse_context submit run_id token (w_attempt_count work) (wf_prepare wf kind (w_input work))).
Proof.
  intros Hv Hin Hk. unfold executeClaimedPreparation. rewrite Hv, Hk.
  assert (Hobj : json_is_object (w_input work) = true) by (by destruct (w_input work)).
  rewrite Hobj. destruct Hin as [Hin|[Hin|[]]]; injection Hin as <- Hw; by rewrite <- Hw.
Qed.

(** An issue or pull request review whose preparation throws is tried again after a wait that
    grows with the attempts: undisturbed, with the claim renewed in time and no bundle to
    recover, the run is claimable again exactly from [retryAfterMs] after the report on,
    which without a Retry-After header lies between five seconds and ten minutes; a
    failure that no retry can mend, or the eighth attempt, fails the preparation and
    skips its execution and its publication. The code tells who reported it. *)
Theorem failed_preparation_backs_off {O : Type} `{ObjectStore O} now message_of thrown cfg
    parse_url bucket parse_location parse_context submit run_id token wf work kind e p (w w0 : world O) :
  w_input_version work = "v1" → In (kind, w_workflow work) commands →
  json_get "kind" (w_input work) = Some (JString kind) → 1 <= w_attempt_count work →
  run_inv (w_rows w) → w_lost w = false → t_prep (w_rows w) = Some p →
  holds_preparation token p = true → nothing_reserved (w_rows w) → timely now cfg →
  wf_begin wf kind (w_input work) w = Some (inl tt, w0) → undisturbing w w0 →
  lease_live (p_claimed_at p) (now (S (w_calls w0))) (claim_timeout_ms cfg) = true →
  (∀ w1, ∃ w2, wf_prepare wf kind (w_input work) w1 = Some (inr e, w2) ∧ undisturbing w1 w2) →
  ∃ k w', prepare_claimed now quiet_world reliable message_of thrown cfg parse_url bucket parse_location
            parse_context submit run_id token wf work w = Some (inl tt, w')
    ∧ (3 + w_calls w0 <= k)%nat
    ∧ backed_off (now k) e (w_attempt_count work) (is_setup_error e) (failure_code e) p (w_rows w')
    ∧ (te_retry_after (ra_error e) = None →
       5000 <= retryAfterMs (ra_error e) (w_attempt_count work) <= 600000).
Proof.
  intros Hv Hin Hk Ha Hinv Hl Hp Hh Hnone Htime Hbegin (Hr0 & Hl0 & _) Hlease Hfails.
  rewrite <- Hr0 in Hinv, Hp, Hnone. rewrite Hl in Hl0.
  destruct (command_starts now message_of thrown cfg parse_url bucket parse_location parse_context submit
    run_id token (w_attempt_count work) (wf_prepare wf kind (w_input work)) w0 p)
    as (w1 & Hcmd & Hc1 & Hl1 & Hinv1 & Hp1); [done..|].
  destruct (Hfails w1) as (w2 & Hprep & Hr2 & Hl2 & Hc2).
  rewrite <- Hr2 in Hinv1, Hp1. rewrite Hl1 in Hl2.
  destruct (start_failure_ends now message_of token (w_attempt_count work) e w2 _ Hinv1 Hp1)
    as (w' & Hend & Hback); [exact Hh|done|].
  exists (w_calls w2), w'. split; [|split; [lia|split; [exact Hback|]]].
  - rewrite <- Hend. unfold prepare_claimed. rewrite (execute_command _ _ _ _ _ _ _ _ _ _ _ _ _ _ _ kind) by done.
    unfold catch at 1. rewrite (then_value _ _ _ _ _ Hbegin), Hcmd. unfold catch at 1, prepare_and_submit.
    by rewrite (then_raised _ _ _ _ _ Hprep).
  - intros Hn. by apply retryAfterMs_bounds.
Qed.

(** C26: what is submitted names a bundle that is in the store: while nobody replaces an object,
    a publication that ends normally has left an execution whose saved request is the
    prepared input with the address of its published bundle, within the limit for inputs
    of workflows, and under the key of the run and the digest an object of the length, the
    digest and the media type of the local bundle; and it has replaced nothing. *)
Theorem submitted_bundle_is_stored {O : Type} `{ObjectStoreLaws O} now env net message_of thrown cfg
    parse_url bucket parse_location parse_context submit run_id token context input (w w' : world O) :
  immutable env → fair env token → run_inv (w_rows w) →
  publishAndSubmitInputBundle now env net message_of thrown cfg parse_url bucket parse_location
    parse_context submit run_id token context input w = Some (inl tt, w') →
  ∃ local, bundle_of input = inl local
    ∧ json_size (published bucket run_id local input) <= MAX_WORKFLOW_INPUT_BYTES
    ∧ requested (published bucket run_id local input) w'
    ∧ bundle_at (inputObjectKey run_id (ref_digest local)) local w'
    ∧ ∀ k m, kept k m w → kept k m w'.
Proof.
  intros Himm Hfair Hinv Heq.
  pose proof (publication_ends now env net message_of thrown cfg parse_url bucket parse_location
    parse_context submit run_id token Himm Hfair context input w Hinv) as Hend.
  unfold ends in Hend. rewrite Heq in Hend. destruct Hend as (local & Hl & Hfit & Hreq & Hb).
  exists local. repeat (split; [done|]). intros k m Hk.
  pose proof (kept_publication now env net message_of thrown cfg parse_url bucket parse_location
    parse_context submit run_id token Himm k m context input w Hk) as Hkept.
  unfold ends in Hkept. by rewrite Heq in Hkept.
Qed.

(** C32: recovery trusts only what it has seen: from sound rows, while the others keep the rows
    sound, claim under other tokens and replace or remove no object, when it says it has
    submitted, it has submitted the request of the first candidate whose bundle it found in
    the store, with the length, the digest and the media type of the candidate's reference;
    none of the candidates before it is selected, and the bundle of none of them was in the
    store when the recovery began, so no stored bundle is passed over; when it says there is
    nothing to recover, no candidate is selected and the bundle of none was there; so the
    input that a run was given is never replaced by another. *)
Theorem recovery_submits_first_stored {O : Type} `{ObjectStoreLaws O} now env net message_of thrown cfg
    bucket parse_location parse_context submit run_id token candidates b (w w' : world O) :
  immutable env → fair env token → run_inv (w_rows w) →
  recover_candidates now env net message_of thrown cfg bucket parse_location parse_context
    submit run_id token candidates w = Some (inl b, w') →
  if b : bool then first_stored bucket parse_location candidates w w'
  else Forall (passed_over bucket parse_location w) candidates.
Proof.
  intros Himm Hfair Hinv Heq.
  pose proof (recovery_ends now env net message_of thrown cfg bucket parse_location
    parse_context submit run_id token Himm Hfair candidates w Hinv) as Hend.
  unfold ends in Hend. by rewrite Heq in Hend.
Qed.

(** * Witnesses *)

Definition on_shelf (wf : workflows) (w : world shelf) : option ((unit + raised) * world shelf) :=
  prepare_claimed second quiet_world reliable (λ _, "refused") plain_failure gh bundle_url "bundles"
    location any_context accepts "run-1" "prep-1" wf issue_work w.

Lemma admitted_inv : run_inv admitted_rows.
Proof.
  apply (reachable_run_inv file_url (after (take 1 prepare_script)) "run-1").
  - apply after_reachable. vm_compute. reflexivity.
  - unfold admitted_rows, stored. destruct (d_runs (after (take 1 prepare_script)) !! "run-1") eqn:Hr; [done|].
    vm_compute in Hr. discriminate Hr.
Qed.

Lemma quiet_fair token : fair (quiet_world (G := shelf)) token.
Proof. by intros i o t Ht. Qed.

Lemma workflow_of_sound m : keeps_world sound m → workflows_sound (workflow_of m).
Proof. intros Hm. split; [|split]; intros; [apply keeps_pure|exact Hm|apply keeps_pure]. Qed.
Lemma workflow_of_returns m : returns m → workflows_return (workflow_of m).
Proof. intros Hm. split; [|split]; intros; [apply returns_pure|exact Hm|apply returns_pure]. Qed.

Lemma preparation_pass_gives_claim_up_witness :
  ∃ w', on_shelf ready first_world = Some (inl tt, w') ∧ released "prep-1" (w_rows w')
    ∧ (e_status <$> t_exec (w_rows w')) = Some Exec.queued.
Proof.
  destruct (preparation_pass_gives_claim_up second quiet_world reliable (λ _, "refused") plain_failure gh
    bundle_url "bundles" location any_context accepts "run-1" "prep-1" ready issue_work first_world)
    as (w' & Heq & _ & Hr).
  - apply quiet_fair.
  - apply workflow_of_sound, keeps_pure.
  - apply workflow_of_returns, returns_pure.
  - exact admitted_inv.
  - exists w'. split; [exact Heq|]. split; [by apply Hr|].
    assert (Hq : ((λ x, e_status <$> t_exec (w_rows x.2)) <$> on_shelf ready first_world)
                 = Some (Some Exec.queued)) by (vm_compute; reflexivity).
    unfold on_shelf in Hq. rewrite Heq in Hq. by injection Hq as ->.
Defined.

Lemma admitted_preparation :
  ∃ p, t_prep admitted_rows = Some p ∧ holds_preparation "prep-1" p = true
    ∧ lease_live (p_claimed_at p) (second 1) (claim_timeout_ms gh) = true
    ∧ (p_attempt_count p <? MAX_PREPARATION_ATTEMPTS) = true ∧ nothing_reserved admitted_rows.
Proof.
  destruct (t_prep admitted_rows) as [p|] eqn:Hp; [|vm_compute in Hp; discriminate Hp].
  exists p. split; [done|].
  assert (Hc : t_candidates admitted_rows = ∅) by (vm_compute; reflexivity).
  split; [|split; [|split]]; try (vm_compute in Hp; injection Hp as <-; vm_compute; reflexivity).
  intros d c. by rewrite Hc, lookup_empty.
Qed.

Lemma failed_preparation_backs_off_witness :
  ∃ k w', on_shelf failing first_world = Some (inl tt, w')
    ∧ ∀ n, claimable n (w_rows w') = true ↔ second k + ms 5000 <= n.
Proof.
  destruct admitted_preparation as (p & Hp & Hh & Hl & Ha & Hnone).
  destruct (failed_preparation_backs_off second (λ _, "refused") plain_failure gh
    bundle_url "bundles" location any_context accepts "run-1" "prep-1" failing issue_work
    "github_issue_review" overloaded p first_world first_world)
    as (k & w' & Heq & _ & Hback & _); try done.
  - by left.
  - exact admitted_inv.
  - intros i. unfold second. replace (ms (claim_timeout_ms gh)) with (ms DEFAULT_CLAIM_TIMEOUT_MS) by done.
    unfold ms, DEFAULT_CLAIM_TIMEOUT_MS. lia.
  - intros w1. by exists w1.
  - exists k, w'. split; [exact Heq|]. destruct Hback as (p' & _ & _ & Hb). rewrite Ha in Hb.
    apply Hb.
Defined.

(** [m] ends normally from [w], with this answer. *)
Lemma ended {A} (m : option ((A + raised) * world shelf)) (p : A → bool) :
  match m with Some (inl a, _) => p a | _ => false end = true → ∃ a w', m = Some (inl a, w') ∧ p a = true.
Proof. destruct m as [[[a|e] w']|]; [by exists a, w'|done..]. Qed.

Lemma submitted_bundle_is_stored_witness :
  ∃ w', requested (published "bundles" "run-1" reference1 input1) w'
    ∧ bundle_at (inputObjectKey "run-1" digest1) reference1 w'.
Proof.
  destruct (ended (publishAndSubmitInputBundle second quiet_world reliable (λ _, "refused") plain_failure gh
    bundle_url "bundles" location any_context accepts "run-1" "prep-1" context1 input1 first_world)
    (λ _, true)) as ([] & w' & Heq & _); [vm_compute; reflexivity|].
  destruct (submitted_bundle_is_stored second quiet_world reliable (λ _, "refused") plain_failure gh
    bundle_url "bundles" location any_context accepts "run-1" "prep-1" context1 input1 first_world w')
    as (local & Hl & _ & Hreq & Hb & _); [by intros ?|apply quiet_fair|exact admitted_inv|exact Heq|].
  vm_compute in Hl. injection Hl as <-. exists w'. by split.
Defined.

(** A bundle that was reserved and never uploaded, and another that was reserved and uploaded
    before the preparer died. *)
Definition bundle_key : string := inputObjectKey "run-1" digest1.
Definition left_bundle : artifact_reference := publishedInputBundleReference "bundles" reference1 "run-1".
Definition left_intent : publication_intent := {|
  in_reference := left_bundle; in_input := published "bundles" "run-1" reference1 input1;
  in_publish_context := context1 |}.
Definition reference0 : artifact_reference := {|
  ref_digest := "sha256:00000000000000000000000000000000000000000000000000000000000000ff";
  ref_uri := ref_uri reference1; ref_media_type := ref_media_type reference1;
  ref_size_bytes := ref_size_bytes reference1 |}.
Definition lost_intent : publication_intent := {|
  in_reference := publishedInputBundleReference "bundles" reference0 "run-1";
  in_input := published "bundles" "run-1" reference0 input1; in_publish_context := context1 |}.
Definition lost_rows : run_rows :=
  (transaction (reserve gh 0 bundle_url "run-1" "prep-1" lost_intent) admitted_rows).2.
Definition left_rows : run_rows :=
  (transaction (reserve gh 1 bundle_url "run-1" "prep-1" left_intent) lost_rows).2.
Definition left_world : world shelf := shelf_world {[ bundle_key := sent_meta reference1 ]} left_rows.
Definition left_candidates : list (string * candidate_row) :=
  match list_candidates gh 1 "prep-1" left_rows with Ok (l, _) => l | Err _ => [] end.

Lemma recovery_submits_first_stored_witness :
  (fst <$> left_candidates) = [ref_digest reference0; digest1]
  ∧ ∃ w', first_stored "bundles" location left_candidates left_world w'
    ∧ requested (published "bundles" "run-1" reference1 input1) w'.
Proof.
  split; [vm_compute; reflexivity|].
  destruct (ended (recover_candidates second quiet_world reliable (λ _, "refused") plain_failure gh
    "bundles" location any_context accepts "run-1" "prep-1" left_candidates left_world) (λ b, b))
    as (b & w' & Heq & ->); [vm_compute; reflexivity|].
  exists w'. split.
  - apply (recovery_submits_first_stored second quiet_world reliable (λ _, "refused") plain_failure gh
      "bundles" location any_context accepts "run-1" "prep-1" left_candidates true left_world w').
    + by intros ?.
    + apply quiet_fair.
    + apply transaction_inv; [apply transaction_inv; [exact admitted_inv|]|].
      * apply reserve_good, admitted_inv.
      * apply reserve_good. apply transaction_inv; [exact admitted_inv|]. apply reserve_good, admitted_inv.
    + exact Heq.
  - assert (Hr : ((λ x, (e_input <$> t_exec (w_rows x.2))) <$>
      recover_candidates second quiet_world reliable (λ _, "refused") plain_failure gh
        "bundles" location any_context accepts "run-1" "prep-1" left_candidates left_world)
      = Some (Some (Some (published "bundles" "run-1" reference1 input1)))) by (vm_compute; reflexivity).
    rewrite Heq in Hr. injection Hr as Hr. exact Hr.
Defined.
