(* ===== verification/Catalog.v ===== *)
(** The memory catalog (services/memory-catalog, src/catalog-store.ts and
    src/database/schema-versions/001_initial_catalog.sql): extractions and their observations,
    the immutable revisions of the memory tree with the pointer to the active one, the
    maintenance control, and the ledgers of intents and operations.

    A method is a transaction on the whole catalog.  Statements before the first lock of a
    transaction may see an earlier catalog than the rest of it; where that can matter,
    it is the argument [seen].  The creation of a revision and the registration of an
    extraction take the lock of their owner first, so that nothing they read of the owner
    changes under them. *)

From S2P Require Import Prelude InputBundles.

#[export] Instance artifact_reference_eq_dec : EqDecision artifact_reference.
Proof. solve_decision. Defined.

(** * The contract *)

Record catalog_actor := { actor_kind : string; actor_id : string }.
#[export] Instance catalog_actor_eq_dec : EqDecision catalog_actor.
Proof. solve_decision. Defined.

Record ExtractionRegistration := {
  xr_extraction_id : string;
  xr_source_workflow : string;
  xr_source_run_id : string;
  xr_source_unit_id : string;
  xr_bundle_digest : string;
  xr_trajectory : artifact_reference;
  xr_observation : option string; (** the body of the observation *)
}.
#[export] Instance ExtractionRegistration_eq_dec : EqDecision ExtractionRegistration.
Proof. solve_decision. Defined.

Record ExtractionPublicationIntent := {
  xi_registration : ExtractionRegistration;
  xi_summary : string;
}.
#[export] Instance ExtractionPublicationIntent_eq_dec : EqDecision ExtractionPublicationIntent.
Proof. solve_decision. Defined.

(** Where a revision comes from, with the actor the server authenticated. *)
Inductive revision_source :=
  | Maintenance (maintenance_id : string) (extraction_ids : list string)
                (trajectory : artifact_reference)
  | Operator (operation_id : string) (actor : catalog_actor).
#[export] Instance revision_source_eq_dec : EqDecision revision_source.
Proof. solve_decision. Defined.

Record MemoryTreeRevisionCreation := {
  rc_expected_active_revision : Z;
  rc_memory_tree : artifact_reference;
  rc_source : revision_source;
}.
#[export] Instance MemoryTreeRevisionCreation_eq_dec : EqDecision MemoryTreeRevisionCreation.
Proof. solve_decision. Defined.

Inductive maintenance_state := enabled | paused.
#[export] Instance maintenance_state_eq_dec : EqDecision maintenance_state.
Proof. solve_decision. Defined.

Record MaintenanceControlOperation := {
  mo_operation_id : string;
  mo_expected_generation : Z;
  mo_actor : catalog_actor;
}.

Record MemoryTreeRestoreOperation := {
  ro_operation_id : string;
  ro_expected_active_revision : Z;
  ro_restored_revision : Z;
  ro_actor : catalog_actor;
}.

Module Intent.
Inductive status := reserved | present | selected.
#[global] Instance status_eq_dec : EqDecision status.
Proof. solve_decision. Defined.
End Intent.

(** A source as a request or an answer names it: without the actor of an operator. *)
Inductive body_source :=
  | BodyMaintenance (maintenance_id : string) (extraction_ids : list string) (trajectory : artifact_reference)
  | BodyOperator (operation_id : string).

Record RevisionPublication := {
  pb_expected_active_revision : Z;
  pb_memory_tree : artifact_reference;
  pb_source : body_source;
  pb_status : Intent.status;
}.

(** * The tables *)

Record extraction_row := {
  x_source_workflow : string;
  x_source_run_id : string;
  x_source_unit_id : string;
  x_bundle_digest : string;
  x_trajectory : artifact_reference;
  x_created_at : Z;
}.

Record observation_row := {
  ob_body_markdown : string;
  ob_consumed_revision : option Z;
  ob_created_at : Z;
}.

Record revision_row := {
  v_predecessor : option Z;
  v_memory_tree : artifact_reference;
  v_source_kind : string;
  v_maintenance_id : option string;
  v_trajectory : option artifact_reference;
  v_operation_id : option string;
  v_actor : option catalog_actor;
  v_created_at : Z;
}.

Record restore_row := {
  rs_expected : Z; rs_restored : Z; rs_actor : catalog_actor; rs_created_at : Z;
}.

Record control_row := {
  mc_state : maintenance_state; mc_generation : Z; mc_changed_by : catalog_actor; mc_changed_at : Z;
}.

Record control_op_row := {
  co_target : maintenance_state; co_expected : Z; co_actor : catalog_actor;
  co_state : maintenance_state; co_generation : Z; co_changed_at : Z;
}.

Record extraction_publication := {
  xp_intent : ExtractionPublicationIntent; xp_status : Intent.status; xp_created_at : Z;
}.
Record revision_publication := {
  vp_intent : MemoryTreeRevisionCreation; vp_status : Intent.status; vp_created_at : Z;
}.

(** The primary keys of the two ledgers of intents. *)
Abbreviation extraction_identity := (string * string)%type.
Abbreviation revision_identity := (string * string * string * string)%type.

Record catalog := {
  extractions : gmap string extraction_row;
  observations : gmap string observation_row;
  revisions : gmap Z revision_row;
  active_revision : Z;
  tree_updated_at : Z;
  restores : gmap string restore_row;
  control : control_row;
  control_ops : gmap string control_op_row;
  xpubs : gmap extraction_identity extraction_publication;
  vpubs : gmap revision_identity revision_publication;
}.

(** What the schema version inserts. *)
Definition initial_catalog (at_ : Z) : catalog := {|
  extractions := ∅; observations := ∅; revisions := ∅; active_revision := 0; tree_updated_at := at_;
  restores := ∅;
  control := {| mc_state := enabled; mc_generation := 0;
                mc_changed_by := {| actor_kind := "service"; actor_id := "memory-catalog" |};
                mc_changed_at := at_ |};
  control_ops := ∅; xpubs := ∅; vpubs := ∅ |}.
