(* ===== verification/CatalogStore.v ===== *)
(** The operations of the memory catalog (services/memory-catalog, src/catalog-store.ts). *)

From stdpp Require Import pretty.
From S2P Require Import Prelude InputBundles Catalog.

(** * Rows and constraints *)

Definition extraction_key (i : ExtractionPublicationIntent) : extraction_identity :=
  (xr_extraction_id (xi_registration i), ref_digest (xr_trajectory (xi_registration i))).

Definition source_kind (s : revision_source) : string :=
  match s with Maintenance _ _ _ => "maintenance" | Operator _ _ => "operator" end.

Definition source_owner (s : revision_source) : string :=
  match s with Maintenance id _ _ => id | Operator id _ => id end.

Definition revisionPublicationIdentity (i : MemoryTreeRevisionCreation) : revision_identity :=
  (source_kind (rc_source i), source_owner (rc_source i), ref_digest (rc_memory_tree i),
   match rc_source i with Maintenance _ _ t => ref_digest t | Operator _ _ => "" end).

(** memory_tree_revisions_source_shape_check, and the sign of the revision. *)
Definition revision_check (n : Z) (v : revision_row) : bool :=
  (0 <? n)
  && (if String.eqb (v_source_kind v) "maintenance"
      then not_null (v_maintenance_id v) && not_null (v_trajectory v)
           && is_null (v_operation_id v) && is_null (v_actor v)
      else String.eqb (v_source_kind v) "operator"
           && is_null (v_maintenance_id v) && is_null (v_trajectory v)
           && not_null (v_operation_id v) && not_null (v_actor v)).

(** A column of two rows that a unique index keeps apart; nulls are distinct. *)
Definition same_key (x y : option string) : bool := not_null x && opt_eqb x y.

Definition any_row {K A} `{Countable K} (p : K → A → bool) (m : gmap K A) : bool :=
  existsb (λ kv, p kv.1 kv.2) (map_to_list m).

(** INSERT INTO memory_tree_revisions. *)
Definition insert_revision (n : Z) (v : revision_row) : tx catalog unit := λ c,
  if negb (revision_check n v) then Err (CheckViolation "memory_tree_revisions")
  else if not_null (revisions c !! n)
          || any_row (λ _ w, same_key (v_maintenance_id v) (v_maintenance_id w)
                             || same_key (v_operation_id v) (v_operation_id w)) (revisions c)
  then Err (UniqueViolation "memory_tree_revisions")
  else if match v_predecessor v with Some p => is_null (revisions c !! p) | None => false end
  then Err (ForeignKeyViolation "memory_tree_revisions")
  else Ok (tt, c <| revisions ::= <[n := v]> |>).

(** * Methods *)

Section Catalog.
Context (now : Z).
(** The order of text in the database's collation. *)
Context (collate_le : string → string → bool).

Definition extraction_conflict {A} (message : string) : tx catalog A :=
  throw (ThrownAs "ExtractionConflictError" message).
Definition revision_conflict {A} (message : string) : tx catalog A :=
  throw (ThrownAs "MemoryTreeRevisionConflictError" message).
Definition control_conflict {A} (message : string) : tx catalog A :=
  throw (ThrownAs "MaintenanceControlConflictError" message).

(** The answer of the ledgers: the intent and its status. *)
Definition projectExtractionPublication (row : extraction_publication) :
    ExtractionPublicationIntent * Intent.status :=
  (xp_intent row, xp_status row).

(** The actor of an operator is not shown. *)
Definition projectRevisionPublication (row : revision_publication) : RevisionPublication := {|
  pb_expected_active_revision := rc_expected_active_revision (vp_intent row);
  pb_memory_tree := rc_memory_tree (vp_intent row);
  pb_source := match rc_source (vp_intent row) with
               | Maintenance id ids t => BodyMaintenance id ids t
               | Operator id _ => BodyOperator id
               end;
  pb_status := vp_status row |}.

(** ** The ledger of extraction intents *)

Definition reserveExtractionPublication (intent : ExtractionPublicationIntent) :
    tx catalog (ExtractionPublicationIntent * Intent.status) := λ c,
  let key := extraction_key intent in
  let c := match xpubs c !! key with
           | Some _ => c
           | None => c <| xpubs ::= <[key := {| xp_intent := intent; xp_status := Intent.reserved;
                                               xp_created_at := now |}]> |>
           end in
  match xpubs c !! key with
  | Some row => if decide (xp_intent row = intent) then Ok (projectExtractionPublication row, c)
                else extraction_conflict "Extraction publication intent changed." c
  | None => Err (Thrown "row is undefined")
  end.

(** [case when status='selected' then status else 'present' end]. *)
Definition confirmed (s : Intent.status) : Intent.status :=
  match s with Intent.selected => Intent.selected | _ => Intent.present end.

Definition confirmExtractionPublication (intent : ExtractionPublicationIntent) :
    tx catalog (ExtractionPublicationIntent * Intent.status) := λ c,
  let key := extraction_key intent in
  match xpubs c !! key with
  | Some row =>
      if decide (xp_intent row = intent)
      then let row' := row <| xp_status ::= confirmed |> in
           Ok (projectExtractionPublication row', c <| xpubs ::= <[key := row']> |>)
      else extraction_conflict "Matching extraction publication reservation is required." c
  | None => extraction_conflict "Matching extraction publication reservation is required." c
  end.

Definition is_selected (s : Intent.status) : bool := bool_decide (s = Intent.selected).

(** ORDER BY (status='selected') DESC, created_at, and a key. *)
Definition selected_first {A} (status : A → Intent.status) (created : A → Z) (tie : A → A → bool)
    (x y : A) : bool :=
  if Bool.eqb (is_selected (status x)) (is_selected (status y))
  then (created x <? created y) || ((created x =? created y) && tie x y)
  else is_selected (status x).

Definition listExtractionPublications (extractionId : string) (c : catalog) :
    list (ExtractionPublicationIntent * Intent.status) :=
  (λ kr, projectExtractionPublication kr.2) <$> sort_by (selected_first (λ kr, xp_status kr.2) (λ kr, xp_created_at kr.2)
                     (λ x y, collate_le x.1.2 y.1.2))
            (List.filter (λ kr, String.eqb kr.1.1 extractionId) (map_to_list (xpubs c))).

(** ** The ledger of revision intents *)

Definition reserveRevisionPublication (intent : MemoryTreeRevisionCreation) :
    tx catalog RevisionPublication := λ c,
  let key := revisionPublicationIdentity intent in
  let c := match vpubs c !! key with
           | Some _ => c
           | None => c <| vpubs ::= <[key := {| vp_intent := intent; vp_status := Intent.reserved;
                                               vp_created_at := now |}]> |>
           end in
  match vpubs c !! key with
  | Some row => if decide (vp_intent row = intent) then Ok (projectRevisionPublication row, c)
                else revision_conflict "Revision publication intent changed." c
  | None => Err (Thrown "row is undefined")
  end.

Definition confirmRevisionPublication (intent : MemoryTreeRevisionCreation) :
    tx catalog RevisionPublication := λ c,
  let key := revisionPublicationIdentity intent in
  match vpubs c !! key with
  | Some row =>
      if decide (vp_intent row = intent)
      then let row' := row <| vp_status ::= confirmed |> in
           Ok (projectRevisionPublication row', c <| vpubs ::= <[key := row']> |>)
      else revision_conflict "Matching revision publication reservation is required." c
  | None => revision_conflict "Matching revision publication reservation is required." c
  end.

Definition listRevisionPublications (kind ownerId : string) (c : catalog) : list RevisionPublication :=
  (λ kr, projectRevisionPublication kr.2) <$> sort_by (selected_first (λ kr, vp_status kr.2) (λ kr, vp_created_at kr.2)
                     (λ x y, if String.eqb x.1.1.2 y.1.1.2 then collate_le x.1.2 y.1.2
                             else collate_le x.1.1.2 y.1.1.2))
            (List.filter (λ kr, String.eqb kr.1.1.1.1 kind && String.eqb kr.1.1.1.2 ownerId)
               (map_to_list (vpubs c))).

(** ** Extractions *)

(** Another intent of the owner is selected. *)
Definition other_extraction_selected (input : ExtractionRegistration) (c : catalog) : bool :=
  any_row (λ k p, String.eqb k.1 (xr_extraction_id input) && is_selected (xp_status p)
                  && bool_decide (xi_registration (xp_intent p) ≠ input)) (xpubs c).

(** The confirmed intent of this registration. Its key is that of the registration, by the
    CHECKs of the table. *)
Definition confirmed_extraction (input : ExtractionRegistration) (c : catalog) :
    option (extraction_identity * extraction_publication) :=
  let key := (xr_extraction_id input, ref_digest (xr_trajectory input)) in
  match xpubs c !! key with
  | Some p => if bool_decide (xi_registration (xp_intent p) = input)
                 && negb (bool_decide (xp_status p = Intent.reserved))
              then Some (key, p) else None
  | None => None
  end.

Definition extraction_of (input : ExtractionRegistration) : extraction_row := {|
  x_source_workflow := xr_source_workflow input; x_source_run_id := xr_source_run_id input;
  x_source_unit_id := xr_source_unit_id input; x_bundle_digest := xr_bundle_digest input;
  x_trajectory := xr_trajectory input; x_created_at := now |}.

(** The row that is there says the same. *)
Definition same_extraction (input : ExtractionRegistration) (x : extraction_row) (body : option string) : bool :=
  String.eqb (x_source_workflow x) (xr_source_workflow input)
  && String.eqb (x_source_run_id x) (xr_source_run_id input)
  && String.eqb (x_source_unit_id x) (xr_source_unit_id input)
  && String.eqb (x_bundle_digest x) (xr_bundle_digest input)
  && bool_decide (x_trajectory x = xr_trajectory input)
  && opt_eqb body (xr_observation input).

(** INSERT INTO observations. *)
Definition insert_observation (id body : string) : tx catalog unit := λ c,
  if not_null (observations c !! id) then Err (UniqueViolation "observations")
  else if is_null (extractions c !! id) then Err (ForeignKeyViolation "observations")
  else Ok (tt, c <| observations ::= <[id := {| ob_body_markdown := body; ob_consumed_revision := None;
                                               ob_created_at := now |}]> |>).

Definition registerExtraction (input : ExtractionRegistration) : tx catalog bool :=
  let id := xr_extraction_id input in
  let! other := read (other_extraction_selected input) in
  if other then extraction_conflict "A different extraction publication is already selected."
  else
    let! publication := read (confirmed_extraction input) in
    match publication with
    | None => extraction_conflict "A confirmed extraction publication is required."
    | Some (key, p) =>
        (λ c, Ok (tt, c <| xpubs ::= <[key := p <| xp_status := Intent.selected |>]> |>)) ;;;
        let! existing := read (λ c, extractions c !! id) in
        match existing with
        | None =>
            (λ c, Ok (tt, c <| extractions ::= <[id := extraction_of input]> |>)) ;;;
            match xr_observation input with
            | Some body => insert_observation id body ;;; ret true
            | None => ret true
            end
        | Some x =>
            let! body := read (λ c, ob_body_markdown <$> observations c !! id) in
            if same_extraction input x body then ret false
            else extraction_conflict ("Extraction id already exists with different content: " +:+ id)
        end
    end.

(** ** The maintenance control *)

Definition opposite (s : maintenance_state) : maintenance_state :=
  match s with enabled => paused | paused => enabled end.

Definition state_text (s : maintenance_state) : string :=
  match s with enabled => "enabled" | paused => "paused" end.

(** The control a caller is told of, and whether this call changed it. *)
Definition control_of_op (o : control_op_row) : control_row := {|
  mc_state := co_state o; mc_generation := co_generation o; mc_changed_by := co_actor o;
  mc_changed_at := co_changed_at o |}.

Definition changeMaintenanceControl (target : maintenance_state) (input : MaintenanceControlOperation)
    (seen : catalog) : tx catalog (bool * control_row) :=
  match control_ops seen !! mo_operation_id input with
  | Some o =>
      if bool_decide (co_target o = target) && (co_expected o =? mo_expected_generation input)
         && bool_decide (co_actor o = mo_actor input)
      then ret (false, control_of_op o)
      else control_conflict "Control operation id already exists with different content."
  | None =>
      let! row := read control in
      if negb (mc_generation row =? mo_expected_generation input)
      then control_conflict ("Maintenance control generation no longer matches "
             +:+ pretty (mo_expected_generation input) +:+ ".")
      else if negb (bool_decide (mc_state row = opposite target))
      then control_conflict ("Maintenance control cannot transition from "
             +:+ state_text (mc_state row) +:+ " to " +:+ state_text target +:+ ".")
      else
        let changed := {| mc_state := target; mc_generation := mc_generation row + 1;
                          mc_changed_by := mo_actor input; mc_changed_at := now |} in
        (λ c, Ok (tt, c <| control := changed |>)) ;;;
        let! taken := read (λ c, control_ops c !! mo_operation_id input) in
        if not_null taken then throw (UniqueViolation "maintenance_control_operations")
        else
          (λ c, Ok (tt, c <| control_ops ::= <[mo_operation_id input :=
             {| co_target := target; co_expected := mo_expected_generation input;
                co_actor := mo_actor input; co_state := mc_state changed;
                co_generation := mc_generation changed; co_changed_at := mc_changed_at changed |}]> |>)) ;;;
          ret (true, changed)
  end.

(** ** Maintenance *)

Record MaintenanceInput := {
  mi_expected_active_revision : Z;
  mi_active_memory_tree : option artifact_reference;
  mi_observations : list (string * string);
}.

Definition pending (o : observation_row) : bool := is_null (ob_consumed_revision o).

Definition oldest_first (x y : string * observation_row) : bool :=
  (ob_created_at x.2 <? ob_created_at y.2)
  || ((ob_created_at x.2 =? ob_created_at y.2) && collate_le x.1 y.1).

(** The observations as [seen] has them, the active revision as the catalog has it. *)
Definition getMaintenanceInput (limit : nat) (seen c : catalog) : option MaintenanceInput :=
  match take limit (sort_by oldest_first (List.filter (λ ko, pending ko.2) (map_to_list (observations seen)))) with
  | [] => None
  | rows => Some {|
      mi_expected_active_revision := active_revision c;
      mi_active_memory_tree := v_memory_tree <$> revisions c !! active_revision c;
      mi_observations := (λ ko, (ko.1, ob_body_markdown ko.2)) <$> rows |}
  end.

(** ** Revisions *)

Definition other_revision_selected (input : MemoryTreeRevisionCreation) (c : catalog) : bool :=
  any_row (λ k p, String.eqb k.1.1.1 (source_kind (rc_source input))
                  && String.eqb k.1.1.2 (source_owner (rc_source input))
                  && is_selected (vp_status p) && bool_decide (vp_intent p ≠ input)) (vpubs c).

Definition confirmed_revision (input : MemoryTreeRevisionCreation) (c : catalog) : option revision_publication :=
  match vpubs c !! revisionPublicationIdentity input with
  | Some p => if bool_decide (vp_intent p = input) && negb (bool_decide (vp_status p = Intent.reserved))
              then Some p else None
  | None => None
  end.

Definition nullif_zero (n : Z) : option Z := if n =? 0 then None else Some n.

(** The observations a revision consumed. *)
Definition consumed_by (n : Z) (c : catalog) : list string :=
  fst <$> List.filter (λ ko, sql_eq (ob_consumed_revision ko.2) n) (map_to_list (observations c)).

(** The revision of this source, None when there is none. *)
Definition replayed (s : revision_source) (c : catalog) : option (Z * revision_row) :=
  List.find (λ nv, match s with
                   | Maintenance id _ _ => opt_eqb (v_maintenance_id nv.2) (Some id)
                   | Operator id _ => opt_eqb (v_operation_id nv.2) (Some id)
                   end) (map_to_list (revisions c)).

(** Its content is that of the input. The ids it consumed come in the order of the database,
    those of the input in JavaScript's. *)
Definition identical_revision (input : MemoryTreeRevisionCreation) (n : Z) (v : revision_row) (c : catalog) : bool :=
  bool_decide (v_predecessor v = nullif_zero (rc_expected_active_revision input))
  && bool_decide (v_memory_tree v = rc_memory_tree input)
  && match rc_source input with
     | Maintenance _ ids trajectory =>
         bool_decide (v_trajectory v = Some trajectory)
         && bool_decide (sort_by collate_le (consumed_by n c) = sort_by String.leb ids)
     | Operator _ actor => bool_decide (v_actor v = Some actor)
     end.

(** [select coalesce(max(revision), 0) + 1]. *)
Definition next_revision (c : catalog) : Z := foldr Z.max 0 (map_to_list (revisions c)).*1 + 1.

Definition revision_of (input : MemoryTreeRevisionCreation) : revision_row := {|
  v_predecessor := nullif_zero (rc_expected_active_revision input);
  v_memory_tree := rc_memory_tree input;
  v_source_kind := source_kind (rc_source input);
  v_maintenance_id := match rc_source input with Maintenance id _ _ => Some id | Operator _ _ => None end;
  v_trajectory := match rc_source input with Maintenance _ _ t => Some t | Operator _ _ => None end;
  v_operation_id := match rc_source input with Maintenance _ _ _ => None | Operator id _ => Some id end;
  v_actor := match rc_source input with Maintenance _ _ _ => None | Operator _ a => Some a end;
  v_created_at := now |}.

(** The ids of the list that are pending, as a SELECT returns them: each once. *)
Definition pending_of (ids : list string) (c : catalog) : list string :=
  fst <$> List.filter (λ ko, existsb (String.eqb ko.1) ids && pending ko.2) (map_to_list (observations c)).

Definition all_pending (ids : list string) (c : catalog) : bool :=
  Nat.eqb (length (pending_of ids c)) (length ids)
  && forallb (λ id, existsb (String.eqb id) (pending_of ids c)) ids.

Definition consume (n : Z) (ids : list string) (m : gmap string observation_row) : gmap string observation_row :=
  map_imap (λ k o, Some (if existsb (String.eqb k) ids && pending o
                         then o <| ob_consumed_revision := Some n |> else o)) m.

Definition active_moved (expected : Z) : string :=
  "Active revision no longer matches expected active revision " +:+ pretty expected +:+ ".".

Definition id_taken (s : revision_source) : string :=
  (if String.eqb (source_kind s) "maintenance" then "Maintenance id" else "Operation id")
  +:+ " already exists with different content.".

(** The commit itself, once the source may commit. *)
Definition commit_revision (input : MemoryTreeRevisionCreation) : tx catalog (bool * Z) :=
  let! active := read active_revision in
  if negb (active =? rc_expected_active_revision input)
  then revision_conflict (active_moved (rc_expected_active_revision input))
  else
    let! free := read (λ c, match rc_source input with
                            | Maintenance _ ids _ => all_pending ids c
                            | Operator _ _ => true
                            end) in
    if negb free then revision_conflict "One or more source observations are no longer pending."
    else
      let! n := read next_revision in
      insert_revision n (revision_of input) ;;;
      (λ c, Ok (tt, match rc_source input with
                    | Maintenance _ ids _ => c <| observations ::= consume n ids |>
                    | Operator _ _ => c
                    end)) ;;;
      (λ c, Ok (tt, c <| active_revision := n |> <| tree_updated_at := now |>)) ;;;
      ret (true, n).

(** Whether the call created the revision, and its number. *)
Definition createMemoryTreeRevision (input : MemoryTreeRevisionCreation) : tx catalog (bool * Z) :=
  let! other := read (other_revision_selected input) in
  if other then revision_conflict "A different revision publication is already selected."
  else
    let! publication := read (confirmed_revision input) in
    match publication with
    | None => revision_conflict "A confirmed revision publication is required."
    | Some p =>
        (λ c, Ok (tt, c <| vpubs ::= <[revisionPublicationIdentity input :=
                                         p <| vp_status := Intent.selected |>]> |>)) ;;;
        let! existing := read (replayed (rc_source input)) in
        match existing with
        | Some (n, v) =>
            let! same := read (identical_revision input n v) in
            if same then ret (false, n)
            else revision_conflict (id_taken (rc_source input))
        | None =>
            let! state := read (λ c, mc_state (control c)) in
            match rc_source input, state with
            | Maintenance _ _ _, paused =>
                throw (ThrownAs "MaintenancePausedError" "Automatic memory maintenance is paused.")
            | _, _ => commit_revision input
            end
        end
    end.

(** Whether the call moved the pointer, and where it points. *)
Definition restoreMemoryTree (input : MemoryTreeRestoreOperation) (seen : catalog) : tx catalog (bool * Z) :=
  match restores seen !! ro_operation_id input with
  | Some o =>
      if (rs_expected o =? ro_expected_active_revision input) && (rs_restored o =? ro_restored_revision input)
         && bool_decide (rs_actor o = ro_actor input)
      then ret (false, rs_restored o)
      else revision_conflict "Restore operation id already exists with different content."
  | None =>
      let! active := read active_revision in
      if negb (active =? ro_expected_active_revision input)
      then revision_conflict (active_moved (ro_expected_active_revision input))
      else
        let! target := read (λ c, revisions c !! ro_restored_revision input) in
        if is_null target then revision_conflict ("Restored revision does not exist: " +:+ pretty (ro_restored_revision input) +:+ ".")
        else
          (λ c, if not_null (restores c !! ro_operation_id input)
                then Err (UniqueViolation "memory_tree_restore_operations")
                else if is_null (revisions c !! ro_expected_active_revision input)
                        || is_null (revisions c !! ro_restored_revision input)
                then Err (ForeignKeyViolation "memory_tree_restore_operations")
                else Ok (tt, c <| restores ::= <[ro_operation_id input :=
                       {| rs_expected := ro_expected_active_revision input;
                          rs_restored := ro_restored_revision input;
                          rs_actor := ro_actor input; rs_created_at := now |}]> |>)) ;;;
          (λ c, Ok (tt, c <| active_revision := ro_restored_revision input |> <| tree_updated_at := now |>)) ;;;
          ret (true, ro_restored_revision input)
  end.
End Catalog.
