(* ===== verification/CatalogHistory.v ===== *)
(** The memory catalog as a system, and the history it implements: an append-only list of
    commits, a pointer into it, a switch, and the extractions that were registered. *)

From S2P Require Import Prelude InputBundles ConnectorErrors Catalog CatalogStore.

(** * The system *)

Inductive catalog_op :=
  | OpReserveExtraction (intent : ExtractionPublicationIntent)
  | OpConfirmExtraction (intent : ExtractionPublicationIntent)
  | OpRegisterExtraction (input : ExtractionRegistration)
  | OpReserveRevision (intent : MemoryTreeRevisionCreation)
  | OpConfirmRevision (intent : MemoryTreeRevisionCreation)
  | OpCreateRevision (input : MemoryTreeRevisionCreation)
  | OpChangeControl (target : maintenance_state) (input : MaintenanceControlOperation)
  | OpRestore (input : MemoryTreeRestoreOperation).

Definition perform (collate_le : string → string → bool) (now : Z) (o : catalog_op) (seen : catalog) :
    tx catalog unit :=
  match o with
  | OpReserveExtraction i => reserveExtractionPublication now i ;;; ret tt
  | OpConfirmExtraction i => confirmExtractionPublication i ;;; ret tt
  | OpRegisterExtraction i => registerExtraction now i ;;; ret tt
  | OpReserveRevision i => reserveRevisionPublication now i ;;; ret tt
  | OpConfirmRevision i => confirmRevisionPublication i ;;; ret tt
  | OpCreateRevision i => createMemoryTreeRevision now collate_le i ;;; ret tt
  | OpChangeControl s i => changeMaintenanceControl now s i seen ;;; ret tt
  | OpRestore i => restoreMemoryTree now i seen ;;; ret tt
  end.

(** The catalogs there have been, newest first; a transaction may have seen any of them. *)
Inductive trace (collate_le : string → string → bool) : list catalog → Prop :=
  | trace_initial at_ : trace collate_le [initial_catalog at_]
  | trace_step now o seen c c' l :
      trace collate_le (c :: l) → seen ∈ c :: l →
      perform collate_le now o seen c = Ok (tt, c') → trace collate_le (c' :: c :: l).

(** * The abstract history *)

Record history := {
  h_commits : list MemoryTreeRevisionCreation; (** oldest first: the revisions 1, 2, ... *)
  h_active : Z;
  h_state : maintenance_state;
  h_changes : Z;
  h_extractions : gmap string ExtractionRegistration;
}.

Definition initial_history : history := {|
  h_commits := []; h_active := 0; h_state := enabled; h_changes := 0; h_extractions := ∅ |}.

Definition consumed_ids (i : MemoryTreeRevisionCreation) : list string :=
  match rc_source i with Maintenance _ ids _ => ids | Operator _ _ => [] end.

(** The observation [id] of the history is pending. *)
Definition h_pending (h : history) (id : string) : Prop :=
  (∃ r body, h_extractions h !! id = Some r ∧ xr_observation r = Some body)
  ∧ ∀ i, i ∈ h_commits h → id ∉ consumed_ids i.

(** Each owner commits once. *)
Definition fresh_owner (h : history) (i : MemoryTreeRevisionCreation) : Prop :=
  ∀ j, j ∈ h_commits h →
    source_kind (rc_source j) = source_kind (rc_source i) →
    source_owner (rc_source j) ≠ source_owner (rc_source i).

Inductive hstep (h : history) : history → Prop :=
  | h_commit i :
      rc_expected_active_revision i = h_active h → fresh_owner h i →
      NoDup (consumed_ids i) → (∀ id, id ∈ consumed_ids i → h_pending h id) →
      (source_kind (rc_source i) = "maintenance" → h_state h = enabled) →
      hstep h (h <| h_commits ::= (λ l, l ++ [i]) |>
                 <| h_active := Z.of_nat (length (h_commits h)) + 1 |>)
  | h_restore n :
      1 <= n <= Z.of_nat (length (h_commits h)) → hstep h (h <| h_active := n |>)
  | h_control :
      hstep h (h <| h_state := opposite (h_state h) |> <| h_changes := h_changes h + 1 |>)
  | h_register r :
      h_extractions h !! xr_extraction_id r = None →
      hstep h (h <| h_extractions ::= <[xr_extraction_id r := r]> |>).

(** At most one step. *)
Definition progress (h h' : history) : Prop := h' = h ∨ hstep h h'.

(** * The catalog of a history *)

(** Revision [k+1] is commit [k]. *)
Definition commit_at (h : history) (n : Z) : option MemoryTreeRevisionCreation :=
  if 0 <? n then h_commits h !! Z.to_nat (n - 1) else None.

Record refines (h : history) (c : catalog) : Prop := {
  rf_revisions n : (∃ v, revisions c !! n = Some v) ↔ (∃ i, commit_at h n = Some i);
  rf_content n v i : revisions c !! n = Some v → commit_at h n = Some i →
    v = revision_of (v_created_at v) i;
  rf_active : active_revision c = h_active h;
  rf_bounds : (h_active h = 0 ∧ h_commits h = [])
    ∨ 1 <= h_active h <= Z.of_nat (length (h_commits h));
  rf_predecessors n i : commit_at h n = Some i →
    0 <= rc_expected_active_revision i < n ∧ (rc_expected_active_revision i = 0 → n = 1);
  rf_owners n m i j : commit_at h n = Some i → commit_at h m = Some j →
    source_kind (rc_source i) = source_kind (rc_source j) →
    source_owner (rc_source i) = source_owner (rc_source j) → n = m;
  rf_ids n i : commit_at h n = Some i → NoDup (consumed_ids i);
  rf_state : mc_state (control c) = h_state h;
  rf_generation : mc_generation (control c) = h_changes h;
  rf_extractions id : (x_trajectory <$> extractions c !! id, x_source_workflow <$> extractions c !! id,
      x_source_run_id <$> extractions c !! id, x_source_unit_id <$> extractions c !! id,
      x_bundle_digest <$> extractions c !! id)
    = (xr_trajectory <$> h_extractions h !! id, xr_source_workflow <$> h_extractions h !! id,
       xr_source_run_id <$> h_extractions h !! id, xr_source_unit_id <$> h_extractions h !! id,
       xr_bundle_digest <$> h_extractions h !! id);
  rf_observations id : ob_body_markdown <$> observations c !! id = h_extractions h !! id ≫= xr_observation;
  rf_registered id r : h_extractions h !! id = Some r → xr_extraction_id r = id;
  rf_consumed id o n : observations c !! id = Some o →
    (ob_consumed_revision o = Some n ↔ ∃ i, commit_at h n = Some i ∧ id ∈ consumed_ids i);
  rf_consumable n i id : commit_at h n = Some i → id ∈ consumed_ids i → is_Some (observations c !! id);
  rf_vpubs k p : vpubs c !! k = Some p → k = revisionPublicationIdentity (vp_intent p);
  rf_vselected i : i ∈ h_commits h ↔
    ∃ p, vpubs c !! revisionPublicationIdentity i = Some p ∧ vp_intent p = i ∧ vp_status p = Intent.selected;
  rf_xpubs k p : xpubs c !! k = Some p → k = extraction_key (xp_intent p);
  rf_xselected r : h_extractions h !! xr_extraction_id r = Some r ↔
    ∃ k p, xpubs c !! k = Some p ∧ xi_registration (xp_intent p) = r ∧ xp_status p = Intent.selected;
  rf_restores id o : restores c !! id = Some o →
    is_Some (commit_at h (rs_expected o)) ∧ is_Some (commit_at h (rs_restored o));
}.

(** * A short life of a memory catalog, for the witnesses *)

(** The catalogs there are while operations commit one after the other, newest first. *)
Fixpoint play (le : string → string → bool) (l : list (Z * catalog_op)) (cs : list catalog) : option (list catalog) :=
  match l, cs with
  | [], _ => Some cs
  | (now, o) :: l', c :: _ =>
      match perform le now o c c with
      | Ok (_, c') => play le l' (c' :: cs)
      | Err _ => None
      end
  | _, [] => None
  end.

Lemma play_trace le l cs cs' : trace le cs → play le l cs = Some cs' → trace le cs' ∧ cs `suffix_of` cs'.
Proof.
  revert cs. induction l as [|[now o] l IH]; intros cs Ht; simpl.
  - intros [= <-]. by split.
  - destruct cs as [|c cs]; [done|]. destruct (perform le now o c c) as [[[] c']|] eqn:Hp; [|done].
    intros Hc. apply IH in Hc as [Ht' Hs].
    + split; [done|]. etrans; [|done]. by exists [c'].
    + by eapply trace_step; [done|apply list_elem_of_here|].
Qed.

Lemma play_app le l l' cs : play le (l ++ l') cs = play le l cs ≫= play le l'.
Proof.
  revert cs. induction l as [|[now o] l IH]; intros cs; simpl; [by destruct cs|].
  destruct cs as [|c cs]; [done|]. destruct (perform le now o c c) as [[[] c']|]; [apply IH|done].
Qed.

(** Text without regard to case, then as its bytes. *)
Definition caseless (a b : string) : bool :=
  if String.eqb (toLowerCase a) (toLowerCase b) then String.leb a b
  else String.leb (toLowerCase a) (toLowerCase b).

Definition artifact (digest : string) : artifact_reference := {|
  ref_digest := digest; ref_uri := "s3://memory/" +:+ digest; ref_media_type := "application/zstd";
  ref_size_bytes := 1024 |}.

Definition extraction (id body : string) : ExtractionRegistration := {|
  xr_extraction_id := id; xr_source_workflow := "pull-request-review"; xr_source_run_id := "run-1";
  xr_source_unit_id := id; xr_bundle_digest := "bundle"; xr_trajectory := artifact ("trajectory of " +:+ id);
  xr_observation := Some body |}.

Definition published_extraction (now : Z) (x : ExtractionRegistration) : list (Z * catalog_op) :=
  let i := {| xi_registration := x; xi_summary := "" |} in
  [(now, OpReserveExtraction i); (now, OpConfirmExtraction i); (now, OpRegisterExtraction x)].

Definition maintenance_1 : MemoryTreeRevisionCreation := {|
  rc_expected_active_revision := 0; rc_memory_tree := artifact "tree-1";
  rc_source := Maintenance "maintenance-1" ["b-1"; "B-2"] (artifact "maintenance trajectory") |}.

Definition an_operator : catalog_actor := {| actor_kind := "service"; actor_id := "memory-catalog-operator" |}.

Definition edit_1 : MemoryTreeRevisionCreation := {|
  rc_expected_active_revision := 1; rc_memory_tree := artifact "tree-2"; rc_source := Operator "edit-1" an_operator |}.

(** Two observations, the maintenance that wants them, published and not committed. *)
Definition before_commit : list (Z * catalog_op) :=
  published_extraction 10 (extraction "b-1" "one") ++ published_extraction 20 (extraction "B-2" "two")
  ++ [(30, OpReserveRevision maintenance_1); (31, OpConfirmRevision maintenance_1)].

Definition committed_1 : list (Z * catalog_op) := before_commit ++ [(35, OpCreateRevision maintenance_1)].

(** A pause and an edit, and then a restore of the first revision. *)
Definition edit : list (Z * catalog_op) :=
  [(40, OpChangeControl paused {| mo_operation_id := "pause-1"; mo_expected_generation := 0; mo_actor := an_operator |});
   (50, OpReserveRevision edit_1); (51, OpConfirmRevision edit_1); (52, OpCreateRevision edit_1)].

Definition edited : list (Z * catalog_op) := committed_1 ++ edit.

Definition after_the_commit : list (Z * catalog_op) :=
  edit ++
  [(60, OpRestore {| ro_operation_id := "restore-1"; ro_expected_active_revision := 2; ro_restored_revision := 1;
                     ro_actor := an_operator |})].

(** The newest catalog. *)
Definition newest (le : string → string → bool) (l : list (Z * catalog_op)) : catalog :=
  default (initial_catalog 0) (play le l [initial_catalog 0] ≫= head).

Definition plays (le : string → string → bool) (l : list (Z * catalog_op)) : bool :=
  match play le l [initial_catalog 0] with Some _ => true | None => false end.

Lemma newest_trace le l : plays le l = true → ∃ cs, trace le (newest le l :: cs).
Proof.
  unfold plays, newest. destruct (play le l _) as [cs|] eqn:Hp; [|done]. intros _.
  apply play_trace in Hp as [Ht Hs]; [|constructor]. destruct cs as [|c cs]; [inversion Ht|]. by exists cs.
Qed.

(** What is played later has seen it. *)
Lemma newest_suffix le l l' :
  plays le (l ++ l') = true → ∃ cs, trace le (newest le (l ++ l') :: cs) ∧ newest le l ∈ newest le (l ++ l') :: cs.
Proof.
  unfold plays, newest. rewrite play_app. destruct (play le l _) as [cs|] eqn:Hp; simpl; [|done].
  apply play_trace in Hp as [Ht _]; [|constructor]. destruct (play le l' cs) as [cs'|] eqn:Hp'; [|done].
  intros _. apply play_trace in Hp' as [Ht' Hs]; [|done].
  destruct cs as [|c cs]; [inversion Ht|]. destruct cs' as [|c' cs']; [inversion Ht'|]. simpl. exists cs'.
  split; [done|]. destruct Hs as [k Hk]. rewrite Hk. set_solver.
Qed.

(** One operation more. *)
Lemma newest_snoc le l now o c :
  plays le l = true → perform le now o (newest le l) (newest le l) = Ok (tt, c) → newest le (l ++ [(now, o)]) = c.
Proof.
  unfold plays, newest. rewrite play_app. destruct (play le l _) as [cs|] eqn:Hp; [|done]. intros _.
  apply play_trace in Hp as [Ht _]; [|constructor]. destruct cs as [|c' cs]; [inversion Ht|]. simpl.
  intros Hc. by rewrite Hc.
Qed.
