(* ===== verification/CatalogSpecs.v ===== *)
(** Every operation of the memory catalog is a step of its history. *)

From S2P Require Import Prelude InputBundles Catalog CatalogStore CatalogHistory.

(** * Rows *)

Lemma any_row_false {K A} `{Countable K} (p : K → A → bool) (m : gmap K A) :
  any_row p m = false ↔ ∀ k a, m !! k = Some a → p k a = false.
Proof.
  unfold any_row. rewrite <- not_true_iff_false, existsb_exists. split.
  - intros Hn k a Hk. apply not_true_iff_false. intros Hp. apply Hn. exists (k, a). split; [|done].
    by apply list_elem_of_In, elem_of_map_to_list.
  - intros Hall ([k a] & Hin & Hp). apply list_elem_of_In, elem_of_map_to_list in Hin.
    apply Hall in Hin. simpl in Hp. congruence.
Qed.

Lemma find_row {K A} `{Countable K} (p : K * A → bool) (m : gmap K A) :
  match List.find p (map_to_list m) with
  | Some (k, a) => m !! k = Some a ∧ p (k, a) = true
  | None => ∀ k a, m !! k = Some a → p (k, a) = false
  end.
Proof.
  destruct (List.find _ _) as [[k a]|] eqn:Hf.
  - apply List.find_some in Hf as [Hin Hp]. split; [|done]. by apply elem_of_map_to_list, list_elem_of_In.
  - intros k a Hk. eapply List.find_none in Hf; [done|]. by apply list_elem_of_In, elem_of_map_to_list.
Qed.

(** The keys of the rows a predicate selects. *)
Lemma elem_of_selected {K A} `{Countable K} (p : K * A → bool) (m : gmap K A) k :
  k ∈ (List.filter p (map_to_list m)).*1 ↔ ∃ a, m !! k = Some a ∧ p (k, a) = true.
Proof.
  rewrite list_elem_of_fmap. split.
  - intros ([k' a] & -> & Hin). apply list_elem_of_In, filter_In in Hin as [Hin Hp].
    exists a. split; [|done]. by apply elem_of_map_to_list, list_elem_of_In.
  - intros (a & Hk & Hp). exists (k, a). split; [done|]. apply list_elem_of_In, filter_In. split; [|done].
    by apply list_elem_of_In, elem_of_map_to_list.
Qed.

Lemma selected_NoDup {K A} `{Countable K} (p : K * A → bool) (m : gmap K A) :
  NoDup (List.filter p (map_to_list m)).*1.
Proof.
  pose proof (NoDup_fst_map_to_list m) as Hn.
  induction (map_to_list m) as [|[k a] l IH]; simpl in *; [constructor|].
  apply NoDup_cons in Hn as [Hk Hn]. destruct (p (k, a)); [|by apply IH]. simpl. constructor; [|by apply IH].
  intros Hin. apply Hk. apply list_elem_of_fmap in Hin as ([k' a'] & -> & Hin).
  apply list_elem_of_In, filter_In in Hin as [Hin _]. apply list_elem_of_fmap. exists (k', a').
  split; [done|]. by apply list_elem_of_In.
Qed.

Lemma existsb_eqb id l : existsb (String.eqb id) l = true ↔ id ∈ l.
Proof.
  rewrite existsb_exists. split.
  - intros (x & Hin & He). apply String.eqb_eq in He as ->. by apply list_elem_of_In.
  - intros Hin. exists id. split; [by apply list_elem_of_In|]. by apply String.eqb_eq.
Qed.

(** * The list of commits *)

Lemma commit_at_Some h n i : commit_at h n = Some i → 1 <= n <= Z.of_nat (length (h_commits h)).
Proof.
  unfold commit_at. destruct (Z.ltb_spec 0 n); [|done]. intros Hi. apply lookup_lt_Some in Hi. lia.
Qed.

Lemma commit_at_is_Some h n : is_Some (commit_at h n) ↔ 1 <= n <= Z.of_nat (length (h_commits h)).
Proof.
  split; [intros [i Hi]; by eapply commit_at_Some|]. intros Hn. unfold commit_at.
  destruct (Z.ltb_spec 0 n); [|lia]. apply lookup_lt_is_Some. lia.
Qed.

Lemma elem_of_commits h i : i ∈ h_commits h ↔ ∃ n, commit_at h n = Some i.
Proof.
  split.
  - intros Hi. apply list_elem_of_lookup_1 in Hi as [k Hk]. exists (Z.of_nat k + 1). unfold commit_at.
    destruct (Z.ltb_spec 0 (Z.of_nat k + 1)); [|lia]. by replace (Z.to_nat (Z.of_nat k + 1 - 1)) with k by lia.
  - intros [n Hn]. unfold commit_at in Hn. destruct (0 <? n); [|done]. by eapply list_elem_of_lookup_2.
Qed.

(** The commits after one more. *)
Definition after_commit (h : history) (i : MemoryTreeRevisionCreation) : history :=
  h <| h_commits ::= (λ l, l ++ [i]) |> <| h_active := Z.of_nat (length (h_commits h)) + 1 |>.

Lemma commit_at_after h i n :
  commit_at (after_commit h i) n
  = if n =? Z.of_nat (length (h_commits h)) + 1 then Some i else commit_at h n.
Proof.
  destruct h. unfold commit_at. simpl. destruct (Z.ltb_spec 0 n).
  - destruct (Z.eqb_spec n (Z.of_nat (length h_commits) + 1)) as [->|Hne].
    + apply list_lookup_middle. lia.
    + destruct (decide (n <= Z.of_nat (length h_commits))).
      * by rewrite lookup_app_l by lia.
      * rewrite (lookup_ge_None_2 h_commits) by lia. apply lookup_ge_None_2. rewrite length_app. simpl. lia.
  - by destruct (Z.eqb_spec n (Z.of_nat (length h_commits) + 1)); [lia|].
Qed.

(** * The ledgers of intents *)

(** What the catalog may answer instead of committing: the conflicts of the code, and a key
    that a concurrent duplicate of the operation took. *)
Definition catalog_refusal (e : failure) : bool :=
  match e with ThrownAs _ _ | UniqueViolation _ => true | _ => false end.
Definition conflict (e : failure) : bool := match e with ThrownAs _ _ => true | _ => false end.

(** A commit of [m] is at most one step of the history. *)
Definition simulates (allowed : failure → bool) {A} (h : history) (m : tx catalog A) (c : catalog) : Prop :=
  wpe allowed m (λ _ c', ∃ h', progress h h' ∧ refines h' c') c.

Lemma simulates_stay allowed {A} h (m : tx catalog A) c :
  wpe allowed m (λ _ c', refines h c') c → simulates allowed h m c.
Proof. intros Hm. eapply wp_mono; [exact Hm|]. intros a c' Hr. exists h. split; [by left|done]. Qed.

(** The catalog with another ledger of extraction intents. *)
Lemma refines_xpubs h c m :
  refines h c →
  (∀ k p, m !! k = Some p → k = extraction_key (xp_intent p)) →
  (∀ r, (∃ k p, m !! k = Some p ∧ xi_registration (xp_intent p) = r ∧ xp_status p = Intent.selected)
        ↔ (∃ k p, xpubs c !! k = Some p ∧ xi_registration (xp_intent p) = r ∧ xp_status p = Intent.selected)) →
  refines h (c <| xpubs := m |>).
Proof.
  intros Hr Hk Hs. destruct Hr. destruct c; simpl in *. constructor; simpl in *; try assumption.
  intros r. by rewrite Hs.
Qed.

Lemma refines_vpubs h c m :
  refines h c →
  (∀ k p, m !! k = Some p → k = revisionPublicationIdentity (vp_intent p)) →
  (∀ i, (∃ p, m !! revisionPublicationIdentity i = Some p ∧ vp_intent p = i ∧ vp_status p = Intent.selected)
        ↔ (∃ p, vpubs c !! revisionPublicationIdentity i = Some p ∧ vp_intent p = i
                ∧ vp_status p = Intent.selected)) →
  refines h (c <| vpubs := m |>).
Proof.
  intros Hr Hk Hs. destruct Hr. destruct c; simpl in *. constructor; simpl in *; try assumption.
  intros i. by rewrite Hs.
Qed.

Lemma set_xpubs c f : c <| xpubs ::= f |> = c <| xpubs := f (xpubs c) |>.
Proof. by destruct c. Qed.
Lemma set_vpubs c f : c <| vpubs ::= f |> = c <| vpubs := f (vpubs c) |>.
Proof. by destruct c. Qed.

(** Writing a row that does not change who is selected. *)
Lemma insert_xpub h c k p :
  refines h c → k = extraction_key (xp_intent p) →
  (∀ q, xpubs c !! k = Some q → xi_registration (xp_intent q) = xi_registration (xp_intent p)
                               ∧ (xp_status q = Intent.selected ↔ xp_status p = Intent.selected)) →
  (xpubs c !! k = None → xp_status p ≠ Intent.selected) →
  refines h (c <| xpubs ::= <[k := p]> |>).
Proof.
  intros Hr Hk Hsome Hnone. rewrite set_xpubs. apply refines_xpubs; [done| |].
  - intros k' q Hq. apply lookup_insert_Some in Hq as [[<- <-]|[_ Hq]]; [done|]. by eapply (rf_xpubs _ _ Hr).
  - intros r. split; intros (k' & q & Hq & Hreg & Hst).
    + apply lookup_insert_Some in Hq as [[<- <-]|[_ Hq]]; [|by exists k', q].
      destruct (xpubs c !! k) as [q|] eqn:Hl; [|by apply Hnone in Hst]. destruct (Hsome q) as [He Hs]; [done|].
      exists k, q. split; [done|]. split; [congruence|]. by apply Hs.
    + destruct (decide (k' = k)) as [->|Hne].
      * destruct (Hsome q Hq) as [He Hs]. exists k, p. rewrite lookup_insert_eq. split; [done|].
        split; [congruence|]. by apply Hs.
      * exists k', q. by rewrite lookup_insert_ne.
Qed.

Lemma insert_vpub h c p :
  refines h c →
  (∀ q, vpubs c !! revisionPublicationIdentity (vp_intent p) = Some q →
     vp_intent q = vp_intent p ∧ (vp_status q = Intent.selected ↔ vp_status p = Intent.selected)) →
  (vpubs c !! revisionPublicationIdentity (vp_intent p) = None → vp_status p ≠ Intent.selected) →
  refines h (c <| vpubs ::= <[revisionPublicationIdentity (vp_intent p) := p]> |>).
Proof.
  intros Hr Hsome Hnone. rewrite set_vpubs. apply refines_vpubs; [done| |].
  - intros k' q Hq. apply lookup_insert_Some in Hq as [[<- <-]|[_ Hq]]; [done|]. by eapply (rf_vpubs _ _ Hr).
  - intros i. split; intros (q & Hq & Hi & Hst).
    + apply lookup_insert_Some in Hq as [[Hk ->]|[_ Hq]]; [|by exists q]. subst i.
      destruct (vpubs c !! revisionPublicationIdentity (vp_intent q)) as [q'|] eqn:Hl;
        [|by apply Hnone in Hst]. destruct (Hsome q') as [He Hs]; [done|].
      exists q'. split; [done|]. split; [done|]. by apply Hs.
    + subst i. destruct (decide (revisionPublicationIdentity (vp_intent q) = revisionPublicationIdentity (vp_intent p)))
        as [He|Hne].
      * rewrite He in Hq. destruct (Hsome q Hq) as [Hi Hs]. exists p. rewrite He, lookup_insert_eq.
        split; [done|]. split; [done|]. by apply Hs.
      * exists q. by rewrite lookup_insert_ne.
Qed.

Lemma confirmed_selected s : confirmed s = Intent.selected ↔ s = Intent.selected.
Proof. by destruct s. Qed.

Lemma reserve_extraction_ok now i h c :
  refines h c → simulates conflict h (reserveExtractionPublication now i) c.
Proof.
  intros Hr. apply simulates_stay. unfold wpe, reserveExtractionPublication.
  destruct (xpubs c !! extraction_key i) as [p|] eqn:Hk.
  - rewrite Hk. by destruct (decide _).
  - destruct c; simpl in *. rewrite lookup_insert_eq. simpl. rewrite decide_True by done.
    by apply (insert_xpub h _ (extraction_key i) _ Hr); [|intros q; simpl; rewrite Hk|].
Qed.

Lemma confirm_extraction_ok i h c :
  refines h c → simulates conflict h (confirmExtractionPublication i) c.
Proof.
  intros Hr. apply simulates_stay. unfold wpe, confirmExtractionPublication.
  destruct (xpubs c !! extraction_key i) as [p|] eqn:Hk; [|done]. destruct (decide _) as [<-|]; [|done].
  apply insert_xpub; [done|by destruct p| |by rewrite Hk].
  intros q. rewrite Hk. intros [= <-]. destruct p; simpl. by rewrite confirmed_selected.
Qed.

Lemma reserve_revision_ok now i h c :
  refines h c → simulates conflict h (reserveRevisionPublication now i) c.
Proof.
  intros Hr. apply simulates_stay. unfold wpe, reserveRevisionPublication.
  destruct (vpubs c !! revisionPublicationIdentity i) as [p|] eqn:Hk.
  - rewrite Hk. by destruct (decide _).
  - destruct c; simpl in *. rewrite lookup_insert_eq. simpl. rewrite decide_True by done.
    refine (insert_vpub h _ {| vp_intent := i; vp_status := Intent.reserved; vp_created_at := now |} Hr _ _);
      [intros q; simpl; by rewrite Hk|done].
Qed.

Lemma confirm_revision_ok i h c :
  refines h c → simulates conflict h (confirmRevisionPublication i) c.
Proof.
  intros Hr. apply simulates_stay. unfold wpe, confirmRevisionPublication.
  destruct (vpubs c !! revisionPublicationIdentity i) as [p|] eqn:Hk; [|done].
  destruct (decide _) as [<-|]; [|done].
  replace (revisionPublicationIdentity (vp_intent p))
    with (revisionPublicationIdentity (vp_intent (p <| vp_status ::= confirmed |>))) by by destruct p.
  apply insert_vpub; [done| |].
  - intros q Hq. assert (q = p) as -> by (destruct p; simpl in *; congruence).
    destruct p; simpl. by rewrite confirmed_selected.
  - intros Hn. destruct p; simpl in *. congruence.
Qed.

(** * The maintenance control *)

Lemma opposite_twice s : opposite (opposite s) = s.
Proof. by destruct s. Qed.

Lemma change_control_ok now s i seen h c :
  refines h c → simulates catalog_refusal h (changeMaintenanceControl now s i seen) c.
Proof.
  intros Hr. unfold changeMaintenanceControl. destruct (control_ops seen !! mo_operation_id i).
  { apply simulates_stay. by case_match. }
  unfold simulates, wpe, bind, read. destruct (negb (_ =? _)) eqn:Hg; [done|].
  destruct (negb (bool_decide _)) eqn:Hs; [done|]. apply negb_false_iff, bool_decide_eq_true in Hs.
  destruct c as [xs os vs a ta rs k ops xps vps]. simpl in *.
  destruct (not_null (ops !! mo_operation_id i)); [done|]. simpl.
  eexists. split; [right; apply h_control|]. destruct Hr, h; simpl in *. constructor; simpl in *; try assumption.
  - rewrite <- rf_state, Hs. by rewrite opposite_twice.
  - by rewrite <- rf_generation.
Qed.

(** * The pointer *)

Lemma restore_ok now i seen h c :
  refines h c → simulates catalog_refusal h (restoreMemoryTree now i seen) c.
Proof.
  intros Hr. unfold restoreMemoryTree. destruct (restores seen !! ro_operation_id i).
  { apply simulates_stay. by case_match. }
  unfold simulates, wpe, bind, read. destruct (negb (_ =? _)) eqn:Hg; [done|].
  apply negb_false_iff, Z.eqb_eq in Hg.
  destruct (revisions c !! ro_restored_revision i) as [v|] eqn:Hv; [|done]. simpl.
  destruct (not_null _) eqn:Hn; [done|]. simpl. rewrite Hv. simpl. rewrite orb_false_r.
  assert (Hres : is_Some (commit_at h (ro_restored_revision i))) by (apply (rf_revisions _ _ Hr); by eexists).
  pose proof Hres as Hb. apply commit_at_is_Some in Hb.
  assert (Hexp : is_Some (commit_at h (ro_expected_active_revision i))).
  { apply commit_at_is_Some. rewrite <- Hg, (rf_active _ _ Hr).
    destruct (rf_bounds _ _ Hr) as [[_ He]|Hbd]; [|done]. rewrite He in Hb. simpl in Hb. lia. }
  destruct (proj2 (rf_revisions _ _ Hr _) Hexp) as [w Hw]. rewrite Hw. simpl.
  exists (h <| h_active := ro_restored_revision i |>). split; [right; by apply h_restore|].
  destruct c, h, Hr; simpl in *. constructor; simpl in *; try assumption; try done.
  - by right.
  - intros id o Ho. apply lookup_insert_Some in Ho as [[<- <-]|[_ Ho]]; [done|]. by eapply rf_restores.
Qed.

(** * Extractions *)

Lemma no_other_extraction input c :
  other_extraction_selected input c = false →
  ∀ k p, xpubs c !! k = Some p → k.1 = xr_extraction_id input → xp_status p = Intent.selected →
    xi_registration (xp_intent p) = input.
Proof.
  unfold other_extraction_selected. rewrite any_row_false. intros Hall k p Hp Hk Hs.
  specialize (Hall k p Hp). rewrite Hk, String.eqb_refl, Hs in Hall. simpl in Hall.
  apply bool_decide_eq_false in Hall. by destruct (decide (xi_registration (xp_intent p) = input)).
Qed.

Lemma confirmed_extraction_inv input c k p :
  confirmed_extraction input c = Some (k, p) →
  k = (xr_extraction_id input, ref_digest (xr_trajectory input)) ∧ xpubs c !! k = Some p
  ∧ xi_registration (xp_intent p) = input ∧ xp_status p ≠ Intent.reserved.
Proof.
  unfold confirmed_extraction. destruct (xpubs c !! _) as [q|] eqn:Hq; [|done].
  destruct (_ && _) eqn:Hb; [|done]. intros [= <- <-]. apply andb_true_iff in Hb as [Hi Hs].
  apply bool_decide_eq_true in Hi. apply negb_true_iff, bool_decide_eq_false in Hs. done.
Qed.

(** An owner that is registered was selected with what is registered. *)
Lemma registered_selected h c input :
  refines h c → other_extraction_selected input c = false →
  is_Some (h_extractions h !! xr_extraction_id input) →
  h_extractions h !! xr_extraction_id input = Some input.
Proof.
  intros Hr Hother [r Hl]. pose proof (rf_registered _ _ Hr _ _ Hl) as Hid.
  rewrite <- Hid in Hl. destruct (proj1 (rf_xselected _ _ Hr r) Hl) as (k & p & Hp & Hreg & Hs).
  assert (Hk : k.1 = xr_extraction_id input).
  { rewrite (rf_xpubs _ _ Hr _ _ Hp). unfold extraction_key. simpl. by rewrite Hreg. }
  pose proof (no_other_extraction _ _ Hother _ _ Hp Hk Hs) as Hi. rewrite <- Hid, Hl. congruence.
Qed.

Lemma extraction_there h c id :
  refines h c → is_Some (extractions c !! id) ↔ is_Some (h_extractions h !! id).
Proof.
  intros Hr. pose proof (rf_extractions _ _ Hr id) as He. injection He as He _ _ _ _.
  destruct (extractions c !! id), (h_extractions h !! id); simpl in *; try done; by split; intros [].
Qed.

Lemma register_new now input h c k p :
  refines h c → confirmed_extraction input c = Some (k, p) →
  h_extractions h !! xr_extraction_id input = None →
  refines (h <| h_extractions ::= <[xr_extraction_id input := input]> |>)
    {| extractions := <[xr_extraction_id input := extraction_of now input]> (extractions c);
       observations := match xr_observation input with
                       | Some body => <[xr_extraction_id input := {| ob_body_markdown := body;
                           ob_consumed_revision := None; ob_created_at := now |}]> (observations c)
                       | None => observations c
                       end;
       revisions := revisions c; active_revision := active_revision c;
       tree_updated_at := tree_updated_at c; restores := restores c; control := control c;
       control_ops := control_ops c;
       xpubs := <[k := p <| xp_status := Intent.selected |>]> (xpubs c); vpubs := vpubs c |}.
Proof.
  intros Hr Hc Hnew. apply confirmed_extraction_inv in Hc as (-> & Hp & Hreg & Hst).
  assert (Hobs : observations c !! xr_extraction_id input = None).
  { pose proof (rf_observations _ _ Hr (xr_extraction_id input)) as Ho. rewrite Hnew in Ho. simpl in Ho.
    by destruct (observations c !! _). }
  assert (Hlook : ∀ id o, match xr_observation input with
      | Some body => <[xr_extraction_id input := {| ob_body_markdown := body; ob_consumed_revision := None;
                                                  ob_created_at := now |}]> (observations c)
      | None => observations c end !! id = Some o →
      (id = xr_extraction_id input ∧ ob_consumed_revision o = None) ∨ observations c !! id = Some o).
  { intros id o. destruct (xr_observation input) as [body|]; [|by right].
    intros Ho. apply lookup_insert_Some in Ho as [[<- <-]|[_ Ho]]; [by left|by right]. }
  destruct c as [xs os vs a ta rs ck ops xps vps], h as [cs act st ch es]; simpl in *.
  destruct Hr; simpl in *. constructor; simpl in *; try assumption.
  - intros id. destruct (decide (id = xr_extraction_id input)) as [->|Hne].
    + by rewrite !lookup_insert_eq.
    + by rewrite !lookup_insert_ne.
  - intros id. destruct (decide (id = xr_extraction_id input)) as [->|Hne].
    + rewrite lookup_insert_eq. simpl. destruct (xr_observation input); [by rewrite lookup_insert_eq|].
      by rewrite Hobs.
    + rewrite lookup_insert_ne by done. rewrite <- rf_observations.
      destruct (xr_observation input); [by rewrite lookup_insert_ne|done].
  - intros id r Hl. apply lookup_insert_Some in Hl as [[<- <-]|[_ Hl]]; [done|by apply rf_registered].
  - intros id o n Ho. destruct (Hlook id o Ho) as [[-> Hnone]|Hold]; [|by apply rf_consumed].
    rewrite Hnone. split; [done|]. intros (i & Hi & Hin).
    destruct (rf_consumable n i _ Hi Hin) as [o' Ho']. congruence.
  - intros n i id Hi Hin. destruct (rf_consumable n i id Hi Hin) as [o Ho].
    destruct (xr_observation input); [|by eexists].
    destruct (decide (id = xr_extraction_id input)) as [->|Hne]; [congruence|].
    exists o. by rewrite lookup_insert_ne.
  - intros k q Hq. apply lookup_insert_Some in Hq as [[<- <-]|[_ Hq]]; [|by apply rf_xpubs].
    destruct p; simpl in *. unfold extraction_key. by rewrite Hreg.
  - intros r. split.
    + intros Hl. apply lookup_insert_Some in Hl as [[_ <-]|[Hne Hl]].
      * eexists _, _. rewrite lookup_insert_eq. split; [reflexivity|]. by destruct p.
      * apply rf_xselected in Hl as (k & q & Hq & Hqr & Hs). exists k, q. split; [|done].
        rewrite lookup_insert_ne; [done|]. intros <-. apply Hne. by destruct p, q; simpl in *; simplify_eq.
    + intros (k & q & Hq & Hqr & Hs). apply lookup_insert_Some in Hq as [[<- <-]|[Hne Hq]].
      * assert (r = input) as -> by (destruct p; simpl in *; congruence). apply lookup_insert_eq.
      * assert (Hl : es !! xr_extraction_id r = Some r) by (apply rf_xselected; by exists k, q).
        rewrite lookup_insert_ne; [done|]. intros He. rewrite <- He in Hl. congruence.
Qed.

Lemma register_ok now input h c :
  refines h c → simulates conflict h (registerExtraction now input) c.
Proof.
  intros Hr. unfold simulates, registerExtraction, wpe. unfold bind at 1, read at 1.
  destruct (other_extraction_selected input c) eqn:Hother; [done|]. unfold bind at 1, read at 1.
  destruct (confirmed_extraction input c) as [[k p]|] eqn:Hc; [|done].
  pose proof (confirmed_extraction_inv _ _ _ _ Hc) as (Hk & Hp & Hreg & Hst).
  destruct (extractions c !! xr_extraction_id input) as [x|] eqn:Hx.
  - assert (Hthere : h_extractions h !! xr_extraction_id input = Some input).
    { apply (registered_selected _ c); [done|done|]. apply (extraction_there _ _ _ Hr). by eexists. }
    assert (Hsel : xp_status p = Intent.selected).
    { destruct (proj1 (rf_xselected _ _ Hr input) Hthere) as (k' & p' & Hp' & Hr' & Hs').
      assert (k' = k) as ->.
      { rewrite (rf_xpubs _ _ Hr _ _ Hp'), Hk. unfold extraction_key. by rewrite Hr'. }
      congruence. }
    assert (Hrow : p <| xp_status := Intent.selected |> = p) by (by destruct p; simpl in *; subst).
    assert (Hsame : c <| xpubs ::= <[k := p <| xp_status := Intent.selected |>]> |> = c).
    { rewrite Hrow, set_xpubs, (insert_id _ _ _ Hp). by destruct c. }
    unfold bind, read. rewrite Hsame, Hx. destruct (same_extraction _ _ _); [|done].
    exists h. by split; [left|].
  - assert (Hnew : h_extractions h !! xr_extraction_id input = None).
    { apply eq_None_not_Some. rewrite <- (extraction_there _ _ _ Hr). by rewrite Hx; intros []. }
    pose proof (register_new now input h c k p Hr Hc Hnew) as Hfin.
    assert (Hobs : observations c !! xr_extraction_id input = None).
    { pose proof (rf_observations _ _ Hr (xr_extraction_id input)) as Ho. rewrite Hnew in Ho. simpl in Ho.
      by destruct (observations c !! _). }
    destruct c as [xs os vs a ta rs ck ops xps vps]. simpl in *. unfold bind, read, ret. simpl. rewrite Hx.
    unfold insert_observation. simpl.
    destruct (xr_observation input) as [body|]; simpl.
    + rewrite Hobs. simpl. rewrite lookup_insert_eq. simpl. eexists. split; [right; by apply h_register|exact Hfin].
    + eexists. split; [right; by apply h_register|exact Hfin].
Qed.
