(* ===== verification/CatalogCommits.v ===== *)
(** The creation of a revision: a commit of the history, or the replay of one. *)

From S2P Require Import Prelude InputBundles Catalog CatalogStore CatalogHistory CatalogSpecs.

(** * What the checks say *)

Lemma no_other_revision input c :
  other_revision_selected input c = false ↔
  ∀ k p, vpubs c !! k = Some p → k.1.1.1 = source_kind (rc_source input) →
    k.1.1.2 = source_owner (rc_source input) → vp_status p = Intent.selected → vp_intent p = input.
Proof.
  unfold other_revision_selected. rewrite any_row_false. split.
  - intros Hall k p Hp Hk Ho Hs. specialize (Hall k p Hp).
    rewrite Hk, Ho, !String.eqb_refl, Hs in Hall. simpl in Hall.
    apply bool_decide_eq_false in Hall. by destruct (decide (vp_intent p = input)).
  - intros Hall k p Hp. apply not_true_iff_false. intros Hb.
    repeat (apply andb_true_iff in Hb as [Hb ?]). apply String.eqb_eq in Hb.
    repeat match goal with
      | H : String.eqb _ _ = true |- _ => apply String.eqb_eq in H
      | H : is_selected _ = true |- _ => apply bool_decide_eq_true in H
      | H : bool_decide _ = true |- _ => apply bool_decide_eq_true in H
      end. eauto.
Qed.

Lemma confirmed_revision_inv input c p :
  confirmed_revision input c = Some p →
  vpubs c !! revisionPublicationIdentity input = Some p ∧ vp_intent p = input
  ∧ vp_status p ≠ Intent.reserved.
Proof.
  unfold confirmed_revision. destruct (vpubs c !! _) as [q|] eqn:Hq; [|done].
  destruct (_ && _) eqn:Hb; [|done]. intros [= <-]. apply andb_true_iff in Hb as [Hi Hs].
  apply bool_decide_eq_true in Hi. apply negb_true_iff, bool_decide_eq_false in Hs. done.
Qed.

(** A row of the owner, as the query of the replay finds it. *)
Definition row_of_source (s : revision_source) (v : revision_row) : bool :=
  match s with
  | Maintenance id _ _ => opt_eqb (v_maintenance_id v) (Some id)
  | Operator id _ => opt_eqb (v_operation_id v) (Some id)
  end.

Lemma row_of_source_commit s at_ j :
  row_of_source s (revision_of at_ j) = true ↔
  source_kind (rc_source j) = source_kind s ∧ source_owner (rc_source j) = source_owner s.
Proof.
  unfold row_of_source, revision_of. destruct s, (rc_source j); simpl; try rewrite String.eqb_eq; naive_solver.
Qed.

(** Whether an owner committed. *)
Lemma replayed_commit h c s :
  refines h c →
  match replayed s c with
  | Some (n, v) => revisions c !! n = Some v ∧ ∃ j, commit_at h n = Some j ∧ v = revision_of (v_created_at v) j
      ∧ source_kind (rc_source j) = source_kind s ∧ source_owner (rc_source j) = source_owner s
  | None => ∀ j, j ∈ h_commits h → source_kind (rc_source j) = source_kind s →
      source_owner (rc_source j) ≠ source_owner s
  end.
Proof.
  intros Hr. pose proof (find_row (λ nv, row_of_source s nv.2) (revisions c)) as Hf.
  change (List.find (λ nv, row_of_source s nv.2) (map_to_list (revisions c))) with (replayed s c) in Hf.
  destruct (replayed s c) as [[n v]|].
  - destruct Hf as [Hv Hs]. split; [done|]. destruct (proj1 (rf_revisions _ _ Hr n)) as [j Hj]; [by exists v|].
    pose proof (rf_content _ _ Hr _ _ _ Hv Hj) as Hc. exists j. split; [done|]. split; [done|].
    rewrite Hc in Hs. by apply row_of_source_commit in Hs.
  - intros j Hj Hk Ho. apply elem_of_commits in Hj as [n Hj].
    destruct (proj2 (rf_revisions _ _ Hr n)) as [v Hv]; [by exists j|].
    specialize (Hf n v Hv). rewrite (rf_content _ _ Hr _ _ _ Hv Hj) in Hf. simpl in Hf.
    by rewrite (proj2 (row_of_source_commit s _ j)) in Hf.
Qed.

(** An owner that committed was selected with what it committed. *)
Lemma committed_selected h c input p n v :
  refines h c → other_revision_selected input c = false → confirmed_revision input c = Some p →
  replayed (rc_source input) c = Some (n, v) →
  revisions c !! n = Some v ∧ commit_at h n = Some input ∧ v = revision_of (v_created_at v) input
  ∧ c <| vpubs ::= <[revisionPublicationIdentity input := p <| vp_status := Intent.selected |>]> |> = c.
Proof.
  intros Hr Hother Hp Hn. pose proof (replayed_commit h c (rc_source input) Hr) as Hc. rewrite Hn in Hc.
  destruct Hc as (Hv & j & Hj & Hvj & Hk & Ho).
  apply confirmed_revision_inv in Hp as (Hp & Hi & Hst).
  destruct (proj1 (rf_vselected _ _ Hr j)) as (q & Hq & Hqj & Hs); [apply elem_of_commits; by exists n|].
  assert (j = input) as ->.
  { rewrite <- Hqj. eapply no_other_revision; [done|exact Hq|done|done|done]. }
  repeat (split; [done|]). assert (q = p) as -> by congruence.
  assert (Hrow : p <| vp_status := Intent.selected |> = p) by (destruct p; simpl in *; by subst).
  rewrite Hrow, set_vpubs, (insert_id _ _ _ Hp). by destruct c.
Qed.

(** * The next number *)

Lemma foldr_max_eq l m :
  (∀ x, x ∈ l → x <= m) → (m = 0 ∨ m ∈ l) → 0 <= m → foldr Z.max 0 l = m.
Proof.
  intros Hle Hm H0. assert (Hup : foldr Z.max 0 l <= m).
  { clear Hm. induction l as [|x l IH]; simpl; [done|]. apply Z.max_lub; [apply Hle; by left|].
    apply IH. intros y Hy. apply Hle. by right. }
  assert (Hlow : ∀ x, x ∈ l → x <= foldr Z.max 0 l).
  { clear. induction l as [|y l IH]; intros x Hx; [by apply not_elem_of_nil in Hx|]. simpl.
    apply elem_of_cons in Hx as [->|Hx]; [lia|]. specialize (IH x Hx). lia. }
  assert (0 <= foldr Z.max 0 l).
  { clear. induction l; simpl; lia. }
  destruct Hm as [->|Hm]; [lia|]. specialize (Hlow m Hm). lia.
Qed.

Lemma next_revision_commits h c : refines h c → next_revision c = Z.of_nat (length (h_commits h)) + 1.
Proof.
  intros Hr. unfold next_revision. f_equal.
  assert (Hkeys : ∀ n, n ∈ (map_to_list (revisions c)).*1 ↔ 1 <= n <= Z.of_nat (length (h_commits h))).
  { intros n. rewrite <- commit_at_is_Some. unfold is_Some. rewrite <- (rf_revisions _ _ Hr), list_elem_of_fmap. split.
    - intros ([k v] & -> & Hin). apply elem_of_map_to_list in Hin. by exists v.
    - intros [v Hv]. exists (n, v). split; [done|]. by apply elem_of_map_to_list. }
  apply foldr_max_eq; [|rewrite Hkeys; lia|lia]. intros n Hn. apply Hkeys in Hn. lia.
Qed.

(** * The observations *)

Lemma elem_of_pending_of ids c id :
  id ∈ pending_of ids c ↔ id ∈ ids ∧ ∃ o, observations c !! id = Some o ∧ pending o = true.
Proof.
  unfold pending_of. rewrite elem_of_selected. setoid_rewrite andb_true_iff. setoid_rewrite existsb_eqb.
  naive_solver.
Qed.

(** The check of the sources: every id once, every one pending. *)
Lemma all_pending_true ids c :
  all_pending ids c = true ↔
  NoDup ids ∧ ∀ id, id ∈ ids → ∃ o, observations c !! id = Some o ∧ pending o = true.
Proof.
  unfold all_pending. rewrite andb_true_iff, Nat.eqb_eq, forallb_forall.
  pose proof (selected_NoDup (λ ko, existsb (String.eqb ko.1) ids && pending ko.2) (observations c)) as Hnd.
  fold (pending_of ids c) in Hnd. split.
  - intros [Hlen Hin]. split.
    + apply NoDup_ListNoDup. eapply List.NoDup_incl_NoDup; [by apply NoDup_ListNoDup, Hnd|lia|].
      intros id Hid. apply list_elem_of_In in Hid. apply elem_of_pending_of in Hid as [Hid _].
      by apply list_elem_of_In.
    + intros id Hid. apply list_elem_of_In, Hin, existsb_eqb, elem_of_pending_of in Hid. apply Hid.
  - intros [Hids Hall].
    assert (Hperm : pending_of ids c ≡ₚ ids).
    { apply NoDup_Permutation; [done|done|]. intros id. rewrite elem_of_pending_of. naive_solver. }
    split; [by rewrite Hperm|]. intros id Hid. apply existsb_eqb. rewrite Hperm. by apply list_elem_of_In.
Qed.

Lemma lookup_consume n ids m id :
  consume n ids m !! id
  = (λ o, if existsb (String.eqb id) ids && pending o then o <| ob_consumed_revision := Some n |> else o)
    <$> m !! id.
Proof. unfold consume. rewrite map_lookup_imap. by destruct (m !! id). Qed.

Lemma consume_nil n m : consume n [] m = m.
Proof. apply map_eq. intros id. rewrite lookup_consume. simpl. by destruct (m !! id). Qed.

(** * The commit *)

(** The catalog after the commit of [input]. *)
Definition committed (now : Z) (input : MemoryTreeRevisionCreation) (n : Z) (p : revision_publication)
    (c : catalog) : catalog := {|
  extractions := extractions c;
  observations := consume n (consumed_ids input) (observations c);
  revisions := <[n := revision_of now input]> (revisions c);
  active_revision := n; tree_updated_at := now; restores := restores c; control := control c;
  control_ops := control_ops c;
  vpubs := <[revisionPublicationIdentity input := p <| vp_status := Intent.selected |>]> (vpubs c);
  xpubs := xpubs c |}.

(** What a commit asks of the history. *)
Definition may_commit (h : history) (input : MemoryTreeRevisionCreation) : Prop :=
  rc_expected_active_revision input = h_active h ∧ fresh_owner h input ∧ NoDup (consumed_ids input)
  ∧ ∀ id, id ∈ consumed_ids input → h_pending h id.

(** An observation is pending in the catalog when it is in the history. *)
Lemma pending_history h c id :
  refines h c → (∃ o, observations c !! id = Some o ∧ pending o = true) ↔ h_pending h id.
Proof.
  intros Hr. pose proof (rf_observations _ _ Hr id) as Hobs. split.
  - intros (o & Ho & Hp). rewrite Ho in Hobs. simpl in Hobs. symmetry in Hobs.
    apply bind_Some in Hobs as (r & Hl & Hb). split; [by exists r, (ob_body_markdown o)|].
    intros i Hi Hin. apply elem_of_commits in Hi as [n Hn].
    assert (Hc : ob_consumed_revision o = Some n) by (apply (rf_consumed _ _ Hr _ _ _ Ho); by exists i).
    unfold pending in Hp. by rewrite Hc in Hp.
  - intros [(r & body & Hl & Hb) Hnone]. rewrite Hl in Hobs. simpl in Hobs. rewrite Hb in Hobs.
    destruct (observations c !! id) as [o|] eqn:Ho; [|done]. exists o. split; [done|].
    unfold pending. destruct (ob_consumed_revision o) as [n|] eqn:Hc; [|done]. exfalso.
    apply (rf_consumed _ _ Hr _ _ _ Ho) in Hc as (i & Hi & Hin).
    apply (Hnone i); [apply elem_of_commits; by exists n|done].
Qed.

Lemma active_before h c : refines h c → 0 <= h_active h <= Z.of_nat (length (h_commits h))
  ∧ (h_active h = 0 → h_commits h = []).
Proof. intros Hr. destruct (rf_bounds _ _ Hr) as [[-> ->]|]; simpl; split; try lia; done. Qed.

Section Commit.
Context (h : history) (c : catalog) (input : MemoryTreeRevisionCreation) (now : Z)
  (p : revision_publication).
Context (Hr : refines h c) (Hmay : may_commit h input)
  (Hp : vpubs c !! revisionPublicationIdentity input = Some p) (Hpi : vp_intent p = input).

Abbreviation next := (Z.of_nat (length (h_commits h)) + 1).

Lemma commit_at_next : commit_at (after_commit h input) next = Some input.
Proof. by rewrite commit_at_after, Z.eqb_refl. Qed.

Lemma commit_at_old n i : commit_at h n = Some i → commit_at (after_commit h input) n = Some i.
Proof.
  intros Hi. rewrite commit_at_after. destruct (Z.eqb_spec n next) as [->|]; [|done].
  apply commit_at_Some in Hi. lia.
Qed.

Lemma commit_at_inv n i :
  commit_at (after_commit h input) n = Some i → (n = next ∧ i = input) ∨ commit_at h n = Some i.
Proof. rewrite commit_at_after. destruct (Z.eqb_spec n next); [|by right]. intros [= <-]. by left. Qed.

Lemma consumed_after id o n :
  consume next (consumed_ids input) (observations c) !! id = Some o →
  ob_consumed_revision o = Some n
  ↔ ∃ i, commit_at (after_commit h input) n = Some i ∧ id ∈ consumed_ids i.
Proof.
  destruct Hmay as (_ & _ & _ & Hpend).
  rewrite lookup_consume. destruct (observations c !! id) as [o'|] eqn:Ho; [|done]. intros [= <-].
  pose proof (λ n, rf_consumed _ _ Hr id o' n Ho) as Hold. destruct (existsb (String.eqb id) _) eqn:Hin; simpl.
  - apply existsb_eqb in Hin. pose proof Hin as Hph. apply Hpend, (pending_history _ _ _ Hr) in Hph as (o & Ho' & Hpo).
    assert (o = o') as -> by congruence. rewrite Hpo. unfold pending in Hpo.
    destruct (ob_consumed_revision o') eqn:Hc; [done|].
    replace (ob_consumed_revision (o' <| ob_consumed_revision := Some next |>)) with (Some next) by by destruct o'.
    split.
    + intros [= <-]. exists input. by rewrite commit_at_next.
    + intros (i & Hi & Hii). apply commit_at_inv in Hi as [[-> _]|Hi]; [done|].
      assert (None = Some n) by (apply Hold; by exists i). done.
  - rewrite Hold. split; intros (i & Hi & Hii); exists i; (split; [|done]).
    + by apply commit_at_old.
    + apply commit_at_inv in Hi as [[_ ->]|Hi]; [|done]. apply existsb_eqb in Hii. congruence.
Qed.

Lemma selected_after i :
  i ∈ h_commits h ++ [input] ↔
  ∃ q, <[revisionPublicationIdentity input := p <| vp_status := Intent.selected |>]> (vpubs c)
         !! revisionPublicationIdentity i = Some q ∧ vp_intent q = i ∧ vp_status q = Intent.selected.
Proof.
  rewrite elem_of_app, list_elem_of_singleton. split.
  - intros [Hi| ->].
    + apply (rf_vselected _ _ Hr) in Hi as (q & Hq & Hqi & Hs).
      destruct (decide (revisionPublicationIdentity i = revisionPublicationIdentity input)) as [He|Hne].
      * exists (p <| vp_status := Intent.selected |>). rewrite He, lookup_insert_eq. split; [done|].
        assert (q = p) by congruence. by destruct p; simpl in *; subst.
      * exists q. by rewrite lookup_insert_ne.
    + exists (p <| vp_status := Intent.selected |>). rewrite lookup_insert_eq. split; [done|].
      by destruct p; simpl in *; subst.
  - intros (q & Hq & Hqi & Hs). apply lookup_insert_Some in Hq as [[_ <-]|[_ Hq]].
    + right. by destruct p; simpl in *; subst.
    + left. apply (rf_vselected _ _ Hr). by exists q.
Qed.

(** The catalog of one more commit. *)
Lemma committed_refines : refines (after_commit h input) (committed now input next p c).
Proof.
  destruct Hmay as (Hexp & Hfresh & Hnd & Hpend). pose proof (active_before _ _ Hr) as [Hact Hact0].
  split; unfold committed; cbn [extractions observations revisions active_revision restores control xpubs vpubs].
  - intros n. split.
    + intros [v Hv]. apply lookup_insert_Some in Hv as [[<- _]|[_ Hv]]; [by rewrite commit_at_next; exists input|].
      destruct (proj1 (rf_revisions _ _ Hr n)) as [i Hi]; [by exists v|]. exists i. by apply commit_at_old.
    + intros [i Hi]. apply commit_at_inv in Hi as [[-> _]|Hi]; [rewrite lookup_insert_eq; by eexists|].
      destruct (proj2 (rf_revisions _ _ Hr n)) as [v Hv]; [by exists i|].
      destruct (decide (n = next)) as [->|]; [rewrite lookup_insert_eq; by eexists|].
      exists v. by rewrite lookup_insert_ne.
  - intros n v i Hv Hi. apply commit_at_inv in Hi as [[-> ->]|Hi].
    + rewrite lookup_insert_eq in Hv. by injection Hv as <-.
    + pose proof (commit_at_Some _ _ _ Hi). rewrite lookup_insert_ne in Hv by lia. by eapply rf_content.
  - by destruct h.
  - right. destruct h; simpl. rewrite length_app. simpl. lia.
  - intros n i Hi. apply commit_at_inv in Hi as [[-> ->]|Hi]; [|by eapply rf_predecessors].
    rewrite Hexp. split; [lia|]. intros H0. rewrite (Hact0 H0). done.
  - intros n m i j Hi Hj Hk Ho.
    apply commit_at_inv in Hi as [[-> ->]|Hi]; apply commit_at_inv in Hj as [[-> ->]|Hj]; [done| | |by eapply rf_owners].
    + exfalso. apply (Hfresh j); [apply elem_of_commits; by exists m|done|done].
    + exfalso. apply (Hfresh i); [apply elem_of_commits; by exists n|done|done].
  - intros n i Hi. apply commit_at_inv in Hi as [[_ ->]|Hi]; [done|by eapply rf_ids].
  - destruct h; apply Hr.
  - destruct h; apply Hr.
  - intros id. rewrite (rf_extractions _ _ Hr). by destruct h.
  - intros id. rewrite lookup_consume, <- option_fmap_compose.
    transitivity (ob_body_markdown <$> observations c !! id).
    + destruct (observations c !! id) as [o|]; [|done]. simpl. f_equal. destruct (_ && _); [by destruct o|done].
    + rewrite (rf_observations _ _ Hr). by destruct h.
  - intros id r. pose proof (rf_registered _ _ Hr id r). by destruct h.
  - exact consumed_after.
  - intros n i id Hi Hin. rewrite lookup_consume. apply fmap_is_Some.
    apply commit_at_inv in Hi as [[_ ->]|Hi]; [|by eapply rf_consumable].
    apply Hpend, (pending_history _ _ _ Hr) in Hin as (o & Ho & _). by exists o.
  - intros k q Hq. apply lookup_insert_Some in Hq as [[<- <-]|[_ Hq]]; [|by eapply rf_vpubs].
    by destruct p; simpl in *; subst.
  - intros i. rewrite <- selected_after. by destruct h.
  - intros k q Hq. by eapply rf_xpubs.
  - intros r. rewrite <- (rf_xselected _ _ Hr r). by destruct h.
  - intros id o Ho. destruct (rf_restores _ _ Hr id o Ho) as [[i Hi] [j Hj]].
    split; eexists; by apply commit_at_old.
Qed.
End Commit.

(** * The whole method *)

(** The switch stops maintenance only. *)
Definition switched_off (c : catalog) (input : MemoryTreeRevisionCreation) : bool :=
  match rc_source input with
  | Maintenance _ _ _ => bool_decide (mc_state (control c) = paused)
  | Operator _ _ => false
  end.

Definition sources_free (c : catalog) (input : MemoryTreeRevisionCreation) : bool :=
  match rc_source input with Maintenance _ ids _ => all_pending ids c | Operator _ _ => true end.

Lemma sources_free_true h c input :
  refines h c → sources_free c input = true ↔
  NoDup (consumed_ids input) ∧ ∀ id, id ∈ consumed_ids input → h_pending h id.
Proof.
  intros Hr. unfold sources_free, consumed_ids. destruct (rc_source input) as [id ids t|id a].
  - rewrite all_pending_true. setoid_rewrite (pending_history h c _ Hr). done.
  - split; [|done]. intros _. split; [constructor|]. intros x Hx. by apply not_elem_of_nil in Hx.
Qed.

Lemma no_violation now input h c c1 :
  refines h c → rc_expected_active_revision input = h_active h →
  replayed (rc_source input) c = None → revisions c1 = revisions c →
  insert_revision (Z.of_nat (length (h_commits h)) + 1) (revision_of now input) c1
  = Ok (tt, c1 <| revisions ::= <[Z.of_nat (length (h_commits h)) + 1 := revision_of now input]> |>).
Proof.
  intros Hr Hexp Hnone Hrev. unfold insert_revision. rewrite Hrev.
  assert (Hcheck : revision_check (Z.of_nat (length (h_commits h)) + 1) (revision_of now input) = true).
  { unfold revision_check, revision_of. apply andb_true_iff. split; [apply Z.ltb_lt; lia|]. by destruct (rc_source input). }
  rewrite Hcheck. cbn [negb].
  assert (Hfree : revisions c !! (Z.of_nat (length (h_commits h)) + 1) = None).
  { apply eq_None_not_Some. intros [v Hv]. destruct (proj1 (rf_revisions _ _ Hr (Z.of_nat (length (h_commits h)) + 1))) as [i Hi]; [by exists v|].
    apply commit_at_Some in Hi. lia. }
  rewrite Hfree. unfold not_null at 1. cbn [is_null negb orb].
  assert (Hkey : any_row (λ (_ : Z) w, same_key (v_maintenance_id (revision_of now input)) (v_maintenance_id w)
            || same_key (v_operation_id (revision_of now input)) (v_operation_id w)) (revisions c) = false).
  { apply any_row_false. intros n v Hv. pose proof (find_row (λ nv, row_of_source (rc_source input) nv.2) (revisions c)) as Hf.
    change (List.find (λ nv, row_of_source (rc_source input) nv.2) (map_to_list (revisions c)))
      with (replayed (rc_source input) c) in Hf. rewrite Hnone in Hf. specialize (Hf n v Hv). revert Hf.
    unfold row_of_source, revision_of, same_key. destruct (rc_source input); simpl; rewrite ?orb_false_r.
    - destruct (v_maintenance_id v); [|done]. simpl. by rewrite String.eqb_sym.
    - destruct (v_operation_id v); [|done]. simpl. by rewrite String.eqb_sym. }
  rewrite Hkey. cbn [v_predecessor revision_of]. unfold nullif_zero. rewrite Hexp. destruct (Z.eqb_spec (h_active h) 0) as [|Hne]; [done|].
  destruct (proj2 (rf_revisions _ _ Hr (h_active h))) as [v Hv].
  { apply commit_at_is_Some. destruct (rf_bounds _ _ Hr) as [[]|]; done. }
  by rewrite Hv.
Qed.

(** How the creation of a revision ends. *)
Lemma create_spec now le input h c :
  refines h c →
  createMemoryTreeRevision now le input c
  = if other_revision_selected input c
    then Err (ThrownAs "MemoryTreeRevisionConflictError" "A different revision publication is already selected.")
    else match confirmed_revision input c with
    | None => Err (ThrownAs "MemoryTreeRevisionConflictError" "A confirmed revision publication is required.")
    | Some p => match replayed (rc_source input) c with
        | Some (n, v) =>
            if identical_revision le input n v c then Ok ((false, n), c)
            else Err (ThrownAs "MemoryTreeRevisionConflictError" (id_taken (rc_source input)))
        | None =>
            if switched_off c input
            then Err (ThrownAs "MaintenancePausedError" "Automatic memory maintenance is paused.")
            else if negb (active_revision c =? rc_expected_active_revision input)
            then Err (ThrownAs "MemoryTreeRevisionConflictError"
                        (active_moved (rc_expected_active_revision input)))
            else if negb (sources_free c input)
            then Err (ThrownAs "MemoryTreeRevisionConflictError"
                        "One or more source observations are no longer pending.")
            else let n := Z.of_nat (length (h_commits h)) + 1 in Ok ((true, n), committed now input n p c)
        end
    end.
Proof.
  intros Hr. unfold createMemoryTreeRevision, bind at 1, read at 1.
  destruct (other_revision_selected input c) eqn:Hother; [done|]. unfold bind at 1, read at 1.
  destruct (confirmed_revision input c) as [p|] eqn:Hp; [|done].
  destruct (replayed (rc_source input) c) as [[n v]|] eqn:Hn.
  - destruct (committed_selected _ _ _ _ _ _ Hr Hother Hp Hn) as (_ & _ & _ & Hsame).
    unfold bind, read. rewrite Hsame, Hn. by destruct (identical_revision _ _ _ _ _).
  - set (c1 := c <| vpubs ::= <[revisionPublicationIdentity input := p <| vp_status := Intent.selected |>]> |>).
    assert (Hn1 : replayed (rc_source input) c1 = None) by by destruct c.
    assert (Ha1 : active_revision c1 = active_revision c) by by destruct c.
    assert (Hm1 : control c1 = control c) by by destruct c.
    assert (Hf1 : sources_free c1 input = sources_free c input).
    { unfold sources_free, all_pending, pending_of. by destruct (rc_source input), c. }
    assert (Hx1 : next_revision c1 = Z.of_nat (length (h_commits h)) + 1).
    { rewrite <- (next_revision_commits h c Hr). by destruct c. }
    unfold bind at 1. fold c1. unfold bind at 1, read at 1. rewrite Hn1. unfold bind at 1, read at 1. rewrite Hm1.
    assert (Hcommit : commit_revision now input c1
      = if negb (active_revision c =? rc_expected_active_revision input)
        then Err (ThrownAs "MemoryTreeRevisionConflictError"
                    (active_moved (rc_expected_active_revision input)))
        else if negb (sources_free c input)
        then Err (ThrownAs "MemoryTreeRevisionConflictError"
                    "One or more source observations are no longer pending.")
        else let n := Z.of_nat (length (h_commits h)) + 1 in Ok ((true, n), committed now input n p c)).
    { unfold commit_revision, bind at 1, read at 1. rewrite Ha1.
      destruct (negb (_ =? _)) eqn:Hact; [done|]. apply negb_false_iff, Z.eqb_eq in Hact.
      unfold bind at 1, read at 1. fold (sources_free c1 input). rewrite Hf1.
      destruct (negb (sources_free c input)); [done|]. unfold bind at 1, read at 1. rewrite Hx1.
      unfold bind at 1. rewrite (no_violation now input h c c1) by
        first [done | by rewrite <- (rf_active _ _ Hr) | by destruct c].
      unfold bind, ret, committed, consumed_ids. f_equal. f_equal.
      destruct c; simpl. destruct (rc_source input); simpl; [done|]. by rewrite consume_nil. }
    unfold switched_off. destruct (rc_source input) eqn:Hs; [|exact Hcommit].
    destruct (mc_state (control c)); [exact Hcommit|done].
Qed.

Lemma create_ok now le input h c :
  refines h c → simulates conflict h (createMemoryTreeRevision now le input) c.
Proof.
  intros Hr. unfold simulates, wpe. rewrite (create_spec now le input h c Hr).
  destruct (other_revision_selected input c); [done|].
  destruct (confirmed_revision input c) as [p|] eqn:Hp; [|done].
  pose proof (replayed_commit h c (rc_source input) Hr) as Hrep.
  destruct (replayed (rc_source input) c) as [[n v]|].
  - destruct (identical_revision _ _ _ _ _); [|done]. exists h. by split; [left|].
  - destruct (switched_off c input) eqn:Hoff; [done|]. destruct (negb (_ =? _)) eqn:Hact; [done|].
    apply negb_false_iff, Z.eqb_eq in Hact. destruct (sources_free c input) eqn:Hfree; [|done]. simpl.
    apply (sources_free_true h c input Hr) in Hfree as [Hnd Hpend].
    apply confirmed_revision_inv in Hp as (Hp & Hpi & _).
    assert (Hmay : may_commit h input).
    { split; [by rewrite <- Hact, (rf_active _ _ Hr)|]. split; [|done]. intros j Hj. by apply Hrep. }
    eexists. split; [right; apply h_commit|by apply committed_refines]; try apply Hmay.
    intros Hk. rewrite <- (rf_state _ _ Hr). unfold switched_off in Hoff. destruct (rc_source input); [|done].
    apply bool_decide_eq_false in Hoff. by destruct (mc_state (control c)).
Qed.
