(* ===== verification/CatalogProperties.v ===== *)
(** The properties of the memory catalog. *)

From S2P Require Import Prelude InputBundles Catalog CatalogStore CatalogHistory CatalogSpecs.
From S2P Require Import ConnectorErrors CatalogCommits.

(** * Every step *)

Lemma refines_initial at_ : refines initial_history (initial_catalog at_).
Proof.
  assert (Hno : ∀ n i, commit_at initial_history n ≠ Some i).
  { intros n i Hi. apply commit_at_Some in Hi. simpl in Hi. lia. }
  split; simpl; try done; try (by intros ? ? ? ?%Hno); try (by left).
  - intros n. split; [intros [v Hv]; by rewrite lookup_empty in Hv|intros [i Hi]; by apply Hno in Hi].
  - by intros n i Hi%Hno.
  - by intros n m i j Hi%Hno.
  - by intros n i Hi%Hno.
  - intros i. split; [intros Hi; by apply not_elem_of_nil in Hi|].
    intros (p & Hp & _). by rewrite lookup_empty in Hp.
  - intros r. split; [by rewrite lookup_empty|]. intros (k & p & Hp & _). by rewrite lookup_empty in Hp.
Qed.

Lemma simulates_unit allowed {A} h (m : tx catalog A) c :
  simulates allowed h m c → simulates allowed h (m ;;; ret tt) c.
Proof. unfold simulates, wpe, bind. by destruct (m c) as [[a c']|e]. Qed.

Lemma simulates_weaken {A} h (m : tx catalog A) c : simulates conflict h m c → simulates catalog_refusal h m c.
Proof. unfold simulates, wpe. destruct (m c) as [[a c']|[]]; done. Qed.

Lemma perform_ok le now o seen h c :
  refines h c → simulates catalog_refusal h (perform le now o seen) c.
Proof.
  intros Hr. destruct o; apply simulates_unit;
    auto using simulates_weaken, reserve_extraction_ok, confirm_extraction_ok, register_ok, reserve_revision_ok,
      confirm_revision_ok, create_ok, change_control_ok, restore_ok.
Qed.

(** The histories of a trace, newest first. *)
Inductive chronicle : list history → Prop :=
  | chronicle_initial : chronicle [initial_history]
  | chronicle_step h h' hs : chronicle (h :: hs) → progress h h' → chronicle (h' :: h :: hs).

Lemma trace_chronicle le l : trace le l → ∃ hs, chronicle hs ∧ Forall2 refines hs l.
Proof.
  induction 1 as [at_|now o seen c c' l Ht (hs & Hc & Hf) Hseen Hp].
  - exists [initial_history]. split; [constructor|]. constructor; [apply refines_initial|constructor].
  - apply Forall2_cons_inv_r in Hf as (h & hs' & Hr & Hf & ->).
    pose proof (perform_ok le now o seen h c Hr) as Hs. unfold simulates, wpe in Hs. rewrite Hp in Hs.
    destruct Hs as (h' & Hstep & Hr'). exists (h' :: h :: hs'). split; [by constructor|].
    by constructor; [|constructor].
Qed.

Lemma trace_refines le c l : trace le (c :: l) → ∃ h, refines h c.
Proof.
  intros Ht. apply trace_chronicle in Ht as (hs & _ & Hf).
  apply Forall2_cons_inv_r in Hf as (h & hs' & Hr & _). by exists h.
Qed.

(** * What only grows *)

Record grows (c c' : catalog) : Prop := {
  gr_revisions : revisions c ⊆ revisions c';
  gr_extractions : extractions c ⊆ extractions c';
  gr_observations id o : observations c !! id = Some o → ∃ o', observations c' !! id = Some o'
    ∧ ob_body_markdown o' = ob_body_markdown o
    ∧ (∀ n, ob_consumed_revision o = Some n → ob_consumed_revision o' = Some n);
  gr_intents k p : vpubs c !! k = Some p → ∃ p', vpubs c' !! k = Some p' ∧ vp_intent p' = vp_intent p
    ∧ (vp_status p = Intent.selected → vp_status p' = Intent.selected);
  gr_extraction_intents k p : xpubs c !! k = Some p → ∃ p', xpubs c' !! k = Some p' ∧ xp_intent p' = xp_intent p
    ∧ (xp_status p = Intent.selected → xp_status p' = Intent.selected);
  gr_restores : restores c ⊆ restores c';
  gr_control_ops : control_ops c ⊆ control_ops c';
  gr_generation : mc_generation (control c) <= mc_generation (control c');
}.

Lemma grows_refl c : grows c c.
Proof. split; eauto; done. Qed.

Lemma grows_trans c1 c2 c3 : grows c1 c2 → grows c2 c3 → grows c1 c3.
Proof.
  intros [] []. split; [by etrans|by etrans| | | |by etrans|by etrans|lia].
  - intros id o Ho. destruct (gr_observations0 id o Ho) as (o' & Ho' & Hb & Hn).
    destruct (gr_observations1 id o' Ho') as (o'' & Ho'' & Hb' & Hn').
    exists o''. split; [done|]. split; [congruence|]. eauto.
  - intros k p Hp. destruct (gr_intents0 k p Hp) as (p' & Hp' & Hi & Hs).
    destruct (gr_intents1 k p' Hp') as (p'' & Hp'' & Hi' & Hs'). exists p''. split; [done|]. split; [congruence|eauto].
  - intros k p Hp. destruct (gr_extraction_intents0 k p Hp) as (p' & Hp' & Hi & Hs).
    destruct (gr_extraction_intents1 k p' Hp') as (p'' & Hp'' & Hi' & Hs'). exists p''. split; [done|]. split; [congruence|eauto].
Qed.

Lemma grows_vpubs c k p :
  (∀ q, vpubs c !! k = Some q → vp_intent p = vp_intent q ∧ (vp_status q = Intent.selected → vp_status p = Intent.selected)) →
  grows c (c <| vpubs ::= <[k := p]> |>).
Proof.
  intros Hq. rewrite set_vpubs. split; try (by destruct c); try (by destruct c; eauto).
  intros k' q Hk. destruct (decide (k' = k)) as [->|Hne].
  - exists p. split; [destruct c; simpl; apply lookup_insert_eq|]. by apply Hq.
  - exists q. split; [|done]. destruct c; simpl in *. by rewrite lookup_insert_ne.
Qed.

(** The intents of extractions, one of them written. *)
Lemma intents_inserted (m : gmap extraction_identity extraction_publication) k p :
  (∀ q, m !! k = Some q → xp_intent p = xp_intent q ∧ (xp_status q = Intent.selected → xp_status p = Intent.selected)) →
  ∀ k' q, m !! k' = Some q → ∃ q', <[k := p]> m !! k' = Some q' ∧ xp_intent q' = xp_intent q
    ∧ (xp_status q = Intent.selected → xp_status q' = Intent.selected).
Proof.
  intros Hq k' q Hk. destruct (decide (k' = k)) as [->|Hne].
  - exists p. rewrite lookup_insert_eq. split; [done|by apply Hq].
  - exists q. by rewrite lookup_insert_ne.
Qed.

Lemma grows_xpubs c k p :
  (∀ q, xpubs c !! k = Some q → xp_intent p = xp_intent q ∧ (xp_status q = Intent.selected → xp_status p = Intent.selected)) →
  grows c (c <| xpubs ::= <[k := p]> |>).
Proof. intros Hq. destruct c; simpl in *. split; simpl; eauto; try done. by apply intents_inserted. Qed.

Lemma grows_committed now input p h c :
  refines h c → vpubs c !! revisionPublicationIdentity input = Some p →
  grows c (committed now input (Z.of_nat (length (h_commits h)) + 1) p c).
Proof.
  intros Hr Hp. split; try (by destruct c); try (by destruct c; eauto).
  - apply insert_subseteq. apply eq_None_not_Some. intros [v Hv].
    destruct (proj1 (rf_revisions _ _ Hr (Z.of_nat (length (h_commits h)) + 1))) as [i Hi]; [by exists v|].
    apply commit_at_Some in Hi. lia.
  - intros id o Ho. unfold committed. cbn [observations]. rewrite lookup_consume, Ho. simpl.
    eexists. split; [reflexivity|]. destruct (existsb _ _); [|done]. unfold pending.
    destruct (ob_consumed_revision o) eqn:Hc; simpl.
    { split; [done|]. intros m ?. congruence. }
    split; [by destruct o|done].
  - intros k q Hk. unfold committed. cbn [vpubs].
    destruct (decide (k = revisionPublicationIdentity input)) as [->|Hne].
    + rewrite lookup_insert_eq. assert (q = p) as -> by congruence. eexists. split; [reflexivity|].
      by destruct p.
    + exists q. by rewrite lookup_insert_ne.
Qed.

Lemma grows_create now le input h c r c' :
  refines h c → createMemoryTreeRevision now le input c = Ok (r, c') → grows c c'.
Proof.
  intros Hr. rewrite (create_spec now le input h c Hr). destruct (other_revision_selected _ _); [done|].
  destruct (confirmed_revision input c) as [p|] eqn:Hp; [|done].
  apply confirmed_revision_inv in Hp as (Hp & _ & _).
  destruct (replayed _ c) as [[n v]|].
  { destruct (identical_revision _ _ _ _ _); [|done]. intros [= _ <-]. apply grows_refl. }
  repeat (destruct (_ : bool); [done|]). intros [= _ <-]. by apply grows_committed.
Qed.

Lemma grows_register now input c b c' :
  registerExtraction now input c = Ok (b, c') → grows c c'.
Proof.
  unfold registerExtraction, bind, read, throw, ret, extraction_conflict, insert_observation.
  destruct (other_extraction_selected input c); [done|].
  destruct (confirmed_extraction input c) as [[k p]|] eqn:Hp; [|done].
  assert (Hk : xpubs c !! k = Some p).
  { revert Hp. unfold confirmed_extraction. destruct (xpubs c !! _) as [q|] eqn:Hq; [|done].
    destruct (_ && _); [|done]. by intros [= <- <-]. }
  destruct c as [xs os vs a ta rs ck ops xps vps]; simpl in *.
  assert (Hin := intents_inserted xps k (p <| xp_status := Intent.selected |>)). rewrite Hk in Hin.
  specialize (Hin ltac:(by intros q [= <-]; destruct p)).
  destruct (xs !! xr_extraction_id input) as [x|] eqn:Hx; simpl.
  { destruct (same_extraction _ _ _); [|done]. intros [= _ <-]. split; simpl; eauto; done. }
  destruct (xr_observation input) as [body|]; simpl.
  - destruct (os !! xr_extraction_id input) eqn:Ho; [done|]. simpl. rewrite lookup_insert_eq. simpl.
    intros [= _ <-]. split; simpl; eauto; try done; [by apply insert_subseteq|].
    intros id o Hid. exists o. rewrite lookup_insert_ne; [done|]. congruence.
  - intros [= _ <-]. split; simpl; eauto; try done. by apply insert_subseteq.
Qed.

Lemma grows_control now s i seen c r c' :
  changeMaintenanceControl now s i seen c = Ok (r, c') → grows c c'.
Proof.
  unfold changeMaintenanceControl. destruct (control_ops seen !! _).
  { destruct (_ && _); [|done]. intros [= _ <-]. apply grows_refl. }
  unfold bind, read, throw, ret, control_conflict. destruct (negb (_ =? _)); [done|]. destruct (negb _); [done|].
  destruct c as [xs os vs a ta rs ck ops xps vps]; simpl.
  destruct (ops !! mo_operation_id i) eqn:Hops; simpl; [done|].
  intros [= _ <-]. split; simpl; eauto; try done; [by apply insert_subseteq|lia].
Qed.

Lemma grows_restore now i seen c r c' :
  restoreMemoryTree now i seen c = Ok (r, c') → grows c c'.
Proof.
  unfold restoreMemoryTree. destruct (restores seen !! _).
  { destruct (_ && _); [|done]. intros [= _ <-]. apply grows_refl. }
  unfold bind, read, throw, ret, revision_conflict. destruct (negb (_ =? _)); [done|]. destruct (is_null _); [done|].
  destruct c as [xs os vs a ta rs ck ops xps vps]; simpl.
  destruct (rs !! ro_operation_id i) eqn:Hrs; simpl; [done|]. destruct (_ || _); [done|].
  intros [= _ <-]. split; simpl; eauto; try done. by apply insert_subseteq.
Qed.

Lemma grows_perform le now o seen h c c' :
  refines h c → perform le now o seen c = Ok (tt, c') → grows c c'.
Proof.
  intros Hr. unfold perform, bind, ret. destruct o.
  - unfold reserveExtractionPublication, extraction_conflict, throw.
    destruct (xpubs c !! extraction_key intent) as [p|] eqn:Hk.
    + rewrite Hk. destruct (decide _); [|done]. intros [= <-]. apply grows_refl.
    + set (row := {| xp_intent := intent; xp_status := Intent.reserved; xp_created_at := now |}).
      assert (Hl : xpubs (c <| xpubs ::= <[extraction_key intent := row]> |>) !! extraction_key intent = Some row)
        by (destruct c; apply lookup_insert_eq).
      rewrite Hl. destruct (decide _); [|done]. intros [= <-]. apply grows_xpubs. intros q. by rewrite Hk.
  - unfold confirmExtractionPublication, extraction_conflict, throw.
    destruct (xpubs c !! extraction_key intent) as [p|] eqn:Hk; [|done]. destruct (decide _); [|done].
    intros [= <-]. apply grows_xpubs. rewrite Hk. intros q [= <-]. by destruct p as [? [] ?]; simpl.
  - destruct (registerExtraction now input c) as [[b c1]|] eqn:He; [|done]. intros [= <-]. by eapply grows_register.
  - unfold reserveRevisionPublication, revision_conflict, throw.
    destruct (vpubs c !! revisionPublicationIdentity intent) as [p|] eqn:Hk.
    + rewrite Hk. destruct (decide _); [|done]. intros [= <-]. apply grows_refl.
    + set (row := {| vp_intent := intent; vp_status := Intent.reserved; vp_created_at := now |}).
      assert (Hl : vpubs (c <| vpubs ::= <[revisionPublicationIdentity intent := row]> |>)
                   !! revisionPublicationIdentity intent = Some row) by (destruct c; apply lookup_insert_eq).
      rewrite Hl. destruct (decide _); [|done]. intros [= <-]. apply grows_vpubs. intros q. by rewrite Hk.
  - unfold confirmRevisionPublication, revision_conflict, throw.
    destruct (vpubs c !! revisionPublicationIdentity intent) as [p|] eqn:Hk; [|done].
    destruct (decide _); [|done]. intros [= <-]. apply grows_vpubs. rewrite Hk. intros q [= <-].
    by destruct p as [? [] ?]; simpl.
  - destruct (createMemoryTreeRevision now le input c) as [[b c1]|] eqn:He; [|done]. intros [= <-].
    by eapply grows_create.
  - destruct (changeMaintenanceControl now target input seen c) as [[b c1]|] eqn:He; [|done]. intros [= <-].
    by eapply grows_control.
  - destruct (restoreMemoryTree now input seen c) as [[b c1]|] eqn:He; [|done]. intros [= <-].
    by eapply grows_restore.
Qed.

Lemma trace_grows le c' l c : trace le (c' :: l) → c ∈ c' :: l → grows c c'.
Proof.
  remember (c' :: l) as l0. intros Ht. revert c' l Heql0.
  induction Ht as [at_|now o seen c1 c2 l0 Ht IH Hseen Hp]; intros c' l [= <- <-] Hin.
  - apply list_elem_of_singleton in Hin as ->. apply grows_refl.
  - apply elem_of_cons in Hin as [->|Hin]; [apply grows_refl|].
    destruct (trace_refines _ _ _ Ht) as [h Hr]. eapply grows_trans; [by eapply IH|].
    by eapply grows_perform.
Qed.

(** * Replays *)

(** The observations of a commit are those its revision consumed. *)
Lemma consumed_by_commit h c n i :
  refines h c → commit_at h n = Some i → consumed_by n c ≡ₚ consumed_ids i.
Proof.
  intros Hr Hi. apply NoDup_Permutation; [apply selected_NoDup|by eapply rf_ids|].
  intros id. unfold consumed_by. rewrite elem_of_selected. simpl. setoid_rewrite sql_eq_true. split.
  - intros (o & Ho & Hn). apply (rf_consumed _ _ Hr _ _ _ Ho) in Hn as (j & Hj & Hin). congruence.
  - intros Hin. destruct (rf_consumable _ _ Hr _ _ _ Hi Hin) as [o Ho]. exists o. split; [done|].
    apply (rf_consumed _ _ Hr _ _ _ Ho). by exists i.
Qed.

(** What the replay of a commit compares. *)
Lemma replay_identical le h c n v i :
  collation le → refines h c → commit_at h n = Some i → v = revision_of (v_created_at v) i →
  identical_revision le i n v c = bool_decide (sort_by le (consumed_ids i) = sort_by String.leb (consumed_ids i)).
Proof.
  intros Hle Hr Hi Hv. unfold identical_revision. rewrite Hv. unfold revision_of. cbn [v_predecessor v_memory_tree v_trajectory v_actor].
  rewrite !(bool_decide_eq_true_2 _ eq_refl). simpl.
  pose proof (consumed_by_commit _ _ _ _ Hr Hi) as Hp. unfold consumed_ids in *.
  destruct (rc_source i) as [id ids t|id a].
  - rewrite (bool_decide_eq_true_2 (Some t = Some t)) by done. simpl. by rewrite (sort_by_perm_eq le _ _ Hle Hp).
  - by rewrite !bool_decide_eq_true_2.
Qed.

(** A committed owner that asks again. *)
Lemma replay_spec now le h c n i :
  collation le → refines h c → commit_at h n = Some i →
  createMemoryTreeRevision now le i c
  = if bool_decide (sort_by le (consumed_ids i) = sort_by String.leb (consumed_ids i))
    then Ok ((false, n), c)
    else Err (ThrownAs "MemoryTreeRevisionConflictError" (id_taken (rc_source i))).
Proof.
  intros Hle Hr Hi. rewrite (create_spec now le i h c Hr).
  assert (Hin : i ∈ h_commits h) by (apply elem_of_commits; by exists n).
  destruct (proj1 (rf_vselected _ _ Hr i) Hin) as (p & Hp & Hpi & Hs).
  assert (Hother : other_revision_selected i c = false).
  { apply no_other_revision. intros k q Hq Hk Ho Hqs.
    assert (Hqi : vp_intent q ∈ h_commits h).
    { apply (rf_vselected _ _ Hr). exists q. by rewrite <- (rf_vpubs _ _ Hr _ _ Hq). }
    apply elem_of_commits in Hqi as [m Hm]. rewrite (rf_vpubs _ _ Hr _ _ Hq) in Hk, Ho.
    pose proof (rf_owners _ _ Hr _ _ _ _ Hm Hi Hk Ho) as ->. congruence. }
  assert (Hconf : confirmed_revision i c = Some p).
  { unfold confirmed_revision. rewrite Hp, Hpi, Hs. by rewrite bool_decide_eq_true_2. }
  rewrite Hother, Hconf. pose proof (replayed_commit h c (rc_source i) Hr) as Hrep.
  destruct (replayed (rc_source i) c) as [[m v]|].
  - destruct Hrep as (Hv & j & Hj & Hvj & Hk & Ho).
    pose proof (rf_owners _ _ Hr _ _ _ _ Hj Hi Hk Ho) as ->. assert (j = i) as -> by congruence.
    by rewrite (replay_identical le h c n v i Hle Hr Hi Hvj).
  - by destruct (Hrep i Hin).
Qed.

(** A creation that succeeded is a commit from then on. *)
Lemma created_commit now le h c i b n c1 :
  refines h c → createMemoryTreeRevision now le i c = Ok ((b, n), c1) →
  ∃ h1, refines h1 c1 ∧ commit_at h1 n = Some i.
Proof.
  intros Hr. rewrite (create_spec now le i h c Hr).
  destruct (other_revision_selected i c) eqn:Hother; [done|].
  destruct (confirmed_revision i c) as [p|] eqn:Hp; [|done].
  destruct (replayed _ c) as [[m v]|] eqn:Hrep.
  - destruct (identical_revision _ _ _ _ _); [|done]. intros [= <- <- <-]. exists h. split; [done|].
    by eapply committed_selected.
  - destruct (switched_off c i); [done|]. destruct (negb (_ =? _)) eqn:Hact; [done|].
    apply negb_false_iff, Z.eqb_eq in Hact. destruct (sources_free c i) eqn:Hfree; [|done].
    intros [= <- <- <-]. apply (sources_free_true h c i Hr) in Hfree as [Hnd Hpend].
    apply confirmed_revision_inv in Hp as (Hp & Hpi & _).
    pose proof (replayed_commit h c (rc_source i) Hr) as Hfresh. rewrite Hrep in Hfresh.
    assert (Hmay : may_commit h i).
    { split; [by rewrite <- Hact, (rf_active _ _ Hr)|]. split; [|done]. intros j Hj. by apply Hfresh. }
    exists (after_commit h i). split; [by apply committed_refines|apply commit_at_next].
Qed.

(** It stays one. *)
Lemma commit_stays h1 c1 h2 c2 n i :
  refines h1 c1 → refines h2 c2 → grows c1 c2 → commit_at h1 n = Some i → commit_at h2 n = Some i.
Proof.
  intros Hr1 Hr2 Hg Hi. assert (Hin : i ∈ h_commits h1) by (apply elem_of_commits; by exists n).
  destruct (proj1 (rf_vselected _ _ Hr1 i) Hin) as (p & Hp & Hpi & Hs).
  destruct (gr_intents _ _ Hg _ _ Hp) as (p' & Hp' & Hpi' & Hs').
  assert (Hin2 : i ∈ h_commits h2).
  { apply (rf_vselected _ _ Hr2). exists p'. split; [done|]. split; [congruence|]. by apply Hs'. }
  apply elem_of_commits in Hin2 as [m Hm].
  destruct (proj2 (rf_revisions _ _ Hr1 n)) as [v Hv]; [by exists i|].
  assert (Hv2 : revisions c2 !! n = Some v) by (by eapply lookup_weaken, gr_revisions).
  destruct (proj1 (rf_revisions _ _ Hr2 n)) as [j Hj]; [by exists v|].
  pose proof (rf_content _ _ Hr1 _ _ _ Hv Hi) as He1. pose proof (rf_content _ _ Hr2 _ _ _ Hv2 Hj) as He2.
  assert (Hrow : row_of_source (rc_source i) v = true) by (rewrite He1; by apply row_of_source_commit).
  rewrite He2 in Hrow. apply row_of_source_commit in Hrow as [Hk Ho].
  by rewrite <- (rf_owners _ _ Hr2 _ _ _ _ Hj Hm Hk Ho) in Hm.
Qed.

(** * The ledger of the control *)

(** The state of a generation: the switch starts enabled and turns at every operation. *)
Definition state_of (g : Z) : maintenance_state := if Z.even g then enabled else paused.

Record control_ledger (c : catalog) : Prop := {
  cl_state : mc_state (control c) = state_of (mc_generation (control c));
  cl_ops id o : control_ops c !! id = Some o →
    1 <= co_generation o <= mc_generation (control c) ∧ co_generation o = co_expected o + 1
    ∧ co_state o = co_target o ∧ co_state o = state_of (co_generation o);
  cl_complete g : 1 <= g <= mc_generation (control c) →
    ∃ id o, control_ops c !! id = Some o ∧ co_generation o = g;
  cl_once id id' o o' : control_ops c !! id = Some o → control_ops c !! id' = Some o' →
    co_generation o = co_generation o' → id = id';
  cl_sign : 0 <= mc_generation (control c);
}.

Lemma state_of_succ g : state_of (g + 1) = opposite (state_of g).
Proof. unfold state_of. rewrite Z.even_add. by destruct (Z.even g). Qed.

Lemma control_ledger_same c c' :
  control c' = control c → control_ops c' = control_ops c → control_ledger c → control_ledger c'.
Proof. intros H1 H2 []. split; rewrite ?H1, ?H2; auto. Qed.

Lemma control_ledger_change now s i seen c r c' :
  control_ledger c → changeMaintenanceControl now s i seen c = Ok (r, c') → control_ledger c'.
Proof.
  intros Hl. unfold changeMaintenanceControl. destruct (control_ops seen !! _).
  { destruct (_ && _); [|done]. by intros [= _ <-]. }
  unfold bind, read, throw, ret, control_conflict. destruct (negb (_ =? _)) eqn:Hg; [done|].
  apply negb_false_iff, Z.eqb_eq in Hg.
  destruct (negb _) eqn:Hs; [done|]. apply negb_false_iff, bool_decide_eq_true in Hs.
  destruct c as [xs os vs a ta rs ck ops xps vps]; simpl in *.
  destruct (ops !! mo_operation_id i) eqn:Hops; simpl; [done|]. intros [= _ <-].
  destruct Hl as [Hst Hop Hcomp Honce Hsign]; simpl in *.
  assert (Hnew : s = state_of (mc_generation ck + 1)).
  { rewrite state_of_succ, <- Hst, Hs. by rewrite opposite_twice. }
  split; simpl.
  - done.
  - intros id o Ho. apply lookup_insert_Some in Ho as [[<- <-]|[_ Ho]]; simpl; [by repeat split; try lia|].
    destruct (Hop id o Ho) as (? & ? & ? & ?). by repeat split; try lia.
  - intros g Hg'. destruct (decide (g = mc_generation ck + 1)) as [->|Hne].
    + exists (mo_operation_id i). eexists. rewrite lookup_insert_eq. by split.
    + destruct (Hcomp g) as (id & o & Ho & Hgo); [lia|]. exists id, o. split; [|done].
      rewrite lookup_insert_ne; [done|]. congruence.
  - intros id id' o o' Ho Ho' He. apply lookup_insert_Some in Ho as [[<- <-]|[_ Ho]];
      apply lookup_insert_Some in Ho' as [[<- <-]|[_ Ho']]; simpl in *; try done; [| |by eapply Honce].
    + destruct (Hop id' o' Ho') as (? & _). lia.
    + destruct (Hop id o Ho) as (? & _). lia.
  - lia.
Qed.

(** The other operations leave the control alone. *)
Lemma keeps_control_perform le now o seen h c c' :
  refines h c → control_ledger c → perform le now o seen c = Ok (tt, c') → control_ledger c'.
Proof.
  intros Hr Hl. unfold perform, bind, ret. destruct o.
  - unfold reserveExtractionPublication, extraction_conflict, throw.
    destruct (xpubs c !! extraction_key intent) eqn:Hk; rewrite ?Hk.
    all: repeat case_match; intros [= <-]; simplify_eq; try done; by apply (control_ledger_same c); destruct c.
  - unfold confirmExtractionPublication, extraction_conflict, throw.
    repeat case_match; intros [= <-]; simplify_eq; (by apply (control_ledger_same c); destruct c).
  - unfold registerExtraction, bind, read, throw, ret, extraction_conflict, insert_observation.
    repeat case_match; intros [= <-]; simplify_eq; (by apply (control_ledger_same c); destruct c).
  - unfold reserveRevisionPublication, revision_conflict, throw.
    destruct (vpubs c !! revisionPublicationIdentity intent) eqn:Hk; rewrite ?Hk.
    all: repeat case_match; intros [= <-]; simplify_eq; try done; by apply (control_ledger_same c); destruct c.
  - unfold confirmRevisionPublication, revision_conflict, throw.
    repeat case_match; intros [= <-]; simplify_eq; (by apply (control_ledger_same c); destruct c).
  - rewrite (create_spec now le input h c Hr). destruct (other_revision_selected _ _); [done|].
    destruct (confirmed_revision _ _); [|done]. destruct (replayed _ c) as [[n v]|].
    { destruct (identical_revision _ _ _ _ _); [|done]. by intros [= <-]. }
    repeat (destruct (_ : bool); [done|]). intros [= <-]. by apply (control_ledger_same c).
  - destruct (changeMaintenanceControl now target input seen c) as [[b c1]|] eqn:He; [|done]. intros [= <-].
    by eapply control_ledger_change.
  - unfold restoreMemoryTree, bind, read, throw, ret, revision_conflict.
    repeat case_match; intros [= <-]; simplify_eq; try done; by apply (control_ledger_same c); destruct c.
Qed.

Lemma trace_ledger le c l : trace le (c :: l) → control_ledger c.
Proof.
  remember (c :: l) as l0. intros Ht. revert c l Heql0.
  induction Ht as [at_|now o seen c1 c2 l0 Ht IH Hseen Hp]; intros c l [= <- <-].
  - split; simpl; try done; try lia. all: intros; by simplify_map_eq.
  - destruct (trace_refines _ _ _ Ht) as [h Hr]. eapply keeps_control_perform; [done|by eapply IH|done].
Qed.

(** * The properties *)

(** C6: the memory catalog is an append-only history: whatever transactions of it commit, in any
    order, with reads that may be old where they take no lock, every catalog there is shows
    a history of commits, restores, switches and registrations (revision n is the n-th
    commit, a commit was made on the active revision of its time, by an owner that never
    committed before, consuming only pending observations), and each transaction is at
    most one step of it; and no transaction fails for a CHECK or a foreign key. *)
Theorem catalog_refines_history le c l :
  trace le (c :: l) →
  (∃ hs, chronicle hs ∧ Forall2 refines hs (c :: l))
  ∧ ∀ now o seen f, perform le now o seen c = Err f → catalog_refusal f = true.
Proof.
  intros Ht. split; [by apply (trace_chronicle le)|]. intros now o seen f Hf.
  destruct (trace_refines _ _ _ Ht) as [h Hr]. pose proof (perform_ok le now o seen h c Hr) as Hs.
  unfold simulates, wpe in Hs. by rewrite Hf in Hs.
Qed.

(** C15: nothing that was committed is taken back: a revision, an extraction, the text and the
    consumption of an observation, the content and the selection of an intent, of a revision
    or of an extraction, and an operation of the ledgers are what they are in every later
    catalog, and a commit keeps its number, a restore of an older
    revision included. *)
Theorem catalog_keeps_history le c' l c :
  trace le (c' :: l) → c ∈ c' :: l →
  grows c c' ∧ ∃ h h', refines h c ∧ refines h' c' ∧ ∀ n i, commit_at h n = Some i → commit_at h' n = Some i.
Proof.
  intros Ht Hin. pose proof (trace_grows _ _ _ _ Ht Hin) as Hg. split; [done|].
  destruct (trace_chronicle _ _ Ht) as (hs & _ & Hf). apply list_elem_of_lookup_1 in Hin as [k Hk].
  destruct (Forall2_lookup_r _ _ _ _ _ Hf Hk) as (h & _ & Hr).
  destruct (trace_refines _ _ _ Ht) as [h' Hr']. exists h, h'. do 2 (split; [done|]).
  intros n i. by apply (commit_stays h c h' c').
Qed.

(** C17: what the creation of a revision comes to, for an intent that was published and whose
    owner has not selected another: it commits exactly when the owner is new, the active
    revision is the expected one, the sources are distinct pending observations and, for
    maintenance, the switch is on; then the revision has the next number, and nothing but
    the revision, the pointer, its sources and its intent changes; an owner that has
    committed is told its number when the database orders the ids of its sources as
    JavaScript sorts them, and refused as a conflict when it does not; every other case is a
    conflict, and no conflict leaves a trace. *)
Theorem revision_outcomes le now i p c l :
  trace le (c :: l) → collation le → other_revision_selected i c = false → confirmed_revision i c = Some p →
  ∃ h, refines h c ∧
    match createMemoryTreeRevision now le i c with
    | Ok ((true, n), c') => n = Z.of_nat (length (h_commits h)) + 1 ∧ may_commit h i
        ∧ switched_off c i = false ∧ c' = committed now i n p c
    | Ok ((false, n), c') => commit_at h n = Some i ∧ c' = c
        ∧ sort_by le (consumed_ids i) = sort_by String.leb (consumed_ids i)
    | Err f => conflict f = true
        ∧ ((∃ n, commit_at h n = Some i
              ∧ sort_by le (consumed_ids i) ≠ sort_by String.leb (consumed_ids i))
           ∨ (fresh_owner h i ∧ (switched_off c i = true ∨ ¬ may_commit h i)))
    end.
Proof.
  intros Ht Hle Hother Hp. destruct (trace_refines _ _ _ Ht) as [h Hr]. exists h. split; [done|].
  pose proof (replayed_commit h c (rc_source i) Hr) as Hrep. pose proof (sources_free_true h c i Hr) as Hfree.
  rewrite (create_spec now le i h c Hr), Hother, Hp.
  destruct (replayed (rc_source i) c) as [[n v]|] eqn:Hn.
  - destruct (committed_selected _ _ _ _ _ _ Hr Hother Hp Hn) as (_ & Hi & Hv & _).
    rewrite (replay_identical le h c n v i Hle Hr Hi Hv). destruct (bool_decide _) eqn:Hs.
    { by apply bool_decide_eq_true in Hs. }
    split; [done|]. left. exists n. split; [done|]. by apply bool_decide_eq_false in Hs.
  - destruct (switched_off c i) eqn:Hoff; [by split; [|right; split; [|left]]|].
    destruct (Z.eqb_spec (active_revision c) (rc_expected_active_revision i)) as [Ha|Ha]; simpl.
    2:{ split; [done|]. right. split; [done|]. right. intros [He _]. by rewrite (rf_active _ _ Hr), He in Ha. }
    destruct (sources_free c i); simpl.
    + destruct (proj1 Hfree eq_refl) as [Hnd Hpend]. split; [done|]. split; [|done].
      split; [by rewrite <- Ha, (rf_active _ _ Hr)|done].
    + split; [done|]. right. split; [done|]. right. intros (_ & _ & Hnd & Hpend).
      by discriminate (proj2 Hfree (conj Hnd Hpend)).
Qed.

(** Asking again for a revision that was created is answered with its number and changes
    nothing, whatever was committed, restored or paused in between, exactly when the
    database orders the ids of the consumed observations as JavaScript does; under a
    collation that orders them otherwise, the same request is refused for good. *)
Theorem retried_creation le now now' i b n c c1 l c' l' :
  collation le → trace le (c :: l) → createMemoryTreeRevision now le i c = Ok ((b, n), c1) →
  trace le (c' :: l') → c1 ∈ c' :: l' →
  createMemoryTreeRevision now' le i c'
  = if bool_decide (sort_by le (consumed_ids i) = sort_by String.leb (consumed_ids i))
    then Ok ((false, n), c')
    else Err (ThrownAs "MemoryTreeRevisionConflictError" (id_taken (rc_source i))).
Proof.
  intros Hle Ht Hc Ht' Hin. destruct (trace_refines _ _ _ Ht) as [h Hr].
  destruct (created_commit _ _ _ _ _ _ _ _ Hr Hc) as (h1 & Hr1 & Hi).
  destruct (trace_refines _ _ _ Ht') as [h' Hr']. apply (replay_spec now' le h'); [done|done|].
  eapply commit_stays; [exact Hr1|exact Hr'| |exact Hi]. by eapply trace_grows.
Qed.

(** The switch of the maintenance is a ledger: each generation from one up to the current one
    is the result of exactly one operation, which found the generation before it, the
    states take turns from enabled on, and the current state is that of the last one. *)
Theorem control_generations le c l :
  trace le (c :: l) →
  mc_state (control c) = state_of (mc_generation (control c))
  ∧ (∀ g, 1 <= g <= mc_generation (control c) → ∃ id o, control_ops c !! id = Some o ∧ co_generation o = g
       ∧ co_expected o = g - 1 ∧ co_target o = state_of g
       ∧ ∀ id' o', control_ops c !! id' = Some o' → co_generation o' = g → id' = id)
  ∧ ∀ id o, control_ops c !! id = Some o → 1 <= co_generation o <= mc_generation (control c).
Proof.
  intros Ht. destruct (trace_ledger _ _ _ Ht) as [Hst Hop Hcomp Honce Hsign]. split; [done|]. split.
  - intros g Hg. destruct (Hcomp g Hg) as (id & o & Ho & Hgo). exists id, o.
    destruct (Hop id o Ho) as (Hb & He & Ht1 & Ht2). split; [done|]. split; [done|]. split; [lia|].
    split; [congruence|]. intros id' o' Ho' Hg'. apply (Honce id' id o' o Ho' Ho). congruence.
  - intros id o Ho. apply (Hop id o Ho).
Qed.

(** * Witnesses *)

Lemma caseless_collation : collation caseless.
Proof.
  assert (Hasym : ∀ x y, String.leb x y = true → String.leb y x = true → x = y) by apply String.leb_antisym.
  split; intros *; unfold caseless.
  - rewrite (String.eqb_sym (toLowerCase b)). destruct (String.eqb (toLowerCase a) (toLowerCase b)); apply String.leb_total.
  - destruct (String.eqb_spec (toLowerCase a) (toLowerCase b)) as [Hab|Hab],
      (String.eqb_spec (toLowerCase b) (toLowerCase c)) as [Hbc|Hbc],
      (String.eqb_spec (toLowerCase a) (toLowerCase c)) as [Hac|Hac]; try congruence; intros H1 H2.
    all: try by eapply string_leb_trans.
    all: try by rewrite ?Hab, <- ?Hbc.
    all: try by destruct Hab; rewrite Hac in *; apply Hasym.
  - rewrite (String.eqb_sym (toLowerCase b)).
    destruct (String.eqb_spec (toLowerCase a) (toLowerCase b)) as [Hab|Hab]; intros H1 H2; [by apply Hasym|].
    by destruct Hab; apply Hasym.
Qed.

Lemma catalog_refines_history_witness :
  ∃ l hs, trace caseless (newest caseless (committed_1 ++ after_the_commit) :: l)
    ∧ chronicle hs ∧ Forall2 refines hs (newest caseless (committed_1 ++ after_the_commit) :: l).
Proof.
  destruct (newest_trace caseless (committed_1 ++ after_the_commit)) as [l Ht]; [by vm_compute|].
  destruct (catalog_refines_history _ _ _ Ht) as [(hs & Hc & Hf) _]. by exists l, hs.
Defined.

Lemma catalog_keeps_history_witness :
  grows (newest caseless committed_1) (newest caseless (committed_1 ++ after_the_commit))
  ∧ active_revision (newest caseless (committed_1 ++ [(50, OpReserveRevision edit_1); (51, OpConfirmRevision edit_1);
                                                      (52, OpCreateRevision edit_1)])) = 2
  ∧ active_revision (newest caseless (committed_1 ++ after_the_commit)) = 1.
Proof.
  destruct (newest_suffix caseless committed_1 after_the_commit) as (l & Ht & Hin); [by vm_compute|].
  destruct (catalog_keeps_history _ _ _ _ Ht Hin) as [Hg _]. split; [done|]. by vm_compute.
Defined.

Lemma revision_outcomes_witness :
  ∃ h, refines h (newest caseless before_commit) ∧ may_commit h maintenance_1.
Proof.
  destruct (newest_trace caseless before_commit) as [l Ht]; [by vm_compute|].
  destruct (confirmed_revision maintenance_1 (newest caseless before_commit)) as [p|] eqn:Hp; [|by vm_compute in Hp].
  destruct (revision_outcomes caseless 35 maintenance_1 p _ _ Ht caseless_collation) as (h & Hr & Hout);
    [by vm_compute|done|]. exists h. split; [done|].
  assert (Hc : match createMemoryTreeRevision 35 caseless maintenance_1 (newest caseless before_commit) with
               | Ok ((true, _), _) => true | _ => false end = true) by by vm_compute.
  destruct (createMemoryTreeRevision _ _ _ _) as [[[[] n] c']|f]; [|done..]. by destruct Hout as (_ & Hmay & _).
Defined.

(** The maintenance that was committed asks again. *)
Lemma retried_creation_witness :
  (∃ c', createMemoryTreeRevision 99 String.leb maintenance_1
           (newest String.leb (committed_1 ++ after_the_commit)) = Ok ((false, 1), c'))
  ∧ createMemoryTreeRevision 99 caseless maintenance_1 (newest caseless (committed_1 ++ after_the_commit))
    = Err (ThrownAs "MemoryTreeRevisionConflictError" "Maintenance id already exists with different content.").
Proof.
  assert (Hplay : ∀ le, collation le →
    plays le before_commit = true → plays le (committed_1 ++ after_the_commit) = true →
    (match createMemoryTreeRevision 35 le maintenance_1 (newest le before_commit) with
     | Ok ((b, n), c1) => Some (b, n) | Err _ => None end = Some (true, 1)) →
    (∀ c1, createMemoryTreeRevision 35 le maintenance_1 (newest le before_commit) = Ok ((true, 1), c1) →
       c1 = newest le committed_1) →
    createMemoryTreeRevision 99 le maintenance_1 (newest le (committed_1 ++ after_the_commit))
    = if bool_decide (sort_by le ["b-1"; "B-2"] = sort_by String.leb ["b-1"; "B-2"])
      then Ok ((false, 1), newest le (committed_1 ++ after_the_commit))
      else Err (ThrownAs "MemoryTreeRevisionConflictError" (id_taken (rc_source maintenance_1)))).
  { intros le Hle H1 H2 Hc Hc1. destruct (newest_trace le _ H1) as [l Ht].
    destruct (newest_suffix le _ _ H2) as (l' & Ht' & Hin).
    destruct (createMemoryTreeRevision 35 le maintenance_1 _) as [[[b n] c1]|] eqn:Heq; [|done].
    injection Hc as -> ->. rewrite <- (Hc1 c1 eq_refl) in Hin.
    exact (retried_creation le 35 99 maintenance_1 true 1 _ c1 l _ l' Hle Ht Heq Ht' Hin). }
  assert (Hnew : ∀ le c1, plays le before_commit = true →
    createMemoryTreeRevision 35 le maintenance_1 (newest le before_commit) = Ok ((true, 1), c1) →
    c1 = newest le committed_1).
  { intros le c1 H1 Hc. symmetry. apply newest_snoc; [done|]. simpl. unfold bind. by rewrite Hc. }
  split.
  - eexists. rewrite Hplay; [|apply bytewise|by vm_compute..|intros c1; apply Hnew; by vm_compute].
    by rewrite bool_decide_eq_true_2 by by vm_compute.
  - rewrite Hplay; [|apply caseless_collation|by vm_compute..|intros c1; apply Hnew; by vm_compute].
    by rewrite bool_decide_eq_false_2 by by vm_compute.
Defined.

Lemma control_generations_witness :
  mc_state (control (newest caseless (committed_1 ++ after_the_commit))) = state_of 1 ∧ state_of 1 = paused.
Proof.
  destruct (newest_trace caseless (committed_1 ++ after_the_commit)) as [l Ht]; [by vm_compute|].
  destruct (control_generations _ _ _ Ht) as [Hst _]. split; [|done]. rewrite Hst. by vm_compute.
Defined.
