(* ===== verification/CatalogQueries.v ===== *)
(** The read-only views of the memory catalog (services/memory-catalog, src/catalog-queries.ts):
    pages with their cursors, counts, revisions. *)

From S2P Require Import Prelude Schema InputBundles Catalog CatalogStore RunList.

(** * Cursors *)

Record CatalogCursor := { cc_createdAt : string; cc_extractionId : string }.

Section Queries.
(** [JSON.stringify], [JSON.parse] (None when it throws), the decoding of bytes, the ISO text of an
    instant in milliseconds, whether [Date.parse] reads a text, the instant PostgreSQL reads
    from one, and the order of text in the database. *)
Context (print_json : json → string) (parse_json : string → option json) (utf8 : string → string).
Context (iso_text : Z → string) (date_parses : string → bool) (timestamp_of : string → option Z).
Context (collate_le : string → string → bool).

Definition encodeCursor (cursor : CatalogCursor) : string :=
  to_base64url (print_json (JObject [("createdAt", JString (cc_createdAt cursor));
                                     ("extractionId", JString (cc_extractionId cursor))])).

Definition decodeCursor (value : string) : option CatalogCursor :=
  match parse_json (utf8 (of_base64url value)) with
  | Some (JObject fields) =>
      match length fields, json_get "createdAt" (JObject fields), json_get "extractionId" (JObject fields) with
      | 2%nat, Some (JString createdAt), Some (JString extractionId) =>
          if negb (date_parses createdAt) || String.eqb extractionId "" then None
          else Some {| cc_createdAt := createdAt; cc_extractionId := extractionId |}
      | _, _, _ => None
      end
  | _ => None
  end.

(** [created_at.toISOString()]: a JavaScript Date has the milliseconds of the timestamp. *)
Definition toISOString (at_ : Z) : string := iso_text (at_ / 1000).

(** ** Keyset pages *)

Section Keyset.
Context {A : Type} (created : A → Z).

(** ORDER BY created_at DESC, id DESC. *)
Definition latest_first (x y : string * A) : bool :=
  (created y.2 <? created x.2) || ((created x.2 =? created y.2) && collate_le y.1 x.1).

(** [(created_at, id) < (at, id)]. *)
Definition earlier (at_ : Z) (id : string) (x : string * A) : bool :=
  (created x.2 <? at_) || ((created x.2 =? at_) && collate_le x.1 id && negb (String.eqb x.1 id)).

Definition keyset (cursorValue : option string) (limit : nat) (rows : list (string * A)) :
    result (list (string * A)) :=
  match cursorValue with
  | None => Ok (take limit (sort_by latest_first rows))
  | Some wire =>
      match decodeCursor wire with
      | None => Err (HttpStatus 400 "Invalid catalog pagination cursor.")
      | Some c =>
          match timestamp_of (cc_createdAt c) with
          | None => Err (Thrown "invalid input syntax for type timestamp with time zone")
          | Some at_ => Ok (take limit (sort_by latest_first
                              (List.filter (earlier at_ (cc_extractionId c)) rows)))
          end
      end
  end.

Definition cursor_of (x : string * A) : CatalogCursor :=
  {| cc_createdAt := toISOString (created x.2); cc_extractionId := x.1 |}.

(** The rows of a page and the cursor of the next. *)
Definition keyset_page (cursorValue : option string) (limit : nat) (rows : list (string * A)) :
    result (list (string * A) * option string) :=
  match keyset cursorValue (S limit) rows with
  | Err e => Err e
  | Ok found =>
      let page := take limit found in
      Ok (page, if (limit <? length found)%nat then (encodeCursor ∘ cursor_of) <$> last page else None)
  end.
End Keyset.

(** ** Extractions and observations *)

Record ExtractionListFilters := {
  lf_sourceWorkflow : option string; lf_sourceRunId : option string; lf_hasObservation : option bool;
}.

Record ExtractionRecord := {
  er_extraction_id : string; er_source_workflow : string; er_source_run_id : string;
  er_source_unit_id : string; er_bundle_digest : string; er_trajectory : artifact_reference;
  er_observation : option string; er_created_at : string;
}.

Definition projectExtraction (c : catalog) (x : string * extraction_row) : ExtractionRecord := {|
  er_extraction_id := x.1; er_source_workflow := x_source_workflow x.2;
  er_source_run_id := x_source_run_id x.2; er_source_unit_id := x_source_unit_id x.2;
  er_bundle_digest := x_bundle_digest x.2; er_trajectory := x_trajectory x.2;
  er_observation := ob_body_markdown <$> observations c !! x.1;
  er_created_at := toISOString (x_created_at x.2) |}.

Definition getExtraction (extractionId : string) (c : catalog) : option ExtractionRecord :=
  (λ x, projectExtraction c (extractionId, x)) <$> extractions c !! extractionId.

Definition has_observation (c : catalog) (id : string) : bool := not_null (observations c !! id).

Definition extraction_matches (f : ExtractionListFilters) (c : catalog) (x : string * extraction_row) : bool :=
  matches (lf_sourceWorkflow f) (x_source_workflow x.2) && matches (lf_sourceRunId f) (x_source_run_id x.2)
  && matches (lf_hasObservation f) (has_observation c x.1).

Definition listExtractions (cursorValue : option string) (limit : nat) (f : ExtractionListFilters)
    (c : catalog) : result (list ExtractionRecord * option string) :=
  match keyset_page x_created_at cursorValue limit
          (List.filter (extraction_matches f c) (map_to_list (extractions c))) with
  | Ok (rows, next) => Ok (projectExtraction c <$> rows, next)
  | Err e => Err e
  end.

Record ObservationListFilters := {
  of_status : option bool; (** Some true for pending *)
  of_consumedRevision : option Z;
}.

(** With the source of its extraction, which the join requires. *)
Record ObservationRecord := {
  or_extraction_id : string; or_source_run_id : string; or_source_unit_id : string;
  or_body_markdown : string; or_consumed_revision : option Z; or_created_at : string;
}.

Definition observation_matches (f : ObservationListFilters) (c : catalog) (o : string * observation_row) : bool :=
  not_null (extractions c !! o.1)
  && matches (of_status f) (pending o.2)
  && match of_consumedRevision f with Some n => sql_eq (ob_consumed_revision o.2) n | None => true end.

Definition projectObservation (c : catalog) (o : string * observation_row) : ObservationRecord := {|
  or_extraction_id := o.1;
  or_source_run_id := coalesce (x_source_run_id <$> extractions c !! o.1) "";
  or_source_unit_id := coalesce (x_source_unit_id <$> extractions c !! o.1) "";
  or_body_markdown := ob_body_markdown o.2; or_consumed_revision := ob_consumed_revision o.2;
  or_created_at := toISOString (ob_created_at o.2) |}.

Definition listObservations (cursorValue : option string) (limit : nat) (f : ObservationListFilters)
    (c : catalog) : result (list ObservationRecord * option string) :=
  match keyset_page ob_created_at cursorValue limit
          (List.filter (observation_matches f c) (map_to_list (observations c))) with
  | Ok (rows, next) => Ok (projectObservation c <$> rows, next)
  | Err e => Err e
  end.

Definition least (l : list Z) : option Z := match l with [] => None | x :: l' => Some (foldr Z.min x l') end.

(** How many observations wait, and since when. *)
Definition getObservationBacklog (c : catalog) : Z * option string :=
  let waiting := List.filter (λ ko, pending ko.2) (map_to_list (observations c)) in
  (Z.of_nat (length waiting), toISOString <$> least ((λ ko, ob_created_at ko.2) <$> waiting)).

(** ** Revisions *)

Definition revision_extractions (n : Z) (c : catalog) : list string := sort_by collate_le (consumed_by n c).

Inductive revision_view_source :=
  | FromMaintenance (maintenance_id : string) (extraction_ids : list string) (trajectory : artifact_reference)
  | FromOperator (operation_id : string) (actor : catalog_actor).

Record MemoryTreeRevision := {
  mr_revision : Z; mr_predecessor : option Z; mr_memory_tree : artifact_reference;
  mr_source : revision_view_source; mr_created_at : string;
}.

Definition missing_field {B} (field : string) : result B :=
  Err (Thrown ("Memory revision is missing source field: " +:+ field +:+ ".")).

Definition projectRevision (c : catalog) (n : Z) (v : revision_row) : result MemoryTreeRevision :=
  let view s := Ok {| mr_revision := n; mr_predecessor := v_predecessor v; mr_memory_tree := v_memory_tree v;
                      mr_source := s; mr_created_at := toISOString (v_created_at v) |} in
  if String.eqb (v_source_kind v) "maintenance" then
    match v_maintenance_id v, v_trajectory v with
    | None, _ => missing_field "maintenance_id"
    | _, None => missing_field "maintenance_trajectory_reference"
    | Some id, Some t => view (FromMaintenance id (revision_extractions n c) t)
    end
  else
    match v_operation_id v, v_actor v with
    | None, _ => missing_field "operation_id"
    | _, None => missing_field "actor"
    | Some id, Some a => view (FromOperator id a)
    end.

Definition getMemoryTreeRevision (n : Z) (c : catalog) : result (option MemoryTreeRevision) :=
  match revisions c !! n with
  | None => Ok None
  | Some v => match projectRevision c n v with Ok r => Ok (Some r) | Err e => Err e end
  end.

Fixpoint all_ok {A} (l : list (result A)) : result (list A) :=
  match l with
  | [] => Ok []
  | Err e :: _ => Err e
  | Ok a :: l' => match all_ok l' with Ok l'' => Ok (a :: l'') | Err e => Err e end
  end.

Definition listMemoryTreeRevisions (beforeRevision : option Z) (limit : nat) (c : catalog) :
    result (list MemoryTreeRevision * option Z) :=
  let found := take (S limit) (sort_by (λ x y : Z * revision_row, y.1 <=? x.1)
    (List.filter (λ nv, match beforeRevision with Some b => nv.1 <? b | None => true end)
       (map_to_list (revisions c)))) in
  let page := take limit found in
  match all_ok ((λ nv, projectRevision c nv.1 nv.2) <$> page) with
  | Err e => Err e
  | Ok views => Ok (views, if (limit <? length found)%nat then fst <$> last page else None)
  end.

(** The active revision and its tree. *)
Definition getMemoryTree (c : catalog) : Z * option artifact_reference :=
  (active_revision c, v_memory_tree <$> revisions c !! active_revision c).

Definition getMaintenanceControl (c : catalog) : maintenance_state * Z * catalog_actor * string :=
  (mc_state (control c), mc_generation (control c), mc_changed_by (control c),
   toISOString (mc_changed_at (control c))).
End Queries.

(** * The overview *)

(** A unit of a run, as the groups of the overview count them. *)
Abbreviation unit_key := (string * string)%type.

Definition rows_of (c : catalog) : list (string * extraction_row) := map_to_list (extractions c).
Definition unit_of (x : string * extraction_row) : unit_key := (x_source_run_id x.2, x_source_unit_id x.2).

(** The units of some extractions, and those with an observation. *)
Definition units (l : list (string * extraction_row)) : gset unit_key := list_to_set (unit_of <$> l).
Definition units_observed (c : catalog) (l : list (string * extraction_row)) : gset unit_key :=
  units (List.filter (λ x, has_observation c x.1) l).

Record unit_counts := { uc_extracted : Z; uc_with_observation : Z; uc_without_observation : Z }.

Definition count_units (c : catalog) (l : list (string * extraction_row)) : unit_counts := {|
  uc_extracted := Z.of_nat (size (units l));
  uc_with_observation := Z.of_nat (size (units_observed c l));
  uc_without_observation := Z.of_nat (size (units l ∖ units_observed c l)) |}.

Record overview_totals := {
  ot_extractions : Z; ot_units : unit_counts; ot_observations : Z; ot_pending : Z; ot_consumed : Z;
}.

Definition totals (c : catalog) : overview_totals :=
  let obs := map_to_list (observations c) in {|
  ot_extractions := Z.of_nat (length (rows_of c));
  ot_units := count_units c (rows_of c);
  ot_observations := Z.of_nat (length obs);
  ot_pending := Z.of_nat (length (List.filter (λ ko, pending ko.2) obs));
  ot_consumed := Z.of_nat (length (List.filter (λ ko, negb (pending ko.2)) obs)) |}.

(** Per workflow, the busiest first. *)
Definition workflow_rows (workflow : string) (c : catalog) : list (string * extraction_row) :=
  List.filter (λ x, String.eqb (x_source_workflow x.2) workflow) (rows_of c).

Definition workflow_counts (collate_le : string → string → bool) (c : catalog) : list (string * unit_counts) :=
  let workflows := elements (list_to_set (C := gset string) ((λ x, x_source_workflow x.2) <$> rows_of c)) in
  sort_by (λ x y : string * unit_counts,
             (uc_extracted y.2 <? uc_extracted x.2)
             || ((uc_extracted x.2 =? uc_extracted y.2) && collate_le x.1 y.1))
    ((λ w, (w, count_units c (workflow_rows w c))) <$> workflows).

Inductive overview_range := Days30 | Days90 | AllTime.

Definition day_of (at_ : Z) : Z := at_ / (24 * 60 * 60 * 1000 * 1000).

(** The counts of each period from [first] to [current]; [month_of] numbers the months in UTC. *)
Definition trend_points (period_of : Z → Z) (first current : Z) (c : catalog) : list (Z * Z * Z) :=
  (λ k, let period := first + Z.of_nat k in
        let rows := List.filter (λ x, period_of (x_created_at x.2) =? period) (rows_of c) in
        (period, Z.of_nat (size (units rows)), Z.of_nat (size (units_observed c rows))))
  <$> seq 0 (Z.to_nat (current - first + 1)).

Definition trend (month_of : Z → Z) (range : overview_range) (now : Z) (c : catalog) : list (Z * Z * Z) :=
  match range with
  | Days30 => trend_points day_of (day_of now - 29) (day_of now) c
  | Days90 => trend_points day_of (day_of now - 89) (day_of now) c
  | AllTime =>
      let first := match least ((λ x, x_created_at x.2) <$> rows_of c) with
                   | Some at_ => month_of at_ | None => month_of now end in
      trend_points month_of first (month_of now) c
  end.

Definition getCatalogOverview (collate_le : string → string → bool) (month_of : Z → Z)
    (range : overview_range) (now : Z) (c : catalog) :
    overview_totals * list (Z * Z * Z) * list (string * unit_counts) :=
  (totals c, trend month_of range now c, workflow_counts collate_le c).
