(* ===== verification/CatalogServer.v ===== *)
(** The HTTP surface of the memory catalog (services/memory-catalog, src/server.ts): who may ask
    for what, the handlers over the store, and what an error becomes.  The routes with their
    security are those of contracts/memory-catalog-api/v1/openapi.yaml; the validation of
    bodies and parameters against that document is done before and not modelled. *)

From stdpp Require Import pretty.
From S2P Require Import Prelude Schema InputBundles Catalog CatalogStore CatalogQueries.

(** * Roles *)

Inductive catalog_role := Worker | CatalogOperator.
#[export] Instance catalog_role_eq_dec : EqDecision catalog_role.
Proof. solve_decision. Defined.

Definition operatorActor : catalog_actor := {| actor_kind := "service"; actor_id := "memory-catalog-operator" |}.

Definition catalog_unauthorized : failure := HttpStatus 401 "Unauthorized".

Definition bearer_token_matches (header : option string) (expected : string) : bool :=
  match header with
  | Some h => String.prefix "Bearer " h && String.eqb (String.substring 7 (String.length h - 7) h) expected
  | None => false
  end.

(** The role of a request that a route admits. *)
Definition authenticate (workerToken operatorToken : string) (header : option string)
    (allowed : list catalog_role) : result catalog_role :=
  let role := if bearer_token_matches header workerToken then Some Worker
              else if bearer_token_matches header operatorToken then Some CatalogOperator else None in
  match role with
  | Some r => if bool_decide (r ∈ allowed) then Ok r else Err catalog_unauthorized
  | None => Err catalog_unauthorized
  end.

(** The actor of an operator is the server's. *)
Definition authenticatedRevisionInput (role : catalog_role) (expected : Z) (tree : artifact_reference)
    (source : body_source) : result MemoryTreeRevisionCreation :=
  match source, role with
  | BodyMaintenance id ids t, Worker =>
      Ok {| rc_expected_active_revision := expected; rc_memory_tree := tree; rc_source := Maintenance id ids t |}
  | BodyOperator id, CatalogOperator =>
      Ok {| rc_expected_active_revision := expected; rc_memory_tree := tree;
            rc_source := Operator id operatorActor |}
  | _, _ => Err catalog_unauthorized
  end.

Definition conflict_classes : list string :=
  ["ExtractionConflictError"; "MaintenanceControlConflictError"; "MaintenancePausedError";
   "MemoryTreeRevisionConflictError"].

Definition errorStatusCode (e : failure) : Z :=
  match e with
  | ThrownAs class _ => if bool_decide (class ∈ conflict_classes) then 409 else 500
  | HttpStatus n _ => n
  | _ => 500
  end.

Definition catalog_error_code (e : failure) : string :=
  let status := errorStatusCode e in
  if status =? 400 then "INVALID_BODY"
  else if status =? 401 then "UNAUTHORIZED"
  else if status =? 409 then
    match e with
    | ThrownAs class _ => if String.eqb class "MaintenancePausedError" then "MAINTENANCE_PAUSED" else "CONFLICT"
    | _ => "CONFLICT"
    end
  else "INTERNAL_ERROR".

(** * Requests *)

Inductive catalog_request :=
  | Health
  | ReserveExtractionPublication (intent : ExtractionPublicationIntent)
  | ConfirmExtractionPublication (intent : ExtractionPublicationIntent)
  | ListExtractionPublications (extraction_id : string)
  | ReserveRevisionPublication (expected : Z) (tree : artifact_reference) (source : body_source)
  | ConfirmRevisionPublication (expected : Z) (tree : artifact_reference) (source : body_source)
  | ListRevisionPublications (kind owner_id : string)
  | RegisterExtraction (input : ExtractionRegistration)
  | GetExtraction (extraction_id : string)
  | ListExtractions (cursor : option string) (limit : option nat)
      (source_workflow source_run_id has_observation : option string)
  | ListObservations (cursor : option string) (limit : option nat)
      (status : option string) (consumed_revision : option Z)
  | GetObservationBacklog
  | GetCatalogOverview (range : option overview_range)
  | GetMaintenanceControl
  | PauseMaintenance (operation_id : string) (expected_generation : Z)
  | ResumeMaintenance (operation_id : string) (expected_generation : Z)
  | GetMaintenanceInput (limit : nat)
  | CreateMemoryTreeRevision (expected : Z) (tree : artifact_reference) (source : body_source)
  | RestoreMemoryTree (operation_id : string) (expected restored : Z)
  | GetMemoryTree
  | GetMemoryTreeRevision (revision : Z)
  | ListMemoryTreeRevisions (before_revision : option Z) (limit : option nat).

(** The roles the security of a route admits; None for a route without. *)
Definition route_roles (r : catalog_request) : option (list catalog_role) :=
  match r with
  | Health => None
  | RegisterExtraction _ | GetMaintenanceInput _ | ReserveExtractionPublication _
  | ConfirmExtractionPublication _ | ListExtractionPublications _ => Some [Worker]
  | RestoreMemoryTree _ _ _ | PauseMaintenance _ _ | ResumeMaintenance _ _ => Some [CatalogOperator]
  | _ => Some [Worker; CatalogOperator]
  end.

Inductive catalog_response :=
  | IsHealthy
  | IsExtractionPublication (p : ExtractionPublicationIntent * Intent.status)
  | AreExtractionPublications (l : list (ExtractionPublicationIntent * Intent.status))
  | IsRevisionPublication (p : RevisionPublication)
  | AreRevisionPublications (l : list RevisionPublication)
  | IsRegistered (created : bool)
  | IsExtraction (x : ExtractionRecord)
  | AreExtractions (l : list ExtractionRecord) (next_cursor : option string)
  | AreObservations (l : list ObservationRecord) (next_cursor : option string)
  | IsBacklog (pending_count : Z) (oldest : option string)
  | IsOverview (o : overview_totals * list (Z * Z * Z) * list (string * unit_counts))
  | IsControl (c : maintenance_state * Z * catalog_actor * string)
  | IsControlChange (created : bool) (c : maintenance_state * Z * catalog_actor * string)
  | IsMaintenanceInput (i : option MaintenanceInput)
  | IsRevisionCreation (created : bool) (revision : Z)
  | IsRestore (created : bool) (active_revision : Z) (operation_id : string)
  | IsMemoryTree (revision : Z) (tree : option artifact_reference)
  | IsRevision (r : MemoryTreeRevision)
  | AreRevisions (l : list MemoryTreeRevision) (next_before : option Z)
  | IsError (error code : string).

Section Server.
Context (print_json : json → string) (parse_json : string → option json) (utf8 : string → string).
Context (iso_text : Z → string) (date_parses : string → bool) (timestamp_of : string → option Z).
Context (collate_le : string → string → bool) (month_of : Z → Z) (now : Z).
(** The message of a failure. *)
Context (message_of : failure → string).
Context (workerToken operatorToken : string).

(** [query.x ? ... : {}]: an empty parameter is as good as none. *)
Definition given (x : option string) : option string :=
  match x with Some s => if String.eqb s "" then None else Some s | None => None end.

Definition control_view (r : control_row) : maintenance_state * Z * catalog_actor * string :=
  (mc_state r, mc_generation r, mc_changed_by r, toISOString iso_text (mc_changed_at r)).

(** A query answers from the catalog. *)
Definition answer (status : Z) (r : catalog_response) : tx catalog (Z * catalog_response) := ret (status, r).
Definition view {A} (f : catalog → result A) (k : A → Z * catalog_response) : tx catalog (Z * catalog_response) :=
  λ c, match f c with Ok a => Ok (k a, c) | Err e => Err e end.
Definition created_status (created : bool) : Z := if created then 201 else 200.

(** The service handlers. *)
Definition handle (role : catalog_role) (seen : catalog) (r : catalog_request) : tx catalog (Z * catalog_response) :=
  match r with
  | Health => answer 200 IsHealthy
  | ReserveExtractionPublication intent =>
      let! p := reserveExtractionPublication now intent in answer 200 (IsExtractionPublication p)
  | ConfirmExtractionPublication intent =>
      let! p := confirmExtractionPublication intent in answer 200 (IsExtractionPublication p)
  | ListExtractionPublications id =>
      view (Ok ∘ listExtractionPublications collate_le id) (λ l, (200, AreExtractionPublications l))
  | ReserveRevisionPublication expected tree source =>
      let! input := (λ c, match authenticatedRevisionInput role expected tree source with
                          | Ok i => Ok (i, c) | Err e => Err e end) in
      let! p := reserveRevisionPublication now input in answer 200 (IsRevisionPublication p)
  | ConfirmRevisionPublication expected tree source =>
      let! input := (λ c, match authenticatedRevisionInput role expected tree source with
                          | Ok i => Ok (i, c) | Err e => Err e end) in
      let! p := confirmRevisionPublication input in answer 200 (IsRevisionPublication p)
  | ListRevisionPublications kind owner =>
      if (String.eqb kind "maintenance" && negb (bool_decide (role = Worker)))
         || (String.eqb kind "operator" && negb (bool_decide (role = CatalogOperator)))
      then throw catalog_unauthorized
      else view (Ok ∘ listRevisionPublications collate_le kind owner) (λ l, (200, AreRevisionPublications l))
  | RegisterExtraction input =>
      let! created := registerExtraction now input in answer 200 (IsRegistered created)
  | GetExtraction id =>
      view (Ok ∘ getExtraction iso_text id)
        (λ x, match x with
              | Some x => (200, IsExtraction x)
              | None => (404, IsError ("Memory extraction not found: " +:+ id) "NOT_FOUND")
              end)
  | ListExtractions cursor limit workflow run has =>
      view (listExtractions print_json parse_json utf8 iso_text date_parses timestamp_of collate_le
              cursor (coalesce limit 50%nat)
              {| lf_sourceWorkflow := given workflow; lf_sourceRunId := given run;
                 lf_hasObservation := (λ s, String.eqb s "true") <$> given has |})
        (λ p, (200, AreExtractions p.1 p.2))
  | ListObservations cursor limit status consumed =>
      view (listObservations print_json parse_json utf8 iso_text date_parses timestamp_of collate_le
              cursor (coalesce limit 50%nat)
              {| of_status := (λ s, String.eqb s "pending") <$> given status; of_consumedRevision := consumed |})
        (λ p, (200, AreObservations p.1 p.2))
  | GetObservationBacklog => view (Ok ∘ getObservationBacklog iso_text) (λ b, (200, IsBacklog b.1 b.2))
  | GetCatalogOverview range =>
      view (Ok ∘ getCatalogOverview collate_le month_of (coalesce range Days30) now) (λ o, (200, IsOverview o))
  | GetMaintenanceControl => view (Ok ∘ getMaintenanceControl iso_text) (λ m, (200, IsControl m))
  | PauseMaintenance id generation =>
      let! r := changeMaintenanceControl now paused
                  {| mo_operation_id := id; mo_expected_generation := generation; mo_actor := operatorActor |} seen in
      answer (created_status r.1) (IsControlChange r.1 (control_view r.2))
  | ResumeMaintenance id generation =>
      let! r := changeMaintenanceControl now enabled
                  {| mo_operation_id := id; mo_expected_generation := generation; mo_actor := operatorActor |} seen in
      answer (created_status r.1) (IsControlChange r.1 (control_view r.2))
  | GetMaintenanceInput limit =>
      view (Ok ∘ getMaintenanceInput collate_le limit seen) (λ i, (200, IsMaintenanceInput i))
  | CreateMemoryTreeRevision expected tree source =>
      let! input := (λ c, match authenticatedRevisionInput role expected tree source with
                          | Ok i => Ok (i, c) | Err e => Err e end) in
      let! r := createMemoryTreeRevision now collate_le input in
      answer (created_status r.1) (IsRevisionCreation r.1 r.2)
  | RestoreMemoryTree id expected restored =>
      let! r := restoreMemoryTree now
                  {| ro_operation_id := id; ro_expected_active_revision := expected;
                     ro_restored_revision := restored; ro_actor := operatorActor |} seen in
      answer (created_status r.1) (IsRestore r.1 r.2 id)
  | GetMemoryTree => view (Ok ∘ getMemoryTree) (λ t, (200, IsMemoryTree t.1 t.2))
  | GetMemoryTreeRevision n =>
      view (getMemoryTreeRevision iso_text collate_le n)
        (λ x, match x with
              | Some x => (200, IsRevision x)
              | None => (404, IsError ("Memory tree revision not found: " +:+ pretty n) "NOT_FOUND")
              end)
  | ListMemoryTreeRevisions before limit =>
      view (listMemoryTreeRevisions iso_text collate_le before (coalesce limit 50%nat)) (λ p, (200, AreRevisions p.1 p.2))
  end.

(** The error handler of the application. *)
Definition catalog_error_reply (e : failure) : Z * catalog_response :=
  let status := errorStatusCode e in
  (status, IsError (if status =? 500 then "Internal server error" else message_of e) (catalog_error_code e)).

(** A request: the security of its route, its handler in a transaction of its own, and the error handler. *)
Definition serve_catalog (header : option string) (seen : catalog) (r : catalog_request) (c : catalog) :
    Z * catalog_response * catalog :=
  let role := match route_roles r with
              | None => Ok Worker (** no security, and no handler of such a route looks at the role *)
              | Some allowed => authenticate workerToken operatorToken header allowed
              end in
  match role with
  | Err e => (catalog_error_reply e, c)
  | Ok role => match handle role seen r c with
               | Ok (reply, c') => (reply, c')
               | Err e => (catalog_error_reply e, c)
               end
  end.
End Server.

(** The application does not start with one token for both roles. *)
Definition createApp (workerToken operatorToken : string) : result unit :=
  if String.eqb workerToken operatorToken then Err (Thrown "Worker and operator tokens must be distinct.")
  else Ok tt.
