(* ===== verification/CatalogPages.v ===== *)
(** The pages of the memory catalog's lists: what follows a page, and what falls between. *)

From S2P Require Import Prelude Schema InputBundles Catalog CatalogStore CatalogHistory CatalogSpecs.
From S2P Require Import CatalogProperties RunList RunListProperties CatalogQueries.

Section Pages.
Context (print_json : json → string) (parse_json : string → option json) (utf8 : string → string).
Context (iso_text : Z → string) (date_parses : string → bool) (timestamp_of : string → option Z).
Context (collate_le : string → string → bool) (Hle : collation collate_le).
Context {A : Type} (created : A → Z).

Abbreviation latest_first := (latest_first collate_le created).
Abbreviation earlier := (earlier collate_le created).

Lemma latest_total x y : latest_first x y = true ∨ latest_first y x = true.
Proof.
  unfold CatalogQueries.latest_first. destruct (Ztrichotomy_inf (created x.2) (created y.2)) as [[H|H]|H].
  - right. by rewrite (proj2 (Z.ltb_lt _ _)) by lia.
  - rewrite H, Z.ltb_irrefl, Z.eqb_refl. simpl. apply (col_total _ Hle).
  - left. by rewrite (proj2 (Z.ltb_lt _ _)) by lia.
Qed.

Lemma latest_true x y :
  latest_first x y = true ↔
  created y.2 < created x.2 ∨ (created x.2 = created y.2 ∧ collate_le y.1 x.1 = true).
Proof.
  unfold CatalogQueries.latest_first. rewrite orb_true_iff, andb_true_iff, Z.ltb_lt, Z.eqb_eq. done.
Qed.

Lemma latest_trans x y z : latest_first x y = true → latest_first y z = true → latest_first x z = true.
Proof.
  rewrite !latest_true. intros [?|[? H1]] [?|[? H2]]; try (left; lia). right. split; [lia|].
  by apply (col_trans _ Hle _ y.1).
Qed.

Lemma latest_antisym x y : latest_first x y = true → latest_first y x = true → x.1 = y.1.
Proof.
  rewrite !latest_true. intros [?|[? H1]] [?|[? H2]]; try lia. by apply (col_antisym _ Hle).
Qed.

Lemma latest_sorted l : StronglySorted (λ x y, latest_first x y = true) (sort_by latest_first l).
Proof.
  apply Sorted_StronglySorted; [intros x y z; apply latest_trans|]. apply sort_by_sorted, latest_total.
Qed.

(** Rows with different ids. *)
Lemma keys_differ (l : list (string * A)) x y : NoDup l.*1 → x ∈ l → y ∈ l → x.1 = y.1 → x = y.
Proof.
  intros Hnd Hx Hy He. apply list_elem_of_lookup_1 in Hx as [i Hi], Hy as [j Hj].
  assert (i = j) as ->; [|congruence]. eapply (NoDup_lookup l.*1); [done|by rewrite list_lookup_fmap, Hi|].
  by rewrite list_lookup_fmap, Hj, He.
Qed.

Lemma sorted_filter {B} (R : B → B → Prop) f (l : list B) : StronglySorted R l → StronglySorted R (List.filter f l).
Proof.
  induction 1 as [|x l Hs IH Hall]; simpl; [constructor|]. destruct (f x); [|done]. constructor; [done|].
  rewrite Forall_forall in *. intros y Hy. apply Hall.
  apply list_elem_of_In, filter_In in Hy as [Hy _]. by apply list_elem_of_In.
Qed.

(** Sorting what a filter leaves is filtering what was sorted. *)
Lemma sort_filter f (rows : list (string * A)) :
  NoDup rows.*1 → sort_by latest_first (List.filter f rows) = List.filter f (sort_by latest_first rows).
Proof.
  intros Hnd.
  assert (Hperm : List.filter f (sort_by latest_first rows) ≡ₚ List.filter f rows)
    by (apply filter_perm; apply sort_by_perm).
  apply (StronglySorted_unique_strong (λ x y, latest_first x y = true)); [|apply latest_sorted| |].
  - intros x y Hx Hy H1 H2. apply (keys_differ rows); [done| | |by apply latest_antisym].
    + rewrite sort_by_perm in Hx. apply list_elem_of_In, filter_In in Hx as [Hx _]. by apply list_elem_of_In.
    + rewrite Hperm in Hy. apply list_elem_of_In, filter_In in Hy as [Hy _]. by apply list_elem_of_In.
  - apply sorted_filter, latest_sorted.
  - by rewrite sort_by_perm, Hperm.
Qed.

(** The rows before a row of the list are not earlier, whatever later instant stands for it. *)
Lemma not_earlier at_ x y : at_ <= created y.2 → latest_first x y = true → earlier at_ y.1 x = false.
Proof.
  intros Hat Hxy. apply not_true_iff_false. unfold CatalogQueries.earlier.
  rewrite orb_true_iff, !andb_true_iff, Z.ltb_lt, Z.eqb_eq, negb_true_iff, String.eqb_neq.
  apply latest_true in Hxy as [Hc|[Hc Hid]]; [lia|]. intros [?|[[? Hle'] Hne]]; [lia|].
  by apply Hne, (col_antisym _ Hle).
Qed.

Lemma later_earlier x y : x.1 ≠ y.1 → latest_first y x = true → earlier (created y.2) y.1 x = true.
Proof.
  intros Hne Hyx. unfold CatalogQueries.earlier.
  rewrite orb_true_iff, !andb_true_iff, Z.ltb_lt, Z.eqb_eq, negb_true_iff, String.eqb_neq.
  apply latest_true in Hyx as [?|[? ?]]; [by left|right]. done.
Qed.

(** The rows that the cursor of [y] leaves, when [y] ends a page. *)
Lemma after_row at_ l1 y l2 rows :
  NoDup rows.*1 → sort_by latest_first rows = l1 ++ y :: l2 → at_ <= created y.2 →
  sort_by latest_first (List.filter (earlier at_ y.1) rows) = List.filter (earlier at_ y.1) l2.
Proof.
  intros Hnd Heq Hat. rewrite sort_filter, Heq by done. pose proof (latest_sorted rows) as Hs. rewrite Heq in Hs.
  apply StronglySorted_app in Hs as (Hrel & _ & _). rewrite List.filter_app. simpl.
  rewrite (filter_all _ l1 false).
  - simpl. rewrite not_earlier; [done..|]. destruct (latest_total y y); done.
  - intros x Hx. apply not_earlier; [done|]. apply Hrel; [done|set_solver].
Qed.

(** The cursor of a row is read back: what JSON, base64url, ISO texts and timestamps do. *)
Definition readable (x : string * A) : Prop :=
  let c := JObject [("createdAt", JString (toISOString iso_text (created x.2))); ("extractionId", JString x.1)] in
  utf8 (print_json c) = print_json c ∧ parse_json (print_json c) = Some c
  ∧ date_parses (toISOString iso_text (created x.2)) = true
  ∧ timestamp_of (toISOString iso_text (created x.2)) = Some (created x.2 / 1000 * 1000)
  ∧ x.1 ≠ "".

Lemma cursor_read x :
  readable x →
  decodeCursor parse_json utf8 date_parses (encodeCursor print_json (cursor_of iso_text created x))
  = Some (cursor_of iso_text created x).
Proof.
  intros (Hu & Hp & Hd & _ & Hne). unfold decodeCursor, encodeCursor, cursor_of. cbn [cc_createdAt cc_extractionId].
  rewrite (base64url_roundtrip_length _ _ (le_n _)), Hu, Hp. simpl. rewrite Hd. simpl.
  by rewrite (proj2 (String.eqb_neq _ _) Hne).
Qed.
(** A cursor of a row that another left selects less than that one. *)
Lemma earlier_trans at_ id at' y x :
  earlier at_ id y = true → at' <= created y.2 → earlier at' y.1 x = true → earlier at_ id x = true.
Proof.
  unfold CatalogQueries.earlier.
  rewrite !orb_true_iff, !andb_true_iff, !Z.ltb_lt, !Z.eqb_eq, !negb_true_iff, !String.eqb_neq.
  intros [?|[[? H1] N1]] ? [?|[[? H2] N2]]; try (left; lia).
  destruct (decide (created x.2 = at_)); [right|left; lia]. split; [split; [done|]|].
  - by apply (col_trans _ Hle _ y.1).
  - intros <-. by apply N2, (col_antisym _ Hle).
Qed.

(** The rows a cursor leaves. *)
Definition rows_left (cursor : option string) (rows : list (string * A)) : result (list (string * A)) :=
  match cursor with
  | None => Ok rows
  | Some wire =>
      match decodeCursor parse_json utf8 date_parses wire with
      | None => Err (HttpStatus 400 "Invalid catalog pagination cursor.")
      | Some c => match timestamp_of (cc_createdAt c) with
                  | None => Err (Thrown "invalid input syntax for type timestamp with time zone")
                  | Some at_ => Ok (List.filter (earlier at_ (cc_extractionId c)) rows)
                  end
      end
  end.

Abbreviation keyset := (keyset parse_json utf8 date_parses timestamp_of collate_le created).
Abbreviation keyset_page :=
  (keyset_page print_json parse_json utf8 iso_text date_parses timestamp_of collate_le created).

Lemma keyset_left cursor limit rows :
  keyset cursor limit rows
  = match rows_left cursor rows with Ok l => Ok (take limit (sort_by latest_first l)) | Err e => Err e end.
Proof. destruct cursor as [wire|]; [|done]. simpl. by repeat case_match; simplify_eq. Qed.

Lemma rows_left_sub cursor rows l :
  rows_left cursor rows = Ok l → NoDup rows.*1 →
  NoDup l.*1 ∧ (length l <= length rows)%nat ∧ (∀ x, x ∈ l → x ∈ rows)
  ∧ ∀ y at' , y ∈ l → at' <= created y.2 →
      List.filter (earlier at' y.1) rows = List.filter (earlier at' y.1) l.
Proof.
  assert (Hsub : ∀ f, NoDup rows.*1 → NoDup (List.filter f rows).*1).
  { intros f. induction rows as [|x rows IH]; [done|]. simpl. rewrite NoDup_cons. intros [Hx Hn].
    destruct (f x); simpl; [|by apply IH]. apply NoDup_cons. split; [|by apply IH].
    intros Hin. apply Hx. apply list_elem_of_fmap in Hin as (z & -> & Hz).
    apply list_elem_of_In, filter_In in Hz as [Hz _]. apply list_elem_of_fmap. exists z. split; [done|].
    by apply list_elem_of_In. }
  intros Hl Hnd. destruct cursor as [wire|]; simpl in Hl; [|by simplify_eq].
  destruct (decodeCursor _ _ _ wire) as [c|]; [|done]. destruct (timestamp_of _) as [at_|]; [|done]. simplify_eq.
  split; [by apply Hsub|]. split; [apply List.filter_length_le|]. split.
  - intros x Hx. apply list_elem_of_In, filter_In in Hx as [Hx _]. by apply list_elem_of_In.
  - intros y at' Hy Hat. apply list_elem_of_In, filter_In in Hy as [_ Hy].
    clear -Hle Hy Hat. induction rows as [|x rows IH]; [done|]. simpl.
    destruct (earlier at' y.1 x) eqn:Hx.
    + rewrite (earlier_trans _ _ _ _ _ Hy Hat Hx). simpl. by rewrite Hx, IH.
    + destruct (earlier at_ (cc_extractionId c) x); simpl; by rewrite ?Hx.
Qed.

(** What follows a page of the extractions or of the observations: the next page starts
    with the rows after the last one shown, and none of them is lost, when that row was
    created on a whole millisecond; otherwise the cursor, which has the milliseconds of a
    JavaScript Date, stands for an earlier instant than the row, and the rows that were
    created between the two are on no page. *)
Theorem page_continues cursor limit rows page w left :
  NoDup rows.*1 → (∀ x, x ∈ rows → readable x) →
  keyset cursor (length rows) rows = Ok left → keyset_page cursor limit rows = Ok (page, Some w) →
  ∃ y rest, last page = Some y ∧ left = page ++ rest ∧ rest ≠ [] ∧
    let next := List.filter (earlier (created y.2 / 1000 * 1000) y.1) rest in
    keyset (Some w) (length rows) rows = Ok next
    ∧ (created y.2 mod 1000 = 0 → next = rest)
    ∧ ∀ x, x ∈ rest → created y.2 / 1000 * 1000 < created x.2 → x ∉ next.
Proof.
  intros Hnd Hread Hleft Hpage. unfold CatalogQueries.keyset_page in Hpage.
  rewrite keyset_left in Hleft, Hpage. destruct (rows_left cursor rows) as [l|] eqn:Hl; [|done].
  destruct (rows_left_sub _ _ _ Hl Hnd) as (Hnd' & Hlen & Hsub & Hf).
  pose proof (sort_by_perm latest_first l) as Hperm.
  rewrite take_ge in Hleft by (by rewrite Hperm). injection Hleft as <-.
  destruct (limit <? length _)%nat eqn:Hlong; [|done]. apply Nat.ltb_lt in Hlong. rewrite length_take in Hlong.
  rewrite take_take, Nat.min_l in Hpage by lia.
  set (sorted := sort_by latest_first l) in *.
  destruct (last (take limit sorted)) as [y|] eqn:Hy; [|done]. simpl in Hpage. simplify_eq.
  apply last_Some in Hy as [l1 Hl1].
  assert (Hs : sorted = l1 ++ y :: drop limit sorted).
  { rewrite <- (take_drop limit sorted) at 1. by rewrite Hl1, <- app_assoc. }
  assert (Hyl : y ∈ l) by (rewrite <- Hperm; fold sorted; rewrite Hs; set_solver).
  pose proof (Hread y (Hsub y Hyl)) as Hry.
  exists y, (drop limit sorted). split; [by rewrite Hl1, last_snoc|]. split; [by rewrite take_drop|].
  split. { intros Hd. apply (f_equal length) in Hd. rewrite length_drop in Hd. simpl in Hd. lia. }
  assert (Htr : created y.2 / 1000 * 1000 <= created y.2) by (pose proof (Z.mul_div_le (created y.2) 1000); lia).
  cbv zeta. split; [|split].
  - rewrite keyset_left. unfold rows_left. rewrite cursor_read by done. destruct Hry as (_ & _ & _ & Ht & _).
    simpl. rewrite Ht. rewrite Hf by done.
    rewrite (after_row _ l1 y (drop limit sorted)) by done. f_equal. apply take_ge.
    etrans; [apply List.filter_length_le|]. rewrite length_drop. rewrite Hperm. lia.
  - intros Hm. replace (created y.2 / 1000 * 1000) with (created y.2)
      by (pose proof (Z.div_mod (created y.2) 1000); lia).
    rewrite (filter_all _ _ true); [done|]. intros x Hx. apply later_earlier.
    + intros He. assert (Hn : NoDup sorted.*1) by (by rewrite Hperm). rewrite Hs in Hn.
      rewrite fmap_app in Hn. apply NoDup_app in Hn as (_ & _ & Hn). simpl in Hn.
      apply NoDup_cons in Hn as [Hn _]. apply Hn. rewrite <- He. by apply (list_elem_of_fmap_2 fst).
    + pose proof (latest_sorted l) as Hst. fold sorted in Hst. rewrite Hs in Hst.
      apply StronglySorted_app in Hst as (_ & _ & Hst). apply StronglySorted_inv in Hst as [_ Hall].
      rewrite Forall_forall in Hall. by apply Hall.
  - intros x _ Hx Hin. apply list_elem_of_In, filter_In in Hin as [_ Hin]. unfold CatalogQueries.earlier in Hin.
    apply orb_true_iff in Hin as [Hin|Hin]; [apply Z.ltb_lt in Hin; lia|].
    apply andb_true_iff in Hin as [Hin _]. apply andb_true_iff in Hin as [Hin _]. apply Z.eqb_eq in Hin. lia.
Qed.
End Pages.

(** * Witness *)

(** A cursor as the two texts with a bar between them; instants as decimal milliseconds. *)
Definition print_bar (j : json) : string :=
  match j with
  | JObject [(_, JString a); (_, JString b)] => a +:+ "|" +:+ b
  | _ => ""
  end.

Definition parse_bar (s : string) : option json :=
  match split_bar s with
  | [a; b] => Some (JObject [("createdAt", JString a); ("extractionId", JString b)])
  | _ => None
  end.

Definition digits_instant (s : string) : option Z := (λ n, n * 1000) <$> digits_of s.

(** Three instants in microseconds: the second is lost after the first. *)
Definition three_rows : list (string * Z) := [("c", 1000); ("a", 2500); ("b", 2400)].

Lemma page_continues_witness :
  ∃ w rest, keyset_page print_bar parse_bar (λ s, s) digits_text (λ _, true) digits_instant String.leb (λ t, t)
              None 1 three_rows = Ok ([("a", 2500)], Some w)
    ∧ rest = [("b", 2400); ("c", 1000)]
    ∧ keyset parse_bar (λ s, s) (λ _, true) digits_instant String.leb (λ t, t) (Some w) 3 three_rows
      = Ok [("c", 1000)].
Proof.
  destruct (keyset_page print_bar parse_bar (λ s, s) digits_text (λ _, true) digits_instant String.leb (λ t, t)
              None 1 three_rows) as [[page [w|]]|] eqn:Hp; [|by vm_compute in Hp..].
  assert (page = [("a", 2500)]) as ->.
  { apply (f_equal (λ r, match r with Ok (l, _) => l | Err _ => [] end)) in Hp. rewrite <- Hp. by vm_compute. }
  destruct (page_continues print_bar parse_bar (λ s, s) digits_text (λ _, true) digits_instant String.leb bytewise
              (λ t, t) None 1 three_rows [("a", 2500)] w (sort_by (latest_first String.leb (λ t, t)) three_rows))
    as (y & rest & Hy & Hl & _ & Hn & _); [| |by vm_compute|done|].
  - by apply (bool_decide_unpack (NoDup three_rows.*1)).
  - intros x Hx. unfold three_rows in Hx. repeat (apply elem_of_cons in Hx as [->|Hx]; [by vm_compute|]).
    by apply not_elem_of_nil in Hx.
  - exists w, rest. split; [done|]. injection Hy as <-.
    assert (rest = [("b", 2400); ("c", 1000)]) as ->.
    { apply (app_inv_head [("a", 2500)]). rewrite <- Hl. by vm_compute. }
    split; [done|]. simpl length in Hn. rewrite Hn. by vm_compute.
Defined.
