(* ===== verification/CatalogRequests.v ===== *)
(** What the requests of the memory catalog may do, and what it means to repeat one. *)

From S2P Require Import Prelude Schema InputBundles Catalog CatalogStore CatalogHistory CatalogSpecs.
From S2P Require Import CatalogCommits CatalogProperties CatalogQueries CatalogServer.

(** * What an operation writes *)

(** The authoritative tables, without the ledgers of intents. *)
Definition same_tables (c c' : catalog) : Prop :=
  extractions c' = extractions c ∧ control c' = control c ∧ restores c' = restores c ∧ revisions c' = revisions c.

Lemma reserve_extraction_frame now i c r c' :
  reserveExtractionPublication now i c = Ok (r, c') → same_tables c c'.
Proof.
  unfold reserveExtractionPublication, extraction_conflict, throw.
  destruct (xpubs c !! extraction_key i) eqn:Hk; rewrite ?Hk; repeat case_match; intros [= _ <-]; by destruct c.
Qed.

Lemma confirm_extraction_frame i c r c' :
  confirmExtractionPublication i c = Ok (r, c') → same_tables c c'.
Proof.
  unfold confirmExtractionPublication, extraction_conflict, throw. repeat case_match; intros [= _ <-]; by destruct c.
Qed.

Lemma reserve_revision_frame now i c r c' :
  reserveRevisionPublication now i c = Ok (r, c') → same_tables c c'.
Proof.
  unfold reserveRevisionPublication, revision_conflict, throw.
  destruct (vpubs c !! revisionPublicationIdentity i) eqn:Hk; rewrite ?Hk; repeat case_match; intros [= _ <-]; by destruct c.
Qed.

Lemma confirm_revision_frame i c r c' :
  confirmRevisionPublication i c = Ok (r, c') → same_tables c c'.
Proof.
  unfold confirmRevisionPublication, revision_conflict, throw. repeat case_match; intros [= _ <-]; by destruct c.
Qed.

Lemma register_frame now i c r c' :
  registerExtraction now i c = Ok (r, c') →
  control c' = control c ∧ restores c' = restores c ∧ revisions c' = revisions c.
Proof.
  unfold registerExtraction, bind, read, throw, ret, extraction_conflict, insert_observation.
  repeat case_match; intros [= _ <-]; simplify_eq; by destruct c.
Qed.

Lemma control_frame now s i seen c r c' :
  changeMaintenanceControl now s i seen c = Ok (r, c') →
  extractions c' = extractions c ∧ restores c' = restores c ∧ revisions c' = revisions c
  ∧ (control c' = control c ∨ mc_changed_by (control c') = mo_actor i).
Proof.
  unfold changeMaintenanceControl, bind, read, throw, ret, control_conflict.
  repeat case_match; intros [= _ <-]; simplify_eq; destruct c; naive_solver.
Qed.

Lemma restore_frame now i seen c r c' :
  restoreMemoryTree now i seen c = Ok (r, c') →
  extractions c' = extractions c ∧ control c' = control c ∧ revisions c' = revisions c
  ∧ ∀ id o, restores c' !! id = Some o → restores c !! id = None → rs_actor o = ro_actor i.
Proof.
  unfold restoreMemoryTree, bind, read, throw, ret, revision_conflict.
  destruct (restores seen !! _).
  { destruct (_ && _); [|done]. intros [= _ <-]. do 3 (split; [done|]). intros id o. congruence. }
  destruct (negb _); [done|]. destruct (is_null _); [done|]. destruct (not_null _); [done|].
  destruct (_ || _); [done|]. intros [= _ <-]. destruct c; simpl. do 3 (split; [done|]).
  intros id o Ho Hn. apply lookup_insert_Some in Ho as [[_ <-]|[_ Ho]]; [done|congruence].
Qed.

Lemma create_frame now le i h c r c' :
  refines h c → createMemoryTreeRevision now le i c = Ok (r, c') →
  extractions c' = extractions c ∧ control c' = control c ∧ restores c' = restores c
  ∧ ∀ n v, revisions c' !! n = Some v → revisions c !! n = None → v = revision_of now i.
Proof.
  intros Hr. rewrite (create_spec now le i h c Hr). destruct (other_revision_selected _ _); [done|].
  destruct (confirmed_revision _ _) as [p|]; [|done]. destruct (replayed _ c) as [[m w]|].
  { destruct (identical_revision _ _ _ _ _); [|done]. intros [= _ <-]. do 3 (split; [done|]). intros n v. congruence. }
  repeat (destruct (_ : bool); [done|]). intros [= _ <-]. do 3 (split; [done|]).
  intros n v Hv Hn. unfold committed in Hv. cbn [revisions] in Hv.
  apply lookup_insert_Some in Hv as [[_ <-]|[_ Hv]]; [done|congruence].
Qed.

(** * Roles *)

Lemma bearer_one_token h a b :
  bearer_token_matches h a = true → bearer_token_matches h b = true → a = b.
Proof.
  unfold bearer_token_matches. destruct h as [h|]; [|done].
  intros [_ Ha%String.eqb_eq]%andb_true_iff [_ Hb%String.eqb_eq]%andb_true_iff. congruence.
Qed.

Definition token_of (worker operator : string) (r : catalog_role) : string :=
  match r with Worker => worker | CatalogOperator => operator end.

Lemma authenticate_ok worker operator h allowed r :
  authenticate worker operator h allowed = Ok r →
  r ∈ allowed ∧ bearer_token_matches h (token_of worker operator r) = true.
Proof.
  unfold authenticate. destruct (bearer_token_matches h worker) eqn:Hw; [|destruct (bearer_token_matches h operator) eqn:Ho];
    simpl; try done; (destruct (bool_decide _) eqn:Hin; [|done]); intros [= <-];
    by apply bool_decide_eq_true in Hin.
Qed.

Lemma authenticated_input role expected tree source i :
  authenticatedRevisionInput role expected tree source = Ok i →
  match rc_source i with
  | Maintenance _ _ _ => role = Worker
  | Operator _ a => role = CatalogOperator ∧ a = operatorActor
  end.
Proof. by destruct source, role; intros [= <-]. Qed.

(** What a request of a role may have written. *)
Record within_role (now : Z) (role : catalog_role) (c c' : catalog) : Prop := {
  wr_extractions : extractions c' ≠ extractions c → role = Worker;
  wr_control : control c' ≠ control c →
    role = CatalogOperator ∧ mc_changed_by (control c') = operatorActor;
  wr_restores id o : restores c' !! id = Some o → restores c !! id = None →
    role = CatalogOperator ∧ rs_actor o = operatorActor;
  wr_revisions n v : revisions c' !! n = Some v → revisions c !! n = None →
    match role with
    | Worker => v_source_kind v = "maintenance" ∧ v_actor v = None
    | CatalogOperator => v_source_kind v = "operator" ∧ v_actor v = Some operatorActor
    end;
}.

Lemma same_within now role c c' : same_tables c c' → within_role now role c c'.
Proof. intros (H1 & H2 & H3 & H4). split; rewrite ?H1, ?H2, ?H3, ?H4; congruence. Qed.

Lemma view_same {A} (f : catalog → result A) k c r c' : view f k c = Ok (r, c') → c' = c.
Proof. unfold view. destruct (f c); [|done]. by intros [= _ <-]. Qed.

Section Handlers.
Context (print_json : json → string) (parse_json : string → option json) (utf8 : string → string).
Context (iso_text : Z → string) (date_parses : string → bool) (timestamp_of : string → option Z).
Context (collate_le : string → string → bool) (month_of : Z → Z) (now : Z).
Context (message_of : failure → string) (workerToken operatorToken : string).

Abbreviation handle :=
  (handle print_json parse_json utf8 iso_text date_parses timestamp_of collate_le month_of now).
Abbreviation serve_catalog :=
  (serve_catalog print_json parse_json utf8 iso_text date_parses timestamp_of collate_le month_of now
     message_of workerToken operatorToken).

Lemma handle_within role seen req h c reply c' :
  refines h c → (∀ allowed, route_roles req = Some allowed → role ∈ allowed) →
  handle role seen req c = Ok (reply, c') → within_role now role c c'.
Proof.
  intros Hr Hroles Hh.
  assert (Hview : c' = c → within_role now role c c') by (intros ->; by apply same_within).
  destruct req; simpl in Hh; unfold bind, answer, ret in Hh;
    try (by apply Hview; injection Hh as _ <-); try (by eapply Hview, view_same).
  - destruct (reserveExtractionPublication _ _ c) as [[p c1]|] eqn:He; [|done]. injection Hh as _ <-.
    by eapply same_within, reserve_extraction_frame.
  - destruct (confirmExtractionPublication _ c) as [[p c1]|] eqn:He; [|done]. injection Hh as _ <-.
    by eapply same_within, confirm_extraction_frame.
  - destruct (authenticatedRevisionInput _ _ _ _) as [i|]; [|done].
    destruct (reserveRevisionPublication _ _ c) as [[p c1]|] eqn:He; [|done]. injection Hh as _ <-.
    by eapply same_within, reserve_revision_frame.
  - destruct (authenticatedRevisionInput _ _ _ _) as [i|]; [|done].
    destruct (confirmRevisionPublication _ c) as [[p c1]|] eqn:He; [|done]. injection Hh as _ <-.
    by eapply same_within, confirm_revision_frame.
  - destruct (_ || _); [done|]. by eapply Hview, view_same.
  - destruct (registerExtraction _ _ c) as [[b c1]|] eqn:He; [|done]. injection Hh as _ <-.
    apply register_frame in He as (H1 & H2 & H3). pose proof (Hroles _ eq_refl) as Hin.
    split; rewrite ?H1, ?H2, ?H3; try congruence. intros _. by apply list_elem_of_singleton in Hin.
  - destruct (changeMaintenanceControl _ _ _ _ c) as [[b c1]|] eqn:He; [|done]. injection Hh as _ <-.
    apply control_frame in He as (H1 & H2 & H3 & H4). pose proof (Hroles _ eq_refl) as Hin%list_elem_of_singleton.
    split; rewrite ?H1, ?H2, ?H3; try congruence. intros ?. by destruct H4.
  - destruct (changeMaintenanceControl _ _ _ _ c) as [[b c1]|] eqn:He; [|done]. injection Hh as _ <-.
    apply control_frame in He as (H1 & H2 & H3 & H4). pose proof (Hroles _ eq_refl) as Hin%list_elem_of_singleton.
    split; rewrite ?H1, ?H2, ?H3; try congruence. intros ?. by destruct H4.
  - destruct (authenticatedRevisionInput _ _ _ _) as [i|] eqn:Hi; [|done].
    destruct (createMemoryTreeRevision _ _ _ c) as [[p c1]|] eqn:He; [|done]. injection Hh as _ <-.
    apply (create_frame _ _ _ h) in He as (H1 & H2 & H3 & H4); [|done]. apply authenticated_input in Hi.
    split; rewrite ?H1, ?H2, ?H3; try congruence. intros n v Hv Hn. rewrite (H4 _ _ Hv Hn). unfold revision_of.
    cbn [v_source_kind v_actor]. destruct (rc_source i); [by subst|]. by destruct Hi as [-> ->].
  - destruct (restoreMemoryTree _ _ _ c) as [[p c1]|] eqn:He; [|done]. injection Hh as _ <-.
    apply restore_frame in He as (H1 & H2 & H3 & H4). pose proof (Hroles _ eq_refl) as Hin%list_elem_of_singleton.
    split; rewrite ?H1, ?H2, ?H3; try congruence. intros id o Ho Hn. split; [done|]. by apply (H4 id).
Qed.

(** C28: nobody acts in another's name: once the application has started, a request changes the
    catalog only under one of the two tokens, and under that one alone; extractions come
    from the worker; the switch, restores and operator revisions from the operator, and
    they carry the identity the server gives it, whatever the body says; a revision of the
    worker is a maintenance and has no actor. *)
Theorem writes_carry_their_role header seen req c l reply c' :
  createApp workerToken operatorToken = Ok tt → trace collate_le (c :: l) →
  serve_catalog header seen req c = (reply, c') → c' ≠ c →
  ∃ role, bearer_token_matches header (token_of workerToken operatorToken role) = true
    ∧ (∀ role', bearer_token_matches header (token_of workerToken operatorToken role') = true → role' = role)
    ∧ within_role now role c c'.
Proof.
  intros Happ Ht Hs Hne. destruct (trace_refines _ _ _ Ht) as [h Hr].
  assert (Hd : workerToken ≠ operatorToken).
  { unfold createApp in Happ. by destruct (String.eqb_spec workerToken operatorToken). }
  unfold CatalogServer.serve_catalog in Hs. destruct (route_roles req) as [allowed|] eqn:Hroute.
  - destruct (authenticate _ _ _ allowed) as [role|] eqn:Hauth; [|by injection Hs as _ <-].
    apply authenticate_ok in Hauth as [Hin Hb]. exists role. split; [done|]. split.
    + intros role' Hb'. pose proof (bearer_one_token _ _ _ Hb Hb') as He. by destruct role, role'; simpl in He.
    + destruct (handle role seen req c) as [[reply' c1]|] eqn:Hh; [|by injection Hs as _ <-].
      injection Hs as _ <-. apply (handle_within role seen req h c reply'); [done| |done].
      intros allowed' Hal. rewrite Hroute in Hal. by injection Hal as <-.
  - destruct req; try done. by injection Hs as _ <-.
Qed.
End Handlers.

(** * Repeating an operation *)

(** An operation of an operator happens once, but only a request that sees it is told so: the
    same restore, or the same switch, asked for again is answered as the first was when
    the transaction begins after the first one committed, and is refused without a trace
    when its first read came before, although its operation has happened. *)
Theorem repeated_operations le now now' seen0 c l c1 c' l' seen :
  trace le (c :: l) → trace le (c' :: l') → c1 ∈ c' :: l' → seen ∈ c' :: l' →
  (∀ i n, restoreMemoryTree now i seen0 c = Ok ((true, n), c1) →
    match restores seen !! ro_operation_id i with
    | Some _ => restoreMemoryTree now' i seen c' = Ok ((false, n), c')
    | None => ∃ f, restoreMemoryTree now' i seen c' = Err f
    end)
  ∧ ∀ s i r, changeMaintenanceControl now s i seen0 c = Ok ((true, r), c1) →
    match control_ops seen !! mo_operation_id i with
    | Some _ => changeMaintenanceControl now' s i seen c' = Ok ((false, r), c')
    | None => ∃ f, changeMaintenanceControl now' s i seen c' = Err f
    end.
Proof.
  intros Ht Ht' Hin Hseen. pose proof (trace_grows _ _ _ _ Ht' Hin) as Hg.
  pose proof (trace_grows _ _ _ _ Ht' Hseen) as Hgs. split.
  - intros i n Hi.
    assert (Hrow : n = ro_restored_revision i ∧ restores c1 !! ro_operation_id i = Some {|
      rs_expected := ro_expected_active_revision i; rs_restored := ro_restored_revision i;
      rs_actor := ro_actor i; rs_created_at := now |}).
    { revert Hi. unfold restoreMemoryTree, bind, read, throw, ret, revision_conflict.
      destruct (restores seen0 !! _); [by destruct (_ && _)|].
      destruct (negb _); [done|]. destruct (is_null _); [done|]. destruct (not_null _); [done|].
      destruct (_ || _); [done|]. intros [= <- <-]. destruct c; simpl. by rewrite lookup_insert_eq. }
    destruct Hrow as [-> Hrow]. pose proof (lookup_weaken _ _ _ _ Hrow (gr_restores _ _ Hg)) as Hrow'.
    destruct (restores seen !! ro_operation_id i) as [o|] eqn:Ho.
    + assert (Hsame : Some o = restores c' !! ro_operation_id i)
        by (symmetry; by eapply lookup_weaken, gr_restores). rewrite Hrow' in Hsame. injection Hsame as ->.
      unfold restoreMemoryTree. rewrite Ho. simpl. by rewrite !Z.eqb_refl, bool_decide_eq_true_2.
    + unfold restoreMemoryTree, bind, read, throw, ret, revision_conflict. rewrite Ho.
      destruct (negb _); [by eexists|]. destruct (is_null _); [by eexists|]. cbv beta. rewrite Hrow'. by eexists.
  - intros s i r Hi.
    assert (Hrow : ∃ o, control_ops c1 !! mo_operation_id i = Some o ∧ control_of_op o = r
      ∧ co_target o = s ∧ co_expected o = mo_expected_generation i ∧ co_actor o = mo_actor i).
    { revert Hi. unfold changeMaintenanceControl, bind, read, throw, ret, control_conflict.
      destruct (control_ops seen0 !! _); [by destruct (_ && _)|].
      destruct (negb _); [done|]. destruct (negb _); [done|]. destruct (not_null _); [done|].
      intros [= <- <-]. destruct c; simpl. eexists. by rewrite lookup_insert_eq. }
    destruct Hrow as (o & Hrow & Hr & H1 & H2 & H3).
    pose proof (lookup_weaken _ _ _ _ Hrow (gr_control_ops _ _ Hg)) as Hrow'.
    destruct (control_ops seen !! mo_operation_id i) as [o'|] eqn:Ho.
    + assert (Hsame : Some o' = control_ops c' !! mo_operation_id i)
        by (symmetry; by eapply lookup_weaken, gr_control_ops). rewrite Hrow' in Hsame. injection Hsame as ->.
      unfold changeMaintenanceControl. rewrite Ho, H1, H2, H3, Z.eqb_refl, !bool_decide_eq_true_2 by done. simpl.
      by rewrite Hr.
    + unfold changeMaintenanceControl, bind, read, throw, ret, control_conflict. rewrite Ho.
      destruct (negb _); [by eexists|]. destruct (negb _); [by eexists|]. cbv beta zeta.
      replace (control_ops (c' <| control := _ |>)) with (control_ops c') by by destruct c'.
      rewrite Hrow'. by eexists.
Qed.

(** * Witnesses *)

Definition restore_1 : MemoryTreeRestoreOperation := {|
  ro_operation_id := "restore-1"; ro_expected_active_revision := 2; ro_restored_revision := 1; ro_actor := an_operator |}.

(** The operator restores the first revision over HTTP. *)
Lemma writes_carry_their_role_witness :
  let c := newest caseless edited in
  ∃ reply c', serve_catalog (λ _, "") (λ _, None) (λ s, s) (λ _, "") (λ _, true) (λ _, None) caseless (λ t, t) 60
      (λ _, "") "w" "o" (Some "Bearer o") c (RestoreMemoryTree "restore-1" 2 1) c = (reply, c')
    ∧ reply = (201, IsRestore true 1 "restore-1") ∧ within_role 60 CatalogOperator c c'.
Proof.
  intros c. destruct (newest_trace caseless edited) as [l Ht]; [by vm_compute|]. fold c in Ht.
  destruct (serve_catalog _ _ _ _ _ _ _ _ _ _ "w" "o" _ c _ c) as [reply c'] eqn:Hs.
  exists reply, c'. split; [done|].
  assert (Hreply : reply = (201, IsRestore true 1 "restore-1")).
  { apply (f_equal fst) in Hs. change (fst (reply, c')) with reply in Hs. rewrite <- Hs. by vm_compute. }
  assert (Hne : c' ≠ c).
  { intros ->. apply (f_equal (active_revision ∘ snd)) in Hs. by vm_compute in Hs. }
  destruct (writes_carry_their_role _ _ _ _ _ _ _ _ _ _ "w" "o" _ _ _ c l _ c' eq_refl Ht Hs Hne)
    as (role & Hb & _ & Hw).
  split; [done|]. destruct role; [by vm_compute in Hb|done].
Defined.

(** The restore of [CatalogHistory] asks again, having seen it and not. *)
Lemma repeated_operations_witness :
  let c := newest caseless edited in let c1 := newest caseless (edited ++ [(60, OpRestore restore_1)]) in
  restoreMemoryTree 70 restore_1 c1 c1 = Ok ((false, 1), c1)
  ∧ ∃ f, restoreMemoryTree 70 restore_1 c c1 = Err f.
Proof.
  intros c c1. destruct (newest_trace caseless edited) as [l Ht]; [by vm_compute|].
  destruct (newest_suffix caseless edited [(60, OpRestore restore_1)]) as (l' & Ht' & Hin); [by vm_compute|].
  assert (Hok : match restoreMemoryTree 60 restore_1 c c with
                | Ok ((b, n), _) => b && (n =? 1) | Err _ => false end = true) by by vm_compute.
  destruct (restoreMemoryTree 60 restore_1 c c) as [[[[] n] c2]|] eqn:Hc; [|discriminate Hok..].
  apply Z.eqb_eq in Hok as ->.
  assert (Hc1 : c1 = c2).
  { apply newest_snoc; [by vm_compute|]. simpl. unfold bind. fold c. by rewrite Hc. }
  rewrite <- Hc1 in Hc.
  assert (Ho1 : not_null (restores c1 !! ro_operation_id restore_1) = true) by by vm_compute.
  assert (Ho : not_null (restores c !! ro_operation_id restore_1) = false) by by vm_compute.
  fold c in Ht, Hin. fold c1 in Ht', Hin. clearbody c c1. split.
  - pose proof (proj1 (repeated_operations caseless 60 70 c c l c1 c1 l' c1 Ht Ht' (list_elem_of_here _ _)
      (list_elem_of_here _ _)) restore_1 1 Hc) as Hseen.
    destruct (restores c1 !! ro_operation_id restore_1); [exact Hseen|discriminate Ho1].
  - pose proof (proj1 (repeated_operations caseless 60 70 c c l c1 c1 l' c Ht Ht' (list_elem_of_here _ _) Hin)
      restore_1 1 Hc) as Hseen.
    destruct (restores c !! ro_operation_id restore_1); [discriminate Ho|exact Hseen].
Defined.
