(* ===== verification/Gateway.v ===== *)
(** The execution gateway (services/execution-gateway): the Temporal client that starts and
    describes runs (src/temporal-execution-client.ts), and the HTTP handlers over it
    (src/server.ts, src/execution-api-validation.ts).

    Temporal itself is a class with what its documentation promises; between two requests the
    others act on it ([env]).  The JSON schemas of the contract are arguments: [input_error],
    [result_error] and [workflow_error] say what they reject. *)

From Stdlib Require Import DecimalString.
From S2P Require Import Prelude Schema InputBundles.

(** * Exceptions over a remote state *)

Section Remote.
Context {E X : Type}.

(** A routine: from the number of requests so far and the remote state. *)
Definition remote (A : Type) : Type := nat → E → (A + X) * nat * E.

Definition done {A} (a : A) : remote A := λ i e, (inl a, i, e).
Definition raises {A} (x : X) : remote A := λ i e, (inr x, i, e).
Definition followed {A B} (m : remote A) (k : A → remote B) : remote B := λ i e,
  match m i e with
  | (inl a, i', e') => k a i' e'
  | (inr x, i', e') => (inr x, i', e')
  end.
(** [try { m } catch (x) { h(x) }]. *)
Definition rescue {A} (m : remote A) (h : X → remote A) : remote A := λ i e,
  match m i e with
  | (inr x, i', e') => h x i' e'
  | r => r
  end.
End Remote.
Arguments remote : clear implicits.

Declare Scope remote_scope.
Notation "'let>' x := m 'in' k" := (followed m (λ x, k))
  (at level 10, x name, m at level 100, k at level 200,
   format "'[v' 'let>'  x  :=  m  'in' '/' k ']'") : remote_scope.
#[global] Open Scope remote_scope.

(** * Temporal *)

(** The memo of a workflow; a value that is not a text is none. *)
Record workflow_memo := { mm_workflow : option string; mm_fingerprint : option string }.
#[export] Instance workflow_memo_eq_dec : EqDecision workflow_memo.
Proof. solve_decision. Defined.

(** Its description: the name of its status and its memo. *)
Record description := { ds_status : option string; ds_memo : workflow_memo }.

Inductive temporal_error :=
  | WorkflowExecutionAlreadyStarted
  | WorkflowNotFound
  | TemporalUnavailable (message : string).

Class Temporal (E : Type) := {
  (** [workflow.start] with REJECT_DUPLICATE: the id, the argument and the memo. *)
  start_workflow : string → json → workflow_memo → E → (unit + temporal_error) * E;
  describe_workflow : string → E → description + temporal_error;
  workflow_result : string → E → json + temporal_error;
}.

(** What the documentation promises: a start, whatever it answers, creates the workflow where
    there was none under the id, with the memo it was given, or changes nothing; it has
    created it when it answers that it has; it answers that there is one already only when
    there is.  A description is that of the workflow, and a workflow that is not found is
    not there. *)
Class TemporalLaws (E : Type) `{Temporal E} := {
  bound : string → E → option workflow_memo;
  start_creates id args memo e r e' :
    start_workflow id args memo e = (r, e') →
    (e' = e ∨ (bound id e = None ∧ bound id e' = Some memo
               ∧ ∀ id', id' ≠ id → bound id' e' = bound id' e))
    ∧ (r = inl tt → bound id e = None ∧ bound id e' = Some memo)
    ∧ (r = inr WorkflowExecutionAlreadyStarted → e' = e ∧ is_Some (bound id e));
  describe_there id e d : describe_workflow id e = inl d → bound id e = Some (ds_memo d);
  describe_absent id e : describe_workflow id e = inr WorkflowNotFound → bound id e = None;
}.

(** * Values *)

(** Some text of the list, as [includes(String(v))] finds it. *)
Fixpoint names_one (l : list string) (v : json) : bool :=
  match v with
  | JString s => existsb (String.eqb s) l
  | JArray [x] => names_one l x
  | _ => false
  end.

Definition is_text (v : option json) : bool := match v with Some (JString _) => true | _ => false end.

(** [isExecutionError]. *)
Definition isExecutionError (value : option json) : bool :=
  match value with
  | Some (JObject f) =>
      let get k := json_get k (JObject f) in
      match get "category" with
      | Some c => names_one ["input"; "workflow"; "llm"; "runtime"; "internal"] c
      | None => false
      end
      && is_text (get "code") && is_text (get "message")
      && match get "retryable" with Some (JBool _) => true | _ => false end
      && match get "details" with None | Some (JObject _) => true | _ => false end
  | _ => false
  end.

Definition executionError (code message : string) : json :=
  JObject [("category", JString "runtime"); ("code", JString code); ("message", JString message);
           ("retryable", JBool false); ("details", JObject [])].

(** * The identity of a request *)

Section Canonical.
(** [left.localeCompare(right) <= 0]. *)
Context (locale_le : string → string → bool).

(** The canonical text of an array index, which an object lists before its other keys. *)
Definition array_index (key : string) : option Z :=
  match DecimalString.NilZero.int_of_string key with
  | Some d =>
      let n := Z.of_int d in
      if (0 <=? n) && (n <? 2 ^ 32 - 1) && String.eqb (DecimalString.NilZero.string_of_int (Z.to_int n)) key
      then Some n else None
  | None => None
  end.

(** [Object.fromEntries]: the array indices ascending, then the other keys as they came. *)
Definition index_le (x y : string * json) : bool :=
  match array_index x.1, array_index y.1 with Some n, Some m => n <=? m | _, _ => true end.
Definition fromEntries (entries : list (string * json)) : list (string * json) :=
  sort_by index_le (List.filter (λ kv, not_null (array_index kv.1)) entries)
  ++ List.filter (λ kv, is_null (array_index kv.1)) entries.

(** The comparison looks at the keys alone, so that the values may be replaced before it. *)
Fixpoint canonicalValue (value : json) : json :=
  match value with
  | JArray l => JArray (canonicalValue <$> l)
  | JObject fields =>
      JObject (fromEntries (sort_by (λ x y, locale_le x.1 y.1)
                              ((λ kv, (kv.1, canonicalValue kv.2)) <$> fields)))
  | _ => value
  end.

Record ExecutionWorkflowInput := {
  ew_workflow : string;
  ew_run_id : string;
  ew_input : json;
  ew_timeout_seconds : Z;
  ew_runtime : option json; (** None when the body has none *)
}.

Definition request_identity (r : ExecutionWorkflowInput) : json :=
  JObject ([("workflow", JString (ew_workflow r)); ("run_id", JString (ew_run_id r)); ("input", ew_input r)]
           ++ match ew_runtime r with Some v => [("runtime", v)] | None => [] end).

(** [JSON.stringify], and the hexadecimal SHA-256 of a text. *)
Context (print_json : json → string) (sha256 : string → string).

Definition fingerprint (r : ExecutionWorkflowInput) : string :=
  sha256 (print_json (canonicalValue (request_identity r))).
End Canonical.

(** * The Temporal client *)

Record uri_parts := {
  up_protocol : string; up_hostname : string; up_pathname : string; up_username : string;
  up_password : string; up_port : string; up_search : string; up_hash : string;
}.

Inductive gateway_error :=
  | ExecutionRunConflict (runId requestedWorkflow : string) (existingWorkflow : option string)
  | GatewayError (message : string)
  | GatewayStatus (statusCode : Z) (message : string). (** an error with a statusCode *)

(** ExecutionRecord. *)
Record execution_record := {
  xe_run_id : string;
  xe_workflow : option string;
  xe_status : string;
  xe_result : option json;
  xe_error : option json;
  xe_memory_processing : option json;
  xe_artifact_storage : option json;
}.

(** [Number.isSafeInteger(v) && v >= 0]. *)
Definition safe_size (v : option json) : bool :=
  match v with Some (JNumber n) => (0 <=? n) && (n <=? MAX_SAFE_INTEGER) | _ => false end.

Definition diagnostic_path (runId : string) : string :=
  "/runs/" +:+ runId +:+ "/artifacts/diagnostic-tree.v1.tar.zst".

Definition diagnostic_uri (u : uri_parts) (runId : string) : bool :=
  String.eqb (up_protocol u) "s3:" && negb (String.eqb (up_hostname u) "")
  && String.eqb (up_pathname u) (diagnostic_path runId)
  && String.eqb (up_username u) "" && String.eqb (up_password u) "" && String.eqb (up_port u) ""
  && String.eqb (up_search u) "" && String.eqb (up_hash u) "".

Definition has_text (key text : string) (v : json) : bool := bool_decide (json_get key v = Some (JString text)).

(** The fields of the reference but for its URI. *)
Definition diagnostic_fields (artifact : json) : bool :=
  has_text "kind" "diagnostic_bundle" artifact && has_text "media_type" "application/tar+zstd" artifact
  && match json_get "digest" artifact with Some (JString d) => valid_digest d | _ => false end
  && safe_size (json_get "size_bytes" artifact).

Section Client.
Context {E : Type} `{Temporal E}.
Context (env : nat → E → E).
Context (parse_url : string → option uri_parts).
Context (input_error : string → json → option string) (result_error : string → json → option string).
Context (workflow_error : ExecutionWorkflowInput → option string).
Context (locale_le : string → string → bool) (print_json : json → string) (sha256 : string → string).

(** [parseRunDiagnosticArtifact]: the storage it returns, or the message of the error. *)
Definition parseRunDiagnosticArtifact (value : option json) (runId : string) : json + string :=
  match value with
  | Some (JObject f) =>
      if negb (has_text "status" "available" (JObject f))
      then inr "Execution response is missing artifact_storage."
      else
        match json_get "artifact" (JObject f) with
        | Some (JObject a) =>
            match json_get "uri" (JObject a), json_get "digest" (JObject a), json_get "size_bytes" (JObject a) with
            | Some (JString uri), Some digest, Some size =>
                if negb (diagnostic_fields (JObject a))
                then inr "Execution response has malformed artifact metadata."
                else match parse_url uri with
                     | None => inr "Invalid URL"
                     | Some u =>
                         if negb (diagnostic_uri u runId)
                         then inr "Execution response has an invalid diagnostic artifact URI."
                         else inl (JObject [("status", JString "available");
                           ("artifact", JObject [("kind", JString "diagnostic_bundle"); ("uri", JString uri);
                              ("media_type", JString "application/tar+zstd"); ("digest", digest);
                              ("size_bytes", size)])])
                     end
            | _, _, _ => inr "Execution response has malformed artifact metadata."
            end
        | _ => inr "Execution response has malformed artifact metadata."
        end
  | _ => inr "Execution response is missing artifact_storage."
  end.

(** A request to Temporal, after whatever the others do. *)
Definition temporal {A} (f : E → (A + temporal_error) * E) : remote E gateway_error (A + temporal_error) :=
  λ i e, let (r, e') := f (env i e) in (inl r, S i, e').
Definition temporal_reads {A} (f : E → A + temporal_error) : remote E gateway_error (A + temporal_error) :=
  temporal (λ e, (f e, e)).

Definition error_text (t : temporal_error) : string :=
  match t with
  | WorkflowExecutionAlreadyStarted => "Workflow execution already started"
  | WorkflowNotFound => "Workflow not found"
  | TemporalUnavailable m => m
  end.

Definition unavailable_storage : json := JObject [("status", JString "unavailable")].

Definition failed_record (runId : string) (workflow : option string) (storage error : json) : execution_record := {|
  xe_run_id := runId; xe_workflow := workflow; xe_status := "failed"; xe_result := None;
  xe_error := Some error; xe_memory_processing := None; xe_artifact_storage := Some storage |}.

(** [response.memory_processing], when it is an object (an array is one). *)
Definition memory_processing_of (response : json) : option json :=
  match json_get "memory_processing" response with
  | Some (JObject f) => Some (JObject f)
  | Some (JArray l) => Some (JArray l)
  | _ => None
  end.

(** A completed workflow that says it succeeded. *)
Definition completed_record (runId : string) (workflow : option string) (response result : json) : execution_record :=
  match workflow with
  | None => failed_record runId None unavailable_storage
              (executionError "EXECUTION_RESPONSE_INVALID" "Completed execution is missing its workflow identity.")
  | Some w =>
      match result_error w result with
      | Some message => failed_record runId workflow unavailable_storage
                          (executionError "EXECUTION_RESPONSE_INVALID" message)
      | None =>
          match parseRunDiagnosticArtifact (json_get "artifact_storage" response) runId with
          | inr message =>
              failed_record runId workflow
                (JObject [("status", JString "failed"); ("error_code", JString "ARTIFACT_REFERENCE_INVALID");
                          ("message", JString "Execution returned an invalid run diagnostic artifact.")])
                (executionError "EXECUTION_RESPONSE_INVALID" message)
          | inl storage =>
              {| xe_run_id := runId; xe_workflow := workflow; xe_status := "succeeded"; xe_result := Some result;
                 xe_error := None; xe_memory_processing := memory_processing_of response;
                 xe_artifact_storage := Some storage |}
          end
      end
  end.

(** What the result of a completed workflow says. *)
Definition response_record (runId : string) (workflow : option string) (response : json) : execution_record :=
  match json_get "ok" response, json_get "result" response with
  | Some (JBool true), Some result => completed_record runId workflow response result
  | _, _ =>
      failed_record runId workflow unavailable_storage
        (match json_get "error" response with
         | Some error => if isExecutionError (Some error) then error
                         else executionError "EXECUTION_RESPONSE_INVALID" "Invalid workflow response."
         | None => executionError "EXECUTION_RESPONSE_INVALID" "Invalid workflow response."
         end)
  end.

(** [statusName]. *)
Definition statusName (s : option string) : string := coalesce s "UNKNOWN".

(** The workflow of a memo; an empty text is left out of the record. *)
Definition memo_workflow (m : workflow_memo) : option string :=
  match mm_workflow m with Some w => if String.eqb w "" then None else Some w | None => None end.

Definition get (runId : string) : remote E gateway_error (option execution_record) :=
  let> described := temporal_reads (describe_workflow runId) in
  match described with
  | inr WorkflowNotFound => done None
  | inr t => raises (GatewayError (error_text t))
  | inl d =>
      let status := statusName (ds_status d) in
      let workflow := memo_workflow (ds_memo d) in
      if String.eqb status "RUNNING" then
        done (Some {| xe_run_id := runId; xe_workflow := workflow; xe_status := "running"; xe_result := None;
                      xe_error := None; xe_memory_processing := None; xe_artifact_storage := None |})
      else if String.eqb status "COMPLETED" then
        let> answered := temporal_reads (workflow_result runId) in
        match answered with
        | inr t => raises (GatewayError (error_text t))
        | inl JNull => raises (GatewayError "Cannot read properties of null")
        | inl response => done (Some (response_record runId workflow response))
        end
      else done (Some (failed_record runId workflow unavailable_storage
             (executionError "EXECUTION_FAILED" ("Temporal workflow ended with status " +:+ status +:+ "."))))
  end.

Definition memo_of (request : ExecutionWorkflowInput) : workflow_memo := {|
  mm_workflow := Some (ew_workflow request);
  mm_fingerprint := Some (fingerprint locale_le print_json sha256 request) |}.

(** The argument of the workflow. *)
Definition workflow_args (r : ExecutionWorkflowInput) : json :=
  JObject ([("workflow", JString (ew_workflow r)); ("run_id", JString (ew_run_id r)); ("input", ew_input r);
            ("timeout_seconds", JNumber (ew_timeout_seconds r))]
           ++ match ew_runtime r with Some v => [("runtime", v)] | None => [] end).

Definition start (request : ExecutionWorkflowInput) : remote E gateway_error execution_record :=
  match workflow_error request with
  | Some message => raises (GatewayError message)
  | None =>
      let> started := temporal (start_workflow (ew_run_id request) (workflow_args request) (memo_of request)) in
      match started with
      | inl _ =>
          let> record := get (ew_run_id request) in
          done (coalesce record {| xe_run_id := ew_run_id request; xe_workflow := Some (ew_workflow request);
                                   xe_status := "queued"; xe_result := None; xe_error := None;
                                   xe_memory_processing := None; xe_artifact_storage := None |})
      | inr WorkflowExecutionAlreadyStarted =>
          let> existing := get (ew_run_id request) in
          let> described := temporal_reads (describe_workflow (ew_run_id request)) in
          match described with
          | inr t => raises (GatewayError (error_text t))
          | inl d =>
              match existing with
              | Some record =>
                  if opt_eqb (mm_fingerprint (ds_memo d)) (mm_fingerprint (memo_of request)) then done record
                  else raises (ExecutionRunConflict (ew_run_id request) (ew_workflow request) (xe_workflow record))
              | None => raises (ExecutionRunConflict (ew_run_id request) (ew_workflow request) None)
              end
          end
      | inr t => raises (GatewayError (error_text t))
      end
  end.

(** * The server *)

Record gateway_response := { gr_status : Z; gr_body : json }.

Definition text_entry (key : string) (v : option string) : list (string * json) :=
  match v with Some s => [(key, JString s)] | None => [] end.
Definition json_entry (key : string) (v : option json) : list (string * json) :=
  match v with Some x => [(key, x)] | None => [] end.

(** [response(record)]. *)
Definition record_body (r : execution_record) : json :=
  JObject ([("run_id", JString (xe_run_id r))] ++ text_entry "workflow" (xe_workflow r)
           ++ [("status", JString (xe_status r))] ++ json_entry "result" (xe_result r)
           ++ json_entry "artifact_storage" (xe_artifact_storage r)
           ++ json_entry "memory_processing" (xe_memory_processing r) ++ json_entry "error" (xe_error r)).

Definition semanticError (code category message : string) (details : json) : json :=
  JObject [("category", JString category); ("code", JString code); ("message", JString message);
           ("retryable", JBool false); ("details", details)].

Definition supportedWorkflows : list string := ["issue-review"; "pull-request-review"; "repository-review"].

Definition tokenMatches (header : option string) (expected : string) : bool :=
  match header with
  | Some h => String.prefix "Bearer " h && String.eqb (String.substring 7 (String.length h - 7) h) expected
  | None => false
  end.

Record run_submission := { rb_run_id : string; rb_input : json; rb_runtime : option json }.

(** The gateway's own policy, not the caller's. *)
Context (workflowTimeoutSeconds : Z).

Definition run_request (workflow : string) (body : run_submission) : ExecutionWorkflowInput := {|
  ew_workflow := workflow; ew_run_id := rb_run_id body; ew_input := rb_input body;
  ew_timeout_seconds := workflowTimeoutSeconds; ew_runtime := rb_runtime body |}.

Definition run_reply (status : Z) (runId : string) (workflow : option string) (error : json) : gateway_response := {|
  gr_status := status;
  gr_body := JObject ([("run_id", JString runId)] ++ text_entry "workflow" workflow ++ [("error", error)]) |}.

Definition createRun (workflow : string) (body : run_submission) : remote E gateway_error gateway_response :=
  if negb (existsb (String.eqb workflow) supportedWorkflows)
  then done (run_reply 400 (rb_run_id body) (Some workflow)
         (semanticError "EXECUTION_WORKFLOW_UNSUPPORTED" "workflow" ("Unsupported workflow: " +:+ workflow) (JObject [])))
  else match input_error workflow (rb_input body) with
  | Some message =>
      done (run_reply 400 (rb_run_id body) (Some workflow)
        (semanticError "EXECUTION_REQUEST_INVALID" "input" message (JObject [])))
  | None =>
      rescue
        (let> record := start (run_request workflow body) in
         done {| gr_status := 202; gr_body := record_body record |})
        (λ x, match x with
              | ExecutionRunConflict runId requestedWorkflow existing =>
                  done (run_reply 409 runId (Some requestedWorkflow)
                    (semanticError "EXECUTION_RUN_CONFLICT" "input"
                       ("Execution run_id " +:+ runId +:+ " is already bound to another request.")
                       (JObject [("existing_workflow", match existing with Some w => JString w | None => JNull end)])))
              | _ => raises x
              end)
  end.

Definition gateway_getRun (runId : string) : remote E gateway_error gateway_response :=
  let> record := get runId in
  match record with
  | Some r => done {| gr_status := 200; gr_body := record_body r |}
  | None => done (run_reply 404 runId None
              (semanticError "EXECUTION_RUN_NOT_FOUND" "runtime" "Execution run not found." (JObject [])))
  end.

(** [new Set(ids)]: each once, where it came first. *)
Definition distinct (ids : list string) : list string :=
  foldl (λ acc id, if existsb (String.eqb id) acc then acc else acc ++ [id]) [] ids.

Fixpoint get_each (ids : list string) : remote E gateway_error (list (string * option execution_record)) :=
  match ids with
  | [] => done []
  | id :: ids' =>
      let> record := get id in
      let> records := get_each ids' in
      done ((id, record) :: records)
  end.

Definition getRunStatuses (run_ids : list string) : remote E gateway_error gateway_response :=
  let> records := get_each (distinct run_ids) in
  done {| gr_status := 200; gr_body := JObject
    [("runs", JArray (omap (λ e : string * option execution_record,
                              match e.2 with
                              | Some r => Some (JObject [("run_id", JString e.1); ("status", JString (xe_status r))])
                              | None => None
                              end) records));
     ("missing", JArray ((λ e : string * option execution_record, JString e.1)
                           <$> List.filter (λ e, is_null e.2) records))] |}.

(** The error handler of the application. *)
Definition error_answer (x : gateway_error) : gateway_response :=
  let (status, message) := match x with
                           | GatewayStatus n m => (n, m)
                           | GatewayError m => (500, m)
                           | ExecutionRunConflict id _ _ =>
                               (500, "Execution run_id " +:+ id +:+ " is already bound to another request.")
                           end in
  {| gr_status := status;
     gr_body := JObject [("error", executionError (if status =? 401 then "UNAUTHORIZED" else "EXECUTION_FAILED")
                                     (if status =? 500 then "Internal server error." else message))] |}.

Inductive gateway_request :=
  | CreateRun (workflow : string) (body : run_submission)
  | GetRun (runId : string)
  | GetRunStatuses (run_ids : list string).

(** A request: the token, the handler, the error handler.  It always answers. *)
Definition gateway (token : option string) (header : option string) (r : gateway_request) :
    nat → E → gateway_response * nat * E := λ i e,
  let m := match token with
           | Some t => if tokenMatches header t then done tt
                       else raises (GatewayStatus 401 "Missing or invalid execution gateway token.")
           | None => done tt
           end in
  match (let> authorized := m in
         match r with
         | CreateRun workflow body => createRun workflow body
         | GetRun runId => gateway_getRun runId
         | GetRunStatuses ids => getRunStatuses ids
         end) i e with
  | (inl reply, i', e') => (reply, i', e')
  | (inr x, i', e') => (error_answer x, i', e')
  end.
End Client.
