(* ===== verification/ExecutionClient.v ===== *)
(** The client of the Execution API in the Review Runs service (execution-client.ts), with the
    few lines of runtime/server-runtime.ts that hand it to the coordinator, over a network
    that may lose a request or its answer.  The service URL and the token are configured.

    [JSON.stringify] and [JSON.parse] carry a value unchanged.  The text [String(v)] of a value
    that is not a text is an argument, and so is which bodies exceed the byte budget. *)

From S2P Require Import Prelude Schema Tables Database PreparationStore RunRecord InputBundles Runtime Gateway.

(** * Responses *)

Definition EXECUTION_STATUS_VALUES : list string := ["queued"; "running"; "succeeded"; "failed"].
Definition EXECUTION_RUN_NOT_FOUND : string := "EXECUTION_RUN_NOT_FOUND".
Definition EXECUTION_STATUS_QUERY_LIMIT : nat := 200%nat.

Inductive client_failure :=
  | TransportFailure (message : string) (** a TypeError of fetch, or an AbortError *)
  | SyntaxFailure (message : string)
  | ExecutionProtocolError (code message : string)
  | ExecutionServiceError (code : json) (message : string) (retryable : json)
  | ExecutionSubmissionUncertainError (message : string).

(** The body of a response as it arrives. *)
Inductive wire_body := BodyEmpty | BodyJson (v : json) | BodyMalformed | BodyTooLarge.

(** The value, and the error of reading it. *)
Definition read_body (b : wire_body) : json * option client_failure :=
  match b with
  | BodyEmpty => (JNull, None)
  | BodyJson v => (v, None)
  | BodyMalformed => (JNull, Some (SyntaxFailure "Unexpected token in JSON"))
  | BodyTooLarge => (JNull, Some (ExecutionProtocolError "EXECUTION_RESPONSE_TOO_LARGE"
                              "Execution returned a response larger than the protocol budget."))
  end.

Definition isTerminalExecutionPollingError (x : client_failure) : bool :=
  match x with
  | ExecutionProtocolError _ _ => true
  | ExecutionServiceError code _ retryable =>
      bool_decide (retryable = JBool false) || bool_decide (code = JString EXECUTION_RUN_NOT_FOUND)
  | _ => false
  end.

Definition isWorkflow (v : option json) : bool :=
  match v with Some (JString w) => existsb (String.eqb w) supportedWorkflows | _ => false end.

Definition ok_status (status : Z) : bool := (200 <=? status) && (status <=? 299).
Definition isRetryableStatus (status : Z) : bool := (status =? 429) || (500 <=? status).
Definition isTransientTransportError (x : client_failure) : bool :=
  match x with TransportFailure _ => true | _ => false end.

(** [x ?? y] of a field that may be missing. *)
Definition or_default (x : option json) (y : json) : json :=
  match x with None | Some JNull => y | Some v => v end.

Section Parsing.
Context (to_text : json → string).
Context (parse_url : string → option uri_parts).

Definition text_of (v : json) : string := match v with JString s => s | _ => to_text v end.

(** [executionError] of the client. *)
Definition service_error (body : json) (status : Z) : client_failure :=
  let source := match json_get "error" body with Some (JObject f) => JObject f | _ => JObject [] end in
  ExecutionServiceError
    (or_default (json_get "code" source) (JString "EXECUTION_API_ERROR"))
    (text_of (or_default (json_get "message" source)
                (JString ("Execution returned HTTP " +:+ to_text (JNumber status) +:+ "."))))
    (or_default (json_get "retryable" source) (JBool (isRetryableStatus status))).

Definition parseResponse (body : json) (expectedRunId : string) (expectedWorkflow : option string) :
    json + client_failure :=
  match json_is_object body, json_get "status" body with
  | true, Some (JString status) =>
      if negb (existsb (String.eqb status) EXECUTION_STATUS_VALUES)
      then inr (ExecutionProtocolError "EXECUTION_INVALID_STATUS"
                  ("Execution returned an unknown status: " +:+ status +:+ "."))
      else if negb (bool_decide (json_get "run_id" body = Some (JString expectedRunId)))
      then inr (ExecutionProtocolError "EXECUTION_IDENTITY_MISMATCH"
                  ("Execution returned an unexpected run_id for " +:+ expectedRunId +:+ "."))
      else if negb (isWorkflow (json_get "workflow" body))
              || match expectedWorkflow with
                 | Some w => negb (bool_decide (json_get "workflow" body = Some (JString w)))
                 | None => false
                 end
      then inr (ExecutionProtocolError "EXECUTION_WORKFLOW_MISMATCH"
                  ("Execution returned an unexpected workflow for " +:+ expectedRunId +:+ "."))
      else inl body
  | _, _ => inr (ExecutionProtocolError "EXECUTION_INVALID_RESPONSE" "Execution returned an invalid run response.")
  end.

Definition invalid_storage (runId : string) : client_failure :=
  ExecutionProtocolError "EXECUTION_INVALID_ARTIFACT_STORAGE"
    ("Execution returned invalid artifact storage metadata for " +:+ runId +:+ ".").

Definition keys_among (allowed : list string) (v : json) : bool :=
  match v with JObject f => forallb (λ kv, existsb (String.eqb kv.1) allowed) f | _ => true end.

(** A field that is missing or a text. *)
Definition optional_text (v : option json) : bool := match v with None => true | _ => is_text v end.

Definition parseDiagnosticArtifactUri (value : option json) (runId : string) : option string :=
  match value with
  | Some (JString s) => match parse_url s with
                        | Some u => if diagnostic_uri u runId then Some s else None
                        | None => None
                        end
  | _ => None
  end.

(** A status is compared as a text: of an array with one text, [String] is that text, but it is
    not the text 'available'. *)
Definition parseArtifactStorage (value : json) (runId : string) : artifact_storage + client_failure :=
  match json_is_object value, json_get "status" value with
  | true, Some status =>
      if negb (names_one ["available"; "unavailable"; "failed"] status) then inr (invalid_storage runId)
      else if negb (bool_decide (status = JString "available")) then
        if not_null (json_get "artifact" value)
           || negb (keys_among ["status"; "error_code"; "message"] value)
           || negb (optional_text (json_get "error_code" value))
           || negb (optional_text (json_get "message" value))
        then inr (invalid_storage runId)
        else inl {| as_status := text_of status; as_artifact := None;
                    as_error_code := string_field "error_code" value; as_message := string_field "message" value |}
      else
        match json_get "artifact" value with
        | Some (JObject a) =>
            match parseDiagnosticArtifactUri (json_get "uri" (JObject a)) runId,
                  json_get "digest" (JObject a), json_get "size_bytes" (JObject a) with
            | Some uri, Some digest, Some size =>
                if negb (keys_among ["status"; "artifact"] value)
                   || negb (keys_among ["kind"; "uri"; "media_type"; "digest"; "size_bytes"] (JObject a))
                   || negb (diagnostic_fields (JObject a))
                then inr (invalid_storage runId)
                else inl {| as_status := "available";
                            as_artifact := Some (JObject [("kind", JString "diagnostic_bundle"); ("uri", JString uri);
                              ("media_type", JString "application/tar+zstd"); ("digest", digest);
                              ("size_bytes", size)]);
                            as_error_code := None; as_message := None |}
            | _, _, _ => inr (invalid_storage runId)
            end
        | _ => inr (invalid_storage runId)
        end
  | _, _ => inr (invalid_storage runId)
  end.

(** What [getExecutionRunStatus] returns of a response it accepts. *)
Definition status_of_response (parsed : json) (runId : string) : execution_status + client_failure :=
  let base storage := {|
    st_status := coalesce (string_field "status" parsed) "";
    st_error := match json_get "error" parsed with
                | Some (JObject f) => Some (string_field "code" (JObject f), string_field "message" (JObject f))
                | _ => None
                end;
    st_storage := storage;
    st_result := json_get "result" parsed |} in
  match json_get "artifact_storage" parsed with
  | None => inl (base None)
  | Some v => match parseArtifactStorage v runId with
              | inl s => inl (base (Some s))
              | inr x => inr x
              end
  end.
End Parsing.

(** * Requests *)

(** What becomes of one HTTP request. *)
Inductive hop :=
  | Answered
  | NeverArrived (error : string)
  | AnswerDropped (error : string).

Section Requests.
Context {E : Type}.
(** The service behind the URL, with the token the client sends. *)
Context (service : gateway_request → nat → E → gateway_response * nat * E).
Context (net : nat → hop) (oversized : json → bool).
Context (to_text : json → string) (parse_url : string → option uri_parts).
(** EXECUTION_API_REQUEST_RETRIES. *)
Context (retries : nat).

Definition on_the_wire (v : json) : wire_body := if oversized v then BodyTooLarge else BodyJson v.

(** [fetch], with the reading of the body. *)
Definition fetch (r : gateway_request) : remote E client_failure (Z * wire_body) := λ i e,
  match net i with
  | NeverArrived m => (inr (TransportFailure m), S i, e)
  | Answered => let '(reply, i', e') := service r (S i) e in
                (inl (gr_status reply, on_the_wire (gr_body reply)), i', e')
  | AnswerDropped m => let '(_, i', e') := service r (S i) e in (inr (TransportFailure m), i', e')
  end.

Fixpoint request_loop (left_over : nat) (r : gateway_request) : remote E client_failure (Z * wire_body) := λ i e,
  match fetch r i e with
  | (inl (status, body), i', e') =>
      match left_over with
      | S n => if isRetryableStatus status then request_loop n r i' e' else (inl (status, body), i', e')
      | O => (inl (status, body), i', e')
      end
  | (inr x, i', e') =>
      match left_over with
      | S n => if isTransientTransportError x then request_loop n r i' e' else (inr x, i', e')
      | O => (inr x, i', e')
      end
  end.

Definition execution_request (r : gateway_request) : remote E client_failure (Z * wire_body) := request_loop retries r.

Definition submitExecutionRun (workflow run_id : string) (input : json) : remote E client_failure unit :=
  let> result := rescue (execution_request (CreateRun workflow {| rb_run_id := run_id; rb_input := input; rb_runtime := None |}))
    (λ _, raises (ExecutionSubmissionUncertainError
            ("Execution submission state is uncertain for run " +:+ run_id +:+ "."))) in
  let (status, wire) := result : Z * wire_body in
  let (body, bodyParseError) := read_body wire in
  if negb (ok_status status) then
    if isRetryableStatus status
    then raises (ExecutionSubmissionUncertainError
           ("Execution submission returned HTTP " +:+ to_text (JNumber status) +:+ " for run " +:+ run_id +:+ "."))
    else raises (service_error to_text body status)
  else match bodyParseError, parseResponse body run_id (Some workflow) with
       | None, inl _ => done tt
       | _, _ => raises (ExecutionSubmissionUncertainError
                   ("Execution accepted run " +:+ run_id +:+ ", but returned an invalid creation response."))
       end.

(** The body of a reading that must be there. *)
Definition json_body (message : string) (status : Z) (wire : wire_body) : json + client_failure :=
  let (body, bodyParseError) := read_body wire in
  if negb (ok_status status) then inr (service_error to_text body status)
  else match bodyParseError with
       | Some (ExecutionProtocolError code m) => inr (ExecutionProtocolError code m)
       | Some _ => inr (ExecutionProtocolError "EXECUTION_INVALID_JSON" message)
       | None => inl body
       end.

Definition computes {A} (r : A + client_failure) : remote E client_failure A := λ i e, (r, i, e).

Definition getExecutionRunStatus (runId : string) (workflow : option string) : remote E client_failure execution_status :=
  let> result := execution_request (GetRun runId) in
  let> body := computes (json_body ("Execution returned invalid JSON for " +:+ runId +:+ ".") result.1 result.2) in
  let> parsed := computes (parseResponse body runId workflow) in
  computes (status_of_response to_text parse_url parsed runId).

(** ** Status queries *)

Definition invalid_entry : client_failure :=
  ExecutionProtocolError "EXECUTION_INVALID_RESPONSE" "Execution returned an invalid status entry.".

Fixpoint status_entries (l : list json) : list (string * string) + client_failure :=
  match l with
  | [] => inl []
  | entry :: l' =>
      match json_is_object entry, json_get "run_id" entry, json_get "status" entry with
      | true, Some (JString id), Some (JString status) =>
          if negb (existsb (String.eqb status) EXECUTION_STATUS_VALUES)
          then inr (ExecutionProtocolError "EXECUTION_INVALID_STATUS"
                      ("Execution returned an unknown status: " +:+ status +:+ "."))
          else match status_entries l' with inl es => inl ((id, status) :: es) | inr x => inr x end
      | _, _, _ => inr invalid_entry
      end
  end.

Record ExecutionRunStatusBatch := {
  sb_runs : list (string * string);
  sb_missing : list string;
  sb_byRunId : gmap string string;
}.

(** [byRunId.set] for each entry in turn. *)
Definition set_each (entries : list (string * string)) (m : gmap string string) : gmap string string :=
  foldl (λ m e, <[e.1 := e.2]> m) m entries.

Definition readExecutionRunStatuses (runIds : list string) : remote E client_failure ExecutionRunStatusBatch :=
  let> result := execution_request (GetRunStatuses runIds) in
  let> body := computes (json_body "Execution returned invalid JSON for a status query." result.1 result.2) in
  match json_get "runs" body, json_get "missing" body with
  | Some (JArray runs), Some (JArray missing) =>
      let> entries := computes (status_entries runs) in
      done {| sb_runs := entries;
              sb_missing := omap (λ v, match v with JString s => Some s | _ => None end) missing;
              sb_byRunId := set_each entries ∅ |}
  | _, _ => raises (ExecutionProtocolError "EXECUTION_INVALID_RESPONSE"
                      "Execution returned an invalid status query response.")
  end.

(** The slices of [EXECUTION_STATUS_QUERY_LIMIT] ids. *)
Fixpoint slices (fuel : nat) (runIds : list string) : list (list string) :=
  match fuel, runIds with
  | S fuel', _ :: _ => take EXECUTION_STATUS_QUERY_LIMIT runIds
                         :: slices fuel' (drop EXECUTION_STATUS_QUERY_LIMIT runIds)
  | _, _ => []
  end.

Fixpoint read_slices (l : list (list string)) (acc : ExecutionRunStatusBatch) :
    remote E client_failure ExecutionRunStatusBatch :=
  match l with
  | [] => done acc
  | ids :: l' =>
      let> batch := readExecutionRunStatuses ids in
      read_slices l' {| sb_runs := sb_runs acc ++ sb_runs batch;
                        sb_missing := sb_missing acc ++ sb_missing batch;
                        sb_byRunId := sb_byRunId batch ∪ sb_byRunId acc |}
  end.

Definition getExecutionRunStatuses (runIds : list string) : remote E client_failure ExecutionRunStatusBatch :=
  read_slices (slices (length runIds) runIds) {| sb_runs := []; sb_missing := []; sb_byRunId := ∅ |}.

(** ** What the coordinator is given (runtime/server-runtime.ts) *)

Definition executionStatusFromBatch (byRunId : gmap string string) (runId workflow : string) :
    remote E client_failure execution_status :=
  match byRunId !! runId with
  | Some status =>
      if existsb (String.eqb status) ["succeeded"; "failed"] then getExecutionRunStatus runId (Some workflow)
      else done {| st_status := status; st_error := None; st_storage := None; st_result := None |}
  | None => getExecutionRunStatus runId (Some workflow)
  end.
End Requests.

(** What a catch block reads off a failure. *)
Definition caught_of (x : client_failure) : caught :=
  match x with
  | TransportFailure m | SyntaxFailure m => {| caught_uncertain := false; caught_code := None; caught_message := m |}
  | ExecutionProtocolError code m => {| caught_uncertain := false; caught_code := Some code; caught_message := m |}
  | ExecutionServiceError code m _ =>
      {| caught_uncertain := false; caught_code := match code with JString c => Some c | _ => None end;
         caught_message := m |}
  | ExecutionSubmissionUncertainError m =>
      {| caught_uncertain := true; caught_code := Some SUBMISSION_STATE_UNCERTAIN; caught_message := m |}
  end.

Definition submit_answer_of (r : unit + client_failure) : submit_answer :=
  match r with inl _ => Accepted | inr x => Refused (caught_of x) end.

Definition observed_of (r : execution_status + client_failure) : execution_status + (caught * bool) :=
  match r with inl s => inl s | inr x => inr (caught_of x, isTerminalExecutionPollingError x) end.
