(* ===== verification/GatewayIdentity.v ===== *)
(** When two requests to start a run have the same fingerprint. *)

From stdpp Require Import pretty countable.
From S2P Require Import Prelude Schema InputBundles Gateway.

(** * Values with nested values *)

Lemma json_nested_ind (P : json → Prop) :
  P JNull → (∀ b, P (JBool b)) → (∀ n, P (JNumber n)) → (∀ s, P (JString s)) →
  (∀ l, Forall P l → P (JArray l)) → (∀ f, Forall (λ kv, P kv.2) f → P (JObject f)) → ∀ v, P v.
Proof.
  intros Hnull Hbool Hnum Hstr Harr Hobj. fix IH 1. intros [|b|n|s|l|f]; [exact Hnull|apply Hbool|apply Hnum|apply Hstr| |].
  - apply Harr. induction l as [|x l IHl]; constructor; [apply IH|apply IHl].
  - apply Hobj. induction f as [|[k x] f IHf]; constructor; [apply IH|apply IHf].
Qed.

(** The same value, but for the order of the fields of its objects. *)
Inductive json_same : json → json → Prop :=
  | same_atom v : match v with JArray _ | JObject _ => False | _ => True end → json_same v v
  | same_array l l' : Forall2 json_same l l' → json_same (JArray l) (JArray l')
  | same_object f f' g :
      f' ≡ₚ g → Forall2 (λ x y, x.1 = y.1 ∧ json_same x.2 y.2) f g → json_same (JObject f) (JObject f').

(** Every object of the value has each key once. *)
Fixpoint distinct_keys (v : json) : bool :=
  match v with
  | JArray l => forallb distinct_keys l
  | JObject f => bool_decide (NoDup f.*1) && forallb (λ kv, distinct_keys kv.2) f
  | _ => true
  end.

Lemma distinct_array l x : distinct_keys (JArray l) = true → x ∈ l → distinct_keys x = true.
Proof. simpl. rewrite forallb_forall. intros Hl Hx. by apply Hl, list_elem_of_In. Qed.

Lemma distinct_object f : distinct_keys (JObject f) = true →
  NoDup f.*1 ∧ ∀ k x, (k, x) ∈ f → distinct_keys x = true.
Proof.
  simpl. rewrite andb_true_iff, bool_decide_eq_true, forallb_forall. intros [Hn Hf]. split; [done|].
  intros k x Hx. by apply (Hf (k, x)), list_elem_of_In.
Qed.

(** A comparison a sort can use, as [localeCompare] is one; it may call different texts equal. *)
Record comparator (le : string → string → bool) : Prop := {
  cmp_total a b : le a b = true ∨ le b a = true;
  cmp_trans a b c : le a b = true → le b c = true → le a c = true;
}.

(** It tells these keys apart. *)
Definition tells_apart (le : string → string → bool) (keys : list string) : bool :=
  forallb (λ k, forallb (λ k', negb (le k k' && le k' k) || String.eqb k k') keys) keys.

(** It tells the keys of every object of the value apart. *)
Fixpoint keys_apart (le : string → string → bool) (v : json) : bool :=
  match v with
  | JArray l => forallb (keys_apart le) l
  | JObject f => tells_apart le f.*1 && forallb (λ kv, keys_apart le kv.2) f
  | _ => true
  end.

Lemma tells_apart_spec le keys k k' :
  tells_apart le keys = true → k ∈ keys → k' ∈ keys → le k k' = true → le k' k = true → k = k'.
Proof.
  unfold tells_apart. rewrite forallb_forall. intros Ha Hk%list_elem_of_In Hk'%list_elem_of_In H1 H2.
  specialize (Ha k Hk). rewrite forallb_forall in Ha. specialize (Ha k' Hk'). rewrite H1, H2 in Ha. by apply String.eqb_eq.
Qed.

Lemma apart_array le l x : keys_apart le (JArray l) = true → x ∈ l → keys_apart le x = true.
Proof. simpl. rewrite forallb_forall. intros Hl Hx. by apply Hl, list_elem_of_In. Qed.

Lemma apart_object le f : keys_apart le (JObject f) = true →
  tells_apart le f.*1 = true ∧ ∀ k x, (k, x) ∈ f → keys_apart le x = true.
Proof.
  simpl. rewrite andb_true_iff, forallb_forall. intros [Hn Hf]. split; [done|].
  intros k x Hx. by apply (Hf (k, x)), list_elem_of_In.
Qed.

Section Canonical.
Context (le : string → string → bool).

Abbreviation by_key := (λ x y : string * json, le x.1 y.1).

Lemma sort_keys l l' :
  comparator le → tells_apart le l.*1 = true → NoDup l.*1 → l ≡ₚ l' → sort_by by_key l = sort_by by_key l'.
Proof.
  intros Hle Ha Hnd Hp.
  assert (Hs : ∀ m, StronglySorted (λ x y, by_key x y = true) (sort_by by_key m)).
  { intros m. apply Sorted_StronglySorted; [intros x y z; apply (cmp_trans _ Hle)|].
    apply sort_by_sorted. intros x y. apply (cmp_total _ Hle). }
  apply (StronglySorted_unique_strong (λ x y, by_key x y = true)); [|apply Hs..|by rewrite !sort_by_perm].
  intros x y Hx Hy H1 H2. rewrite sort_by_perm in Hx, Hy. rewrite <- Hp in Hy.
  assert (He : x.1 = y.1) by (apply (tells_apart_spec le l.*1); [done|by apply list_elem_of_fmap_2..|done|done]).
  apply list_elem_of_lookup_1 in Hx as [i Hi], Hy as [j Hj].
  assert (i = j) as ->; [|congruence]. eapply (NoDup_lookup l.*1); [done|by rewrite list_lookup_fmap, Hi|].
  by rewrite list_lookup_fmap, Hj, He.
Qed.

Lemma filters_perm {A} (p : A → bool) l : List.filter p l ++ List.filter (λ x, negb (p x)) l ≡ₚ l.
Proof.
  induction l as [|x l IH]; simpl; [done|]. destruct (p x); simpl; [by rewrite IH|].
  rewrite <- Permutation_middle. by rewrite IH.
Qed.

Lemma fromEntries_perm l : fromEntries l ≡ₚ l.
Proof.
  unfold fromEntries. etrans; [|apply (filters_perm (λ kv, not_null (array_index kv.1)) l)].
  rewrite sort_by_perm. apply Permutation_app_head.
  rewrite (List.filter_ext _ (λ kv, negb (not_null (array_index kv.1)))); [done|].
  intros a. by destruct (array_index a.1).
Qed.

Abbreviation canonical := (canonicalValue le).
Abbreviation canonical_fields := (fmap (M := list) (λ kv : string * json, (kv.1, canonical kv.2))).

Lemma canonical_same v : comparator le → ∀ v', keys_apart le v = true → distinct_keys v = true → distinct_keys v' = true →
  json_same v v' → canonical v = canonical v'.
Proof.
  intros Hle. induction v as [| | | |l IH|f IH] using json_nested_ind; intros v' Ha Hd Hd' Hs; inversion Hs; subst; try done.
  - simpl. f_equal. assert (Hl : ∀ x, x ∈ l → distinct_keys x = true) by (intros x Hx; exact (distinct_array _ _ Hd Hx)).
    assert (Hl' : ∀ x, x ∈ l' → distinct_keys x = true) by (intros x Hx; exact (distinct_array _ _ Hd' Hx)).
    assert (Hla : ∀ x, x ∈ l → keys_apart le x = true) by (intros x Hx; exact (apart_array _ _ _ Ha Hx)).
    clear Ha Hd Hd' Hs. induction H0 as [|x y l l' Hxy _ IHl]; [done|]. simpl. apply Forall_cons_1 in IH as [Hx IH]. f_equal.
    + apply Hx; [apply Hla|apply Hl|apply Hl'|done]; apply list_elem_of_here.
    + apply IHl; [done|intros; apply Hl|intros; apply Hl'|intros; apply Hla]; by apply list_elem_of_further.
  - simpl. do 2 f_equal. apply distinct_object in Hd as [Hn Hf], Hd' as [Hn' Hf']. apply apart_object in Ha as [Hk Ha].
    assert (Hc : canonical_fields f = canonical_fields g).
    { assert (Hg : ∀ k x, (k, x) ∈ g → distinct_keys x = true) by (intros k x Hx; apply (Hf' k); by rewrite H0).
      clear Hs H0 Hn Hn' Hf' Hk. induction H1 as [|[k x] [k' y] f g [Hk Hxy] _ IHf]; [done|].
      simpl in *. subst k'. apply Forall_cons_1 in IH as [Hx IH]. f_equal.
      - f_equal. apply Hx; [apply (Ha k)|apply (Hf k)|apply (Hg k)|done]; apply list_elem_of_here.
      - apply IHf; [done|intros k' z Hz; apply (Ha k')|intros k' z Hz; apply (Hf k')|intros k' z Hz; apply (Hg k')]; by apply list_elem_of_further. }
    assert (Hkeys : (canonical_fields f).*1 = f.*1).
    { rewrite <- list_fmap_compose. by rewrite (list_fmap_ext _ fst) by done. }
    rewrite Hc in Hkeys |- *. apply sort_keys; [done|by rewrite Hkeys..|by rewrite H0].
Qed.

Lemma same_canonical v : ∀ v', canonical v = canonical v' → json_same v v'.
Proof.
  induction v as [|b|n|s|l IH|f IH] using json_nested_ind; intros v' He; destruct v' as [|b'|n'|s'|l'|f'];
    try discriminate He; try (injection He as <-; by constructor); [by constructor| |].
  - simpl in He. injection He as He. constructor. revert l' He.
    induction IH as [|x l Hx _ IHl]; intros [|y l'] He; try discriminate He; [constructor|].
    simpl in He. injection He as Hxy Hl. constructor; [by apply Hx|by apply IHl].
  - simpl in He. injection He as He.
    assert (Hp : canonical_fields f ≡ₚ canonical_fields f').
    { rewrite <- (sort_by_perm by_key (canonical_fields f)), <- (sort_by_perm by_key (canonical_fields f')).
      rewrite <- (fromEntries_perm (sort_by by_key (canonical_fields f))), He. apply fromEntries_perm. }
    apply Permutation_map_inv in Hp as (g & Hg & Hp). apply (same_object _ _ g); [done|].
    clear He Hp f'. revert g Hg. induction IH as [|[k x] f Hx _ IHf]; intros [|[k' y] g] Hg; try discriminate Hg; [constructor|].
    simpl in *. injection Hg as -> Hxy Hg. constructor; [by split; [|apply Hx]|by apply IHf].
Qed.
End Canonical.

(** * Requests *)

(** A field of an object with distinct keys is the one [json_get] finds. *)
Lemma json_get_elem f k x : NoDup f.*1 → (k, x) ∈ f → json_get k (JObject f) = Some x.
Proof.
  simpl. induction f as [|[k' y] f IH]; [by intros _ ?%not_elem_of_nil|]. simpl.
  intros [Hk Hn]%NoDup_cons [Heq|Hin]%elem_of_cons.
  - injection Heq as -> ->. by rewrite bool_decide_eq_true_2.
  - rewrite bool_decide_eq_false_2; [by apply IH|]. intros ->. apply Hk. by apply (list_elem_of_fmap_2 fst _ (k, x)).
Qed.

Lemma json_get_in f k x : json_get k (JObject f) = Some x → (k, x) ∈ f.
Proof.
  simpl. intros Hf. apply fmap_Some in Hf as ([k' y] & Hf & ->). apply List.find_some in Hf as [Hin Hk].
  apply bool_decide_eq_true in Hk. simpl in *. subst k'. by apply list_elem_of_In.
Qed.

(** The fields of the same object are the same. *)
Lemma same_get f f' k :
  NoDup f.*1 → NoDup f'.*1 → json_same (JObject f) (JObject f') →
  match json_get k (JObject f), json_get k (JObject f') with
  | Some x, Some y => json_same x y
  | None, None => True
  | _, _ => False
  end.
Proof.
  intros Hn Hn' Hs. inversion Hs as [|? ?|? ? g Hp Hfg]; subst; [done|].
  assert (Hg : NoDup g.*1) by by rewrite <- Hp.
  destruct (json_get k (JObject f)) as [x|] eqn:Hx, (json_get k (JObject f')) as [y|] eqn:Hy; [| | |done].
  - apply json_get_in, list_elem_of_lookup_1 in Hx as [i Hi]. destruct (Forall2_lookup_l _ _ _ _ _ Hfg Hi) as ([k' z] & Hz & [Hk Hxz]).
    cbn [fst snd] in *. subst k'. assert (Hin : (k, z) ∈ f') by (rewrite Hp; by eapply list_elem_of_lookup_2).
    pose proof (json_get_elem f' k z Hn' Hin). congruence.
  - apply json_get_in, list_elem_of_lookup_1 in Hx as [i Hi]. destruct (Forall2_lookup_l _ _ _ _ _ Hfg Hi) as ([k' z] & Hz & [Hk Hxz]).
    cbn [fst snd] in *. subst k'. assert (Hin : (k, z) ∈ f') by (rewrite Hp; by eapply list_elem_of_lookup_2).
    pose proof (json_get_elem f' k z Hn' Hin). congruence.
  - apply json_get_in in Hy. rewrite Hp in Hy. apply list_elem_of_lookup_1 in Hy as [i Hi].
    destruct (Forall2_lookup_r _ _ _ _ _ Hfg Hi) as ([k' z] & Hz & [Hk Hxz]).
    cbn [fst snd] in *. subst k'. pose proof (json_get_elem f k z Hn (list_elem_of_lookup_2 _ _ _ Hz)). congruence.
Qed.

(** The same request: the order of fields and the timeout are no part of it. *)
Definition same_request (r r' : ExecutionWorkflowInput) : Prop :=
  ew_workflow r = ew_workflow r' ∧ ew_run_id r = ew_run_id r' ∧ json_same (ew_input r) (ew_input r')
  ∧ match ew_runtime r, ew_runtime r' with
    | Some v, Some v' => json_same v v' | None, None => True | _, _ => False end.

Definition distinct_request (r : ExecutionWorkflowInput) : bool :=
  distinct_keys (ew_input r) && match ew_runtime r with Some v => distinct_keys v | None => true end.

Definition identity_fields (r : ExecutionWorkflowInput) : list (string * json) :=
  [("workflow", JString (ew_workflow r)); ("run_id", JString (ew_run_id r)); ("input", ew_input r)]
  ++ match ew_runtime r with Some v => [("runtime", v)] | None => [] end.

Lemma identity_distinct r : distinct_request r = true →
  NoDup (identity_fields r).*1 ∧ distinct_keys (request_identity r) = true.
Proof.
  intros [Hi Hr]%andb_true_iff. change (request_identity r) with (JObject (identity_fields r)).
  assert (Hn : NoDup (identity_fields r).*1).
  { unfold identity_fields. destruct (ew_runtime r); simpl; apply (bool_decide_unpack _); by vm_compute. }
  split; [done|]. cbn [distinct_keys]. rewrite bool_decide_eq_true_2 by done. unfold identity_fields.
  destruct (ew_runtime r) as [v|]; simpl in *; by rewrite Hi, ?Hr.
Qed.

Lemma same_text s s' : json_same (JString s) (JString s') → s = s'.
Proof. intros H. by inversion H. Qed.

Lemma same_identity r r' :
  distinct_request r = true → distinct_request r' = true →
  json_same (request_identity r) (request_identity r') ↔ same_request r r'.
Proof.
  intros [Hn _]%identity_distinct [Hn' _]%identity_distinct. unfold same_request.
  change (request_identity r) with (JObject (identity_fields r)).
  change (request_identity r') with (JObject (identity_fields r')). split.
  - intros Hs. pose proof (λ k, same_get _ _ k Hn Hn' Hs) as Hget.
    pose proof (Hget "workflow") as H1. pose proof (Hget "run_id") as H2.
    pose proof (Hget "input") as H3. pose proof (Hget "runtime") as H4.
    unfold identity_fields in *. destruct (ew_runtime r), (ew_runtime r'); cbn in H1, H2, H3, H4;
      (split; [by apply same_text|split; [by apply same_text|by split]]).
  - intros (H1 & H2 & H3 & H4). apply (same_object _ _ (identity_fields r')); [done|].
    unfold identity_fields. rewrite H1, H2. destruct (ew_runtime r), (ew_runtime r'); try done; simpl;
      repeat (constructor; [split; [done|]; try done; by constructor|]); constructor.
Qed.

(** The text that is hashed. *)
Definition identity_text (le : string → string → bool) (print_json : json → string) (r : ExecutionWorkflowInput) : string :=
  print_json (canonicalValue le (request_identity r)).

(** The hash tells two texts apart. *)
Definition collision_free (sha256 : string → string) (s s' : string) : Prop := sha256 s = sha256 s' → s = s'.

(** C18: two requests to start a run with the same fingerprint are the same request: the same
    workflow, run, input and runtime, up to the order of the fields of their objects at any
    depth and the timeout the gateway adds.  And the same request has the same fingerprint,
    whatever that order and that timeout, as long as the collation tells the keys of each of
    its objects apart (it calls canonically equivalent texts equal, and then the order they
    came in stays); so a recovery that sends a request again, from a copy the database
    reordered, is recognised, and a different request is not. *)
Theorem fingerprint_identifies_request le print_json sha256 r r' :
  (∀ v v', print_json v = print_json v' → v = v') →
  collision_free sha256 (identity_text le print_json r) (identity_text le print_json r') →
  distinct_request r = true → distinct_request r' = true →
  (fingerprint le print_json sha256 r = fingerprint le print_json sha256 r' → same_request r r')
  ∧ (comparator le → keys_apart le (request_identity r) = true → same_request r r' →
     fingerprint le print_json sha256 r = fingerprint le print_json sha256 r').
Proof.
  intros Hprint Hsha Hr Hr'. rewrite <- same_identity by done. unfold fingerprint. split.
  - intros He. by apply (same_canonical le), Hprint, Hsha.
  - intros Hle Ha Hs. do 2 f_equal. apply (canonical_same le); [done|done|by apply identity_distinct..|done].
Qed.

(** Two keys the collation takes for one keep the order they came in, so the same object in
    the other order is another text. *)
Lemma tied_keys_keep_their_order le a b x y :
  a ≠ b → le a b = true → le b a = true → array_index a = None → array_index b = None →
  canonicalValue le (JObject [(a, JString x); (b, JString y)]) ≠ canonicalValue le (JObject [(b, JString y); (a, JString x)]).
Proof.
  intros Hne Hab Hba Ha Hb. simpl. unfold sort_by. simpl. rewrite Hab, Hba. unfold fromEntries. simpl.
  rewrite Ha, Hb. simpl. congruence.
Qed.

(** * Witness *)

(** Values as trees, and so as numbers: a text for each. *)
Fixpoint tree_of (v : json) : gen_tree (bool + (Z + string)) :=
  match v with
  | JNull => GenNode 0 []
  | JBool b => GenLeaf (inl b)
  | JNumber n => GenLeaf (inr (inl n))
  | JString s => GenLeaf (inr (inr s))
  | JArray l => GenNode 1 (tree_of <$> l)
  | JObject f => GenNode 2 ((λ kv, GenNode 3 [GenLeaf (inr (inr kv.1)); tree_of kv.2]) <$> f)
  end.

Fixpoint of_tree (t : gen_tree (bool + (Z + string))) : json :=
  match t with
  | GenLeaf (inl b) => JBool b
  | GenLeaf (inr (inl n)) => JNumber n
  | GenLeaf (inr (inr s)) => JString s
  | GenNode 1 l => JArray (of_tree <$> l)
  | GenNode 2 l => JObject ((λ t', match t' with
                                    | GenNode 3 [GenLeaf (inr (inr k)); x] => (k, of_tree x)
                                    | _ => ("", JNull)
                                    end) <$> l)
  | _ => JNull
  end.

Lemma of_tree_of v : of_tree (tree_of v) = v.
Proof.
  induction v as [| | | |l IH|f IH] using json_nested_ind; simpl; try done; f_equal.
  - induction IH as [|x l Hx _ IHl]; [done|]. cbn. rewrite Hx. f_equal. exact IHl.
  - induction IH as [|[k x] f Hx _ IHf]; [done|]. cbn in *. rewrite Hx. f_equal. exact IHf.
Qed.

#[export] Instance json_countable : Countable json := inj_countable' tree_of of_tree of_tree_of.

Definition number_text (v : json) : string := pretty (encode v).

Lemma number_text_inj v v' : number_text v = number_text v' → v = v'.
Proof. unfold number_text. intros He. by apply (inj pretty), (inj encode) in He. Qed.

Definition request_1 (fields : list (string * json)) (timeout : Z) : ExecutionWorkflowInput := {|
  ew_workflow := "issue-review"; ew_run_id := "run-1"; ew_input := JObject fields; ew_timeout_seconds := timeout;
  ew_runtime := None |}.

Lemma fingerprint_identifies_request_witness :
  let a := ("a", JNumber 1) in let b := ("b", JObject [("10", JNull); ("9", JBool true)]) in
  let b' := ("b", JObject [("9", JBool true); ("10", JNull)]) in
  fingerprint String.leb number_text (λ s, s) (request_1 [a; b] 60)
  = fingerprint String.leb number_text (λ s, s) (request_1 [b'; a] 90)
  ∧ fingerprint String.leb number_text (λ s, s) (request_1 [a; b] 60)
    ≠ fingerprint String.leb number_text (λ s, s) (request_1 [a] 60).
Proof.
  intros a b b'.
  assert (Hle : comparator String.leb) by (split; apply bytewise).
  assert (Hid : ∀ r r', distinct_request r = true → distinct_request r' = true →
    (fingerprint String.leb number_text (λ s, s) r = fingerprint String.leb number_text (λ s, s) r' → same_request r r')
    ∧ (comparator String.leb → keys_apart String.leb (request_identity r) = true → same_request r r' →
       fingerprint String.leb number_text (λ s, s) r = fingerprint String.leb number_text (λ s, s) r')).
  { intros r r' Hr Hr'. apply (fingerprint_identifies_request String.leb number_text (λ s, s) r r'
      number_text_inj (λ He, He) Hr Hr'). }
  split.
  - apply Hid; [by vm_compute..|done|by vm_compute|]. do 2 (split; [done|]). split; [|done].
    apply (same_object _ _ [a; b']); [apply perm_swap|].
    apply Forall2_cons; split; [split; [done|by apply same_atom]|].
    apply Forall2_cons; split; [split; [done|]|by apply Forall2_nil].
    apply (same_object _ _ [("10", JNull); ("9", JBool true)]); [apply perm_swap|].
    by repeat (apply Forall2_cons; split; [split; [done|by apply same_atom]|]).
  - intros (_ & _ & Hs & _)%Hid; [|by vm_compute..]. inversion Hs as [| |? ? g Hp Hfg]; subst.
    apply Forall2_length in Hfg. apply Permutation_length in Hp. simpl in *. lia.
Defined.
