(* ===== verification/GatewaySpecs.v ===== *)
(** What the routines of the execution gateway do to the run they are about; and a small
    Temporal for the witnesses, which keeps its workflows in a map, starts a workflow under an
    id at most once, and, when it is down, answers nothing. *)

From S2P Require Import Prelude Schema InputBundles Gateway.

(** * Rules *)

(** However the routine ends from the state, after any number of requests. *)
Definition runs {E X A} (m : remote E X A) (Q : A → E → Prop) (R : X → E → Prop) (e : E) : Prop :=
  ∀ i, match m i e with
       | (inl a, _, e') => Q a e'
       | (inr x, _, e') => R x e'
       end.

Section Rules.
Context {E X : Type}.

Lemma runs_done {A} (a : A) Q (R : X → E → Prop) e : Q a e → runs (done a) Q R e.
Proof. by intros HQ i. Qed.

Lemma runs_raises {A} x (Q : A → E → Prop) (R : X → E → Prop) e : R x e → runs (raises x) Q R e.
Proof. by intros HR i. Qed.

Lemma runs_followed {A B} (m : remote E X A) (k : A → remote E X B) Q R e :
  runs m (λ a, runs (k a) Q R) R e → runs (followed m k) Q R e.
Proof.
  intros Hm i. specialize (Hm i). unfold followed. destruct (m i e) as [[[a|x] i'] e']; [apply Hm|done].
Qed.

Lemma runs_rescue {A} (m : remote E X A) h Q R e :
  runs m Q (λ x, runs (h x) Q R) e → runs (rescue m h) Q R e.
Proof.
  intros Hm i. specialize (Hm i). unfold rescue. destruct (m i e) as [[[a|x] i'] e']; [done|apply Hm].
Qed.

Lemma runs_mono {A} (m : remote E X A) (Q Q' : A → E → Prop) (R R' : X → E → Prop) e :
  runs m Q R e → (∀ a e', Q a e' → Q' a e') → (∀ x e', R x e' → R' x e') → runs m Q' R' e.
Proof.
  intros Hm HQ HR i. specialize (Hm i). destruct (m i e) as [[[a|x] i'] e']; eauto.
Qed.

Lemma runs_and {A} (m : remote E X A) (Q Q' : A → E → Prop) (R R' : X → E → Prop) e :
  runs m Q R e → runs m Q' R' e → runs m (λ a e', Q a e' ∧ Q' a e') (λ x e', R x e' ∧ R' x e') e.
Proof. intros H1 H2 i. specialize (H1 i). specialize (H2 i). destruct (m i e) as [[[a|x] i'] e']; done. Qed.
End Rules.

Section Specs.
Context {E : Type} `{TemporalLaws E}.
Context (env : nat → E → E) (parse_url : string → option uri_parts).
Context (input_error : string → json → option string) (result_error : string → json → option string).
Context (workflow_error : ExecutionWorkflowInput → option string).
Context (locale_le : string → string → bool) (print_json : json → string) (sha256 : string → string).

(** The others neither start the run nor forget it. *)
Definition leaves_run_alone (id : string) : Prop := ∀ i e, bound id (env i e) = bound id e.

Abbreviation get := (get env parse_url result_error).
Abbreviation start := (start env parse_url result_error workflow_error locale_le print_json sha256).
Abbreviation memo_of := (memo_of locale_le print_json sha256).

Lemma runs_temporal {A} (f : E → (A + temporal_error) * E) Q R e :
  (∀ i, Q (f (env i e)).1 (f (env i e)).2) → runs (temporal env f) Q R e.
Proof. intros Hf i. unfold temporal. specialize (Hf i). by destruct (f (env i e)). Qed.

Lemma runs_reads {A} (f : E → A + temporal_error) Q R e :
  (∀ i, Q (f (env i e)) (env i e)) → runs (temporal_reads env f) Q R e.
Proof. intros Hf. apply runs_temporal. intros i. apply Hf. Qed.

(** The statuses a record has. *)
Definition record_statuses : list string := ["queued"; "running"; "succeeded"; "failed"].

(** A record of the run of this memo. *)
Definition record_for (id : string) (memo : workflow_memo) (r : execution_record) : Prop :=
  xe_run_id r = id ∧ xe_workflow r = memo_workflow memo ∧ xe_status r ∈ record_statuses.

Lemma response_record_for id memo response :
  record_for id memo (response_record parse_url result_error id (memo_workflow memo) response).
Proof.
  assert (Hf : "failed" ∈ record_statuses) by (apply (bool_decide_unpack _); by vm_compute).
  unfold response_record. destruct (json_get "ok" response) as [[|[]| | | |]|]; try (by repeat split).
  destruct (json_get "result" response) as [result|]; [|by repeat split].
  unfold completed_record. destruct (memo_workflow memo) as [w|] eqn:Hw; [|by rewrite <- Hw; repeat split].
  rewrite <- Hw. destruct (result_error w result); [by repeat split|].
  destruct (parseRunDiagnosticArtifact _ _ _); [|by repeat split].
  repeat split; simpl. apply (bool_decide_unpack _). by vm_compute.
Qed.

Lemma get_spec id e :
  leaves_run_alone id →
  runs (get id)
    (λ r e', bound id e' = bound id e
       ∧ match r with
         | Some rec => ∃ memo, bound id e = Some memo ∧ record_for id memo rec
         | None => bound id e = None
         end)
    (λ x e', bound id e' = bound id e ∧ ∃ m, x = GatewayError m) e.
Proof.
  intros Halone. unfold Gateway.get. apply runs_followed, runs_reads. intros i.
  pose proof (Halone i e) as Hi.
  destruct (describe_workflow id (env i e)) as [d|[| |m]] eqn:Hd.
  - apply describe_there in Hd. rewrite Hi in Hd.
    assert (Hrec : ∀ s r er st, s ∈ record_statuses → record_for id (ds_memo d) {|
      xe_run_id := id; xe_workflow := memo_workflow (ds_memo d); xe_status := s; xe_result := r;
      xe_error := er; xe_memory_processing := None; xe_artifact_storage := st |}) by by repeat split.
    destruct (String.eqb _ "RUNNING").
    { apply runs_done. split; [done|]. exists (ds_memo d). split; [done|]. apply Hrec.
      apply (bool_decide_unpack _). by vm_compute. }
    destruct (String.eqb _ "COMPLETED").
    + apply runs_followed, runs_reads. intros j. pose proof (Halone j (env i e)) as Hj. rewrite Hi in Hj.
      destruct (workflow_result id _) as [response|t]; [|apply runs_raises; by split; [|eexists]].
      assert (Hok : runs (X := gateway_error) (done (Some (response_record parse_url result_error id (memo_workflow (ds_memo d)) response)))
        (λ r e', bound id e' = bound id e
           ∧ match r with
             | Some rec => ∃ memo, bound id e = Some memo ∧ record_for id memo rec
             | None => bound id e = None
             end)
        (λ x e', bound id e' = bound id e ∧ ∃ m, x = GatewayError m) (env j (env i e))).
      { apply runs_done. split; [done|]. exists (ds_memo d). split; [done|]. apply response_record_for. }
      destruct response; [apply runs_raises; by split; [|eexists]|exact Hok..].
    + apply runs_done. split; [done|]. exists (ds_memo d). split; [done|]. apply Hrec.
      apply (bool_decide_unpack _). by vm_compute.
  - apply runs_raises. by split; [|eexists].
  - apply describe_absent in Hd. rewrite Hi in Hd. by apply runs_done.
  - apply runs_raises. by split; [|eexists].
Qed.

(** Starting a run: it is bound to this request afterwards, or to another one before. *)
Definition started (r : ExecutionWorkflowInput) (e e' : E) : Prop :=
  bound (ew_run_id r) e = None ∧ bound (ew_run_id r) e' = Some (memo_of r).

Lemma start_spec r e :
  leaves_run_alone (ew_run_id r) →
  runs (start r)
    (λ rec e', ∃ memo, bound (ew_run_id r) e' = Some memo ∧ mm_fingerprint memo = mm_fingerprint (memo_of r)
       ∧ record_for (ew_run_id r) memo rec
       ∧ (bound (ew_run_id r) e' = bound (ew_run_id r) e ∨ (started r e e' ∧ workflow_error r = None)))
    (λ x e', match x with
             | ExecutionRunConflict id w _ => id = ew_run_id r ∧ w = ew_workflow r
                 ∧ bound (ew_run_id r) e' = bound (ew_run_id r) e
                 ∧ ∃ memo, bound (ew_run_id r) e = Some memo ∧ mm_fingerprint memo ≠ mm_fingerprint (memo_of r)
             | GatewayError _ => bound (ew_run_id r) e' = bound (ew_run_id r) e
                 ∨ (started r e e' ∧ workflow_error r = None)
             | GatewayStatus _ _ => False
             end) e.
Proof.
  intros Halone. unfold Gateway.start. destruct (workflow_error r); [apply runs_raises; by left|].
  apply runs_followed, runs_temporal. intros i. pose proof (Halone i e) as Hi.
  destruct (start_workflow _ _ _ _) as [out e1] eqn:Hst. cbn [fst snd].
  destruct (start_creates _ _ _ _ _ _ Hst) as (Hch & Hok & Hdup).
  assert (Hor : bound (ew_run_id r) e1 = bound (ew_run_id r) e ∨ started r e e1).
  { destruct Hch as [->|(H1 & H2 & _)]; [by left|]. right. split; [by rewrite <- Hi|done]. }
  destruct out as [[]|[| |m]].
  - destruct (Hok eq_refl) as [H1 H2]. apply runs_followed. eapply runs_mono; [by apply get_spec| |].
    + intros rec e2 [Hb Hrec]. apply runs_done. destruct rec as [rec|]; [|congruence].
      destruct Hrec as (memo & Hm & Hrec). rewrite H2 in Hm. injection Hm as <-. exists (memo_of r).
      split; [congruence|]. split; [done|]. split; [done|]. right. split; [|done]. split; [by rewrite <- Hi|congruence].
    + intros x e2 [Hb [m ->]]. right. split; [|done]. split; [by rewrite <- Hi|congruence].
  - destruct (Hdup eq_refl) as [-> [memo Hmemo]]. rewrite Hi in Hmemo.
    apply runs_followed. eapply runs_mono; [by apply get_spec| |].
    + intros rec e2 [Hb Hrec]. rewrite Hi in Hb. apply runs_followed, runs_reads. intros j.
      pose proof (Halone j e2) as Hj. destruct (describe_workflow _ (env j e2)) as [d|t] eqn:Hd.
      * apply describe_there in Hd. rewrite Hj, Hb, Hmemo in Hd. injection Hd as <-.
        destruct rec as [rec|]; [|congruence]. destruct Hrec as (memo' & Hm' & Hrec).
        rewrite Hi, Hmemo in Hm'. injection Hm' as <-. destruct (opt_eqb _ _) eqn:Hfp.
        -- apply runs_done. exists memo. split; [congruence|]. split; [|split; [done|left; congruence]].
           unfold opt_eqb in Hfp. by destruct (mm_fingerprint memo); [apply String.eqb_eq in Hfp as ->|].
        -- apply runs_raises. do 2 (split; [done|]). split; [congruence|]. exists memo. split; [done|].
           intros Hx. unfold opt_eqb in Hfp. rewrite Hx in Hfp. simpl in Hfp. by rewrite String.eqb_refl in Hfp.
      * apply runs_raises. left. congruence.
    + intros x e2 [Hb [m ->]]. left. congruence.
  - apply runs_raises. destruct Hor; [by left|by right].
  - apply runs_raises. destruct Hor; [by left|by right].
Qed.

(** Temporal answers every request about the run. *)
Record healthy (id : string) : Prop := {
  he_start args memo e : (start_workflow id args memo e).1 = inl tt
    ∨ (start_workflow id args memo e).1 = inr WorkflowExecutionAlreadyStarted;
  he_describe e : (∃ d, describe_workflow id e = inl d) ∨ describe_workflow id e = inr WorkflowNotFound;
  he_result e : ∃ v, workflow_result id e = inl v ∧ v ≠ JNull;
}.

Lemma get_healthy id e : healthy id → runs (get id) (λ _ _, True) (λ _ _, False) e.
Proof.
  intros Hh. unfold Gateway.get. apply runs_followed, runs_reads. intros i.
  destruct (he_describe _ Hh (env i e)) as [[d ->] | ->]; [|by apply runs_done].
  destruct (String.eqb _ "RUNNING"); [by apply runs_done|]. destruct (String.eqb _ "COMPLETED"); [|by apply runs_done].
  apply runs_followed, runs_reads. intros j. destruct (he_result _ Hh (env j (env i e))) as (v & -> & Hv).
  by destruct v; [|apply runs_done..].
Qed.

Lemma start_healthy r e :
  leaves_run_alone (ew_run_id r) → healthy (ew_run_id r) → workflow_error r = None →
  runs (start r) (λ _ e', started r e e' ∨ bound (ew_run_id r) e' = bound (ew_run_id r) e)
    (λ x e', ∃ id w existing, x = ExecutionRunConflict id w existing) e.
Proof.
  intros Halone Hh Hok. unfold Gateway.start. rewrite Hok. apply runs_followed, runs_temporal. intros i.
  destruct (start_workflow _ _ _ _) as [out e1] eqn:Hst. cbn [fst snd].
  pose proof (he_start _ Hh (workflow_args r) (memo_of r) (env i e)) as Hout. rewrite Hst in Hout.
  destruct (start_creates _ _ _ _ _ _ Hst) as (_ & Hstarted & Hdup).
  pose proof (λ e, runs_and _ _ _ _ _ _ (get_spec (ew_run_id r) e Halone) (get_healthy (ew_run_id r) e Hh)) as Hget.
  destruct Hout as [Hout | Hout]; simpl in Hout; subst out.
  - destruct (Hstarted eq_refl) as [H1 H2]. apply runs_followed. eapply runs_mono; [apply Hget| |by intros ? ? [_ []]].
    intros rec e2 [[Hb _] _]. apply runs_done. left. split; [by rewrite <- (Halone i)|congruence].
  - destruct (Hdup eq_refl) as [-> [memo Hmemo]]. apply runs_followed. eapply runs_mono; [apply Hget| |by intros ? ? [_ []]].
    intros rec e2 [[Hb Hrec] _]. apply runs_followed, runs_reads. intros j. pose proof (Halone j e2) as Hj.
    destruct (he_describe _ Hh (env j e2)) as [[d ->] | Hn].
    2:{ apply describe_absent in Hn. rewrite Hj, Hb in Hn. congruence. }
    destruct rec as [rec|]; [|apply runs_raises; by do 3 eexists]. destruct (opt_eqb _ _); [|apply runs_raises; by do 3 eexists].
    apply runs_done. right. by rewrite Hj, Hb, (Halone i).
Qed.
End Specs.

(** * A small Temporal *)

Record flow := { fl_memo : workflow_memo; fl_status : string; fl_response : json }.

Record flows (up : bool) := { fl_runs : gmap string flow }.
Arguments fl_runs {up}.
Arguments Build_flows {up}.

Section Flows.
Context {up : bool}.

Definition flows_start (id : string) (args : json) (memo : workflow_memo) (e : flows up) :
    (unit + temporal_error) * flows up :=
  if up then
    match fl_runs e !! id with
    | Some _ => (inr WorkflowExecutionAlreadyStarted, e)
    | None => (inl tt, Build_flows (<[id := {| fl_memo := memo; fl_status := "RUNNING"; fl_response := JObject [] |}]>
                                      (fl_runs e)))
    end
  else (inr (TemporalUnavailable "no connection"), e).

Definition flows_describe (id : string) (e : flows up) : description + temporal_error :=
  if up then
    match fl_runs e !! id with
    | Some f => inl {| ds_status := Some (fl_status f); ds_memo := fl_memo f |}
    | None => inr WorkflowNotFound
    end
  else inr (TemporalUnavailable "no connection").

Definition flows_result (id : string) (e : flows up) : json + temporal_error :=
  if up then inl (match fl_response <$> fl_runs e !! id with
                  | Some (JObject f) => JObject f
                  | _ => JObject []
                  end)
  else inr (TemporalUnavailable "no connection").

#[export] Instance flows_temporal : Temporal (flows up) :=
  {| start_workflow := flows_start; describe_workflow := flows_describe; workflow_result := flows_result |}.

#[export] Program Instance flows_laws : TemporalLaws (flows up) :=
  {| bound id e := fl_memo <$> fl_runs e !! id |}.
Next Obligation.
  intros id args memo e r e'. simpl. unfold flows_start. destruct up; [|by intros [= <- <-]; repeat split; try left].
  destruct (fl_runs e !! id) eqn:He; intros [= <- <-]; rewrite ?He.
  - split; [by left|]. split; [done|]. intros _. split; [done|by eexists].
  - cbn. rewrite lookup_insert_eq. split; [|done]. right. split; [done|]. split; [done|].
    intros id' Hne. by rewrite lookup_insert_ne.
Qed.
Next Obligation.
  intros id e d. simpl. unfold flows_describe. destruct up; [|done].
  by destruct (fl_runs e !! id); intros [= <-].
Qed.
Next Obligation.
  intros id e. simpl. unfold flows_describe. destruct up; [|done]. by destruct (fl_runs e !! id).
Qed.
End Flows.

Lemma flows_healthy id : healthy (E := flows true) id.
Proof.
  split; simpl.
  - intros args memo e. unfold flows_start. destruct (fl_runs e !! id); [by right|by left].
  - intros e. unfold flows_describe. destruct (fl_runs e !! id); [left; by eexists|by right].
  - intros e. unfold flows_result. eexists. split; [done|]. by destruct (fl_response <$> _) as [[]|].
Qed.
