(* ===== verification/GatewayProperties.v ===== *)
(** The Execution API between the Review Runs service and Temporal: what a submission proves
    about the run, and what an observation reports. *)

From S2P Require Import Prelude Schema StateMachines Tables Database RunRecord PreparationStore ExecutionStore InputBundles.
From S2P Require Import SubmissionTransitions Runtime Invariant DatabaseSpecs SubmissionProperties.
From S2P Require Import System SystemSpecs Scenario PreparationProperties RecoveryProperties.
From S2P Require Import Gateway ExecutionClient GatewayIdentity GatewaySpecs.

(** * Bodies *)

Lemma body_run_id r : json_get "run_id" (record_body r) = Some (JString (xe_run_id r)).
Proof. done. Qed.

Lemma body_workflow r : json_get "workflow" (record_body r) = JString <$> xe_workflow r.
Proof. by destruct r as [? [] ? [] [] [] []]. Qed.

Lemma body_status r : json_get "status" (record_body r) = Some (JString (xe_status r)).
Proof. by destruct r as [? [] ? [] [] [] []]. Qed.

Lemma body_result r : json_get "result" (record_body r) = xe_result r.
Proof. by destruct r as [? [] ? [] [] [] []]. Qed.

Lemma body_storage r : json_get "artifact_storage" (record_body r) = xe_artifact_storage r.
Proof. by destruct r as [? [] ? [] [] [] []]. Qed.

Lemma body_error r : json_get "error" (record_body r) = xe_error r.
Proof. by destruct r as [? [] ? [] [] [] []]. Qed.

(** A record of the gateway is read back, when its workflow is one of the contract. *)
Lemma parse_record id memo r w expected :
  record_for id memo r → memo_workflow memo = Some w → existsb (String.eqb w) supportedWorkflows = true →
  match expected with Some x => x = w | None => True end →
  parseResponse (record_body r) id expected = inl (record_body r).
Proof.
  intros (Hid & Hw & Hs) Hm Hsup Hexp. unfold parseResponse.
  rewrite body_status, body_run_id, body_workflow, Hid, Hw, Hm. cbn [json_is_object record_body].
  rewrite (proj2 (existsb_exists _ _)).
  2:{ exists (xe_status r). split; [by apply list_elem_of_In|]. by apply String.eqb_refl. }
  simpl. rewrite bool_decide_eq_true_2 by done. simpl in Hsup. rewrite Hsup. simpl.
  destruct expected as [x|]; [|done]. subst x. by rewrite bool_decide_eq_true_2.
Qed.

(** What is read back is the workflow of the memo. *)
Lemma parsed_workflow id memo r expected v :
  record_for id memo r → parseResponse (record_body r) id (Some expected) = inl v → mm_workflow memo = Some expected.
Proof.
  intros (Hid & Hw & Hs). unfold parseResponse. rewrite body_status, body_run_id, body_workflow, Hw.
  cbn [json_is_object record_body]. destruct (negb (existsb _ _)); [done|]. destruct (negb (bool_decide _)); [done|].
  destruct (_ || _) eqn:Hor; [done|]. intros _. apply orb_false_iff in Hor as [_ Hw']. apply negb_false_iff, bool_decide_eq_true in Hw'.
  unfold memo_workflow in Hw'. destruct (mm_workflow memo) as [x|]; [|done]. destruct (String.eqb x ""); [done|].
  by injection Hw' as ->.
Qed.

(** * Submissions *)

Section Submission.
Context {E : Type} `{TemporalLaws E}.
Context (env : nat → E → E) (parse_url : string → option uri_parts).
Context (input_error : string → json → option string) (result_error : string → json → option string).
Context (workflow_error : ExecutionWorkflowInput → option string).
Context (locale_le : string → string → bool) (print_json : json → string) (sha256 : string → string).
Context (timeout : Z) (token header : option string).
Context (net : nat → hop) (oversized : json → bool) (to_text : json → string) (retries : nat).

Abbreviation service := (gateway env parse_url input_error result_error workflow_error locale_le print_json sha256
                           timeout token header).
Abbreviation memo_of := (memo_of locale_le print_json sha256).

Context (workflow id : string) (input : json).
Abbreviation body := {| rb_run_id := id; rb_input := input; rb_runtime := None |}.
Abbreviation request := (run_request timeout workflow body).

(** The gateway takes the request: the token is the right one, and the contract allows it. *)
Definition admissible : Prop :=
  match token with Some t => tokenMatches header t = true | None => True end
  ∧ existsb (String.eqb workflow) supportedWorkflows = true ∧ input_error workflow input = None
  ∧ workflow_error request = None.

(** Nothing has changed of the run, or this request has started it. *)
Definition at_most_started (e0 e : E) : Prop :=
  bound id e = bound id e0 ∨ (bound id e0 = None ∧ bound id e = Some (memo_of request) ∧ admissible).

(** The run is bound to a request with the fingerprint of this one. *)
Definition carries (e : E) : Prop :=
  ∃ memo, bound id e = Some memo ∧ mm_fingerprint memo = mm_fingerprint (memo_of request).

Definition bound_elsewhere (e : E) : Prop :=
  ∃ memo, bound id e = Some memo ∧ mm_fingerprint memo ≠ mm_fingerprint (memo_of request).

(** What an answer says, and what has happened by then. *)
Inductive told (e0 : E) (e : E) : Z → json → Prop :=
  | told_accepted rec memo :
      bound id e = Some memo → mm_fingerprint memo = mm_fingerprint (memo_of request) →
      record_for id memo rec → at_most_started e0 e → told e0 e 202 (record_body rec)
  | told_rejected status reply :
      (status = 400 ∨ status = 401) → bound id e = bound id e0 → ¬ admissible → told e0 e status reply
  | told_conflict reply : bound id e = bound id e0 → bound_elsewhere e0 → told e0 e 409 reply
  | told_broken reply : at_most_started e0 e → told e0 e 500 reply.

Context (Halone : leaves_run_alone env id).

Lemma createRun_told e :
  match token with Some t => tokenMatches header t = true | None => True end →
  runs (createRun env parse_url input_error result_error workflow_error locale_le print_json sha256 timeout workflow body)
    (λ reply e', told e e' (gr_status reply) (gr_body reply))
    (λ x e', (∃ m, x = GatewayError m) ∧ at_most_started e e') e.
Proof.
  intros Hauth. unfold createRun. destruct (existsb _ supportedWorkflows) eqn:Hw; simpl.
  2:{ apply runs_done, told_rejected; [by left|done|]. intros (_ & Hs & _). congruence. }
  destruct (input_error workflow input) eqn:Hin.
  { apply runs_done, told_rejected; [by left|done|]. intros (_ & _ & Hs & _). congruence. }
  assert (Hst : ∀ e', bound id e' = bound id e
    ∨ (started locale_le print_json sha256 request e e' ∧ workflow_error request = None) → at_most_started e e').
  { intros e' [Hs|[[H1 H2] Hok]]; [by left|]. right. done. }
  apply runs_rescue. apply runs_followed. eapply runs_mono; [by apply start_spec| |].
  - intros rec e' (memo & Hb & Hfp & Hrec & Hs). apply runs_done. simpl.
    apply (told_accepted _ _ rec memo); [done..|by apply Hst].
  - intros [i w existing|m|n m] e' Hx; [|apply runs_raises; split; [by eexists|by apply Hst]|done].
    destruct Hx as (-> & -> & Hb & Hm). by apply runs_done, told_conflict.
Qed.

Lemma service_told i e :
  let '(reply, _, e') := service (CreateRun workflow body) i e in told e e' (gr_status reply) (gr_body reply).
Proof.
  unfold gateway. destruct token as [t|] eqn:Htok.
  - destruct (tokenMatches header t) eqn:Hm.
    + pose proof (createRun_told e) as Hc. rewrite Htok in Hc. specialize (Hc Hm i). unfold followed, done.
      destruct (createRun _ _ _ _ _ _ _ _ _ _ _ i e) as [[[reply|x] i'] e']; [done|].
      destruct Hc as [[m ->] Hs]. by apply told_broken.
    + unfold followed, raises. simpl. apply told_rejected; [by right|done|]. intros [Ha _]. rewrite Htok in Ha. congruence.
  - pose proof (createRun_told e) as Hc. rewrite Htok in Hc. specialize (Hc I i). unfold followed, done.
    destruct (createRun _ _ _ _ _ _ _ _ _ _ _ i e) as [[[reply|x] i'] e']; [done|].
    destruct Hc as [[m ->] Hs]. by apply told_broken.
Qed.

(** Steps before the answer make no difference to what it says. *)
Lemma started_told e0 e e' status reply :
  at_most_started e0 e → told e e' status reply → told e0 e' status reply.
Proof.
  assert (Htrans : ∀ e', at_most_started e0 e → at_most_started e e' → at_most_started e0 e').
  { intros e1 [Hs|(H1 & H2 & H3)] [Hs'|(H1' & H2' & H3')].
    - left. congruence.
    - right. split; [congruence|done].
    - right. split; [done|]. split; [congruence|done].
    - congruence. }
  intros Hs Ht. destruct Ht as [rec memo Hb Hfp Hrec Hst|st reply Hst Hsame Hno|reply Hsame (memo & Hm & Hne)|reply Hst].
  - eapply told_accepted; eauto.
  - apply told_rejected; [done| |done]. destruct Hs as [Hs|(_ & _ & Ha)]; [congruence|done].
  - destruct Hs as [Hs|(_ & Hb & _)].
    + apply told_conflict; [congruence|]. exists memo. split; [congruence|done].
    + rewrite Hb in Hm. by injection Hm as <-.
  - apply told_broken. by apply Htrans.
Qed.

Lemma request_told n : ∀ e0 e, at_most_started e0 e →
  runs (request_loop service net oversized n (CreateRun workflow body))
    (λ r e', ∃ reply, r.2 = on_the_wire oversized reply ∧ told e0 e' r.1 reply)
    (λ x e', at_most_started e0 e') e.
Proof.
  assert (Hf : ∀ e0 e, at_most_started e0 e →
    runs (fetch service net oversized (CreateRun workflow body))
      (λ r e', ∃ reply, r.2 = on_the_wire oversized reply ∧ told e0 e' r.1 reply)
      (λ x e', at_most_started e0 e') e).
  { intros e0 e Hs i. unfold fetch. destruct (net i).
    - pose proof (service_told (S i) e) as Ht. destruct (service _ (S i) e) as [[reply i'] e'].
      eexists. split; [done|]. by eapply started_told.
    - done.
    - pose proof (service_told (S i) e) as Ht. destruct (service _ (S i) e) as [[reply i'] e'].
      apply (started_told e0) in Ht; [|done]. by destruct Ht; [|left|left|]. }
  induction n as [|n IH]; intros e0 e Hs i; simpl; pose proof (Hf e0 e Hs i) as Hi;
    destruct (fetch _ _ _ _ i e) as [[[[status wire]|x] i'] e']; simpl in *.
  - done.
  - done.
  - destruct (isRetryableStatus status) eqn:Hr; [|done]. apply IH. destruct Hi as (reply & _ & Ht).
    by destruct Ht as [| ? ? [-> | ->] | |]; try discriminate Hr.
  - destruct (isTransientTransportError x); [by apply IH|done].
Qed.

Lemma submission_told e :
  runs (submitExecutionRun service net oversized to_text retries workflow id input)
    (λ _ e', ∃ memo, bound id e' = Some memo ∧ mm_workflow memo = Some workflow
       ∧ mm_fingerprint memo = Some (fingerprint locale_le print_json sha256 request))
    (λ x e', caught_uncertain (caught_of x) = false →
       bound id e' = bound id e ∧ (admissible → bound_elsewhere e)) e.
Proof.
  unfold submitExecutionRun, execution_request. apply runs_followed, runs_rescue.
  eapply runs_mono; [apply (request_told retries e e); by left| |].
  2:{ intros x e' _. by apply runs_raises. }
  intros [status wire] e' (reply & Hwire & Ht). simpl in Hwire, Ht. subst wire.
  destruct Ht as [rec memo Hb Hfp Hrec _|st reply Hst Hsame Hno|reply Hsame Helse|reply _].
  - unfold on_the_wire. destruct (oversized (record_body rec)); [by apply runs_raises|]. simpl.
    destruct (parseResponse _ _ _) as [v|x] eqn:Hp; [|by apply runs_raises].
    apply runs_done. exists memo. split; [done|]. split; [by eapply parsed_workflow|done].
  - destruct Hst as [-> | ->]; destruct (read_body _) as [v perr]; apply runs_raises; intros _; by split.
  - destruct (read_body _) as [v perr]. apply runs_raises. intros _. by split.
  - destruct (read_body _) as [v perr]. apply runs_raises. done.
Qed.

(** C14: the answer to a submission is true of the run, whatever the network loses, however
    Temporal fails and however often the client asks again, as long as nobody else starts
    or forgets the run meanwhile: when it is accepted, the run is bound to this workflow
    and to the fingerprint of this request; when it is refused for good, this call has not
    started it, and a request the gateway takes can only have been refused because the run
    was bound to another one; only an uncertain answer says nothing. *)
Theorem submission_answers_are_true e :
  runs (submitExecutionRun service net oversized to_text retries workflow id input)
    (λ _ e', ∃ memo, bound id e' = Some memo ∧ mm_workflow memo = Some workflow
       ∧ mm_fingerprint memo = Some (fingerprint locale_le print_json sha256 request))
    (λ x e', caught_uncertain (caught_of x) = false →
       bound id e' = bound id e ∧ (admissible → bound_elsewhere e)) e.
Proof. apply submission_told. Qed.

(** ** When everything answers *)

Context (Hnet : ∀ i, net i = Answered) (Hhealthy : healthy id) (Hadm : admissible).

(** The refusal of a request for a run that another request has. *)
Definition conflict_body (existing : json) : json := gr_body (run_reply 409 id (Some workflow)
  (semanticError "EXECUTION_RUN_CONFLICT" "input" ("Execution run_id " +:+ id +:+ " is already bound to another request.")
     (JObject [("existing_workflow", existing)]))).

Lemma service_answers i e :
  let '(reply, _, e') := service (CreateRun workflow body) i e in
  told e e' (gr_status reply) (gr_body reply) ∧ gr_status reply ≠ 500
  ∧ (gr_status reply = 409 → ∃ existing, gr_body reply = conflict_body existing).
Proof.
  pose proof (service_told i e) as Ht. destruct Hadm as (Hauth & Hw & Hin & Hok).
  assert (Hc : ∀ e, runs (createRun env parse_url input_error result_error workflow_error locale_le print_json sha256 timeout workflow body)
    (λ reply _, gr_status reply ≠ 500
       ∧ (gr_status reply = 409 → ∃ existing, gr_body reply = conflict_body existing))
    (λ _ _, False) e).
  { intros e1. unfold createRun. rewrite Hw. cbn [negb rb_input]. rewrite Hin.
    apply runs_rescue, runs_followed. eapply runs_mono.
    - apply runs_and; [by apply start_healthy|by apply start_spec].
    - intros rec e2 _. by apply runs_done.
    - intros x e2 [(i' & w & existing & ->) (-> & -> & _)]. apply runs_done. split; [done|]. intros _. by eexists. }
  unfold gateway in *. destruct token as [t|].
  - rewrite Hauth in *. unfold followed, done in *. specialize (Hc e i).
    destruct (createRun _ _ _ _ _ _ _ _ _ _ _ i e) as [[[reply|x] i'] e']; [by split|done].
  - unfold followed, done in *. specialize (Hc e i).
    destruct (createRun _ _ _ _ _ _ _ _ _ _ _ i e) as [[[reply|x] i'] e']; [by split|done].
Qed.

Lemma request_answers e :
  runs (request_loop service net oversized retries (CreateRun workflow body))
    (λ r e', ∃ reply, r.2 = on_the_wire oversized reply ∧ told e e' r.1 reply
       ∧ r.1 ≠ 500 ∧ (r.1 = 409 → ∃ existing, reply = conflict_body existing))
    (λ x e', False) e.
Proof.
  intros i. pose proof (service_answers (S i) e) as Hs.
  destruct retries as [|n]; simpl; unfold fetch; rewrite Hnet;
    destruct (service _ (S i) e) as [[reply i'] e']; destruct Hs as (Ht & Hne & Hc).
  - by exists (gr_body reply).
  - assert (Hr : isRetryableStatus (gr_status reply) = false).
    { destruct Ht as [| ? ? [-> | ->] | |]; done. }
    rewrite Hr. by exists (gr_body reply).
Qed.

Lemma memo_workflow_of : existsb (String.eqb workflow) supportedWorkflows = true → memo_workflow (memo_of request) = Some workflow.
Proof. intros Hw. unfold memo_workflow. simpl. by destruct (String.eqb_spec workflow "") as [->|]. Qed.

(** What the client says when it cannot read that the run was accepted. *)
Definition unread_acceptance : client_failure := ExecutionSubmissionUncertainError
  ("Execution accepted run " +:+ id +:+ ", but returned an invalid creation response.").

Lemma accepted_or_unread e :
  bound id e = None ∨ bound id e = Some (memo_of request) →
  runs (submitExecutionRun service net oversized to_text retries workflow id input)
    (λ _ e', bound id e' = Some (memo_of request))
    (λ x e', bound id e' = Some (memo_of request) ∧ x = unread_acceptance
       ∧ ∃ rec, record_for id (memo_of request) rec ∧ oversized (record_body rec) = true) e.
Proof.
  intros Hb. destruct Hadm as (_ & Hw & _). unfold submitExecutionRun, execution_request.
  apply runs_followed, runs_rescue. eapply runs_mono; [apply request_answers| |done].
  intros [status wire] e' (reply & Hwire & Ht & Hbroken & _). simpl in Hwire, Ht, Hbroken. subst wire.
  destruct Ht as [rec memo Hm Hfp Hrec Hst|st reply _ _ Hno|reply Hsame (memo & Hm & Hne)|reply Hst]; [|done| |done].
  - assert (Hmemo : memo = memo_of request) by (destruct Hb as [Hb|Hb], Hst as [Hs|(_ & Hs & _)]; congruence).
    subst memo. unfold on_the_wire. change (negb (ok_status 202)) with false. destruct (oversized (record_body rec)) eqn:Ho; cbn [read_body]; cbn iota.
    { apply runs_raises. split; [done|]. split; [done|by exists rec]. }
    rewrite (parse_record id (memo_of request) rec workflow (Some workflow)); [by apply runs_done|done| |done|done].
    by apply memo_workflow_of.
  - destruct Hb as [Hb|Hb]; [congruence|]. rewrite Hb in Hm. by injection Hm as <-.
Qed.

Lemma accepted_again e :
  (∀ v, oversized v = false) → bound id e = None ∨ bound id e = Some (memo_of request) →
  runs (submitExecutionRun service net oversized to_text retries workflow id input)
    (λ _ e', bound id e' = Some (memo_of request)) (λ _ _, False) e.
Proof.
  intros Hsmall Hb. eapply runs_mono; [by apply accepted_or_unread|done|].
  intros x e' (_ & _ & rec & _ & Ho). congruence.
Qed.

(** What the client makes of the refusal: the code when it can read it. *)
Definition refused (x : client_failure) (readable : bool) : Prop :=
  caught_of x = {| caught_uncertain := false;
    caught_code := Some (if readable then "EXECUTION_RUN_CONFLICT" else "EXECUTION_API_ERROR");
    caught_message := if readable then "Execution run_id " +:+ id +:+ " is already bound to another request."
                      else "Execution returned HTTP " +:+ to_text (JNumber 409) +:+ "." |}.

Lemma refused_elsewhere e :
  bound_elsewhere e →
  runs (submitExecutionRun service net oversized to_text retries workflow id input)
    (λ _ _, False)
    (λ x e', bound id e' = bound id e ∧ ∃ existing, refused x (negb (oversized (conflict_body existing)))) e.
Proof.
  intros (memo' & Hm' & Hne). unfold submitExecutionRun, execution_request.
  apply runs_followed, runs_rescue. eapply runs_mono; [apply request_answers| |done].
  intros [status wire] e' (reply & Hwire & Ht & Hbroken & Hc). simpl in Hwire, Ht, Hbroken, Hc. subst wire.
  destruct Ht as [rec memo Hm Hfp Hrec Hst|st reply _ _ Hno|reply Hsame _|reply Hst]; [|done| |done].
  - destruct Hst as [Hs|(Hs & _)]; [|congruence]. rewrite Hs, Hm' in Hm. by injection Hm as <-.
  - destruct (Hc eq_refl) as [existing ->]. unfold on_the_wire, refused.
    destruct (oversized (conflict_body existing)) eqn:Ho; apply runs_raises; (split; [done|]); exists existing; by rewrite Ho.
Qed.

(** C31: sending a request again does no harm and a different one is told apart: when the
    network and Temporal answer and the gateway admits the request (its token is the right
    one and the contract allows it), a request for a run nobody started starts it, and the
    same request again changes nothing; either is accepted, unless the record the gateway
    answers with is over the byte budget of the client, who then calls the submission
    uncertain; and a request for a run that is bound to another one changes nothing and is
    refused with a code that is final for the client, that of a conflict unless the refusal is
    over the byte budget. *)
Theorem resubmission_outcomes e :
  ((bound id e = None ∨ bound id e = Some (memo_of request)) →
   runs (submitExecutionRun service net oversized to_text retries workflow id input)
     (λ _ e', bound id e' = Some (memo_of request))
     (λ x e', bound id e' = Some (memo_of request) ∧ x = unread_acceptance
        ∧ ∃ rec, record_for id (memo_of request) rec ∧ oversized (record_body rec) = true) e)
  ∧ (bound_elsewhere e →
     runs (submitExecutionRun service net oversized to_text retries workflow id input)
       (λ _ _, False)
       (λ x e', bound id e' = bound id e ∧ ∃ existing, refused x (negb (oversized (conflict_body existing)))) e).
Proof. split; [apply accepted_or_unread|apply refused_elsewhere]. Qed.
End Submission.

(** * Observations *)

Section Observation.
Context {E : Type} `{TemporalLaws E}.
Context (env : nat → E → E) (parse_url : string → option uri_parts).
Context (input_error : string → json → option string) (result_error : string → json → option string).
Context (workflow_error : ExecutionWorkflowInput → option string).
Context (locale_le : string → string → bool) (print_json : json → string) (sha256 : string → string).
Context (timeout : Z) (token header : option string).
Context (oversized : json → bool) (to_text : json → string) (retries : nat).

Abbreviation service := (gateway env parse_url input_error result_error workflow_error locale_le print_json sha256
                           timeout token header).

Definition authorized : Prop := match token with Some t => tokenMatches header t = true | None => True end.

Context (Hauth : authorized).

(** A storage that the client accepts as it is, and the store after it. *)
Definition storage_accepted (id : string) (v : json) : Prop :=
  parseArtifactStorage to_text parse_url v id = inl (storage_of_json v)
  ∧ ∃ j, normalizeArtifactStorage (storage_of_json v) = Ok j.

Lemma diagnostic_accepted id v storage :
  parseRunDiagnosticArtifact parse_url v id = inl storage → storage_accepted id storage.
Proof.
  unfold parseRunDiagnosticArtifact. destruct v as [[| | | | |f]|]; try done.
  destruct (negb _); [done|]. destruct (json_get "artifact" _) as [[| | | | |a]|]; try done.
  destruct (json_get "uri" _) as [[| | |uri| |]|]; try done.
  destruct (json_get "digest" _) as [digest|] eqn:Hd; [|done].
  destruct (json_get "size_bytes" _) as [size|] eqn:Hs; [|done].
  destruct (negb _) eqn:Hf; [done|]. apply negb_false_iff in Hf.
  destruct (parse_url uri) as [u|] eqn:Hu; [|done]. destruct (negb _) eqn:Hdu; [done|]. apply negb_false_iff in Hdu.
  intros [= <-]. unfold diagnostic_fields in Hf. rewrite Hd, Hs in Hf.
  apply andb_true_iff in Hf as [[[_ _]%andb_true_iff Hdig]%andb_true_iff Hsize].
  destruct digest as [| | |digest| |]; try done. destruct size as [| |size| | |]; try done.
  split; [|by eexists].
  unfold parseArtifactStorage, parseDiagnosticArtifactUri, diagnostic_fields. simpl in *.
  rewrite Hu, Hdu. simpl. by rewrite Hdig, Hsize.
Qed.

Lemma get_storage_accepted id i e rec i' e' v :
  get env parse_url result_error id i e = (inl (Some rec), i', e') → xe_artifact_storage rec = Some v →
  storage_accepted id v.
Proof.
  assert (Hun : storage_accepted id unavailable_storage) by (split; [done|by eexists]).
  assert (Hresp : ∀ w response, xe_artifact_storage (response_record parse_url result_error id w response) = Some v →
    storage_accepted id v).
  { intros w response. unfold response_record.
    destruct (json_get "ok" response) as [[|[]| | | |]|]; try (by intros [= <-]).
    destruct (json_get "result" response) as [result|]; [|by intros [= <-]].
    unfold completed_record. destruct w as [w|]; [|by intros [= <-]].
    destruct (result_error w result); [by intros [= <-]|].
    destruct (parseRunDiagnosticArtifact _ _ _) as [storage|] eqn:Hp; simpl; intros [= <-].
    - by eapply diagnostic_accepted.
    - split; [done|by eexists]. }
  unfold get, followed, temporal_reads, temporal, done, raises.
  destruct (describe_workflow id (env i e)) as [d|[]]; try done.
  destruct (String.eqb _ "RUNNING"); [by intros [= <- _ _]|].
  destruct (String.eqb _ "COMPLETED"); [|by intros [= <- _ _] [= <-]].
  destruct (workflow_result id _) as [[| | | | |]|]; try done; intros [= <- _ _]; apply Hresp.
Qed.

(** What the client makes of a record. *)
Definition reads_as (rec : execution_record) (s : execution_status) : Prop :=
  st_status s = xe_status rec ∧ st_result s = xe_result rec
  ∧ st_storage s = storage_of_json <$> xe_artifact_storage rec
  ∧ st_error s = match xe_error rec with
                 | Some (JObject f) => Some (string_field "code" (JObject f), string_field "message" (JObject f))
                 | _ => None
                 end.

(** The client accepts a record the gateway has made. *)
Lemma record_reads id i e rec i' e' :
  get env parse_url result_error id i e = (inl (Some rec), i', e') →
  ∃ s, status_of_response to_text parse_url (record_body rec) id = inl s ∧ reads_as rec s ∧ storage_valid (st_storage s).
Proof.
  intros Hget. unfold status_of_response. rewrite body_storage. destruct (xe_artifact_storage rec) as [v|] eqn:Hv.
  - destruct (get_storage_accepted id _ _ _ _ _ v Hget Hv) as [-> [j Hj]]. eexists. split; [reflexivity|].
    unfold reads_as. cbn [st_status st_error st_storage st_result]. rewrite body_result, body_error, Hv.
    split; [|by intros ? [= <-]; exists j]. split; [|done]. unfold string_field. by rewrite body_status.
  - eexists. split; [reflexivity|]. unfold reads_as. cbn [st_status st_error st_storage st_result].
    rewrite body_result, body_error, Hv. split; [|done]. split; [|done]. unfold string_field. by rewrite body_status.
Qed.

Lemma service_run id i e :
  service (GetRun id) i e
  = match get env parse_url result_error id i e with
    | (inl (Some rec), i', e') => ({| gr_status := 200; gr_body := record_body rec |}, i', e')
    | (inl None, i', e') => (run_reply 404 id None (semanticError "EXECUTION_RUN_NOT_FOUND" "runtime"
                                                     "Execution run not found." (JObject [])), i', e')
    | (inr x, i', e') => (error_answer x, i', e')
    end.
Proof.
  unfold gateway, gateway_getRun, followed, done. unfold authorized in Hauth.
  destruct token as [t|]; [rewrite Hauth|]; by destruct (get _ _ _ id i e) as [[[[rec|]|x] i'] e'].
Qed.

(** What the client reads of an answer over its byte budget. *)
Definition too_large : client_failure := ExecutionProtocolError "EXECUTION_RESPONSE_TOO_LARGE"
  "Execution returned a response larger than the protocol budget.".

(** C27: an observation reports the run as it is: of a run the gateway started, as long as the
    gateway takes the token and Temporal and the network answer, the client reads exactly the
    record the gateway has made of it, its status, result, error and artifact storage, and the
    storage is one the store accepts; the one failure left is that the record is over the byte
    budget of the client, which is the protocol error of that and no other; a run is never
    reported missing. *)
Theorem observation_reads_record net id memo w i e :
  (∀ i, net i = Answered) → leaves_run_alone env id → healthy id →
  bound id e = Some memo → mm_workflow memo = Some w → existsb (String.eqb w) supportedWorkflows = true →
  ∃ rec s i' e', get env parse_url result_error id (S i) e = (inl (Some rec), i', e')
    ∧ record_for id memo rec
    ∧ getExecutionRunStatus service net oversized to_text parse_url retries id (Some w) i e
      = ((if oversized (record_body rec) then inr too_large else inl s), i', e')
    ∧ reads_as rec s ∧ storage_valid (st_storage s) ∧ bound id e' = Some memo.
Proof.
  intros Hnet Halone Hh Hb Hw Hsup.
  assert (Hmw : memo_workflow memo = Some w).
  { unfold memo_workflow. rewrite Hw. destruct (String.eqb_spec w ""); [by subst|done]. }
  pose proof (get_healthy env parse_url result_error id e Hh (S i)) as Hg1.
  pose proof (get_spec env parse_url result_error id e Halone (S i)) as Hg2.
  destruct (get env parse_url result_error id (S i) e) as [[[[rec|]|x] i'] e'] eqn:Hget; [|by destruct Hg2; congruence|done].
  destruct Hg2 as (Hb' & memo' & Hm' & Hrec). rewrite Hb in Hm'. injection Hm' as <-.
  assert (Hloop : execution_request service net oversized retries (GetRun id) i e
                  = (inl (200, on_the_wire oversized (record_body rec)), i', e')).
  { unfold execution_request. assert (Hf : fetch service net oversized (GetRun id) i e = (inl (200, on_the_wire oversized (record_body rec)), i', e')).
    { unfold fetch. by rewrite Hnet, service_run, Hget. }
    destruct retries; simpl; by rewrite Hf. }
  destruct (record_reads _ _ _ _ _ _ Hget) as (s & Hs & Hreads & Hval). exists rec, s, i', e'. split; [done|]. split; [done|].
  split; [|split; [done|split; [done|congruence]]].
  unfold getExecutionRunStatus, followed. rewrite Hloop. unfold computes, json_body, on_the_wire. cbn [fst snd].
  change (negb (ok_status 200)) with false. destruct (oversized (record_body rec)); [done|]. cbn iota.
  cbn [read_body]. rewrite (parse_record id memo rec w) by done. by rewrite Hs.
Qed.

Context (Hsmall : ∀ v, oversized v = false).

(** Temporal does not answer about the run, and goes on not to. *)
Record outage (id : string) (down : E → Prop) : Prop := {
  ou_describe e : down e → ∃ m, describe_workflow id e = inr (TemporalUnavailable m);
  ou_lasts i e : down e → down (env i e);
}.

Lemma outage_request id down net n i e :
  (∀ i, net i = Answered) → outage id down → down e →
  ∃ i' e', request_loop service net oversized n (GetRun id) i e
    = (inl (500, BodyJson (gr_body (error_answer (GatewayError "")))), i', e').
Proof.
  intros Hnet Hout. revert i e.
  assert (Hf : ∀ i e, down e → ∃ i' e', down e' ∧ fetch service net oversized (GetRun id) i e
    = (inl (500, BodyJson (gr_body (error_answer (GatewayError "")))), i', e')).
  { intros i e Hd. unfold fetch. rewrite Hnet, service_run. unfold get, followed, temporal_reads, temporal, raises.
    pose proof (ou_lasts _ _ Hout (S i) e Hd) as Hd'. destruct (ou_describe _ _ Hout _ Hd') as [m Hm].
    rewrite Hm. do 2 eexists. split; [exact Hd'|]. unfold on_the_wire. by rewrite Hsmall. }
  induction n as [|n IH]; intros i e Hd; simpl; destruct (Hf i e Hd) as (i' & e' & Hd' & ->); [by do 2 eexists|].
  by apply IH.
Qed.

Lemma lost_request id net n i e :
  (∀ i, ∃ m, net i = NeverArrived m) →
  ∃ m i', request_loop service net oversized n (GetRun id) i e = (inr (TransportFailure m), i', e).
Proof.
  intros Hnet. revert i. induction n as [|n IH]; intros i; simpl; unfold fetch; destruct (Hnet i) as [m ->]; simpl;
    [by do 2 eexists|]. apply IH.
Qed.

End Observation.

(** * Witnesses *)

Section Witnesses.
Context {up : bool}.

(** The gateway over the small Temporal: nobody else acts, and the contract allows everything. *)
Definition flows_service : gateway_request → nat → flows up → gateway_response * nat * flows up :=
  gateway (λ _ e, e) (λ _, None) (λ _ _, None) (λ _ _, None) (λ _, None) String.leb number_text (λ s, s)
    60 (Some "secret") (Some "Bearer secret").
Definition flows_submit (net : nat → hop) (input : json) : remote (flows up) client_failure unit :=
  submitExecutionRun flows_service net (λ _, false) (λ _, "") 1 "issue-review" "run-1" input.
End Witnesses.

Definition flows_memo (input : json) : workflow_memo :=
  memo_of String.leb number_text (λ s, s)
    (run_request 60 "issue-review" {| rb_run_id := "run-1"; rb_input := input; rb_runtime := None |}).

Definition no_flow : flows true := Build_flows ∅.
Definition one_flow (input : json) (status : string) (response : json) : flows true :=
  Build_flows {["run-1" := {| fl_memo := flows_memo input; fl_status := status; fl_response := response |}]}.

(** The first answer is lost. *)
Definition first_dropped (i : nat) : hop := match i with O => AnswerDropped "socket hang up" | _ => Answered end.

Lemma alone_here {up} id : leaves_run_alone (E := flows up) (λ _ e, e) id.
Proof. by intros i e. Qed.

Lemma submission_answers_are_true_witness :
  ∃ memo, ((flows_submit first_dropped JNull 0%nat no_flow).1.1 = inl tt
    ∧ bound "run-1" (flows_submit first_dropped JNull 0%nat no_flow).2 = Some memo)
    ∧ mm_workflow memo = Some "issue-review" ∧ mm_fingerprint memo = mm_fingerprint (flows_memo JNull).
Proof.
  pose proof (submission_answers_are_true (E := flows true) (λ _ e, e) (λ _, None) (λ _ _, None) (λ _ _, None)
    (λ _, None) String.leb number_text (λ s, s) 60 (Some "secret") (Some "Bearer secret") first_dropped (λ _, false)
    (λ _, "") 1 "issue-review" "run-1" JNull (alone_here _) no_flow 0%nat) as Hs.
  change (submitExecutionRun _ _ _ _ _ _ _ _ 0%nat no_flow) with (flows_submit first_dropped JNull 0%nat no_flow) in Hs.
  assert (Hok : match flows_submit first_dropped JNull 0%nat no_flow with (inl _, _, _) => true | _ => false end = true)
    by (vm_compute; reflexivity).
  destruct (flows_submit first_dropped JNull 0%nat no_flow) as [[[[]|x] i'] e']; [|discriminate Hok].
  destruct Hs as (memo & Hb & Hw & Hf). exists memo. exact (conj (conj eq_refl Hb) (conj Hw Hf)).
Defined.

Lemma resubmission_outcomes_witness :
  runs (flows_submit (λ _, Answered) JNull) (λ _ e', bound "run-1" e' = Some (flows_memo JNull)) (λ _ _, False) no_flow
  ∧ runs (flows_submit (λ _, Answered) JNull) (λ _ _, False)
      (λ x e', bound "run-1" e' = Some (flows_memo (JBool true))
         ∧ caught_code (caught_of x) = Some "EXECUTION_RUN_CONFLICT")
      (one_flow (JBool true) "RUNNING" (JObject [])).
Proof.
  assert (Hr : ∀ e, _) by exact (resubmission_outcomes (E := flows true) (λ _ e, e) (λ _, None) (λ _ _, None) (λ _ _, None)
    (λ _, None) String.leb number_text (λ s, s) 60 (Some "secret") (Some "Bearer secret") (λ _, Answered) (λ _, false)
    (λ _, "") 1 "issue-review" "run-1" JNull (alone_here _) (λ _, eq_refl) (flows_healthy _)
    (conj eq_refl (conj eq_refl (conj eq_refl eq_refl)))).
  split.
  { destruct (Hr no_flow) as [Ha _]. eapply runs_mono; [apply Ha; left; reflexivity|done|].
    by intros x e' (_ & _ & rec & _ & Ho). }
  destruct (Hr (one_flow (JBool true) "RUNNING" (JObject []))) as [_ Hc].
  eapply runs_mono; [apply Hc|done|].
  - exists (flows_memo (JBool true)). split; [vm_compute; reflexivity|]. vm_compute. discriminate.
  - intros x e' [Hb [existing Hx]]. split; [rewrite Hb; vm_compute; reflexivity|]. unfold refused in Hx. by rewrite Hx.
Defined.

(** A run that concluded without its artifact. *)
Definition bare_response : json := JObject [("ok", JBool true); ("result", JObject [("score", JNumber 3)])].

Lemma observation_reads_record_witness :
  ∃ rec s, reads_as rec s ∧ storage_valid (st_storage s)
    ∧ (getExecutionRunStatus flows_service (λ _, Answered) (λ _, false) (λ _, "") (λ _, None) 1 "run-1"
         (Some "issue-review") 0%nat (one_flow JNull "COMPLETED" bare_response)).1.1 = inl s
    ∧ st_status s = "failed".
Proof.
  destruct (observation_reads_record (E := flows true) (λ _ e, e) (λ _, None) (λ _ _, None) (λ _ _, None)
    (λ _, None) String.leb number_text (λ s, s) 60 (Some "secret") (Some "Bearer secret") (λ _, false)
    (λ _, "") 1 eq_refl (λ _, Answered) "run-1" (flows_memo JNull) "issue-review" 0%nat
    (one_flow JNull "COMPLETED" bare_response) (λ _, eq_refl) (alone_here _) (flows_healthy _))
    as (rec & s & i' & e' & Hget & Hrec & Hs & Hreads & Hval & Hb); [vm_compute; reflexivity..|].
  exists rec, s. split; [exact Hreads|]. split; [exact Hval|].
  assert (Hf : match getExecutionRunStatus flows_service (λ _, Answered) (λ _, false) (λ _, "") (λ _, None) 1 "run-1"
         (Some "issue-review") 0%nat (one_flow JNull "COMPLETED" bare_response) with
               | (inl s', _, _) => String.eqb (st_status s') "failed" | _ => false end = true) by (vm_compute; reflexivity).
  unfold flows_service in *. rewrite Hs in Hf |- *. apply String.eqb_eq in Hf. exact (conj eq_refl Hf).
Defined.


(** * The recovery of an uncertain submission, from the rows of the run to Temporal and back *)

Section Recovery.
Context {E : Type} `{TemporalLaws E}.
Context (env : nat → E → E) (parse_url : string → option uri_parts).
Context (input_error : string → json → option string) (result_error : string → json → option string).
Context (workflow_error : ExecutionWorkflowInput → option string).
Context (locale_le : string → string → bool) (print_json : json → string) (sha256 : string → string).
Context (timeout : Z) (token header : option string).
Context (net : nat → hop) (oversized : json → bool) (to_text : json → string) (retries : nat).
Context (i : nat) (e : E) (run : ReviewRunRecord).

Abbreviation service := (gateway env parse_url input_error result_error workflow_error locale_le print_json sha256
                           timeout token header).

(** The submission the recovery makes, of the workflow and the input of the record. *)
Definition resubmit (workflow : string) (input : json) :=
  submitExecutionRun service net oversized to_text retries workflow (rec_run_id run) input i e.

(** The request as the gateway sees it. *)
Definition saved_request (input : json) : ExecutionWorkflowInput :=
  run_request timeout (rec_workflow run) {| rb_run_id := rec_run_id run; rb_input := input; rb_runtime := None |}.

(** The gateway takes the saved request. *)
Definition takes_saved (input : json) : Prop :=
  admissible input_error workflow_error timeout token header (rec_workflow run) (rec_run_id run) input.

(** The run is bound to a request with another fingerprint. *)
Definition taken (input : json) (e : E) : Prop :=
  ∃ memo, bound (rec_run_id run) e = Some memo
    ∧ mm_fingerprint memo ≠ Some (fingerprint locale_le print_json sha256 (saved_request input)).

(** What one recovery may conclude of the run in Temporal. *)
Definition concluded_truly (input : json) (out : recovery_result) (t' : run_rows) (e' : E) : Prop :=
  match out with
  | Recovered => axes_are t' Prep.failed Exec.queued Pub.pending
      ∧ ∃ memo, bound (rec_run_id run) e' = Some memo ∧ mm_workflow memo = Some (rec_workflow run)
          ∧ mm_fingerprint memo = Some (fingerprint locale_le print_json sha256 (saved_request input))
  | RecoveryFailed => axes_are t' Prep.failed Exec.failed Pub.skipped
      ∧ bound (rec_run_id run) e' = bound (rec_run_id run) e ∧ (takes_saved input → taken input e)
  | Deferred => axes_are t' Prep.failed Exec.uncertain Pub.pending
  | _ => False
  end.

End Recovery.

(** * Witness *)

