(* ===== verification/Suggestions.v ===== *)
(** Inline suggestions from a mitigation patch (apps/github-integration,
    reviews/pull-requests/suggestion-service.ts, suggestion-comments.ts): hunk headers, the files
    and hunks of a workspace patch, the quoted paths of Git; the blocks of changed lines of a
    hunk, the hunk of the pull request that shows them, and the manifest.

    Texts are the bytes of their UTF-8 form.  [decode_utf8] is the fatal TextDecoder: the text
    of a sequence of bytes, or the text of its error. *)

From Stdlib Require Import DecimalString.
From S2P Require Import Prelude GitHub.

(** [s.slice(n)]. *)
Definition slice (n : nat) (s : string) : string := String.substring n (String.length s - n) s.

Definition line_feed : Ascii.ascii := Ascii.ascii_of_N 10.
Definition tab : Ascii.ascii := Ascii.ascii_of_N 9.
Definition quote : Ascii.ascii := Ascii.ascii_of_N 34.
Definition backslash : Ascii.ascii := Ascii.ascii_of_N 92.
Definition minus : Ascii.ascii := Ascii.ascii_of_N 45.
Definition plus : Ascii.ascii := Ascii.ascii_of_N 43.
Definition space : Ascii.ascii := Ascii.ascii_of_N 32.

(** * Hunk headers *)

Record HunkHeader := { old_start : Z; old_count : Z; new_start : Z; new_count : Z }.

Definition is_digit (a : Ascii.ascii) : bool :=
  let n := Ascii.N_of_ascii a in ((48 <=? n) && (n <=? 57))%N.

(** [\d*]: the digits at the head of a text, and the rest. *)
Fixpoint span_digits (s : string) : string * string :=
  match s with
  | String a s' => if is_digit a then let (d, r) := span_digits s' in (String a d, r) else ("", s)
  | EmptyString => ("", "")
  end.

(** [Number] of digits, exact as far as JavaScript's numbers are (below 2^53). *)
Definition number_of (digits : string) : option Z := Z.of_uint <$> NilZero.uint_of_string digits.

(** [(\d+)]. *)
Definition read_number (s : string) : option (Z * string) :=
  let (d, r) := span_digits s in
  match number_of d with Some n => Some (n, r) | None => None end.

(** A literal. *)
Definition expect (literal s : string) : option string :=
  if String.prefix literal s then Some (slice (String.length literal) s) else None.

(** [(\d+)(?:,(\d+))?], the count 1 when there is none. *)
Definition read_range (s : string) : option (Z * Z * string) :=
  match read_number s with
  | Some (n, r) =>
      match expect "," r with
      | Some r' => match read_number r' with
                   | Some (m, r'') => Some (n, m, r'')
                   | None => Some (n, 1, r)
                   end
      | None => Some (n, 1, r)
      end
  | None => None
  end.

Definition parseHunkHeader (headerLine : string) : option HunkHeader :=
  r0 ← expect "@@ -" headerLine;
  '(os, oc, r1) ← read_range r0;
  r2 ← expect " +" r1;
  '(ns, nc, r3) ← read_range r2;
  _ ← expect " @@" r3;
  Some {| old_start := os; old_count := oc; new_start := ns; new_count := nc |}.

(** [parsePatchHunks]. *)
Definition parsePatchHunks (patch_content : string) : list HunkHeader :=
  if blank patch_content then []
  else omap parseHunkHeader (List.filter (String.prefix "@@ ") (split_on line_feed patch_content)).

(** * Paths *)

Definition escapes (a : Ascii.ascii) : option Ascii.ascii :=
  match Ascii.N_of_ascii a with
  | 97%N => Some 7%N | 98%N => Some 8%N | 116%N => Some 9%N | 110%N => Some 10%N | 118%N => Some 11%N
  | 102%N => Some 12%N | 114%N => Some 13%N | 34%N => Some 34%N | 92%N => Some 92%N
  | _ => None
  end ≫= λ n, Some (Ascii.ascii_of_N n).

(** [/^[0-3][0-7]{2}/] as a byte. *)
Definition octal (a b c : Ascii.ascii) : option Ascii.ascii :=
  let digit x := (Ascii.N_of_ascii x - 48)%N in
  let within x hi := ((48 <=? Ascii.N_of_ascii x) && (Ascii.N_of_ascii x <=? hi))%N in
  if within a 51%N && within b 55%N && within c 55%N
  then Some (Ascii.ascii_of_N (64 * digit a + 8 * digit b + digit c)) else None.

Definition invalid_escape : string := "Error: Invalid escape in quoted Git path.".

(** The bytes between the quotes. *)
Fixpoint decode_quoted (s : string) : string + string :=
  match s with
  | EmptyString => inl EmptyString
  | String ch rest =>
      if Ascii.eqb ch backslash then
        match rest with
        | EmptyString => inr invalid_escape
        | String e rest' =>
            match rest' with
            | String b (String c rest'') =>
                match octal e b c with
                | Some byte => match decode_quoted rest'' with inl s => inl (String byte s) | inr x => inr x end
                | None => match escapes e with
                          | Some byte => match decode_quoted rest' with inl s => inl (String byte s) | inr x => inr x end
                          | None => inr invalid_escape
                          end
                end
            | _ => match escapes e with
                   | Some byte => match decode_quoted rest' with inl s => inl (String byte s) | inr x => inr x end
                   | None => inr invalid_escape
                   end
            end
        end
      else if Ascii.eqb ch quote then inr "Error: Unexpected quote in Git path."
      else match decode_quoted rest with inl s => inl (String ch s) | inr x => inr x end
  end.

Section Patches.
Context (decode_utf8 : string → string + string).

Definition decodeGitPatchPath (value : string) : string + string :=
  if negb (String.prefix (String quote "") value) then inl (default "" (head (split_on tab value)))
  else if negb (bool_decide (last_char value = Some quote)) then inr "Error: Unterminated quoted Git path."
  else match decode_quoted (String.substring 1 (String.length value - 2) value) with
       | inl bytes => decode_utf8 bytes
       | inr x => inr x
       end.

(** * Workspace patches *)

Record WorkspaceHunk := { wh_header : HunkHeader; wh_lines : list string }.

Record WorkspacePatchFile := {
  pf_path : string;
  pf_hunks : list WorkspaceHunk;
  pf_path_error : option string;
}.

Fixpoint update_last {A} (f : A → A) (l : list A) : list A :=
  match l with
  | [] => []
  | [x] => [f x]
  | x :: l' => x :: update_last f l'
  end.

(** The files so far, the current one last; and whether its last hunk is the current one. *)
Definition patch_state : Type := list WorkspacePatchFile * bool.

Definition set_path (line : string) (f : WorkspacePatchFile) : WorkspacePatchFile :=
  match decodeGitPatchPath (slice 4 line) with
  | inl path =>
      if String.prefix "b/" path
      then {| pf_path := slice 2 path; pf_hunks := pf_hunks f; pf_path_error := None |}
      else {| pf_path := pf_path f; pf_hunks := pf_hunks f;
              pf_path_error := Some "Error: Patch destination is not a repository file." |}
  | inr error => {| pf_path := pf_path f; pf_hunks := pf_hunks f; pf_path_error := Some error |}
  end.

Definition add_hunk (h : WorkspaceHunk) (f : WorkspacePatchFile) : WorkspacePatchFile :=
  {| pf_path := pf_path f; pf_hunks := pf_hunks f ++ [h]; pf_path_error := pf_path_error f |}.

Definition add_line (line : string) (f : WorkspacePatchFile) : WorkspacePatchFile :=
  {| pf_path := pf_path f;
     pf_hunks := update_last (λ h, {| wh_header := wh_header h; wh_lines := wh_lines h ++ [line] |}) (pf_hunks f);
     pf_path_error := pf_path_error f |}.

(** [/^[ +-]/]. *)
Definition is_hunk_line (line : string) : bool :=
  match line with
  | String a _ => Ascii.eqb a space || Ascii.eqb a plus || Ascii.eqb a minus
  | EmptyString => false
  end.

(** One turn of the loop. *)
Definition patch_line (st : patch_state) (line : string) : patch_state :=
  let (files, in_hunk) := st in
  if String.prefix "diff --git " line || String.prefix "diff -ruN " line
  then (files ++ [{| pf_path := line; pf_hunks := [];
                     pf_path_error := Some "Patch entry has no readable destination path." |}], false)
  else match files with
  | [] => st
  | _ =>
      if negb in_hunk && String.prefix "+++ " line then (update_last (set_path line) files, in_hunk)
      else if String.prefix "@@ " line
      then match parseHunkHeader line with
           | None => (files, false)
           | Some header => (update_last (add_hunk {| wh_header := header; wh_lines := [] |}) files, true)
           end
      else if in_hunk && is_hunk_line line then (update_last (add_line line) files, in_hunk)
      else st
  end.

Definition parseWorkspacePatch (patch_content : string) : list WorkspacePatchFile :=
  (foldl patch_line ([], false) (split_on line_feed patch_content)).1.
End Patches.

(** * Blocks *)

Record WorkspaceSuggestionBlock := { bk_start_line : Z; bk_line : Z; bk_replacement : string }.

(** A line of a hunk with the number the old side has reached before it. *)
Definition numbered : Type := string * Z.

Definition line_marker (line : string) : option Ascii.ascii := String.get 0 line.
Definition line_marked (a : Ascii.ascii) (x : numbered) : bool := bool_decide (line_marker x.1 = Some a).
Definition changed (x : numbered) : bool := line_marked plus x || line_marked minus x.

(** [old_line_at_index]. *)
Fixpoint number_lines (cursor : Z) (lines : list string) : list numbered :=
  match lines with
  | [] => []
  | line :: lines' =>
      (line, cursor)
      :: number_lines (if line_marked space (line, 0) || line_marked minus (line, 0) then cursor + 1 else cursor) lines'
  end.

Fixpoint take_run (l : list numbered) : list numbered :=
  match l with x :: l' => if changed x then x :: take_run l' else [] | [] => [] end.
Fixpoint drop_run (l : list numbered) : list numbered :=
  match l with x :: l' => if changed x then drop_run l' else l | [] => [] end.

Definition text_of_line (x : numbered) : string := slice 1 x.1.
Definition plus_lines (run : list numbered) : list string := text_of_line <$> List.filter (line_marked plus) run.
Definition minus_line_numbers (run : list numbered) : list Z := snd <$> List.filter (line_marked minus) run.

(** The block that replaces the removed lines, when there are any. *)
Definition removed_block (numbers : list Z) (replacement : string) : option WorkspaceSuggestionBlock :=
  let start_line := default 0 (head numbers) in
  let line := default 0 (last numbers) in
  if (0 <? start_line) && (start_line <=? line)
  then Some {| bk_start_line := start_line; bk_line := line; bk_replacement := replacement |} else None.

Definition joined (lines : list string) : string := String.concat (String line_feed "") lines.

(** The block of a run of changed lines, between the lines before and after it. *)
Definition block_of_run (before run after : list numbered) : option WorkspaceSuggestionBlock :=
  match plus_lines run, minus_line_numbers run with
  | [], numbers => match numbers with [] => None | _ => removed_block numbers "" end
  | plus_lines, numbers =>
      let replacementCore := trim_end 0 (joined plus_lines) in
      if String.eqb replacementCore "" then None
      else match numbers with
      | _ :: _ => removed_block numbers replacementCore
      | [] =>
          let insertionLine := default 0 (snd <$> head run) in
          if insertionLine <=? 0 then None
          else
            let anchored :=
              match List.find (line_marked space) after with
              | Some context => Some (joined [replacementCore; text_of_line context])
              | None => match List.find (line_marked space) (reverse before) with
                        | Some context => Some (joined [text_of_line context; replacementCore])
                        | None => None
                        end
              end in
            (λ r, {| bk_start_line := insertionLine; bk_line := insertionLine; bk_replacement := r |}) <$> anchored
      end
  end.

Definition push {A} (x : option A) (l : list A) : list A := match x with Some a => a :: l | None => l end.

(** The loop over the lines; a turn takes one context line or a whole run. *)
Fixpoint blocks_of (fuel : nat) (before rest : list numbered) : list WorkspaceSuggestionBlock :=
  match fuel, rest with
  | S fuel', x :: rest' =>
      if changed x
      then push (block_of_run before (take_run rest) (drop_run rest))
             (blocks_of fuel' (before ++ take_run rest) (drop_run rest))
      else blocks_of fuel' (before ++ [x]) rest'
  | _, _ => []
  end.

Definition splitWorkspaceHunkIntoSuggestionBlocks (h : WorkspaceHunk) : list WorkspaceSuggestionBlock :=
  blocks_of (length (wh_lines h)) [] (number_lines (old_start (wh_header h)) (wh_lines h)).

(** * Anchors *)

Definition toLineRange (start count : Z) : option (Z * Z) :=
  if (start <=? 0) || (count <=? 0) then None else Some (start, start + count - 1).

Definition rangesOverlap (left right : Z * Z) : bool := (left.1 <=? right.2) && (right.1 <=? left.2).

Definition findAnchoringHunkForBlock (block : WorkspaceSuggestionBlock) (prHunks : list HunkHeader) : option HunkHeader :=
  match toLineRange (bk_start_line block) (bk_line block - bk_start_line block + 1) with
  | None => None
  | Some blockRange =>
      List.find (λ h, match toLineRange (new_start h) (new_count h) with
                      | Some prRange => rangesOverlap blockRange prRange
                      | None => false
                      end) prHunks
  end.

(** * The manifest *)

Record PullRequestFile := { pr_filename : string; pr_patch : option string }.

Record SuggestionCandidate := {
  sc_path : string; sc_start_line : Z; sc_line : Z; sc_replacement : string; sc_body : string;
}.

Record UnmappedSuggestionChange := { um_path : string; um_reason : string; um_hunk : option (Z * Z) }.

(** The manifest while it is made, with the reasons in the order they were first given. *)
Record manifest_state := {
  ms_candidates : list SuggestionCandidate;
  ms_unmapped : list UnmappedSuggestionChange;
  ms_reasons : list string;
}.

Record SuggestionManifest := {
  mf_generated_at : string;
  mf_candidates : list SuggestionCandidate;
  mf_unmapped_changes : list UnmappedSuggestionChange;
  mf_skipped_reason : option string;
}.

Definition fence : string := "```".
Definition buildSuggestionBody (replacement : string) : string := joined [fence +:+ "suggestion"; replacement; fence].

(** [skipReasons.add] and [unmapped_changes.push]. *)
Definition unmap (skip : string) (u : UnmappedSuggestionChange) (st : manifest_state) : manifest_state :=
  {| ms_candidates := ms_candidates st; ms_unmapped := ms_unmapped st ++ [u];
     ms_reasons := if existsb (String.eqb skip) (ms_reasons st) then ms_reasons st else ms_reasons st ++ [skip] |}.

Definition add_candidate (c : SuggestionCandidate) (st : manifest_state) : manifest_state :=
  {| ms_candidates := ms_candidates st ++ [c]; ms_unmapped := ms_unmapped st; ms_reasons := ms_reasons st |}.

Definition hunk_range (h : WorkspaceHunk) : option (Z * Z) := Some (new_start (wh_header h), new_count (wh_header h)).

(** One block. *)
Definition map_block (path : string) (prHunks : list HunkHeader) (h : WorkspaceHunk) (st : manifest_state)
    (block : WorkspaceSuggestionBlock) : manifest_state :=
  match findAnchoringHunkForBlock block prHunks with
  | None =>
      unmap ("File " +:+ path +:+ " has no overlapping PR hunk for a workspace hunk.")
        {| um_path := path; um_reason := "Workspace hunk has no overlapping PR hunk."; um_hunk := hunk_range h |} st
  | Some anchoringHunk =>
      match toLineRange (new_start anchoringHunk) (new_count anchoringHunk) with
      | None =>
          unmap ("File " +:+ path +:+ " has no right-side line range for inline suggestion anchoring.")
            {| um_path := path; um_hunk := hunk_range h;
               um_reason := "Workspace hunk has no right-side line range for inline suggestion anchoring." |} st
      | Some anchoringRange =>
          let start_line := Z.max (bk_start_line block) anchoringRange.1 in
          let line := Z.min (bk_line block) anchoringRange.2 in
          if line <? start_line then st
          else add_candidate {| sc_path := path; sc_start_line := start_line; sc_line := line;
                                sc_replacement := bk_replacement block;
                                sc_body := buildSuggestionBody (bk_replacement block) |} st
      end
  end.

(** One hunk. *)
Definition map_hunk (path : string) (prHunks : list HunkHeader) (st : manifest_state) (h : WorkspaceHunk) : manifest_state :=
  match splitWorkspaceHunkIntoSuggestionBlocks h with
  | [] =>
      unmap ("File " +:+ path +:+ " produced an empty suggestion replacement.")
        {| um_path := path; um_reason := "Workspace hunk produced an empty suggestion replacement."; um_hunk := hunk_range h |} st
  | blocks => foldl (map_block path prHunks h) st blocks
  end.

(** One file. *)
Definition map_file (files : list PullRequestFile) (st : manifest_state) (f : WorkspacePatchFile) : manifest_state :=
  let path := pf_path f in
  match pf_path_error f with
  | Some reason => unmap reason {| um_path := path; um_reason := reason; um_hunk := None |} st
  | None =>
      match List.find (λ file, String.eqb (pr_filename file) path) files ≫= pr_patch with
      | Some patch =>
          if blank patch
          then unmap ("File " +:+ path +:+ " is not visible as a patchable PR diff file.")
                 {| um_path := path; um_reason := "File is not visible as a patchable PR diff file."; um_hunk := None |} st
          else match parsePatchHunks patch with
               | [] =>
                   unmap ("File " +:+ path +:+ " has no anchorable PR patch hunks.")
                     {| um_path := path; um_reason := "File has no anchorable PR patch hunks."; um_hunk := None |} st
               | prHunks => foldl (map_hunk path prHunks) st (pf_hunks f)
               end
      | None =>
          unmap ("File " +:+ path +:+ " is not visible as a patchable PR diff file.")
            {| um_path := path; um_reason := "File is not visible as a patchable PR diff file."; um_hunk := None |} st
      end
  end.

Definition empty_manifest : manifest_state := {| ms_candidates := []; ms_unmapped := []; ms_reasons := [] |}.

(** The fields of a review record that are read here: its verdict, and of its mitigation the
    patch, when it is a text. *)
Record ReviewRecord := { rr_verdict : string; rr_mitigation : option (option string) }.

Section Manifest.
Context (decode_utf8 : string → string + string).
(** [new Date().toISOString()]. *)
Context (generated_at : string).

Definition buildSuggestionManifest (patch_content : string) (files : list PullRequestFile) (review_record : ReviewRecord) :
    SuggestionManifest :=
  let workspacePatchFiles := parseWorkspacePatch decode_utf8 patch_content in
  if is_null (rr_mitigation review_record) || (match workspacePatchFiles with [] => true | _ => false end)
  then {| mf_generated_at := generated_at; mf_candidates := []; mf_unmapped_changes := [];
          mf_skipped_reason := Some "Workspace patch contains no suggestible file entries." |}
  else
    let st := foldl (map_file files) empty_manifest workspacePatchFiles in
    {| mf_generated_at := generated_at; mf_candidates := ms_candidates st; mf_unmapped_changes := ms_unmapped st;
       mf_skipped_reason := match ms_candidates st with
                            | [] => Some (default "No eligible patch candidate." (head (ms_reasons st)))
                            | _ => None
                            end |}.

(** Its error, when there is no patch. *)
Definition generateSuggestionCandidatesFromReviewRecord (files : list PullRequestFile) (review_record : ReviewRecord) :
    SuggestionManifest + string :=
  let patch_content := default "" (mjoin (rr_mitigation review_record)) in
  if blank patch_content
  then inr "Pull request suggestion generation requires review_record.mitigation.patch_diff."
  else inl (buildSuggestionManifest patch_content files review_record).
End Manifest.

(** * Comments *)

(** A review comment as it is sent; both starts are left out of a comment on one line. *)
Record ReviewComment := { rc_path : string; rc_body : string; rc_line : Z; rc_start_line : option Z }.

(** The comments of [publishPullRequestSuggestionReview], all on the right side. *)
Definition review_comment (c : SuggestionCandidate) : ReviewComment :=
  {| rc_path := sc_path c; rc_body := sc_body c; rc_line := sc_line c;
     rc_start_line := if sc_start_line c =? sc_line c then None else Some (sc_start_line c) |}.
