(* ===== verification/SuggestionSpecs.v ===== *)
(** What suggestions do to a file: texts by lines, the runs of a hunk, and committing the blocks
    of a hunk one after the other. *)

From Stdlib Require Import DecimalString DecimalPos DecimalN DecimalZ.
From S2P Require Import Prelude GitHub Suggestions.

(** No separator in the text. *)
Definition one_line (s : string) : bool := negb (any_char (λ a, Ascii.eqb a line_feed) s).

Lemma one_line_cons a s : one_line (String a s) = true ↔ a ≠ line_feed ∧ one_line s = true.
Proof.
  unfold one_line. simpl. rewrite negb_orb, andb_true_iff, negb_true_iff.
  destruct (Ascii.eqb_spec a line_feed); split; [by intros []|by intros []|intros [_ Hs]; by split|intros [_ Hs]; by split].
Qed.

Lemma one_line_app s s' : one_line (s +:+ s') = one_line s && one_line s'.
Proof.
  induction s as [|a s IH]; [done|]. change (String a s +:+ s') with (String a (s +:+ s')).
  unfold one_line in *. cbn [any_char]. rewrite !negb_orb, IH. by destruct (negb (Ascii.eqb a line_feed)).
Qed.

Lemma split_one_line s : one_line s = true → split_on line_feed s = [s].
Proof.
  induction s as [|a s IH]; [done|]. rewrite one_line_cons. intros [Ha Hs]. simpl.
  destruct (Ascii.eqb_spec a line_feed); [done|]. by rewrite IH.
Qed.

Lemma split_on_app s t : one_line s = true → split_on line_feed (s +:+ String line_feed t) = s :: split_on line_feed t.
Proof.
  induction s as [|a s IH]; [done|]. rewrite one_line_cons. intros [Ha Hs].
  change (String a s +:+ String line_feed t) with (String a (s +:+ String line_feed t)). cbn [split_on].
  destruct (Ascii.eqb_spec a line_feed); [done|]. by rewrite IH.
Qed.

Lemma joined_cons l ls : ls ≠ [] → joined (l :: ls) = l +:+ String line_feed (joined ls).
Proof. by destruct ls. Qed.

Lemma split_line_join ls : ls ≠ [] → Forall (λ l, one_line l = true) ls → split_on line_feed (joined ls) = ls.
Proof.
  induction ls as [|l [|l' ls] IH]; intros Hne Hls; [done| |].
  - apply Forall_inv in Hls. by apply split_one_line.
  - inversion Hls as [|? ? Hl Hls']; subst. rewrite joined_cons by done. rewrite split_on_app by done.
    by rewrite IH.
Qed.

Lemma joined_pair a b : joined [a; b] = a +:+ String line_feed b.
Proof. done. Qed.

Lemma joined_app ls ls' : ls ≠ [] → ls' ≠ [] → joined [joined ls; joined ls'] = joined (ls ++ ls').
Proof.
  intros Hne Hne'. rewrite joined_pair. induction ls as [|l [|l2 ls] IH]; [done| |].
  - change ([l] ++ ls') with (l :: ls'). by rewrite (joined_cons l ls').
  - rewrite <- app_comm_cons, (joined_cons l (l2 :: ls)), (joined_cons l ((l2 :: ls) ++ ls')) by done.
    rewrite <- (IH ltac:(done)). generalize (joined (l2 :: ls)) (joined ls'). clear. intros x y.
    induction l as [|a l IH]; [done|].
    change (String a ((l +:+ String line_feed x) +:+ String line_feed y) = String a (l +:+ String line_feed (x +:+ String line_feed y))).
    by rewrite IH.
Qed.

(** A part of a line is a line. *)
Lemma slice_S a n s : slice (S n) (String a s) = slice n s.
Proof. done. Qed.

Lemma slice_0 s : slice 0 s = s.
Proof. unfold slice. rewrite Nat.sub_0_r. induction s as [|a s IH]; [done|]. simpl. by rewrite IH. Qed.

Lemma slice_app s t : slice (String.length s) (s +:+ t) = t.
Proof. induction s as [|a s IH]; [apply slice_0|]. apply IH. Qed.

Lemma one_line_slice n s : one_line s = true → one_line (slice n s) = true.
Proof.
  revert s; induction n as [|n IH]; intros s; [by rewrite slice_0|]. destruct s as [|a s]; [done|].
  rewrite slice_S, one_line_cons. intros [_ Hs]. by apply IH.
Qed.

(** The lines of a split text are lines. *)
Lemma split_lines s : Forall (λ l, one_line l = true) (split_on line_feed s).
Proof.
  induction s as [|a s IH]; [by constructor|]. simpl. destruct (Ascii.eqb_spec a line_feed); [by constructor|].
  destruct (split_on line_feed s) as [|w ws]; constructor; try done.
  - by apply one_line_cons.
  - inversion IH; subst. by apply one_line_cons.
  - by inversion IH.
Qed.

(** * Applying patches and suggestions *)

(** The lines of a file, or the part of them a hunk is about. *)
Definition old_text (lines : list string) : list string :=
  slice 1 <$> List.filter (λ l, line_marked space (l, 0) || line_marked minus (l, 0)) lines.
Definition new_text (lines : list string) : list string :=
  slice 1 <$> List.filter (λ l, line_marked space (l, 0) || line_marked plus (l, 0)) lines.

(** The lines a suggestion puts in: none, when its replacement is empty. *)
Definition replacement_lines (r : string) : list string := if String.eqb r "" then [] else split_on line_feed r.

(** GitHub commits a suggestion: its replacement takes the place of the lines it is on. *)
Definition commit_suggestion (b : WorkspaceSuggestionBlock) (file : list string) : list string :=
  take (Z.to_nat (bk_start_line b - 1)) file ++ replacement_lines (bk_replacement b)
  ++ drop (Z.to_nat (bk_line b)) file.

(** The last one first, so that the lines above keep their numbers. *)
Definition commit_all (blocks : list WorkspaceSuggestionBlock) (file : list string) : list string :=
  foldr commit_suggestion file blocks.

(** The hunk matches the file between two parts. *)
Definition hunk_between (h : WorkspaceHunk) (above below file : list string) : Prop :=
  file = above ++ old_text (wh_lines h) ++ below ∧ old_start (wh_header h) = Z.of_nat (length above) + 1.

(** A run a block says exactly: what it puts in does not end with blanks, and what is only put
    in comes before a line of the hunk. *)
Definition exact_run (run after : list numbered) : bool :=
  match plus_lines run with
  | [] => true
  | lines => String.eqb (trim_end 0 (joined lines)) (joined lines) && negb (String.eqb (joined lines) "")
             && negb (match minus_line_numbers run, after with [], [] => true | _, _ => false end)
  end.

Fixpoint exact_runs (fuel : nat) (rest : list numbered) : bool :=
  match fuel, rest with
  | S fuel', x :: rest' =>
      if changed x then exact_run (take_run rest) (drop_run rest) && exact_runs fuel' (drop_run rest)
      else exact_runs fuel' rest'
  | _, _ => true
  end.

Definition exact_hunk (h : WorkspaceHunk) : bool :=
  exact_runs (length (wh_lines h)) (number_lines (old_start (wh_header h)) (wh_lines h)).

(** ** Runs *)

Definition changed_line (l : string) : bool := changed (l, 0).

Lemma marked_line a l n : line_marked a (l, n) = line_marked a (l, 0).
Proof. done. Qed.

Definition line_step (l : string) : Z := if line_marked space (l, 0) || line_marked minus (l, 0) then 1 else 0.

Lemma old_length l ls : Z.of_nat (length (old_text (l :: ls))) = line_step l + Z.of_nat (length (old_text ls)).
Proof.
  unfold old_text, line_step. cbn [List.filter].
  destruct (line_marked space (l, 0) || line_marked minus (l, 0)); rewrite ?fmap_cons; [cbn [length]|]; lia.
Qed.

Lemma number_cons c l ls : number_lines c (l :: ls) = (l, c) :: number_lines (c + line_step l) ls.
Proof. simpl. unfold line_step. destruct (_ || _); [done|]. by rewrite Z.add_0_r. Qed.

Lemma number_app c l1 l2 :
  number_lines c (l1 ++ l2) = number_lines c l1 ++ number_lines (c + Z.of_nat (length (old_text l1))) l2.
Proof.
  revert c. induction l1 as [|l l1 IH]; intros c; [by rewrite Z.add_0_r|].
  rewrite <- app_comm_cons, !number_cons, IH, old_length. by rewrite Z.add_assoc.
Qed.

Lemma number_length c ls : length (number_lines c ls) = length ls.
Proof. revert c; induction ls as [|l ls IH]; intros c; [done|]. rewrite number_cons. simpl. by rewrite IH. Qed.

(** A run of changed lines, and what follows it. *)
Lemma run_split c ls : ∃ l1 l2, ls = l1 ++ l2 ∧ Forall (λ l, changed_line l = true) l1
  ∧ match l2 with [] => True | l :: _ => changed_line l = false end
  ∧ take_run (number_lines c ls) = number_lines c l1
  ∧ drop_run (number_lines c ls) = number_lines (c + Z.of_nat (length (old_text l1))) l2.
Proof.
  revert c. induction ls as [|l ls IH]; intros c; [by exists [], []|].
  rewrite number_cons. cbn [take_run drop_run]. change (changed (l, c)) with (changed_line l).
  destruct (changed_line l) eqn:Hl.
  - destruct (IH (c + line_step l)) as (l1 & l2 & -> & Hall & Hnext & Ht & Hd).
    exists (l :: l1), l2. split; [done|]. split; [by constructor|]. split; [done|]. split; [by rewrite Ht, number_cons|].
    rewrite Hd, old_length. by rewrite Z.add_assoc.
  - exists [], (l :: ls). rewrite number_cons. simpl. by rewrite Z.add_0_r.
Qed.

Lemma changed_not_space l : changed_line l = true → line_marked space (l, 0) = false.
Proof.
  unfold changed_line, changed, line_marked. simpl. rewrite orb_true_iff, !bool_decide_eq_true, bool_decide_eq_false.
  by intros [-> | ->].
Qed.

Lemma plus_not_minus l : line_marked plus (l, 0) = true → line_marked minus (l, 0) = false.
Proof. unfold line_marked. simpl. rewrite bool_decide_eq_true, bool_decide_eq_false. by intros ->. Qed.

(** What a run removes and puts in. *)
Lemma run_old c l1 : Forall (λ l, changed_line l = true) l1 →
  minus_line_numbers (number_lines c l1) = seqZ c (Z.of_nat (length (old_text l1))).
Proof.
  intros Hall. revert c. induction Hall as [|l l1 Hl _ IH]; intros c; [done|].
  rewrite number_cons, old_length. unfold minus_line_numbers in *. cbn [List.filter].
  change (line_marked minus (l, c)) with (line_marked minus (l, 0)). unfold line_step.
  rewrite (changed_not_space _ Hl). destruct (line_marked minus (l, 0)); cbn [orb]; rewrite ?fmap_cons, IH; [|f_equal; lia].
  rewrite (seqZ_cons c) by lia. cbn [snd]. do 2 f_equal; lia.
Qed.

Lemma run_new c l1 : Forall (λ l, changed_line l = true) l1 → plus_lines (number_lines c l1) = new_text l1.
Proof.
  intros Hall. revert c. induction Hall as [|l l1 Hl _ IH]; intros c; [done|].
  rewrite number_cons. unfold plus_lines, new_text in *. simpl.
  rewrite (changed_not_space _ Hl). simpl. change (line_marked plus (l, c)) with (line_marked plus (l, 0)).
  destruct (line_marked plus (l, 0)); simpl; [f_equal|]; apply IH.
Qed.

Lemma text_app f (l1 l2 : list string) : slice 1 <$> List.filter f (l1 ++ l2)
  = (slice 1 <$> List.filter f l1) ++ (slice 1 <$> List.filter f l2).
Proof. by rewrite List.filter_app, fmap_app. Qed.

Lemma new_text_lines ls : Forall (λ l, one_line l = true) ls → Forall (λ l, one_line l = true) (new_text ls).
Proof.
  intros Hall. apply Forall_fmap. apply Forall_forall. intros l Hl%list_elem_of_In. apply filter_In in Hl as [Hl _].
  rewrite Forall_forall in Hall. apply one_line_slice, Hall. by apply list_elem_of_In.
Qed.

Definition commit_option (b : option WorkspaceSuggestionBlock) (file : list string) : list string :=
  match b with Some b => commit_suggestion b file | None => file end.

Lemma commit_push b bs file : commit_all (push b bs) file = commit_option b (commit_all bs file).
Proof. by destruct b. Qed.

(** The block over the removed lines. *)
Lemma removed_commits (above cut below : list string) replacement c :
  c = Z.of_nat (length above) + 1 → cut ≠ [] →
  commit_option (removed_block (seqZ c (Z.of_nat (length cut))) replacement) (above ++ cut ++ below)
  = above ++ replacement_lines replacement ++ below.
Proof.
  intros -> Hcut. assert (Hlen : (0 < length cut)%nat) by (destruct cut; [done|simpl; lia]).
  assert (Hhead : head (seqZ (Z.of_nat (length above) + 1) (Z.of_nat (length cut))) = Some (Z.of_nat (length above) + 1))
    by (by rewrite seqZ_cons by lia).
  assert (Hlast : last (seqZ (Z.of_nat (length above) + 1) (Z.of_nat (length cut)))
                  = Some (Z.of_nat (length above + length cut))).
  { rewrite last_lookup, length_seqZ. apply lookup_seqZ. rewrite Nat2Z.id. lia. }
  unfold removed_block. rewrite Hhead, Hlast. cbn [default].
  assert (Hc : (0 <? Z.of_nat (length above) + 1) && (Z.of_nat (length above) + 1 <=? Z.of_nat (length above + length cut)) = true)
    by (apply andb_true_iff; split; [apply Z.ltb_lt|apply Z.leb_le]; lia).
  simpl. rewrite Hc. unfold commit_option, commit_suggestion. simpl.
  rewrite Z.add_simpl_r, !Nat2Z.id, take_app_length. f_equal. f_equal.
  rewrite app_assoc, <- length_app. apply drop_app_length.
Qed.

Lemma find_space_head c l l2 : line_marked space (l, 0) = true → List.find (line_marked space) (number_lines c (l :: l2)) = Some (l, c).
Proof. intros Hl. rewrite number_cons. simpl. change (line_marked space (l, c)) with (line_marked space (l, 0)). by rewrite Hl. Qed.

Lemma marked_head c a l : line_marked c (String a l, 0) = Ascii.eqb a c.
Proof.
  unfold line_marked, line_marker. cbn. destruct (Ascii.eqb_spec a c) as [->|Hne]; [by apply bool_decide_eq_true|].
  apply bool_decide_eq_false. by intros [= ->].
Qed.

Lemma context_line l : is_hunk_line l = true → changed_line l = false → line_marked space (l, 0) = true.
Proof.
  unfold changed_line, changed. destruct l as [|a l]; [done|]. rewrite !marked_head. cbn [is_hunk_line].
  by destruct (Ascii.eqb a space), (Ascii.eqb a plus), (Ascii.eqb a minus).
Qed.

Lemma replacement_joined ls : ls ≠ [] → joined ls ≠ "" → Forall (λ l, one_line l = true) ls →
  replacement_lines (joined ls) = ls.
Proof.
  intros Hne Hj Hls. unfold replacement_lines. destruct (String.eqb_spec (joined ls) ""); [done|].
  by apply split_line_join.
Qed.

Lemma run_commits before above below l1 l2 c c' :
  c = Z.of_nat (length above) + 1 → Forall (λ l, changed_line l = true) l1 →
  match l2 with [] => True | l :: _ => changed_line l = false end →
  Forall (λ l, one_line l = true) (l1 ++ l2) → Forall (λ l, is_hunk_line l = true) l2 →
  exact_run (number_lines c l1) (number_lines c' l2) = true →
  commit_option (block_of_run before (number_lines c l1) (number_lines c' l2)) (above ++ old_text l1 ++ new_text l2 ++ below)
  = above ++ new_text l1 ++ new_text l2 ++ below.
Proof.
  intros Hc Hrun Hnext [Hl1 Hl2]%Forall_app Hhunk. unfold exact_run, block_of_run.
  rewrite run_new, run_old by done. apply new_text_lines in Hl1. destruct (new_text l1) as [|p ps] eqn:Hnew.
  - intros _. destruct (old_text l1) as [|o os] eqn:Hold; [done|]. cbn [length].
    rewrite (seqZ_cons c) by lia. rewrite <- (seqZ_cons c) by lia. by apply (removed_commits _ (o :: os)).
  - intros [[Htrim%String.eqb_eq Hne%negb_true_iff]%andb_true_iff Hctx%negb_true_iff]%andb_true_iff.
    rewrite Htrim, Hne. apply String.eqb_neq in Hne. destruct (old_text l1) as [|o os] eqn:Hold; cbn [length] in *.
    + destruct l2 as [|l l2]; [done|]. inversion Hhunk; subst. rewrite find_space_head by by apply context_line.
      assert (Hhd : default 0 (snd <$> head (number_lines (Z.of_nat (length above) + 1) l1)) = Z.of_nat (length above) + 1).
      { destruct l1 as [|x l1]; [done|]. by rewrite number_cons. }
      simpl. rewrite Hhd. destruct (Z.leb_spec (Z.of_nat (length above) + 1) 0); [lia|].
      unfold commit_option, commit_suggestion. cbn [fmap option_fmap option_map bk_start_line bk_line bk_replacement].
      change (joined [joined (p :: ps); text_of_line (l, c')]) with (joined [joined (p :: ps); joined [slice 1 l]]).
      rewrite joined_app by done. inversion Hl2; subst.
      rewrite replacement_joined.
      * assert (Hnl : new_text (l :: l2) = slice 1 l :: new_text l2).
        { unfold new_text. simpl. by rewrite context_line. }
        rewrite Hnl, Z.add_simpl_r, Nat2Z.id, take_app_length. f_equal.
        replace (Z.to_nat (Z.of_nat (length above) + 1)) with (length (above ++ [slice 1 l])) by (rewrite length_app; simpl; lia).
        rewrite <- app_assoc. f_equal. simpl. f_equal.
        change (above ++ slice 1 l :: new_text l2 ++ below) with (above ++ [slice 1 l] ++ (new_text l2 ++ below)).
        by rewrite app_assoc, drop_app_length.
      * done.
      * destruct ps; by destruct p.
      * apply Forall_app. split; [done|]. constructor; [by apply one_line_slice|constructor].
    + rewrite (seqZ_cons c) by lia. rewrite <- (seqZ_cons c) by lia.
      rewrite (removed_commits _ (o :: os)) by done. by rewrite replacement_joined.
Qed.

Lemma blocks_commit fuel : ∀ before rest c above below,
  (length rest ≤ fuel)%nat → Forall (λ l, one_line l = true) rest → Forall (λ l, is_hunk_line l = true) rest →
  c = Z.of_nat (length above) + 1 → exact_runs fuel (number_lines c rest) = true →
  commit_all (blocks_of fuel before (number_lines c rest)) (above ++ old_text rest ++ below)
  = above ++ new_text rest ++ below.
Proof.
  induction fuel as [|fuel IH]; intros before rest c above below Hlen Hone Hhunk Hc; [by destruct rest; simpl in *; [|lia]|].
  destruct rest as [|l rest]; [done|]. rewrite number_cons. cbn [blocks_of exact_runs].
  change (changed (l, c)) with (changed_line l). rewrite <- number_cons. destruct (changed_line l) eqn:Hl.
  - destruct (run_split c (l :: rest)) as (l1 & l2 & Heq & Hrun & Hnext & Ht & Hd). rewrite Ht, Hd, Heq.
    rewrite andb_true_iff. intros [He1 He2]. rewrite commit_push.
    assert (Hl2 : (length l2 ≤ fuel)%nat).
    { destruct l1 as [|x l1]; [simpl in Heq; subst l2; congruence|]. injection Heq as -> ->.
      simpl in Hlen. rewrite length_app in Hlen. lia. }
    rewrite Heq in Hone, Hhunk. pose proof Hone as [_ Hone2]%Forall_app. pose proof Hhunk as [_ Hhunk2]%Forall_app.
    unfold old_text, new_text. rewrite !text_app. fold (old_text l1) (old_text l2) (new_text l1) (new_text l2).
    replace (above ++ (old_text l1 ++ old_text l2) ++ below) with ((above ++ old_text l1) ++ old_text l2 ++ below)
      by by rewrite <- !app_assoc.
    rewrite IH; [|done..| |done]; [|rewrite length_app; lia].
    rewrite <- !app_assoc. by apply run_commits.
  - intros He. inversion Hone; inversion Hhunk; subst.
    assert (Hsp := context_line l ltac:(done) Hl).
    assert (Ho : old_text (l :: rest) = slice 1 l :: old_text rest) by (unfold old_text; simpl; by rewrite Hsp).
    assert (Hn : new_text (l :: rest) = slice 1 l :: new_text rest) by (unfold new_text; simpl; by rewrite Hsp).
    rewrite Ho, Hn. unfold line_step in *. rewrite Hsp in *. simpl orb in *. cbn iota in *.
    change (above ++ (slice 1 l :: old_text rest) ++ below) with (above ++ [slice 1 l] ++ (old_text rest ++ below)).
    change (above ++ (slice 1 l :: new_text rest) ++ below) with (above ++ [slice 1 l] ++ (new_text rest ++ below)).
    rewrite (app_assoc above _ (old_text rest ++ below)), (app_assoc above _ (new_text rest ++ below)). apply IH; try done; [simpl in Hlen; lia|].
    rewrite length_app. simpl. lia.
Qed.

(** * Lines after the last one *)

Lemma run_of_changed c pl : Forall (λ l, changed_line l = true) pl →
  take_run (number_lines c pl) = number_lines c pl ∧ drop_run (number_lines c pl) = [].
Proof.
  intros Hpl. revert c. induction Hpl as [|l pl Hl _ IH]; intros c; [done|].
  rewrite number_cons. cbn [take_run drop_run]. change (changed (l, c)) with (changed_line l). rewrite Hl.
  destruct (IH (c + line_step l)) as [-> ->]. done.
Qed.

Lemma plus_changed l : line_marked plus (l, 0) = true → changed_line l = true.
Proof. unfold changed_line, changed. by intros ->. Qed.

Lemma plus_text pl : Forall (λ l, line_marked plus (l, 0) = true) pl → new_text pl = slice 1 <$> pl ∧ old_text pl = [].
Proof.
  induction 1 as [|l pl Hl _ [IH1 IH2]]; [done|]. unfold new_text, old_text in *. cbn [List.filter].
  rewrite Hl, (plus_not_minus _ Hl), (changed_not_space _ (plus_changed _ Hl)). cbn [orb].
  by rewrite !fmap_cons, IH1, IH2.
Qed.

Lemma last_push {A} o (l : list A) : l ≠ [] → last (push o l) = last l.
Proof. by destruct o, l. Qed.

(** The block of lines that are put in after the last line of a hunk. *)
Definition appended (x : string) (pl : list string) (line : Z) : WorkspaceSuggestionBlock :=
  {| bk_start_line := line; bk_line := line;
     bk_replacement := joined [slice 1 x; trim_end 0 (joined (slice 1 <$> pl))] |}.

Section Appended.
Context (x : string) (pl : list string).
Context (Hx : line_marked space (x, 0) = true) (Hne : pl ≠ []) (Hpl : Forall (λ l, line_marked plus (l, 0) = true) pl).
Context (Htext : trim_end 0 (joined (slice 1 <$> pl)) ≠ "").

Lemma context_kept : changed_line x = false.
Proof using Hx. destruct (changed_line x) eqn:Hxc; [|done]. by rewrite (changed_not_space _ Hxc) in Hx. Qed.

Lemma appended_run before c : 0 < c + 1 →
  block_of_run (before ++ [(x, c)]) (number_lines (c + 1) pl) [] = Some (appended x pl (c + 1)).
Proof using Hx Hne Hpl Htext.
  intros Hc. assert (Hch : Forall (λ l, changed_line l = true) pl) by (eapply Forall_impl; [exact Hpl|apply plus_changed]).
  destruct (plus_text pl Hpl) as [Hnew Hold]. unfold block_of_run. rewrite run_new, run_old, Hnew, Hold by done.
  destruct pl as [|p pl']; [done|]. rewrite fmap_cons in *. apply String.eqb_neq in Htext. rewrite Htext.
  change (seqZ (c + 1) (Z.of_nat (length (@nil string)))) with (@nil Z). rewrite number_cons.
  change (default 0 (snd <$> head ((p, c + 1) :: number_lines (c + 1 + line_step p) pl'))) with (c + 1). cbv zeta. destruct (Z.leb_spec (c + 1) 0); [lia|]. rewrite reverse_snoc. cbn [List.find].
  change (line_marked space (x, c)) with (line_marked space (x, 0)). by rewrite Hx.
Qed.

Lemma appended_here fuel before c : (length pl < fuel)%nat → 0 < c + 1 →
  blocks_of fuel before (number_lines c (x :: pl)) = [appended x pl (c + 1)].
Proof using Hx Hne Hpl Htext.
  intros Hlen Hc. destruct fuel as [|fuel]; [lia|]. rewrite number_cons. cbn [blocks_of].
  change (changed (x, c)) with (changed_line x). rewrite context_kept. replace (line_step x) with 1 by (unfold line_step; by rewrite Hx).
  assert (Hch : Forall (λ l, changed_line l = true) pl) by (eapply Forall_impl; [exact Hpl|apply plus_changed]).
  destruct (run_of_changed (c + 1) pl Hch) as [Ht Hd]. pose proof (appended_run before c Hc) as Hb.
  destruct pl as [|p pl'] eqn:Hp; [done|]. destruct fuel as [|fuel]; [simpl in Hlen; lia|]. rewrite number_cons in *. cbn [blocks_of].
  inversion Hch as [|? ? Hpc _]; subst. change (changed (p, c + 1)) with (changed_line p). rewrite Hpc, Ht, Hd. unfold numbered in *. rewrite Hb.
  by destruct fuel.
Qed.

Lemma appended_block fuel : ∀ before a c,
  (length (a ++ x :: pl) ≤ fuel)%nat → 1 <= c →
  last (blocks_of fuel before (number_lines c (a ++ x :: pl)))
  = Some (appended x pl (c + Z.of_nat (length (old_text (a ++ x :: pl))))).
Proof using Hx Hne Hpl Htext.
  induction fuel as [|fuel IH]; intros before a c Hlen Hc; [destruct a; simpl in Hlen; lia|].
  destruct a as [|l a].
  { change ([] ++ x :: pl) with (x :: pl) in *. rewrite appended_here; [|simpl in Hlen; lia|lia].
    destruct (plus_text pl Hpl) as [_ Hold]. rewrite old_length, Hold. unfold line_step. rewrite Hx. done. }
  change ((l :: a) ++ x :: pl) with (l :: (a ++ x :: pl)) in *. rewrite number_cons. cbn [blocks_of].
  change (changed (l, c)) with (changed_line l). rewrite <- number_cons. destruct (changed_line l) eqn:Hl.
  - destruct (run_split c (l :: (a ++ x :: pl))) as (l1 & l2 & Heq & Hrun & Hnext & -> & ->).
    assert (Ha : ∃ a', l2 = a' ++ x :: pl ∧ l :: a = l1 ++ a').
    { revert Heq. change (l :: (a ++ x :: pl)) with ((l :: a) ++ x :: pl). generalize (l :: a). clear -Hrun Hx.
      intros a Heq. apply app_eq_app in Heq as (k & [[-> ->]|[-> Hk]]); [by exists k|].
      destruct k as [|y k]; [exists []; by rewrite !app_nil_r|]. injection Hk as <- ->.
      apply Forall_app in Hrun as [_ Hy]. inversion Hy; subst. rewrite context_kept in *. congruence. }
    destruct Ha as (a' & -> & Hla). rewrite Heq.
    assert (Hl2 : (length (a' ++ x :: pl) <= fuel)%nat).
    { assert (Hl1 : (1 <= length l1)%nat).
      { destruct l1; [simpl in Hla; subst a'; simpl in Hnext; congruence|simpl; lia]. }
      apply (f_equal length) in Heq. rewrite length_app in Heq. simpl in Heq, Hlen. lia. }
    pose proof (IH (before ++ number_lines c l1) a' (c + Z.of_nat (length (old_text l1))) Hl2 ltac:(lia)) as IH'.
    rewrite last_push by (intros Hnil; by rewrite Hnil in IH').
    rewrite IH'. assert (Hz : length (old_text (l1 ++ a' ++ x :: pl)) = (length (old_text l1) + length (old_text (a' ++ x :: pl)))%nat)
      by (unfold old_text; by rewrite text_app, length_app).
    rewrite Hz, Nat2Z.inj_add. by rewrite Z.add_assoc.
  - rewrite IH; [|simpl in Hlen; lia|unfold line_step; destruct (_ || _); lia].
    by rewrite old_length, Z.add_assoc.
Qed.
End Appended.

(** * Patches as Git writes them

    Headers, quoted paths, hunks; and what a Markdown reader takes for the content of a fenced
    block. *)

(** * Numbers *)

Definition number_text (n : Z) : string := NilZero.string_of_uint (N.to_uint (Z.to_N n)).

Lemma number_of_text n : 0 <= n → number_of (number_text n) = Some n.
Proof.
  intros Hn. unfold number_of, number_text. rewrite NilZero.usu.
  - simpl. change (Z.of_uint (N.to_uint (Z.to_N n))) with (Z.of_N (N.of_uint (N.to_uint (Z.to_N n)))).
    by rewrite DecimalN.Unsigned.of_to, Z2N.id.
  - destruct (Z.to_N n); [done|]. apply DecimalPos.Unsigned.to_uint_nonnil.
Qed.

(** The text does not go on with a digit. *)
Definition no_digit (s : string) : Prop := match s with String a _ => is_digit a = false | EmptyString => True end.

Lemma span_uint d s : no_digit s → span_digits (NilEmpty.string_of_uint d +:+ s) = (NilEmpty.string_of_uint d, s).
Proof.
  intros Hs. assert (Hnil : span_digits s = ("", s)) by (destruct s as [|a s]; [done|]; simpl in *; by rewrite Hs).
  induction d as [|d IH|d IH|d IH|d IH|d IH|d IH|d IH|d IH|d IH|d IH]; [exact Hnil|..]; cbn [NilEmpty.string_of_uint];
    (match goal with |- span_digits (String ?a ?r +:+ ?t) = _ => change (span_digits (String a (r +:+ t)) = (String a r, t)) end);
    cbn [span_digits]; rewrite IH; by vm_compute (is_digit _).
Qed.

Lemma span_number n s : no_digit s → span_digits (number_text n +:+ s) = (number_text n, s).
Proof.
  intros Hs. unfold number_text, NilZero.string_of_uint. destruct (N.to_uint (Z.to_N n)) eqn:Hd; try by apply span_uint.
  change ("0" +:+ s) with (NilEmpty.string_of_uint (Decimal.D0 Decimal.Nil) +:+ s). by rewrite span_uint.
Qed.

Lemma read_number_text n s : 0 <= n → no_digit s → read_number (number_text n +:+ s) = Some (n, s).
Proof. intros Hn Hs. unfold read_number. by rewrite span_number, number_of_text. Qed.

Lemma expect_app literal s : expect literal (literal +:+ s) = Some s.
Proof.
  unfold expect. rewrite slice_app. assert (Hp : String.prefix literal (literal +:+ s) = true); [|by rewrite Hp].
  induction literal as [|a l IH]; [by destruct s|]. change (String a l +:+ s) with (String a (l +:+ s)).
  simpl. by destruct (Ascii.ascii_dec a a).
Qed.

(** A range, in front of [rest]; a [short] writer, as Git is, leaves out a count of 1. *)
Definition range_text (short : bool) (start count : Z) (rest : string) : string :=
  number_text start +:+ (if short && (count =? 1) then rest else "," +:+ number_text count +:+ rest).

Lemma read_range_text short n m rest s : 0 <= n → 0 <= m → rest = String space s →
  read_range (range_text short n m rest) = Some (n, m, rest).
Proof.
  intros Hn Hm ->. unfold read_range, range_text. destruct (short && (m =? 1)) eqn:Hone.
  - apply andb_true_iff in Hone as [_ ->%Z.eqb_eq]. by rewrite read_number_text.
  - rewrite read_number_text by done. rewrite expect_app. by rewrite read_number_text.
Qed.

(** * Headers *)

Definition header_line (short : bool) (h : HunkHeader) (heading : string) : string :=
  "@@ -" +:+ range_text short (old_start h) (old_count h)
    (" +" +:+ range_text short (new_start h) (new_count h) (" @@" +:+ heading)).

Definition header_ok (h : HunkHeader) : Prop := 0 <= old_start h ∧ 0 <= old_count h ∧ 0 <= new_start h ∧ 0 <= new_count h.

Lemma header_roundtrip short h heading : header_ok h → parseHunkHeader (header_line short h heading) = Some h.
Proof.
  intros (H1 & H2 & H3 & H4). unfold parseHunkHeader, header_line. rewrite expect_app. simpl mbind.
  erewrite read_range_text by done. simpl mbind. rewrite expect_app. simpl mbind.
  erewrite read_range_text by done. simpl mbind. rewrite expect_app. by destruct h.
Qed.

(** * Paths *)

(** Git quotes a path with a byte that is not printable ASCII, a quote or a backslash. *)
Definition plain (a : Ascii.ascii) : bool :=
  let n := Ascii.N_of_ascii a in ((32 <=? n) && (n <? 127) && negb (n =? 34) && negb (n =? 92))%N.

Definition octal_digit (n : N) : Ascii.ascii := Ascii.ascii_of_N (48 + n).

(** A byte between the quotes. *)
Definition quoted_byte (a : Ascii.ascii) (rest : string) : string :=
  let n := Ascii.N_of_ascii a in
  let escaped c := String backslash (String (Ascii.ascii_of_N c) rest) in
  match n with
  | 7%N => escaped 97%N | 8%N => escaped 98%N | 9%N => escaped 116%N | 10%N => escaped 110%N | 11%N => escaped 118%N
  | 12%N => escaped 102%N | 13%N => escaped 114%N | 34%N => escaped 34%N | 92%N => escaped 92%N
  | _ => if plain a then String a rest
         else String backslash (String (octal_digit (n / 64)) (String (octal_digit (n / 8 mod 8))
                (String (octal_digit (n mod 8)) rest)))
  end.

Fixpoint quoted_bytes (s : string) : string :=
  match s with String a s' => quoted_byte a (quoted_bytes s') | EmptyString => EmptyString end.

Definition git_path (path : string) : string :=
  let s := "b/" +:+ path in
  if all_chars plain s then (if has_whitespace s then s +:+ String tab "" else s)
  else String quote (quoted_bytes s +:+ String quote "").

(** Whatever follows an escaped letter, it is not read as an octal number. *)
Lemma decode_escape e byte s s' :
  (∀ b c, octal e b c = None) → escapes e = Some byte → decode_quoted s = inl s' →
  decode_quoted (String backslash (String e s)) = inl (String byte s').
Proof.
  intros Ho He Hs.
  transitivity (match decode_quoted s with inl s' => inl (String byte s') | inr x => inr x end : string + string); [|by rewrite Hs].
  clear Hs. destruct s as [|b [|c s]]; cbn [decode_quoted]; rewrite Ascii.eqb_refl, He; [done..|]. by rewrite Ho.
Qed.

Lemma decode_octal e b c byte s s' :
  octal e b c = Some byte → decode_quoted s = inl s' →
  decode_quoted (String backslash (String e (String b (String c s)))) = inl (String byte s').
Proof. intros Ho Hs. cbn [decode_quoted]. by rewrite Ascii.eqb_refl, Ho, Hs. Qed.

Lemma decode_plain a s s' :
  Ascii.eqb a backslash = false → Ascii.eqb a quote = false → decode_quoted s = inl s' →
  decode_quoted (String a s) = inl (String a s').
Proof. intros H1 H2 Hs. cbn [decode_quoted]. by rewrite H1, H2, Hs. Qed.

Lemma decode_byte a s s' : decode_quoted s = inl s' → decode_quoted (quoted_byte a s) = inl (String a s').
Proof.
  intros Hs. destruct a as [[] [] [] [] [] [] [] []];
    (match goal with |- decode_quoted ?q = _ => let q' := eval cbn in q in change q with q' end);
    first [apply decode_plain; [reflexivity|reflexivity|exact Hs]
          |apply decode_octal; [reflexivity|exact Hs]
          |apply decode_escape; [intros [] []; reflexivity|reflexivity|exact Hs]].
Qed.

Lemma decode_bytes s : decode_quoted (quoted_bytes s) = inl s.
Proof. induction s as [|a s IH]; [done|]. by apply decode_byte. Qed.

Lemma split_tab s : all_chars plain s = true →
  split_on tab s = [s] ∧ split_on tab (s +:+ String tab "") = [s; ""].
Proof.
  induction s as [|a s IH]; [done|]. cbn [all_chars]. intros [Ha Hs]%andb_true_iff. destruct (IH Hs) as [IH1 IH2].
  change (String a s +:+ String tab "") with (String a (s +:+ String tab "")). cbn [split_on].
  destruct (Ascii.eqb_spec a tab) as [->|_]; [done|]. by rewrite IH1, IH2.
Qed.

Lemma last_char_app s a : last_char (s +:+ String a "") = Some a.
Proof.
  induction s as [|b s IH]; [done|]. change (String b s +:+ String a "") with (String b (s +:+ String a "")).
  cbn [last_char]. destruct (s +:+ String a "") eqn:He; [by destruct s; discriminate He|]. exact IH.
Qed.

Lemma length_app_string s t : String.length (s +:+ t) = (String.length s + String.length t)%nat.
Proof. induction s as [|a s IH]; [done|]. simpl. by rewrite <- IH. Qed.

Lemma substring_app s t : String.substring 0 (String.length s) (s +:+ t) = s.
Proof.
  induction s as [|a s IH]; [change ("" +:+ t) with t; by destruct t|].
  change (String a (String.substring 0 (String.length s) (s +:+ t)) = String a s). by rewrite IH.
Qed.

(** A path is read back, when its bytes are a text. *)
Lemma path_roundtrip decode_utf8 path :
  decode_utf8 ("b/" +:+ path) = inl ("b/" +:+ path) →
  decodeGitPatchPath decode_utf8 (git_path path) = inl ("b/" +:+ path).
Proof.
  intros Hd. unfold git_path. generalize (eq_refl ("b/" +:+ path)). generalize ("b/" +:+ path) at 1 3 4 5 6 7 8. intros s Hs.
  destruct (all_chars plain s) eqn:Hp.
  - destruct (split_tab s Hp) as [H1 H2].
    destruct (has_whitespace s); unfold decodeGitPatchPath;
      (assert (Hq : ∀ t, String.prefix (String quote "") (s +:+ t) = false) by (intros t; by rewrite Hs)).
    + by rewrite Hq, H2.
    + specialize (Hq ""). assert (Hn : s +:+ "" = s) by (clear; induction s as [|a s IH]; [done|]; change (String a (s +:+ "") = String a s); by rewrite IH).
      rewrite Hn in Hq. by rewrite Hq, H1.
  - unfold decodeGitPatchPath. change (String quote (quoted_bytes s +:+ String quote "")) with (String quote (quoted_bytes s) +:+ String quote "").
    rewrite last_char_app, bool_decide_eq_true_2 by done.
    change (String.prefix (String quote "") (String quote (quoted_bytes s) +:+ String quote "")) with (String.prefix "" (quoted_bytes s +:+ String quote "")).
    replace (String.prefix "" (quoted_bytes s +:+ String quote "")) with true by by destruct (quoted_bytes s +:+ String quote "").
    cbn [negb]. rewrite length_app_string. cbn [String.length].
    change (String.substring 1 ?n (String quote (quoted_bytes s) +:+ String quote "")) with (String.substring 0 n (quoted_bytes s +:+ String quote "")).
    replace (S (String.length (quoted_bytes s)) + 1 - 2)%nat with (String.length (quoted_bytes s)) by lia.
    by rewrite substring_app, decode_bytes, Hs, Hd.
Qed.

(** * Files *)

Section Printing.
Context (decode_utf8 : string → string + string).
(** Whether counts of 1 are left out; what is written after the ranges of a hunk; and whether
    the line of a hunk is the last one of a file that does not end with a line feed. *)
Context (short : bool) (heading : HunkHeader → string) (unended : WorkspaceHunk → nat → bool).

(** What a patch says of the destination: a file of the repository, none (the file is deleted),
    or nothing (a change of the mode or the name alone, or a binary file). *)
Inductive destination := Named (path : string) | Nowhere | Unsaid.

(** The notes are the lines between: modes, the index, the old path. *)
Record printed_file := {
  pt_title : string; pt_notes : list string; pt_to : destination; pt_hunks : list WorkspaceHunk;
}.

Definition no_newline : string := "\ No newline at end of file".

Fixpoint body_text (marked : nat → bool) (lines : list string) : list string :=
  match lines with
  | [] => []
  | l :: lines' => l :: (if marked 0%nat then [no_newline] else []) ++ body_text (λ i, marked (S i)) lines'
  end.

Definition hunk_text (h : WorkspaceHunk) : list string :=
  header_line short (wh_header h) (heading (wh_header h)) :: body_text (unended h) (wh_lines h).

Definition destination_text (d : destination) : list string :=
  match d with
  | Named path => ["+++ " +:+ git_path path]
  | Nowhere => ["+++ /dev/null"]
  | Unsaid => []
  end.

Definition title_text (x : printed_file) : string := "diff --git " +:+ pt_title x.

Definition file_text (x : printed_file) : list string :=
  title_text x :: pt_notes x ++ destination_text (pt_to x) ++ concat (hunk_text <$> pt_hunks x).

Definition patch_text (files : list printed_file) : string := joined (concat (file_text <$> files) ++ [""]).

(** What the parser is to make of it: a file without a destination keeps the line it began
    with for a path, and says why. *)
Definition file_of (x : printed_file) : WorkspacePatchFile :=
  match pt_to x with
  | Named path => {| pf_path := path; pf_hunks := pt_hunks x; pf_path_error := None |}
  | Nowhere => {| pf_path := title_text x; pf_hunks := pt_hunks x;
                  pf_path_error := Some "Error: Patch destination is not a repository file." |}
  | Unsaid => {| pf_path := title_text x; pf_hunks := pt_hunks x;
                 pf_path_error := Some "Patch entry has no readable destination path." |}
  end.

Definition note_ok (l : string) : Prop :=
  one_line l = true
  ∧ String.prefix "diff --git " l || String.prefix "diff -ruN " l || String.prefix "+++ " l || String.prefix "@@ " l = false.

Definition hunk_ok (h : WorkspaceHunk) : Prop :=
  header_ok (wh_header h) ∧ one_line (heading (wh_header h)) = true
  ∧ Forall (λ l, is_hunk_line l = true ∧ one_line l = true) (wh_lines h).

Record printable (x : printed_file) : Prop := {
  pr_title : one_line (pt_title x) = true;
  pr_notes : Forall note_ok (pt_notes x);
  pr_path : match pt_to x with
            | Named path => decode_utf8 ("b/" +:+ path) = inl ("b/" +:+ path)
            | Nowhere => True
            | Unsaid => pt_hunks x = []
            end;
  pr_hunks : Forall hunk_ok (pt_hunks x);
}.

Lemma update_last_snoc {A} (f : A → A) l x : update_last f (l ++ [x]) = l ++ [f x].
Proof. induction l as [|y [|z l] IH]; [done|done|]. change (y :: update_last f ((z :: l) ++ [x]) = y :: (z :: l) ++ [f x]). by rewrite IH. Qed.

Abbreviation step := (patch_line decode_utf8).

(** A line of a file that begins none. *)
Lemma step_inside files f in_hunk line :
  String.prefix "diff --git " line || String.prefix "diff -ruN " line = false →
  step (files ++ [f], in_hunk) line
  = (if negb in_hunk && String.prefix "+++ " line then (files ++ [set_path decode_utf8 line f], in_hunk)
     else if String.prefix "@@ " line
     then match parseHunkHeader line with
          | None => (files ++ [f], false)
          | Some header => (files ++ [add_hunk {| wh_header := header; wh_lines := [] |} f], true)
          end
     else if in_hunk && is_hunk_line line then (files ++ [add_line line f], in_hunk)
     else (files ++ [f], in_hunk)).
Proof.
  intros Hd. unfold patch_line. rewrite Hd, !update_last_snoc. destruct (files ++ [f]) eqn:Hf; [by destruct files|]. rewrite <- Hf.
  destruct (_ && _); [done|]. destruct (String.prefix "@@ " line); [|done]. destruct (parseHunkHeader line); [|done].
  by rewrite update_last_snoc.
Qed.

Lemma hunk_line_heads line : is_hunk_line line = true →
  String.prefix "diff --git " line || String.prefix "diff -ruN " line = false ∧ String.prefix "@@ " line = false.
Proof.
  destruct line as [|a line]; [done|]. cbn [is_hunk_line].
  destruct (Ascii.eqb_spec a space) as [->|]; [done|]. destruct (Ascii.eqb_spec a plus) as [->|]; [done|].
  destruct (Ascii.eqb_spec a minus) as [->|]; done.
Qed.

(** The mark of a last line is no line of the hunk. *)
Lemma step_mark files f : step (files ++ [f], true) no_newline = (files ++ [f], true).
Proof. by rewrite step_inside. Qed.

Lemma step_lines files f h marked lines :
  Forall (λ l, is_hunk_line l = true ∧ one_line l = true) lines →
  foldl step (files ++ [add_hunk h f], true) (body_text marked lines)
  = (files ++ [add_hunk {| wh_header := wh_header h; wh_lines := wh_lines h ++ lines |} f], true).
Proof.
  intros Hl. revert h marked. induction Hl as [|l lines [Hl _] _ IH]; intros h marked; cbn [body_text foldl].
  { rewrite app_nil_r. by destruct h. }
  destruct (hunk_line_heads l Hl) as [H1 H2]. rewrite step_inside, H2, Hl by done. cbn [negb andb].
  assert (Ha : add_line l (add_hunk h f) = add_hunk {| wh_header := wh_header h; wh_lines := wh_lines h ++ [l] |} f)
    by (unfold add_line, add_hunk; cbn [pf_hunks]; by rewrite update_last_snoc).
  rewrite Ha, foldl_app.
  replace (foldl step (files ++ [add_hunk {| wh_header := wh_header h; wh_lines := wh_lines h ++ [l] |} f], true)
             (if marked 0%nat then [no_newline] else []))
    with (files ++ [add_hunk {| wh_header := wh_header h; wh_lines := wh_lines h ++ [l] |} f], true)
    by (destruct (marked 0%nat); cbn [foldl]; by rewrite ?step_mark).
  rewrite IH. cbn [wh_header wh_lines]. by rewrite <- app_assoc.
Qed.

Lemma step_hunk files f in_hunk h : hunk_ok h →
  foldl step (files ++ [f], in_hunk) (hunk_text h) = (files ++ [add_hunk h f], true).
Proof.
  intros (Hh & _ & Hl). unfold hunk_text. cbn [foldl].
  assert (Hp : ∀ s, String.prefix "@@ " (header_line short (wh_header h) s) = true
    ∧ String.prefix "+++ " (header_line short (wh_header h) s) = false) by done.
  destruct (Hp (heading (wh_header h))) as [H1 H2].
  rewrite step_inside, H1, H2, andb_false_r, header_roundtrip by done.
  rewrite step_lines by done. by destruct h.
Qed.

Lemma step_hunks files f in_hunk hunks : Forall hunk_ok hunks →
  ∃ b, foldl step (files ++ [f], in_hunk) (concat (hunk_text <$> hunks))
  = (files ++ [{| pf_path := pf_path f; pf_hunks := pf_hunks f ++ hunks; pf_path_error := pf_path_error f |}], b).
Proof.
  intros Hh. revert f in_hunk. induction Hh as [|h hunks Hh _ IH]; intros f in_hunk.
  { exists in_hunk. rewrite app_nil_r. by destruct f. }
  cbn [fmap list_fmap concat]. rewrite foldl_app, step_hunk by done.
  destruct (IH (add_hunk h f) true) as [b Hb]. exists b. rewrite Hb. simpl. by rewrite <- app_assoc.
Qed.

Lemma step_notes files f notes : Forall note_ok notes → foldl step (files ++ [f], false) notes = (files ++ [f], false).
Proof.
  induction 1 as [|l notes [_ Hl] _ IH]; [done|]. cbn [foldl]. apply orb_false_iff in Hl as [[Hd H3]%orb_false_iff H4].
  by rewrite step_inside, H3, H4.
Qed.

(** The destination. *)
Lemma step_destination files x : printable x →
  foldl step (files ++ [{| pf_path := title_text x; pf_hunks := [];
                           pf_path_error := Some "Patch entry has no readable destination path." |}], false)
    (destination_text (pt_to x))
  = (files ++ [{| pf_path := pf_path (file_of x); pf_hunks := []; pf_path_error := pf_path_error (file_of x) |}], false).
Proof.
  intros [_ _ Hp _]. unfold file_of. destruct (pt_to x) as [path| |]; cbn [destination_text foldl]; [| |done].
  - rewrite step_inside by done.
    replace (negb false && String.prefix "+++ " ("+++ " +:+ git_path path)) with true by by destruct (git_path _).
    assert (H4 : ∀ t, slice 4 ("+++ " +:+ t) = t) by (intros t; apply (slice_app "+++ ")).
    assert (H2 : ∀ t, slice 2 ("b/" +:+ t) = t) by (intros t; apply (slice_app "b/")).
    unfold set_path. rewrite H4, path_roundtrip by done.
    replace (String.prefix "b/" ("b/" +:+ path)) with true by by destruct path.
    by rewrite H2.
  - by rewrite step_inside.
Qed.

Lemma step_file st x : printable x → ∃ b, foldl step st (file_text x) = (st.1 ++ [file_of x], b).
Proof.
  intros Hx. pose proof Hx as [Ht Hn Hd Hh]. destruct st as [files in_hunk]. unfold file_text. cbn [foldl].
  assert (Hs : step (files, in_hunk) (title_text x)
    = (files ++ [{| pf_path := title_text x; pf_hunks := [];
                    pf_path_error := Some "Patch entry has no readable destination path." |}], false))
    by (unfold patch_line, title_text; by destruct (pt_title x)).
  rewrite Hs, foldl_app, step_notes, foldl_app, step_destination by done.
  destruct (step_hunks files {| pf_path := pf_path (file_of x); pf_hunks := []; pf_path_error := pf_path_error (file_of x) |}
    false (pt_hunks x) Hh) as [b Hb].
  exists b. rewrite Hb. unfold file_of. by destruct (pt_to x).
Qed.

(** ** Lines *)

Lemma one_line_uint d : one_line (NilEmpty.string_of_uint d) = true.
Proof. induction d as [|d IH|d IH|d IH|d IH|d IH|d IH|d IH|d IH|d IH|d IH]; [done|..]; cbn [NilEmpty.string_of_uint]; by apply one_line_cons. Qed.

Lemma one_line_number n : one_line (number_text n) = true.
Proof. unfold number_text, NilZero.string_of_uint. destruct (N.to_uint (Z.to_N n)) eqn:Hd; try apply one_line_uint. done. Qed.

Lemma one_line_range n m s : one_line s = true → one_line (range_text short n m s) = true.
Proof.
  intros Hs. unfold range_text. rewrite one_line_app, one_line_number.
  destruct (short && (m =? 1)); [done|]. by rewrite !one_line_app, one_line_number, Hs.
Qed.

Lemma one_line_header h s : one_line s = true → one_line (header_line short h s) = true.
Proof.
  intros Hs. unfold header_line. rewrite one_line_app, one_line_range; [done|].
  by rewrite one_line_app, one_line_range by by rewrite one_line_app, Hs.
Qed.

Lemma body_lines_ok marked lines :
  Forall (λ l, is_hunk_line l = true ∧ one_line l = true) lines → Forall (λ l, one_line l = true) (body_text marked lines).
Proof.
  intros Hl. revert marked. induction Hl as [|l lines [_ Hl] _ IH]; intros marked; [by apply Forall_nil|].
  cbn [body_text]. apply Forall_cons. split; [done|]. apply Forall_app. split; [|done].
  destruct (marked 0%nat); repeat constructor.
Qed.


Lemma one_line_plain s : all_chars plain s = true → one_line s = true.
Proof.
  induction s as [|a s IH]; [done|]. cbn [all_chars]. intros [Ha Hs]%andb_true_iff. apply one_line_cons.
  split; [|by apply IH]. intros ->. done.
Qed.

Lemma one_line_quoted s : one_line (quoted_bytes s) = true.
Proof.
  induction s as [|a s IH]; [done|]. cbn [quoted_bytes]. generalize dependent (quoted_bytes s). intros q Hq.
  destruct a as [[] [] [] [] [] [] [] []];
    (match goal with |- one_line ?t = _ => let t' := eval cbn in t in change t with t' end);
    repeat (apply one_line_cons; split; [discriminate|]); exact Hq.
Qed.

Lemma one_line_path path : one_line (git_path path) = true.
Proof.
  unfold git_path. destruct (all_chars plain _) eqn:Hp.
  - apply one_line_plain in Hp. destruct (has_whitespace _); [|done]. by rewrite one_line_app, Hp.
  - apply one_line_cons. split; [done|]. by rewrite one_line_app, one_line_quoted.
Qed.

Lemma destination_line d : Forall (λ l, one_line l = true) (destination_text d).
Proof.
  destruct d as [path| |]; [|by repeat constructor..]. constructor; [|constructor].
  by rewrite one_line_app, one_line_path.
Qed.

Lemma file_text_lines x : printable x → Forall (λ l, one_line l = true) (file_text x).
Proof.
  intros [Ht Hn _ Hh]. unfold file_text. constructor; [unfold title_text; by rewrite one_line_app, Ht|].
  apply Forall_app. split.
  { eapply Forall_impl; [exact Hn|]. by intros l []. }
  apply Forall_app. split; [apply destination_line|]. apply Forall_concat, Forall_fmap. eapply Forall_impl; [exact Hh|].
  intros h (_ & Hhead & Hl). unfold hunk_text. simpl. constructor; [by apply one_line_header|]. by apply body_lines_ok.
Qed.

Lemma patch_text_lines files : Forall printable files →
  split_on line_feed (patch_text files) = concat (file_text <$> files) ++ [""].
Proof.
  intros Hf. apply split_line_join; [by destruct (concat _)|]. apply Forall_app. split; [|by repeat constructor].
  apply Forall_concat, Forall_fmap. eapply Forall_impl; [exact Hf|]. apply file_text_lines.
Qed.

Lemma step_files files : Forall printable files → ∀ st,
  ∃ b, foldl step st (concat (file_text <$> files)) = (st.1 ++ (file_of <$> files), b).
Proof.
  induction 1 as [|x files Hx _ IH]; intros st; [exists st.2; rewrite app_nil_r; by destruct st|].
  cbn [fmap list_fmap concat]. rewrite foldl_app. destruct (step_file st x Hx) as [b ->].
  destruct (IH (st.1 ++ [file_of x], b)) as [b' ->]. exists b'. simpl. by rewrite <- app_assoc.
Qed.
End Printing.

(** * Fenced blocks *)

(** The content of a fenced block as CommonMark has it: the lines after the opening fence, up
    to a line that begins, after three spaces at most, with a fence at least as long, and goes
    on with blanks only. *)
Fixpoint strip_spaces (n : nat) (s : string) : string :=
  match n, s with
  | S n', String a s' => if Ascii.eqb a space then strip_spaces n' s' else s
  | _, _ => s
  end.

Definition backtick : Ascii.ascii := Ascii.ascii_of_N 96.

Fixpoint strip_backticks (s : string) : string :=
  match s with String a s' => if Ascii.eqb a backtick then strip_backticks s' else s | EmptyString => s end.

Definition closes (line : string) : bool :=
  String.prefix fence (strip_spaces 3 line)
  && all_chars (λ a, Ascii.eqb a space || Ascii.eqb a tab) (strip_backticks (strip_spaces 3 line)).

Fixpoint until_closed (lines : list string) : list string :=
  match lines with l :: lines' => if closes l then [] else l :: until_closed lines' | [] => [] end.

Definition fenced_lines (body : string) : list string :=
  match split_on line_feed body with _ :: lines => until_closed lines | [] => [] end.

Lemma split_not_nil s : split_on line_feed s ≠ [].
Proof. destruct s as [|a s]; [done|]. cbn [split_on]. destruct (Ascii.eqb a line_feed); [done|]. by destruct (split_on line_feed s). Qed.

Lemma split_on_lines s t : split_on line_feed (s +:+ String line_feed t) = split_on line_feed s ++ split_on line_feed t.
Proof.
  induction s as [|a s IH]; [done|]. change (String a s +:+ String line_feed t) with (String a (s +:+ String line_feed t)).
  cbn [split_on]. destruct (Ascii.eqb a line_feed); [by rewrite IH|]. rewrite IH.
  pose proof (split_not_nil s). by destruct (split_on line_feed s).
Qed.

Lemma until_closed_iff lines : until_closed (lines ++ [fence]) = lines ↔ forallb (λ l, negb (closes l)) lines = true.
Proof.
  induction lines as [|l lines IH]; [done|]. simpl. destruct (closes l); simpl; [done|].
  rewrite <- IH. split; [by intros [= Heq]|by intros ->].
Qed.

Lemma body_lines r : fenced_lines (buildSuggestionBody r) = until_closed (split_on line_feed r ++ [fence]).
Proof.
  unfold fenced_lines, buildSuggestionBody. rewrite joined_cons by done. rewrite split_on_app by done.
  by rewrite joined_pair, split_on_lines.
Qed.
