(* ===== verification/SuggestionProperties.v ===== *)
(** What the suggestions of a mitigation patch are worth: the blocks of a hunk say what the hunk
    says, every candidate is on lines the pull request shows, and nothing of the patch is lost
    on the way to the manifest. *)

From S2P Require Import Prelude GitHub Suggestions SuggestionSpecs.

(** * The lines of a parsed patch *)

Definition hunk_lines_ok (h : WorkspaceHunk) : Prop :=
  Forall (λ l, is_hunk_line l = true ∧ one_line l = true) (wh_lines h).

Definition file_lines_ok (f : WorkspacePatchFile) : Prop := Forall hunk_lines_ok (pf_hunks f).

Lemma update_last_forall {A} (P : A → Prop) f (l : list A) :
  Forall P l → (∀ x, P x → P (f x)) → Forall P (update_last f l).
Proof.
  intros Hl Hf. induction Hl as [|x [|y l] Hx Hl IH]; [constructor| |].
  - by repeat constructor; apply Hf.
  - change (Forall P (x :: update_last f (y :: l))). by constructor.
Qed.

Lemma parse_lines decode_utf8 patch : Forall file_lines_ok (parseWorkspacePatch decode_utf8 patch).
Proof.
  unfold parseWorkspacePatch. pose proof (split_lines patch) as Hlines.
  assert (Hgen : ∀ st, Forall file_lines_ok st.1 → Forall file_lines_ok (foldl (patch_line decode_utf8) st (split_on line_feed patch)).1);
    [|by apply Hgen].
  induction Hlines as [|l ls Hl _ IH]; intros st Hst; [done|]. simpl. apply IH.
  destruct st as [files in_hunk]. unfold patch_line. simpl in Hst.
  destruct (_ || _). { apply Forall_app. split; [done|]. by repeat constructor. }
  destruct files as [|f files]; [done|].
  destruct (_ && _).
  { apply update_last_forall; [done|]. intros x Hx. unfold set_path.
    destruct (decodeGitPatchPath _ _) as [path|]; [|done]. by destruct (String.prefix _ _). }
  destruct (String.prefix "@@ " l).
  { destruct (parseHunkHeader l); [|done]. apply update_last_forall; [done|]. intros x Hx.
    apply Forall_app. split; [done|]. by repeat constructor. }
  destruct (in_hunk && is_hunk_line l) eqn:Hin; [|done]. apply andb_true_iff in Hin as [_ Hin].
  apply update_last_forall; [done|]. intros x Hx. apply update_last_forall; [done|].
  intros h Hh. apply Forall_app. split; [done|]. by repeat constructor.
Qed.

Lemma parsed_hunk_lines decode_utf8 patch f h :
  f ∈ parseWorkspacePatch decode_utf8 patch → h ∈ pf_hunks f →
  Forall (λ l, one_line l = true) (wh_lines h) ∧ Forall (λ l, is_hunk_line l = true) (wh_lines h).
Proof.
  intros Hf Hh. pose proof (parse_lines decode_utf8 patch) as Hall. rewrite Forall_forall in Hall.
  specialize (Hall f Hf). unfold file_lines_ok in Hall. rewrite Forall_forall in Hall. specialize (Hall h Hh).
  split; eapply Forall_impl; [exact Hall|by intros ? []|exact Hall|by intros ? []].
Qed.

(** C21: the suggestions of a hunk are the hunk: for a hunk of a parsed patch that matches the
    file, committing its blocks one after the other, the last one first, gives the file the
    hunk gives, provided that what is put in does not end with blanks and that nothing is
    put in after the last line of the hunk. *)
Theorem suggestions_apply_hunk decode_utf8 patch f h above below file :
  f ∈ parseWorkspacePatch decode_utf8 patch → h ∈ pf_hunks f →
  hunk_between h above below file → exact_hunk h = true →
  commit_all (splitWorkspaceHunkIntoSuggestionBlocks h) file = above ++ new_text (wh_lines h) ++ below.
Proof.
  intros Hf Hh [-> Hstart] He. destruct (parsed_hunk_lines _ _ _ _ Hf Hh) as [Hone Hhunk].
  apply blocks_commit; [done|done|done|lia|done].
Qed.

(** * The manifest *)

Lemma removed_range numbers r b : removed_block numbers r = Some b → 1 <= bk_start_line b <= bk_line b.
Proof.
  unfold removed_block. destruct (_ && _) eqn:Hc; [|done]. intros [= <-]. simpl.
  apply andb_true_iff in Hc as [H1%Z.ltb_lt H2%Z.leb_le]. lia.
Qed.

Lemma block_range before run after b : block_of_run before run after = Some b → 1 <= bk_start_line b <= bk_line b.
Proof.
  unfold block_of_run. destruct (plus_lines run) as [|p ps].
  { destruct (minus_line_numbers run); [done|]. apply removed_range. }
  destruct (String.eqb _ ""); [done|]. destruct (minus_line_numbers run); [|apply removed_range].
  destruct (Z.leb_spec (default 0 (snd <$> head run)) 0); [done|].
  intros (r & _ & ->)%fmap_Some. simpl. lia.
Qed.

Lemma blocks_range fuel before rest b : b ∈ blocks_of fuel before rest → 1 <= bk_start_line b <= bk_line b.
Proof.
  revert before rest. induction fuel as [|fuel IH]; intros before rest; [by intros ?%not_elem_of_nil|].
  destruct rest as [|x rest]; [by intros ?%not_elem_of_nil|]. cbn [blocks_of].
  destruct (changed x); [|apply IH]. destruct (block_of_run _ _ _) eqn:Hb; simpl; [|apply IH].
  intros [-> | Hin]%elem_of_cons; [by eapply block_range|by eapply IH].
Qed.

(** Where a candidate comes from: a block of a hunk of the patch, and the hunk of the pull
    request that shows it. *)
Record from_block (workspace : list WorkspacePatchFile) (files : list PullRequestFile) (c : SuggestionCandidate)
    (f : WorkspacePatchFile) (h : WorkspaceHunk) (b : WorkspaceSuggestionBlock) (pr : PullRequestFile) (shown : HunkHeader) : Prop := {
  fb_file : f ∈ workspace ∧ pf_path_error f = None ∧ sc_path c = pf_path f;
  fb_block : h ∈ pf_hunks f ∧ b ∈ splitWorkspaceHunkIntoSuggestionBlocks h;
  fb_shown : pr ∈ files ∧ pr_filename pr = sc_path c ∧ ∃ patch, pr_patch pr = Some patch ∧ shown ∈ parsePatchHunks patch;
  fb_lines : sc_start_line c = Z.max (bk_start_line b) (new_start shown)
    ∧ sc_line c = Z.min (bk_line b) (new_start shown + new_count shown - 1);
  fb_range : 1 <= new_start shown ∧ 1 <= bk_start_line b <= sc_start_line c
    ∧ sc_start_line c <= sc_line c ∧ sc_line c <= bk_line b;
  fb_text : sc_replacement c = bk_replacement b ∧ sc_body c = buildSuggestionBody (bk_replacement b);
}.

Lemma anchor_range b hunks shown :
  findAnchoringHunkForBlock b hunks = Some shown →
  shown ∈ hunks ∧ 1 <= new_start shown ∧ 1 <= new_count shown
  ∧ Z.max (bk_start_line b) (new_start shown) <= Z.min (bk_line b) (new_start shown + new_count shown - 1).
Proof.
  unfold findAnchoringHunkForBlock, toLineRange. destruct (_ || _) eqn:Hb; [done|]. intros Hf.
  apply find_some in Hf as [Hin Hr]. apply list_elem_of_In in Hin. split; [done|].
  apply orb_false_iff in Hb as [H1%Z.leb_gt H2%Z.leb_gt].
  destruct (_ || _) eqn:Hs; [done|]. apply orb_false_iff in Hs as [H3%Z.leb_gt H4%Z.leb_gt].
  unfold rangesOverlap in Hr. simpl in Hr. apply andb_true_iff in Hr as [H5%Z.leb_le H6%Z.leb_le]. lia.
Qed.

Section Candidates.
Context (workspace : list WorkspacePatchFile) (files : list PullRequestFile).

Definition traced (st : manifest_state) : Prop :=
  ∀ c, c ∈ ms_candidates st → ∃ f h b pr shown, from_block workspace files c f h b pr shown.

Lemma traced_unmap skip u st : traced st → traced (unmap skip u st).
Proof. done. Qed.

Lemma traced_block f h b pr patch hunks st :
  f ∈ workspace → pf_path_error f = None → h ∈ pf_hunks f → b ∈ splitWorkspaceHunkIntoSuggestionBlocks h →
  pr ∈ files → pr_filename pr = pf_path f → pr_patch pr = Some patch → parsePatchHunks patch = hunks →
  traced st → traced (map_block (pf_path f) hunks h st b).
Proof.
  intros Hf Herr Hh Hb Hpr Hname Hpatch Hhunks Hst. unfold map_block.
  destruct (findAnchoringHunkForBlock b hunks) as [shown|] eqn:Ha; [|done].
  apply anchor_range in Ha as (Hin & H1 & H2 & H3).
  unfold toLineRange. destruct (_ || _); [done|]. simpl. destruct (Z.ltb_spec (Z.min (bk_line b) (new_start shown + new_count shown - 1)) (Z.max (bk_start_line b) (new_start shown))); [done|].
  intros c. simpl. intros [Hc | ->%list_elem_of_singleton]%elem_of_app; [by apply Hst|].
  exists f, h, b, pr, shown. pose proof (blocks_range _ _ _ _ Hb). split; simpl.
  - done.
  - done.
  - split; [done|]. split; [done|]. exists patch. by subst.
  - done.
  - lia.
  - done.
Qed.

Lemma fold_traced {A} (step : manifest_state → A → manifest_state) (l : list A) st :
  (∀ st a, a ∈ l → traced st → traced (step st a)) → traced st → traced (foldl step st l).
Proof.
  revert st. induction l as [|a l IH]; intros st Hs Hst; [done|]. simpl. apply IH.
  - intros st' a' Ha'. apply Hs. by right.
  - apply Hs; [by left|done].
Qed.

Lemma traced_file f st : f ∈ workspace → traced st → traced (map_file files st f).
Proof.
  intros Hf Hst. unfold map_file. destruct (pf_path_error f) eqn:Herr; [done|].
  destruct (List.find _ files) as [pr|] eqn:Hfind; [|done]. apply find_some in Hfind as [Hpr%list_elem_of_In Hname%String.eqb_eq].
  simpl. destruct (pr_patch pr) as [patch|] eqn:Hpatch; [|done]. destruct (blank patch); [done|].
  destruct (parsePatchHunks patch) as [|hd hs] eqn:Hhunks; [done|]. apply fold_traced; [|done].
  intros st' h Hh Hst'. unfold map_hunk. destruct (splitWorkspaceHunkIntoSuggestionBlocks h) as [|b bs] eqn:Hbs; [done|].
  apply fold_traced; [|done]. intros st2 b2 Hb2 Hst2. rewrite <- Hbs in Hb2. by eapply traced_block.
Qed.

Lemma all_traced st : traced st → traced (foldl (map_file files) st workspace).
Proof. apply fold_traced. intros st' f Hf. by apply traced_file. Qed.
End Candidates.

(** A candidate as it is committed. *)
Definition candidate_block (c : SuggestionCandidate) : WorkspaceSuggestionBlock :=
  {| bk_start_line := sc_start_line c; bk_line := sc_line c; bk_replacement := sc_replacement c |}.

Lemma commit_length b file :
  1 <= bk_start_line b <= bk_line b → bk_line b <= Z.of_nat (length file) →
  Z.of_nat (length (commit_suggestion b file))
  = Z.of_nat (length file) - (bk_line b - bk_start_line b + 1) + Z.of_nat (length (replacement_lines (bk_replacement b))).
Proof.
  intros Hr Hl. unfold commit_suggestion. rewrite !length_app, length_take, length_drop. lia.
Qed.

(** C22: every candidate of a manifest can be shown and says where it is from: its lines are on
    the right side of one hunk of the pull request's own patch of that file, and of a block of
    a hunk of the mitigation; it is the whole block exactly when that hunk shows the whole
    block, and committing one that was cut leaves the lines that were cut off in the file,
    beside a replacement that was written for all of them. *)
Theorem candidates_are_shown decode_utf8 generated_at patch files review_record c :
  c ∈ mf_candidates (buildSuggestionManifest decode_utf8 generated_at patch files review_record) →
  ∃ f h b pr shown,
    from_block (parseWorkspacePatch decode_utf8 patch) files c f h b pr shown
    ∧ (candidate_block c = b ↔ new_start shown <= bk_start_line b ∧ bk_line b <= new_start shown + new_count shown - 1)
    ∧ ∀ file, bk_line b <= Z.of_nat (length file) →
        Z.of_nat (length (commit_suggestion (candidate_block c) file))
        = Z.of_nat (length (commit_suggestion b file))
          + (sc_start_line c - bk_start_line b) + (bk_line b - sc_line c).
Proof.
  intros Hc. unfold buildSuggestionManifest in Hc.
  destruct (is_null (rr_mitigation review_record) || match parseWorkspacePatch decode_utf8 patch with
                                                     | [] => true | _ :: _ => false end) in Hc;
    [by apply not_elem_of_nil in Hc|]. simpl in Hc.
  destruct (all_traced (parseWorkspacePatch decode_utf8 patch) files empty_manifest (λ _ H, False_ind _ (not_elem_of_nil _ H)) c Hc)
    as (f & h & b & pr & shown & Hfrom).
  exists f, h, b, pr, shown. split; [done|]. destruct Hfrom as [_ _ _ [H1 H2] Hr [Ht _]]. split.
  - split.
    + intros <-. simpl in *. lia.
    + intros Hin. destruct b as [bs bl br]. simpl in *. unfold candidate_block. f_equal; [lia|lia|done].
  - intros file Hf. rewrite !commit_length; simpl; [|lia..]. rewrite Ht. lia.
Qed.

(** * Nothing is lost *)

(** What a manifest owes to a file of the patch: one entry for a file the pull request does not
    show, else one for every block, and one for a hunk without blocks. *)
Definition owed_to_hunk (h : WorkspaceHunk) : nat := Nat.max 1 (length (splitWorkspaceHunkIntoSuggestionBlocks h)).

Definition patch_visible (files : list PullRequestFile) (f : WorkspacePatchFile) : bool :=
  is_null (pf_path_error f)
  && match List.find (λ file, String.eqb (pr_filename file) (pf_path f)) files ≫= pr_patch with
     | Some patch => negb (blank patch) && negb (match parsePatchHunks patch with [] => true | _ => false end)
     | None => false
     end.

Definition owed_to_file (files : list PullRequestFile) (f : WorkspacePatchFile) : nat :=
  if patch_visible files f then sum_list_with owed_to_hunk (pf_hunks f) else 1.

Definition entries (st : manifest_state) : nat := length (ms_candidates st) + length (ms_unmapped st).

Lemma entries_unmap skip u st : entries (unmap skip u st) = S (entries st).
Proof. unfold entries, unmap. simpl. rewrite length_app. simpl. lia. Qed.

Lemma entries_block path hunks h st b : 1 <= bk_start_line b <= bk_line b → entries (map_block path hunks h st b) = S (entries st).
Proof.
  intros Hb. unfold map_block. destruct (findAnchoringHunkForBlock b hunks) as [shown|] eqn:Ha; [|apply entries_unmap].
  apply anchor_range in Ha as (Hin & H1 & H2 & H3). destruct (toLineRange _ _) as [[lo hi]|] eqn:Hr; [|apply entries_unmap].
  unfold toLineRange in Hr. destruct (_ || _); [done|]. injection Hr as <- <-. simpl.
  destruct (Z.ltb_spec (Z.min (bk_line b) (new_start shown + new_count shown - 1)) (Z.max (bk_start_line b) (new_start shown))); [lia|].
  unfold entries. simpl. rewrite length_app. simpl. lia.
Qed.

(** A fold adds up what its steps add. *)
Lemma entries_fold {A} (step : manifest_state → A → manifest_state) (owed : A → nat) (l : list A) st :
  (∀ st a, a ∈ l → entries (step st a) = (entries st + owed a)%nat) →
  entries (foldl step st l) = (entries st + sum_list_with owed l)%nat.
Proof.
  revert st. induction l as [|a l IH]; intros st Hs; simpl; [lia|].
  rewrite IH by (intros st' a' Ha'; apply Hs; by right). rewrite Hs by by left. lia.
Qed.

Lemma sum_ones {A} (l : list A) : sum_list_with (λ _, 1%nat) l = length l.
Proof. induction l as [|a l IH]; simpl; [done|]. by rewrite IH. Qed.

Lemma entries_hunk path hunks st h : entries (map_hunk path hunks st h) = (entries st + owed_to_hunk h)%nat.
Proof.
  unfold map_hunk, owed_to_hunk. destruct (splitWorkspaceHunkIntoSuggestionBlocks h) as [|b bs] eqn:Hbs.
  { rewrite entries_unmap. simpl. lia. }
  rewrite (entries_fold _ (λ _, 1%nat)), sum_ones; [simpl; lia|].
  intros st' b' Hb'. rewrite entries_block; [lia|]. rewrite <- Hbs in Hb'. by eapply blocks_range.
Qed.

Lemma entries_file files st f : entries (map_file files st f) = (entries st + owed_to_file files f)%nat.
Proof.
  unfold map_file, owed_to_file, patch_visible. destruct (pf_path_error f); simpl; [rewrite entries_unmap; lia|].
  destruct (List.find _ files ≫= pr_patch) as [patch|]; [|rewrite entries_unmap; lia].
  destruct (blank patch); simpl; [rewrite entries_unmap; lia|].
  destruct (parsePatchHunks patch) as [|hd hs]; simpl; [rewrite entries_unmap; lia|].
  apply entries_fold. intros st' h _. apply entries_hunk.
Qed.

(** A manifest accounts for the patch: its candidates and unmapped changes are together as
    many as the patch has files the pull request does not show, blocks in the hunks of the
    others, and hunks without a block, so that no block is lost and none is counted twice; and
    it says why it has no candidate exactly when it has none. *)
Theorem manifest_accounts_for_patch decode_utf8 generated_at patch files review_record :
  let manifest := buildSuggestionManifest decode_utf8 generated_at patch files review_record in
  (rr_mitigation review_record ≠ None →
   (length (mf_candidates manifest) + length (mf_unmapped_changes manifest))%nat
   = sum_list_with (owed_to_file files) (parseWorkspacePatch decode_utf8 patch))
  ∧ (mf_skipped_reason manifest = None ↔ mf_candidates manifest ≠ []).
Proof.
  intros manifest. subst manifest. unfold buildSuggestionManifest. split.
  - intros Hm. destruct (rr_mitigation review_record) as [m|]; [|done]. simpl.
    destruct (parseWorkspacePatch decode_utf8 patch) as [|f fs]; [done|].
    pose proof (entries_fold (map_file files) (owed_to_file files) (f :: fs) empty_manifest
      (λ st f _, entries_file files st f)) as He. exact He.
  - destruct (_ || _); [by split|]. simpl. by destruct (ms_candidates _).
Qed.

(** * Lines at the end of a file *)

(** Lines that are added at the end of a file are never suggested: the hunk that adds them
    ends with them, its last block is put on the line after the last one of the file, which no
    hunk of the pull request shows, although its replacement repeats the line before, and so
    it is mapped to no hunk. *)
Theorem appended_lines_unmapped decode_utf8 patch f h above file context x added hunks :
  f ∈ parseWorkspacePatch decode_utf8 patch → h ∈ pf_hunks f → hunk_between h above [] file →
  wh_lines h = context ++ x :: added → line_marked space (x, 0) = true → added ≠ [] →
  Forall (λ l, line_marked plus (l, 0) = true) added → trim_end 0 (joined (slice 1 <$> added)) ≠ "" →
  Forall (λ s, new_start s + new_count s - 1 <= Z.of_nat (length file)) hunks →
  ∃ b, last (splitWorkspaceHunkIntoSuggestionBlocks h) = Some b
    ∧ bk_start_line b = Z.of_nat (length file) + 1 ∧ bk_line b = bk_start_line b
    ∧ bk_replacement b = joined [slice 1 x; trim_end 0 (joined (slice 1 <$> added))]
    ∧ findAnchoringHunkForBlock b hunks = None.
Proof.
  intros Hf Hh [-> Hstart] Hlines Hx Hne Hadded Htext Hhunks. rewrite app_nil_r in *.
  exists (appended x added (Z.of_nat (length (above ++ old_text (wh_lines h))) + 1)).
  assert (Hblock : last (splitWorkspaceHunkIntoSuggestionBlocks h)
    = Some (appended x added (Z.of_nat (length (above ++ old_text (wh_lines h))) + 1))).
  { unfold splitWorkspaceHunkIntoSuggestionBlocks. rewrite Hlines. rewrite appended_block by (done || lia).
    rewrite length_app. do 2 f_equal. lia. }
  split; [done|]. do 3 (split; [done|]). unfold findAnchoringHunkForBlock. destruct (toLineRange _ _) as [[lo hi]|] eqn:Hr; [|done].
  unfold toLineRange in Hr. destruct (_ || _); [done|]. injection Hr as <- <-. cbn [appended bk_start_line bk_line].
  destruct (List.find _ hunks) as [s|] eqn:Hfind; [|done]. apply find_some in Hfind as [Hin%list_elem_of_In Hs].
  rewrite Forall_forall in Hhunks. specialize (Hhunks s Hin). unfold toLineRange in Hs. destruct (_ || _) in Hs; [done|].
  unfold rangesOverlap in Hs. cbn [fst snd appended bk_start_line bk_line] in Hs. apply andb_true_iff in Hs as [H1%Z.leb_le H2%Z.leb_le]. lia.
Qed.

(** * Bodies *)

(** The body of a suggestion carries its replacement: a Markdown reader takes exactly the
    lines of the replacement for the content of the suggestion when, and only when, none of
    them closes the fence. *)
Theorem suggestion_body_roundtrip replacement :
  fenced_lines (buildSuggestionBody replacement) = split_on line_feed replacement
  ↔ forallb (λ l, negb (closes l)) (split_on line_feed replacement) = true.
Proof. rewrite body_lines. apply until_closed_iff. Qed.

(** * Patches *)


(** * Witnesses *)

Definition sample_hunk : WorkspaceHunk := {|
  wh_header := {| old_start := 2; old_count := 3; new_start := 2; new_count := 4 |};
  wh_lines := [" two"; "-three"; "+THREE"; "+and a half"; " four"] |}.

Definition sample_file : WorkspacePatchFile :=
  {| pf_path := "src/a b.c"; pf_hunks := [sample_hunk]; pf_path_error := None |}.

(** A path that Git quotes; its one line is replaced, and neither ends with a line feed. *)
Definition single_hunk : WorkspaceHunk := {|
  wh_header := {| old_start := 1; old_count := 1; new_start := 1; new_count := 1 |};
  wh_lines := ["-x"; "+y"] |}.
Definition quoted_file : WorkspacePatchFile :=
  {| pf_path := "src/" +:+ String tab "x"; pf_hunks := [single_hunk]; pf_path_error := None |}.

Definition printed (f : WorkspacePatchFile) : printed_file :=
  {| pt_title := "a b"; pt_notes := ["index 1..2 100644"; "--- a/b"]; pt_to := Named (pf_path f); pt_hunks := pf_hunks f |}.

(** As Git writes it. *)
Definition git_patch (files : list WorkspacePatchFile) : string :=
  patch_text true (λ _, " main()") (λ h _, bool_decide (wh_lines h = wh_lines single_hunk)) (printed <$> files).

Definition sample_patch : string := git_patch [sample_file; quoted_file].

Definition parsed : list WorkspacePatchFile := [sample_file; quoted_file].

Lemma sample_parsed : parseWorkspacePatch inl sample_patch = parsed.
Proof. vm_compute. reflexivity. Qed.


Lemma suggestions_apply_hunk_witness :
  commit_all (splitWorkspaceHunkIntoSuggestionBlocks sample_hunk) ["one"; "two"; "three"; "four"; "five"]
  = ["one"; "two"; "THREE"; "and a half"; "four"; "five"].
Proof.
  apply (suggestions_apply_hunk inl sample_patch sample_file sample_hunk ["one"] ["five"]).
  - rewrite sample_parsed. by left.
  - by left.
  - split; reflexivity.
  - vm_compute. reflexivity.
Defined.

(** The pull request shows lines 1 to 3, of the two lines the block replaces only one. *)
Definition wide_hunk : WorkspaceHunk := {|
  wh_header := {| old_start := 2; old_count := 3; new_start := 2; new_count := 2 |};
  wh_lines := [" two"; "-three"; "-four"; "+THREE"] |}.

Definition wide_patch : string :=
  git_patch [{| pf_path := "src/a b.c"; pf_hunks := [wide_hunk]; pf_path_error := None |}].

Definition shown_files : list PullRequestFile := [{| pr_filename := "src/a b.c"; pr_patch := Some "@@ -1,2 +1,3 @@" |}].

Definition mitigated (patch : string) : ReviewRecord :=
  {| rr_verdict := "confirmed-defect"; rr_mitigation := Some (Some patch) |}.

Definition cut_candidate : SuggestionCandidate :=
  {| sc_path := "src/a b.c"; sc_start_line := 3; sc_line := 3; sc_replacement := "THREE";
     sc_body := buildSuggestionBody "THREE" |}.

Lemma candidates_are_shown_witness :
  ∃ b, bk_line b = 4 ∧ candidate_block cut_candidate ≠ b
    ∧ ∀ file, 4 <= Z.of_nat (length file) →
        Z.of_nat (length (commit_suggestion (candidate_block cut_candidate) file))
        = Z.of_nat (length (commit_suggestion b file)) + 1.
Proof.
  destruct (candidates_are_shown inl "now" wide_patch shown_files (mitigated wide_patch) cut_candidate)
    as (f & h & b & pr & shown & Hfrom & Hexact & Hlen).
  - vm_compute. by left.
  - destruct Hfrom as [[Hf _] [Hh Hb] _ _ _ _].
    assert (Hparsed : parseWorkspacePatch inl wide_patch
      = [{| pf_path := "src/a b.c"; pf_hunks := [wide_hunk]; pf_path_error := None |}]) by (vm_compute; reflexivity).
    rewrite Hparsed in Hf. apply list_elem_of_singleton in Hf. subst f. apply list_elem_of_singleton in Hh. subst h.
    assert (Hblocks : splitWorkspaceHunkIntoSuggestionBlocks wide_hunk
      = [{| bk_start_line := 3; bk_line := 4; bk_replacement := "THREE" |}]) by (vm_compute; reflexivity).
    rewrite Hblocks in Hb. apply list_elem_of_singleton in Hb. subst b. exists {| bk_start_line := 3; bk_line := 4; bk_replacement := "THREE" |}. split; [reflexivity|].
    split; [discriminate|]. intros file Hfile. rewrite (Hlen file Hfile). cbn [sc_start_line sc_line cut_candidate bk_start_line bk_line]. lia.
Defined.

Lemma manifest_accounts_for_patch_witness :
  let manifest := buildSuggestionManifest inl "now" sample_patch shown_files (mitigated sample_patch) in
  (length (mf_candidates manifest) + length (mf_unmapped_changes manifest))%nat = 2%nat
  ∧ (mf_skipped_reason manifest = None ↔ mf_candidates manifest ≠ []).
Proof.
  destruct (manifest_accounts_for_patch inl "now" sample_patch shown_files (mitigated sample_patch)) as [Hcount Hskip].
  split; [|exact Hskip]. rewrite Hcount by discriminate. vm_compute. reflexivity.
Defined.

Definition appending_hunk : WorkspaceHunk := {|
  wh_header := {| old_start := 1; old_count := 1; new_start := 1; new_count := 2 |};
  wh_lines := [" one"; "+two"] |}.

Definition appending_file : WorkspacePatchFile :=
  {| pf_path := "notes.txt"; pf_hunks := [appending_hunk]; pf_path_error := None |}.

Lemma appended_lines_unmapped_witness :
  ∃ b, last (splitWorkspaceHunkIntoSuggestionBlocks appending_hunk) = Some b
    ∧ bk_line b = 2 ∧ findAnchoringHunkForBlock b [{| old_start := 0; old_count := 0; new_start := 1; new_count := 1 |}] = None.
Proof.
  destruct (appended_lines_unmapped inl (git_patch [appending_file]) appending_file appending_hunk
    [] ["one"] [] " one" ["+two"] [{| old_start := 0; old_count := 0; new_start := 1; new_count := 1 |}])
    as (b & Hb & Hs & Hl & _ & Hnone).
  - vm_compute. by left.
  - by left.
  - split; reflexivity.
  - reflexivity.
  - reflexivity.
  - discriminate.
  - by repeat constructor.
  - vm_compute. discriminate.
  - repeat constructor. simpl. lia.
  - exists b. split; [exact Hb|]. split; [by rewrite Hl, Hs|exact Hnone].
Defined.
