(* ===== verification/PullReviews.v ===== *)
(** The review a run publishes on a pull request (apps/github-integration,
    github/comment-service.ts, second half; reviews/pull-requests/publish.ts): the requests of
    the pulls API as a class, reviews created unless they exist, what the review says and
    whether it approves.

    A review is kept as a comment of the app is, its state left out.  The rendering of a record
    is an argument, and so are the texts of [response.data.errors] of an error. *)

From stdpp Require Import pretty.
From S2P Require Import Prelude Schema Tables Database PublicationStore ConnectorErrors.
From S2P Require Import ConnectorSteps Actions GitHub Suggestions.

(** * The requests *)

Inductive PullRequestReviewEvent := APPROVE | COMMENT | REQUEST_CHANGES.
#[export] Instance review_event_eq_dec : EqDecision PullRequestReviewEvent.
Proof. solve_decision. Defined.

Record review_request := {
  rq_commit_id : string;
  rq_body : string;
  rq_event : PullRequestReviewEvent;
  rq_comments : list ReviewComment;
}.

Class PullReviews (G : Type) := {
  listReviews : repo_ref → Z → Z → G → outcome_of (list IssueCommentSummary);
  createReview : repo_ref → Z → review_request → G → outcome_of IssueCommentSummary * G;
}.

Definition isOwnPullRequestApprovalError (response_errors : thrown_error → list string) (error : thrown_error) : bool :=
  if negb (bool_decide (te_status error = Some 422)) then false
  else
    let errorTexts := List.filter (λ item, negb (blank item))
      (match te_response_message error with Some m => [m] | None => [] end
       ++ [te_message error] ++ response_errors error) in
    existsb (λ item, let text := toLowerCase item in includes "approve" text && includes "own pull request" text) errorTexts.

(** What the documentation promises: reviews are listed in the order of their creation, a page
    at a time; a call to create one appends it, with its text and the app as its author, not
    more often than the client sends the request ([review_sends], one more than its retries);
    a review that it answers is among those; and an approval that is refused because the pull
    request is the app's own was not created. *)
Class PullReviewLaws (G : Type) `{PullReviews G} (bot : option string) (response_errors : thrown_error → list string) := {
  reviews : repo_ref → Z → G → list IssueCommentSummary;
  review_sends : nat;
  listReviews_page r n p g l : listReviews r n p g = inl l → l = page_of p (reviews r n g);
  createReview_appends r n rq g res g' :
    createReview r n rq g = (res, g') →
    ∃ posted, reviews r n g' = reviews r n g ++ posted ∧ (length posted <= review_sends)%nat
      ∧ Forall (λ c, ic_body c = Some (rq_body rq)
                     ∧ ∀ login, requireAppBotLogin bot = inl login →
                         wasAuthoredByCurrentAppBot bot (ic_user c) = inl true) posted
      ∧ (∀ c, res = inl c → c ∈ posted)
      ∧ (∀ e, res = inr e → rq_event rq = APPROVE →
           isOwnPullRequestApprovalError response_errors e = true → posted = []);
}.

(** * Reviews, unless they exist (comment-service.ts) *)

Section Reviews.
Context {G : Type} `{PullReviews G}.
Context (now : nat → Z) (env : nat → G * run_rows → G * run_rows) (net : nat → transport).
Context (message_of : failure → string) (bot : option string) (fuel : nat).
Context (response_errors : thrown_error → list string).

Definition createPullRequestReview (assert : act G unit) (target : repo_ref) (pr_number : Z) (rq : review_request) :
    act G IssueCommentSummary :=
  catch
    (assert ;;> remote_post env (createReview target pr_number rq))
    (λ e, if negb (bool_decide (rq_event rq = APPROVE)) || negb (isOwnPullRequestApprovalError response_errors (ra_error e))
          then raise e
          else assert ;;>
               remote_post env (createReview target pr_number
                 {| rq_commit_id := rq_commit_id rq; rq_body := rq_body rq; rq_event := COMMENT;
                    rq_comments := rq_comments rq |})).

Definition findPullRequestReviewByMarker (target : repo_ref) (pr_number : Z) (marker : string) :
    act G (option IssueCommentSummary) :=
  search_pages fuel (λ page, remote_get env (listReviews target pr_number page)) (marked bot marker) 1.

Definition createPullRequestReviewUnlessMarkerExists (assert : act G unit) (target : repo_ref) (pr_number : Z)
    (rq : review_request) (marker : string) : act G posted_comment :=
  await existing := findPullRequestReviewByMarker target pr_number marker in
  match existing with
  | Some c => pure {| pc_id := ic_id c; pc_html_url := ic_html_url c; pc_reused := true |}
  | None =>
      await created := createPullRequestReview assert target pr_number rq in
      pure {| pc_id := ic_id created; pc_html_url := ic_html_url created; pc_reused := false |}
  end.

(** * The claim (publication-coordinator.ts) *)

Definition publication_lost (runId : string) : raised := raised_plain (claim_lost_error runId).

(** [renew] and [renewSerially] of the heartbeat, over the world of the publisher. *)
Definition renewPublication (runId token : string) : act G unit :=
  catch
    (await renewed := store_call now env net message_of (serve (λ n, renewPublicationClaim n token)) in
     if renewed : bool then confirm else raise (publication_lost runId))
    (λ _, mark_lost ;;> raise (publication_lost runId)).

Definition assertPublicationClaim (runId token : string) : act G unit :=
  await lost := read_lost in
  if lost : bool then raise (publication_lost runId) else renewPublication runId token.

(** * The review of a run (publish.ts) *)

Record PersistedPullRequest := {
  pp_target : repo_ref;
  pp_number : Z;
  pp_head_sha : string;
  pp_author : option string;
}.

Definition shouldPublishSuggestions (r : ReviewRecord) : bool :=
  match rr_mitigation r with Some (Some patch) => negb (blank patch) | _ => false end.

Definition pullRequestReviewRunMarker (run_id : string) : string :=
  "<!-- sec-review-bot:pull-request-review-run:" +:+ run_id +:+ " -->".

Definition reviewEventForRecord (r : ReviewRecord) (pr : PersistedPullRequest) : PullRequestReviewEvent + raised :=
  match isCurrentAppBotLogin bot (pp_author pr) with
  | inr e => inr e
  | inl true => inl COMMENT
  | inl false => inl (if String.eqb (rr_verdict r) "no-actionable-finding" then APPROVE else COMMENT)
  end.

Definition or_text (s default : string) : string := if String.eqb s "" then default else s.

Definition unmapped_line (item : UnmappedSuggestionChange) : string :=
  let path := or_text (trim (um_path item)) "(unknown path)" in
  let reason := or_text (trim (um_reason item)) "Not anchorable to PR diff." in
  let (new_start, new_count) := default (0, 0) (um_hunk item) in
  let range := if (0 <? new_start) && (0 <? new_count)
               then " [new:" +:+ pretty new_start +:+ ", count:" +:+ pretty new_count +:+ "]" else "" in
  "- `" +:+ path +:+ "`" +:+ range +:+ ": " +:+ reason.

Definition appendUnmappedSuggestionSection (review_body : string) (unmapped : list UnmappedSuggestionChange) : string :=
  match unmapped with
  | [] => review_body
  | _ =>
      let lines :=
        [""; "### Unmapped Mitigation Changes"; "";
         "Some mitigation edits could not be anchored as inline suggestions in the current PR diff."; ""]
        ++ (unmapped_line <$> take 10 unmapped)
        ++ (if Nat.ltb 10 (length unmapped)
            then ["- (+" +:+ pretty (Z.of_nat (length unmapped) - 10) +:+ " more unmapped change(s))"] else []) in
      review_body +:+ String line_feed (joined lines)
  end.

Section Publication.
Context (decode_utf8 : string → string + string) (generated_at : string).
(** [renderAnalysisSummaryCommentFromReviewRecord]. *)
Context (render : ReviewRecord → string).

Record PublishedReviewRef := { prr_id : Z; prr_url : string }.

Definition comment_body (run_id : string) (r : ReviewRecord) : string :=
  pullRequestReviewRunMarker run_id +:+ String line_feed (String line_feed (render r)).

(** The request: with the suggestions, when there are any. *)
Definition review_of (run_id : string) (pr : PersistedPullRequest) (files : list PullRequestFile) (r : ReviewRecord)
    (event : PullRequestReviewEvent) : review_request :=
  let plain := {| rq_commit_id := pp_head_sha pr; rq_body := comment_body run_id r; rq_event := event; rq_comments := [] |} in
  if shouldPublishSuggestions r then
    match generateSuggestionCandidatesFromReviewRecord decode_utf8 generated_at files r with
    | inr _ => plain
    | inl manifest =>
        match mf_candidates manifest with
        | [] => plain
        | candidates =>
            {| rq_commit_id := pp_head_sha pr;
               rq_body := appendUnmappedSuggestionSection (comment_body run_id r) (mf_unmapped_changes manifest);
               rq_event := event; rq_comments := review_comment <$> candidates |}
        end
    end
  else plain.

Definition publishPullRequestReviewSideEffect (run_id token : string) (pr : PersistedPullRequest)
    (files : list PullRequestFile) (r : ReviewRecord) : act G PublishedReviewRef :=
  await event := computed (reviewEventForRecord r pr) in
  await review := createPullRequestReviewUnlessMarkerExists (assertPublicationClaim run_id token) (pp_target pr) (pp_number pr)
    (review_of run_id pr files r event) (pullRequestReviewRunMarker run_id) in
  pure {| prr_id := pc_id review; prr_url := pc_html_url review |}.
End Publication.
End Reviews.
