(* ===== verification/ReviewProperties.v ===== *)
(** What the publication of a pull request review guarantees: a run is reviewed by one call,
    whatever is lost, and the app approves only what is somebody else's. *)

From stdpp Require Import pretty.
From S2P Require Import Prelude Schema Tables Database PublicationStore ConnectorErrors.
From S2P Require Import ConnectorSteps Actions GitHub GitHubSpecs System SystemSpecs Scenario Hub NoticeProperties Suggestions PullReviews.

(** A search among reviews is a search among comments: the thread is that of the reviews. *)
Definition reviews_as_comments {G : Type} `{PullReviews G} : GitHub G := {|
  getRepoInstallation _ _ := inl tt;
  getRepo _ _ := inl tt;
  listComments := listReviews;
  createComment r n body :=
    createReview r n {| rq_commit_id := ""; rq_body := body; rq_event := COMMENT; rq_comments := [] |};
  listForRepo _ _ _ := inl [];
  createIssue _ _ g := (inr metadata_error, g) |}.

Program Definition reviews_are_comments {G : Type} `{PullReviews G} bot response_errors
    `{!PullReviewLaws G bot response_errors} :
    @GitHubLaws G reviews_as_comments bot :=
  {| thread := reviews (bot := bot); comment_sends := review_sends (bot := bot) |}.
Next Obligation. intros G HP bot errors HL r n p g l. apply listReviews_page. Qed.
Next Obligation.
  intros G HP bot errors HL r n body g res g' Hc. apply (createReview_appends (bot := bot)) in Hc as (posted & H1 & H2 & H3 & H4 & _).
  exists posted. done.
Qed.

Section Once.
Context {G : Type} `{PullReviews G} (bot : option string) (response_errors : thrown_error → list string).
Context `{!PullReviewLaws G bot response_errors}.
Context (now : nat → Z) (env : nat → G * run_rows → G * run_rows) (net : nat → transport).
Context (message_of : failure → string) (fuel : nat).
Context (run_id token : string) (target : repo_ref) (number : Z).

Abbreviation run_marker := (pullRequestReviewRunMarker run_id).

(** The reviews of the run. *)
Definition run_reviews (g : G) : list IssueCommentSummary :=
  List.filter (is_marked bot run_marker) (reviews (bot := bot) target number g).

(** Others submit reviews, none of them the app's with the marker of the run. *)
Definition reviews_appended (g g' : G) : Prop :=
  ∃ new, reviews (bot := bot) target number g' = reviews (bot := bot) target number g ++ new
    ∧ Forall (λ c, is_marked bot run_marker c = false) new.

Lemma appended_same g g' : reviews_appended g g' → run_reviews g' = run_reviews g.
Proof.
  intros (new & Hg & Hn). unfold run_reviews. rewrite Hg, List.filter_app.
  assert (Hnew : List.filter (is_marked bot run_marker) new = []).
  { clear Hg. induction Hn as [|c new Hc _ IH]; simpl; [done|]. by rewrite Hc. }
  by rewrite Hnew, app_nil_r.
Qed.

Context (Henv : ∀ i g t, reviews_appended g (env i (g, t)).1).

Lemma disturb_same w : run_reviews (w_remote (disturb env w)) = run_reviews (w_remote w).
Proof.
  apply appended_same. unfold disturb. pose proof (Henv (w_calls w) (w_remote w) (w_rows w)). by destruct (env _ _).
Qed.

(** The reviews of the run are these, at every end. *)
Definition stays {A} (m : act G A) : Prop := ∀ w, 
  ends m (λ _ w', run_reviews (w_remote w') = run_reviews (w_remote w))
    (λ _ w', run_reviews (w_remote w') = run_reviews (w_remote w)) w.

Lemma stays_then {A B} (m : act G A) (k : A → act G B) : stays m → (∀ a, stays (k a)) → stays (andThen m k).
Proof.
  intros Hm Hk w. apply ends_then. eapply ends_mono; [apply Hm| |done]. intros a w' Hw. rewrite <- Hw. apply Hk.
Qed.

Lemma stays_catch {A} (m : act G A) h : stays m → (∀ e, stays (h e)) → stays (catch m h).
Proof.
  intros Hm Hh w. apply ends_catch. eapply ends_mono; [apply Hm|done|]. intros e w' Hw. rewrite <- Hw. apply Hh.
Qed.

Lemma stays_store {A} (m : Z → run_rows → result A * run_rows) : stays (store_call now env net message_of m).
Proof.
  intros w. unfold ends, store_call. pose proof (disturb_same w) as Hd. destruct (request _ _ _ _ _ _ _) as [[a|e] t]; exact Hd.
Qed.

Lemma stays_assert : stays (assertPublicationClaim now env net message_of run_id token).
Proof.
  apply stays_then; [by intros w|]. intros []; [by intros w|]. apply stays_catch.
  - apply stays_then; [apply stays_store|]. by intros [] w.
  - intros e. by apply stays_then.
Qed.

(** The reviews that were there stay as they are; where there was none, one call of the client
    may have left some, as many as it sends requests. *)
Definition reviewed_once (g g' : G) : Prop :=
  run_reviews g' = run_reviews g ∨ run_reviews g = [] ∧ (length (run_reviews g') <= review_sends (bot := bot))%nat.

Lemma reviewed_once_trans g1 g2 g3 : reviewed_once g1 g2 → reviewed_once g2 g3 → reviewed_once g1 g3.
Proof. unfold reviewed_once. intros [->|[-> H1]] [->|[H2 H3]]; eauto. Qed.

(** Where there is no review of the run, a call leaves no more than it sends. *)
Lemma post_at_most rq w :
  run_reviews (w_remote w) = [] →
  ends (remote_post env (createReview target number rq))
    (λ _ w', (length (run_reviews (w_remote w')) <= review_sends (bot := bot))%nat)
    (λ x w', (length (run_reviews (w_remote w')) <= review_sends (bot := bot))%nat
       ∧ (rq_event rq = APPROVE → isOwnPullRequestApprovalError response_errors (ra_error x) = true →
          run_reviews (w_remote w') = [])) w.
Proof.
  intros Hw. unfold ends, remote_post. pose proof (disturb_same w) as Hd. rewrite Hw in Hd.
  destruct (createReview target number rq _) as [r g] eqn:Hc.
  apply (createReview_appends (bot := bot)) in Hc as (posted & Hg & Hl & _ & _ & Hown).
  assert (Hbatch : (length (run_reviews g) <= review_sends (bot := bot))%nat).
  { unfold run_reviews in Hd |- *. rewrite Hg, List.filter_app, Hd. simpl.
    pose proof (List.filter_length_le (is_marked bot run_marker) posted). lia. }
  destruct r as [c|x]; [done|]. split; [done|]. simpl. intros He Hx. rewrite (Hown x eq_refl He Hx), app_nil_r in Hg.
  unfold run_reviews in Hd |- *. by rewrite Hg.
Qed.

Lemma create_at_most rq w :
  run_reviews (w_remote w) = [] →
  ends (createPullRequestReview env response_errors (assertPublicationClaim now env net message_of run_id token) target number rq)
    (λ _ w', (length (run_reviews (w_remote w')) <= review_sends (bot := bot))%nat)
    (λ _ w', (length (run_reviews (w_remote w')) <= review_sends (bot := bot))%nat) w.
Proof.
  intros Hw. unfold createPullRequestReview. apply ends_catch.
  assert (Hpost : ∀ rq w, run_reviews (w_remote w) = [] →
    ends (assertPublicationClaim now env net message_of run_id token ;;> remote_post env (createReview target number rq))
      (λ _ w', (length (run_reviews (w_remote w')) <= review_sends (bot := bot))%nat)
      (λ x w', (length (run_reviews (w_remote w')) <= review_sends (bot := bot))%nat
         ∧ (rq_event rq = APPROVE → isOwnPullRequestApprovalError response_errors (ra_error x) = true →
            run_reviews (w_remote w') = [])) w).
  { intros rq' w0 Hw0. apply ends_then. eapply ends_mono; [apply stays_assert| |].
    - intros [] w1 H1. apply post_at_most. by rewrite H1.
    - intros e w1 H1. rewrite H1, Hw0. split; [simpl; lia|done]. }
  eapply ends_mono; [by apply Hpost|done|]. intros e w1 [Hbatch Hnone].
  destruct (negb _ || negb _) eqn:Hown; [by apply ends_raise|].
  apply orb_false_iff in Hown as [Happ%negb_false_iff%bool_decide_eq_true Hown%negb_false_iff].
  eapply ends_mono; [by apply Hpost, Hnone|done|]. by intros e' w2 [].
Qed.

Lemma search_reviews w :
  ends (findPullRequestReviewByMarker env bot fuel target number run_marker)
    (λ r w', run_reviews (w_remote w') = run_reviews (w_remote w) ∧
       match r with
       | Some c => c ∈ reviews (bot := bot) target number (w_remote w') ∧ is_marked bot run_marker c = true
       | None => run_reviews (w_remote w') = []
       end)
    (λ _ w', run_reviews (w_remote w') = run_reviews (w_remote w)) w.
Proof.
  eapply ends_mono;
    [apply (@search_ends G reviews_as_comments bot (reviews_are_comments bot response_errors) env target number run_marker Henv fuel 0);
      [by rewrite Nat.mul_0_r|rewrite Nat.mul_0_r; lia]| |].
  - intros r w' [Ha Hr]. split; [by apply appended_same|]. destruct r as [c|]; [done|].
    unfold run_reviews. change (Forall (λ c, is_marked bot run_marker c = false) (reviews (bot := bot) target number (w_remote w'))) in Hr.
    induction Hr as [|c l Hc _ IH]; simpl; [done|]. by rewrite Hc.
  - intros e w' Ha. by apply appended_same.
Qed.

(** A review with the marker of the run that is there, by the app. *)
Definition reviewed_at (url : string) (g : G) : Prop := ∃ c, c ∈ run_reviews g ∧ ic_html_url c = url.

Lemma reviewed_here c g : c ∈ reviews (bot := bot) target number g → is_marked bot run_marker c = true →
  reviewed_at (ic_html_url c) g.
Proof.
  intros Hin Hm. exists c. split; [|done]. apply list_elem_of_In, List.filter_In.
  split; [by apply list_elem_of_In|done].
Qed.

Lemma created_there login rq w :
  requireAppBotLogin bot = inl login → includes run_marker (rq_body rq) = true →
  ends (createPullRequestReview env response_errors (assertPublicationClaim now env net message_of run_id token) target number rq)
    (λ c w', reviewed_at (ic_html_url c) (w_remote w')) (λ _ _, True) w.
Proof.
  intros Hbot Hbody. unfold createPullRequestReview.
  assert (Hpost : ∀ rq w, includes run_marker (rq_body rq) = true →
    ends (assertPublicationClaim now env net message_of run_id token ;;> remote_post env (createReview target number rq))
      (λ c w', reviewed_at (ic_html_url c) (w_remote w')) (λ _ _, True) w).
  { intros rq' w0 Hb. apply ends_then. eapply ends_mono; [apply ends_any| |done]. intros [] w1 _.
    unfold ends, remote_post. destruct (createReview target number rq' _) as [r g] eqn:Hc.
    apply (createReview_appends (bot := bot)) in Hc as (posted & Hg & _ & Hp & Hr & _).
    destruct r as [c|x]; [|done]. cbn [thrown_or w_remote]. specialize (Hr c eq_refl).
    rewrite Forall_forall in Hp. destruct (Hp c Hr) as [Hcb Ha]. apply reviewed_here.
    - rewrite Hg. apply elem_of_app. by right.
    - unfold is_marked, marked. by rewrite (Ha login Hbot), Hcb, Hb. }
  apply ends_catch. eapply ends_mono; [by apply Hpost|done|]. intros e w1 _.
  destruct (_ || _); [by apply ends_raise|]. by apply Hpost.
Qed.

Lemma append_append (a b c : string) : (a +:+ b) +:+ c = a +:+ (b +:+ c).
Proof.
  induction a as [|x a IH]; [done|]. change (String x ((a +:+ b) +:+ c) = String x (a +:+ (b +:+ c))). by rewrite IH.
Qed.

Lemma review_marked pr files decode_utf8 generated_at render r event :
  includes run_marker (rq_body (review_of decode_utf8 generated_at render run_id pr files r event)) = true.
Proof.
  unfold review_of. destruct (shouldPublishSuggestions r); [|apply includes_prefix].
  destruct (generateSuggestionCandidatesFromReviewRecord _ _ _ _) as [m|]; [|apply includes_prefix].
  destruct (mf_candidates m); [apply includes_prefix|]. cbn [rq_body]. unfold appendUnmappedSuggestionSection.
  destruct (mf_unmapped_changes m); [apply includes_prefix|]. unfold comment_body.
  rewrite append_append. apply includes_prefix.
Qed.

Context (decode_utf8 : string → string + string) (generated_at : string) (render : ReviewRecord → string).
Context (pr : PersistedPullRequest) (Hpr : pp_target pr = target ∧ pp_number pr = number).
Context (files : list PullRequestFile) (r : ReviewRecord).

Abbreviation publish := (publishPullRequestReviewSideEffect now env net message_of bot fuel response_errors
                           decode_utf8 generated_at render run_id token pr files r).

(** One attempt keeps the reviews that are there, and where there is none makes one call. *)
Lemma attempt_once w :
  ends publish (λ _ w', reviewed_once (w_remote w) (w_remote w')) (λ _ w', reviewed_once (w_remote w) (w_remote w')) w.
Proof.
  destruct Hpr as [Ht Hn]. unfold publishPullRequestReviewSideEffect. rewrite Ht, Hn.
  apply ends_then, ends_computed; [|by left]. intros event _. apply ends_then.
  unfold createPullRequestReviewUnlessMarkerExists. apply ends_then.
  eapply ends_mono; [apply search_reviews| |by left].
  intros [c|] w' [Hs Hr]; [apply ends_pure, ends_pure; by left|]. rewrite Hr in Hs.
  apply ends_then. eapply ends_mono; [by apply create_at_most| |]; right; by split.
Qed.

Lemma attempt_there login w :
  requireAppBotLogin bot = inl login →
  ends publish (λ ref w', reviewed_at (prr_url ref) (w_remote w')) (λ _ _, True) w.
Proof.
  intros Hbot. destruct Hpr as [Ht Hn]. unfold publishPullRequestReviewSideEffect. rewrite Ht, Hn.
  apply ends_then, ends_computed; [|done]. intros event _. apply ends_then.
  unfold createPullRequestReviewUnlessMarkerExists. apply ends_then.
  eapply ends_mono; [apply search_reviews| |done].
  intros [c|] w' [Hs Hr]; [destruct Hr; by apply ends_pure, ends_pure, reviewed_here|].
  apply ends_then. eapply ends_mono; [eapply created_there; [exact Hbot|apply review_marked]|done|done].
Qed.
End Once.

(** * Attempts *)

(** One attempt of some worker: its clock, its network, its claim, and what everybody else does
    before each of its requests. *)
Record review_round (G : Type) := {
  vr_now : nat → Z;
  vr_env : nat → G * run_rows → G * run_rows;
  vr_net : nat → transport;
  vr_fuel : nat;
  vr_token : string;
}.
Arguments vr_now {G}. Arguments vr_env {G}. Arguments vr_net {G}. Arguments vr_fuel {G}. Arguments vr_token {G}.

Section Rounds.
Context {G : Type} `{PullReviews G} (bot : option string) (response_errors : thrown_error → list string).
Context `{!PullReviewLaws G bot response_errors} (message_of : failure → string).
Context (decode_utf8 : string → string + string) (generated_at : string) (render : ReviewRecord → string).
Context (run_id : string) (pr : PersistedPullRequest) (files : list PullRequestFile) (r : ReviewRecord).

(** The attempts one after the other, with their answers; None when one does not end in its
    fuel. *)
Fixpoint review_rounds (rounds : list (review_round G)) (g : G) (t : run_rows) :
    option (list (PublishedReviewRef + raised) * G * run_rows) :=
  match rounds with
  | [] => Some ([], g, t)
  | rd :: rest =>
      match publishPullRequestReviewSideEffect (vr_now rd) (vr_env rd) (vr_net rd) message_of bot (vr_fuel rd)
              response_errors decode_utf8 generated_at render run_id (vr_token rd) pr files r
              {| w_calls := 0; w_remote := g; w_rows := t; w_lost := false; w_trace := [] |} with
      | Some (answer, w) =>
          match review_rounds rest (w_remote w) (w_rows w) with
          | Some (answers, g', t') => Some (answer :: answers, g', t')
          | None => None
          end
      | None => None
      end
  end.

Abbreviation run_reviews := (run_reviews bot response_errors run_id (pp_target pr) (pp_number pr)).
Abbreviation quiet rounds := (Forall (λ rd : review_round G, ∀ i g t,
  reviews_appended bot response_errors run_id (pp_target pr) (pp_number pr) g (vr_env rd i (g, t)).1) rounds).

Abbreviation reviewed_once := (reviewed_once bot response_errors run_id (pp_target pr) (pp_number pr)).

(** What is there after an attempt is there after all of them. *)
Lemma reviewed_still url g g' :
  reviewed_once g g' → reviewed_at bot response_errors run_id (pp_target pr) (pp_number pr) url g →
  reviewed_at bot response_errors run_id (pp_target pr) (pp_number pr) url g'.
Proof.
  intros Ho (c & Hc & Hu). exists c. split; [|done].
  destruct Ho as [->|[Hn _]]; [done|]. rewrite Hn in Hc. by apply not_elem_of_nil in Hc.
Qed.

(** C13: a run is reviewed by one call of the GitHub client at most, however often its publication
    is tried: over any number of attempts, one after the other, by any workers, with any loss
    of messages and of the answers of GitHub, the own approval that GitHub refuses and that is
    sent again as a comment included, and while others review the pull request (nobody else
    puts the app's marker there, as an attempt that overlaps would), the reviews with the
    marker of the run stay what they are once there is one; those there are come from one
    call, which leaves as many as the client sends its request, the retries of its own
    included: one, unless the client has to send the request again; and every attempt that
    succeeds names one that is there at the end. *)
Theorem one_review_per_run login rounds g t answers g' t' :
  requireAppBotLogin bot = inl login → quiet rounds →
  review_rounds rounds g t = Some (answers, g', t') →
  (run_reviews g' = run_reviews g
   ∨ run_reviews g = [] ∧ (length (run_reviews g') <= review_sends (bot := bot))%nat)
  ∧ ∀ ref, inl ref ∈ answers → ∃ c, c ∈ run_reviews g' ∧ ic_html_url c = prr_url ref.
Proof.
  intros Hbot Hr. change (review_rounds rounds g t = Some (answers, g', t') → reviewed_once g g' ∧
    ∀ ref, inl ref ∈ answers → reviewed_at bot response_errors run_id (pp_target pr) (pp_number pr) (prr_url ref) g').
  revert g t answers. induction Hr as [|rd rest Hrd Hrest IH]; intros g t answers; cbn [review_rounds].
  { intros [= <- <- <-]. split; [by left|]. by intros ref ?%not_elem_of_nil. }
  match goal with |- context [publishPullRequestReviewSideEffect _ _ _ _ _ _ _ _ _ _ _ _ _ _ _ ?w0] =>
    pose proof (attempt_once bot response_errors (vr_now rd) (vr_env rd) (vr_net rd) message_of (vr_fuel rd) run_id
      (vr_token rd) (pp_target pr) (pp_number pr) Hrd decode_utf8 generated_at render pr (conj eq_refl eq_refl) files r w0) as Hs;
    pose proof (attempt_there bot response_errors (vr_now rd) (vr_env rd) (vr_net rd) message_of (vr_fuel rd) run_id
      (vr_token rd) (pp_target pr) (pp_number pr) Hrd decode_utf8 generated_at render pr (conj eq_refl eq_refl) files r login w0 Hbot) as Ht end.
  unfold ends in Hs, Ht. destruct (publishPullRequestReviewSideEffect _ _ _ _ _ _ _ _ _ _ _ _ _ _ _ _) as [[a w]|]; [|done].
  destruct (review_rounds rest (w_remote w) (w_rows w)) as [[[rest_answers g1] t1]|] eqn:Heq; [|done].
  intros [= <- <- <-]. destruct (IH _ _ _ Heq) as [Hlast Hall].
  split; [eapply reviewed_once_trans; [|exact Hlast]; by destruct a|].
  intros ref [<- | Hin]%elem_of_cons; [|by apply Hall]. by eapply reviewed_still.
Qed.
End Rounds.

(** The app approves only what is somebody else's, and only when the analysis found nothing
    to act on: a record asks for an approval exactly when the author of the pull request is
    not the app and the verdict is that there is no actionable finding, it asks for nothing
    but comments otherwise, and without the app's own login there is no review at all. *)
Theorem approval_is_earned bot r pr :
  (∀ login, requireAppBotLogin bot = inl login →
     reviewEventForRecord bot r pr
     = inl (if bool_decide (rr_verdict r = "no-actionable-finding" ∧ normalizeLogin (pp_author pr) ≠ Some login)
            then APPROVE else COMMENT))
  ∧ (∀ e, requireAppBotLogin bot = inr e → reviewEventForRecord bot r pr = inr e).
Proof.
  split; intros x Hx; unfold reviewEventForRecord, isCurrentAppBotLogin; rewrite Hx; [|done].
  destruct (normalizeLogin (pp_author pr)) as [candidate|]; [destruct (String.eqb_spec candidate x) as [->|Hne]|].
  - rewrite bool_decide_eq_false_2; [done|]. by intros [_ ?].
  - destruct (String.eqb_spec (rr_verdict r) "no-actionable-finding") as [->|Hv].
    + rewrite bool_decide_eq_true_2; [done|]. split; [done|]. by intros [= ->].
    + rewrite bool_decide_eq_false_2; [done|]. by intros [? _].
  - destruct (String.eqb_spec (rr_verdict r) "no-actionable-finding") as [->|Hv].
    + by rewrite bool_decide_eq_true_2.
    + rewrite bool_decide_eq_false_2; [done|]. by intros [? _].
Qed.

(** * Witness *)

(** The reviews of one pull request.  Its author may not approve it, and the answers to the
    requests of the next call that creates one may be lost: it is sent twice. *)
Record desk := { dk_own : bool; dk_lossy : bool; dk_reviews : list IssueCommentSummary }.

Definition own_approval : thrown_error := status_error 422 "Review Can not approve your own pull request".

#[export] Instance desk_reviews : PullReviews desk := {
  listReviews _ _ p g := inl (page_of p (dk_reviews g));
  createReview _ _ rq g :=
    if bool_decide (rq_event rq = APPROVE) && dk_own g then (inr own_approval, g)
    else
      let c n := hub_comment (rq_body rq) (Z.of_nat (length (dk_reviews g)) + n) in
      let g' := {| dk_own := dk_own g; dk_lossy := false;
                   dk_reviews := dk_reviews g ++ (if dk_lossy g then [c 0; c 1] else [c 0]) |} in
      (if dk_lossy g then inr (status_error 502 "Bad Gateway") else inl (c 0), g');
}.

Definition no_errors (_ : thrown_error) : list string := [].

#[export] Instance desk_laws : PullReviewLaws desk bot_login no_errors.
Proof.
  refine {| reviews _ _ g := dk_reviews g; review_sends := 2 |}.
  - by intros r n p g l [= <-].
  - intros r n rq g res g'. cbn [createReview desk_reviews]. destruct (bool_decide _ && _).
    { intros [= <- <-]. exists []. rewrite app_nil_r. repeat split; [simpl; lia|constructor|done]. }
    assert (Hb : ∀ n, wasAuthoredByCurrentAppBot bot_login (ic_user (hub_comment (rq_body rq) n)) = inl true)
      by (intros; vm_compute; reflexivity).
    intros [= <- <-]. eexists. split; [reflexivity|]. destruct (dk_lossy g); (split; [simpl; lia|]); split.
    + repeat (constructor; [split; [reflexivity|intros; apply Hb]|]). constructor.
    + split; [done|]. intros e [= <-] _ He. vm_compute in He. discriminate He.
    + repeat (constructor; [split; [reflexivity|intros; apply Hb]|]). constructor.
    + split; [intros c [= <-]; left|done].
Defined.

Definition sample_pull_request : PersistedPullRequest := {|
  pp_target := {| owner_login := "octo"; repo_name := "app" |}; pp_number := 7; pp_head_sha := "abc"; pp_author := Some "octocat" |}.

Definition clean_record : ReviewRecord := {| rr_verdict := "no-actionable-finding"; rr_mitigation := None |}.

Definition review_attempt (fuel : nat) : review_round desk := {|
  vr_now := λ _, minute 9; vr_env := λ _ gt, gt; vr_net := λ _, Delivered; vr_fuel := fuel; vr_token := "pub-1" |}.

Definition empty_desk : desk := {| dk_own := true; dk_lossy := true; dk_reviews := [] |}.

(** The two attempts of a run on this pull request. *)
Definition two_attempts (t : run_rows) : option (list (PublishedReviewRef + raised) * desk * run_rows) :=
  review_rounds bot_login no_errors (λ _, "") inl "now" (λ _, "Nothing found.") "run-1" sample_pull_request [] clean_record
    [review_attempt 2; review_attempt 2] empty_desk t.

Definition desk_run_reviews (g : desk) : list IssueCommentSummary :=
  run_reviews bot_login no_errors "run-1" (pp_target sample_pull_request) (pp_number sample_pull_request) g.

(** The approval is refused, the answers to the comment, sent twice, are lost, and the second
    attempt finds it: there are two reviews, and there stay two. *)
Lemma one_review_per_run_witness :
  ∃ t answers g' t' ref c, two_attempts t = Some (answers, g', t')
    ∧ inl ref ∈ answers ∧ length answers = 2%nat
    ∧ (length (desk_run_reviews g') <= 2)%nat ∧ c ∈ desk_run_reviews g' ∧ ic_html_url c = prr_url ref.
Proof.
  assert (Hall : match two_attempts (stored publish_script) with
    | Some ([inr _; inl _], _, _) => true | _ => false end = true) by (vm_compute; reflexivity).
  revert Hall. generalize (stored publish_script) as t. intros t Hall.
  destruct (two_attempts t) as [[[answers g'] t']|] eqn:Heq; [|discriminate Hall].
  destruct answers as [|[|x] [|[ref|] [|]]]; try discriminate Hall.
  assert (Hquiet : Forall (λ rd : review_round desk, ∀ i g u,
      reviews_appended bot_login no_errors "run-1" (pp_target sample_pull_request) (pp_number sample_pull_request) g (vr_env rd i (g, u)).1)
      [review_attempt 2; review_attempt 2]).
  { constructor; [|constructor; [|constructor]]; intros i g u; exists []; simpl; by rewrite app_nil_r. }
  destruct (one_review_per_run bot_login no_errors (λ _, "") inl "now" (λ _, "Nothing found.") "run-1" sample_pull_request [] clean_record
    "sec-review-bot[bot]" [review_attempt 2; review_attempt 2] empty_desk t [inr x; inl ref] g' t'
    eq_refl Hquiet Heq) as [Hcount Hthere].
  destruct (Hthere ref (list_elem_of_further _ _ _ (list_elem_of_here _ _))) as (c & Hc & Hurl).
  exists t, [inr x; inl ref], g', t', ref, c. split; [exact Heq|].
  split; [exact (list_elem_of_further _ _ _ (list_elem_of_here _ _))|].
  split; [exact eq_refl|]. split; [|split; [exact Hc|exact Hurl]].
  destruct Hcount as [Hsame|[_ Htwo]]; [|exact Htwo].
  unfold desk_run_reviews. rewrite Hsame. exact (Nat.le_0_l 2).
Defined.

Lemma approval_is_earned_witness :
  reviewEventForRecord bot_login clean_record sample_pull_request = inl APPROVE.
Proof.
  destruct (approval_is_earned bot_login clean_record sample_pull_request) as [Hknown _].
  rewrite (Hknown "sec-review-bot[bot]"); vm_compute; reflexivity.
Defined.
