(* ===== verification/DraftPulls.v ===== *)
(** Draft pull requests (apps/github-integration: reviews/shared/draft-pull-request.ts,
    branch-already-exists.ts and branch-name.ts, reviews/repo-path.ts,
    github/default-branch-service.ts, reviews/issues/draft-pr.ts,
    reviews/repositories/delivery-draft-pr.ts and delivery-title.ts): the requests of Git data
    as a class, the protocol that opens one pull request of a result, and what the two
    workflows put into it.

    Run ids and delivery ids are ASCII.  The texts of pull requests are arguments. *)

From stdpp Require Import pretty.
From S2P Require Import Prelude Schema Tables Database PublicationStore ConnectorErrors.
From S2P Require Import ConnectorSteps Actions GitHub Suggestions.

(** * Strings *)

Fixpoint map_chars (f : Ascii.ascii → Ascii.ascii) (s : string) : string :=
  match s with EmptyString => EmptyString | String a s' => String (f a) (map_chars f s') end.

(** [s.replace(/[p]+/g, by)]: every longest run of characters that [p] holds of. *)
Fixpoint replace_runs (p : Ascii.ascii → bool) (by_ : Ascii.ascii) (inside : bool) (s : string) : string :=
  match s with
  | EmptyString => EmptyString
  | String a s' =>
      if p a then (if inside then replace_runs p by_ true s' else String by_ (replace_runs p by_ true s'))
      else String a (replace_runs p by_ false s')
  end.

(** [s.replace(/^[p]+/, '')] and [s.replace(/[p]+$/, '')]. *)
Fixpoint strip_start (p : Ascii.ascii → bool) (s : string) : string :=
  match s with
  | EmptyString => EmptyString
  | String a s' => if p a then strip_start p s' else s
  end.
Fixpoint strip_end (p : Ascii.ascii → bool) (s : string) : string :=
  match s with
  | EmptyString => EmptyString
  | String a s' => if all_chars p s then EmptyString else String a (strip_end p s')
  end.

(** [s.replace(/\s+/g, ' ')]; [skip] bytes belong to a blank already seen. *)
Fixpoint collapse_blanks (inside : bool) (skip : nat) (s : string) : string :=
  match s with
  | EmptyString => EmptyString
  | String a s' =>
      match skip with
      | S k => collapse_blanks inside k s'
      | O => match js_space s with
             | O => String a (collapse_blanks false 0 s')
             | S k => if inside then collapse_blanks true k s' else String space (collapse_blanks true k s')
             end
      end
  end.

(** The texts of [new Set(items)], in the order of their first occurrences. *)
Definition distinct_texts (items : list string) : list string :=
  foldl (λ seen x, if existsb (String.eqb x) seen then seen else seen ++ [x]) [] items.

(** * Branch names (branch-name.ts) *)

Definition hyphen : Ascii.ascii := Ascii.ascii_of_N 45.
Definition is_slash (a : Ascii.ascii) : bool := Ascii.eqb a slash.

(** [[a-z0-9_/-]]. *)
Definition segment_char (a : Ascii.ascii) : bool :=
  let n := Ascii.N_of_ascii a in
  ((97 <=? n) && (n <=? 122) || (48 <=? n) && (n <=? 57))%N || is_underscore a || is_slash a || is_hyphen a.

Definition segment_edge (a : Ascii.ascii) : bool := is_hyphen a || is_slash a.

Definition sanitizeBranchSegment (value : string) : string :=
  strip_end segment_edge (strip_start segment_edge
    (replace_runs is_slash slash false
      (replace_runs is_hyphen hyphen false
        (replace_runs (λ a, negb (segment_char a)) hyphen false (toLowerCase value))))).

Definition buildDraftBranchName (issue_number : Z) (run_id : string) : string :=
  "sec-review-bot/issue-" +:+ pretty issue_number +:+ "-" +:+ sanitizeBranchSegment run_id.

(** * Paths (repo-path.ts, normalizePromotionFilePath of reviews/issues/renderer.ts) *)

Definition SENSITIVE_EXACT_PATHS : list string := ["CODEOWNERS"; ".github/CODEOWNERS"; "docs/CODEOWNERS"].

Definition isSensitivePath (path : string) : bool :=
  existsb (String.eqb path) SENSITIVE_EXACT_PATHS
  || (String.eqb path ".github/workflows" || String.prefix ".github/workflows/" path).

Definition is_letter (a : Ascii.ascii) : bool :=
  let n := Ascii.N_of_ascii a in ((65 <=? n) && (n <=? 90) || (97 <=? n) && (n <=? 122))%N.

(** [/^[A-Za-z]:/]. *)
Definition has_drive (s : string) : bool :=
  match s with String a (String b _) => is_letter a && (Ascii.N_of_ascii b =? 58)%N | _ => false end.

Definition unsafe_path (message value : string) : raised := raised_plain (error_of (message +:+ value)).

Definition validateRepoRelativePathShape (value : string) : string + raised :=
  let parts := split_on slash value in
  if String.eqb value "" || blank value || negb (String.eqb value (trim value)) || String.prefix "/" value
     || has_drive value || any_char (Ascii.eqb backslash) value
     || existsb (λ part, String.eqb part "" || String.eqb part "." || String.eqb part "..") parts
  then inr (unsafe_path "Unsafe repository file path: " value)
  else if existsb (String.eqb ".git") parts
  then inr (unsafe_path "Unsafe repository file path targets .git: " value)
  else inl value.

Definition refuse_sensitive (r : string + raised) : string + raised :=
  match r with
  | inl normalized =>
      if isSensitivePath normalized
      then inr (unsafe_path "Sensitive repository file path requires explicit policy: " normalized)
      else inl normalized
  | inr e => inr e
  end.

(** [value.replace(/\\/g, '/')]. *)
Definition forward_slashes (value : string) : string :=
  map_chars (λ a, if Ascii.eqb a backslash then slash else a) value.

Definition validateRepoRelativePath (value : string) : string + raised :=
  refuse_sensitive (validateRepoRelativePathShape (forward_slashes (trim value))).

Definition validateContractPublishableRepoRelativePath (value : string) : string + raised :=
  refuse_sensitive (validateRepoRelativePathShape value).

(** Of the text of a path. *)
Definition normalizePromotionFilePath (filePath : string) : string + raised :=
  let rawValue := trim filePath in
  if String.eqb rawValue "" then inl ""
  else
    let normalized := forward_slashes rawValue in
    if String.eqb normalized "/workspace" then inl ""
    else if String.prefix "/workspace/" normalized then validateRepoRelativePath (slice 11 normalized)
    else validateRepoRelativePath normalized.

(** * File changes (file-change.ts, reviews/issues/draft-pr.ts) *)

Inductive TextEncoding := Utf8 | Base64.
Inductive FileMode := RegularFile | ExecutableFile | SymbolicLink.

Inductive FileChange :=
  | Deleted (path : string)
  | Upsert (path content : string) (content_encoding : TextEncoding) (mode : option FileMode).

Definition change_path (c : FileChange) : string :=
  match c with Deleted path => path | Upsert path _ _ _ => path end.

Definition fileMode (text : string) : option FileMode :=
  if String.eqb text "100644" then Some RegularFile
  else if String.eqb text "100755" then Some ExecutableFile
  else if String.eqb text "120000" then Some SymbolicLink else None.

(** [if (value)]. *)
Definition is_truthy (v : option json) : bool :=
  match v with
  | None | Some JNull | Some (JBool false) => false
  | Some (JNumber n) => negb (n =? 0)
  | Some (JString s) => negb (String.eqb s "")
  | Some _ => true
  end.

Section Changes.
(** [String(value)] of a value that is no text. *)
Context (to_text : json → string).

(** [String(value ?? '')]. *)
Definition text_or_empty (v : option json) : string :=
  match v with
  | None | Some JNull => ""
  | Some (JString s) => s
  | Some v => to_text v
  end.

Definition deleted_with_mode (path : string) : raised := raised_plain (error_of
  ("Issue draft PR file change marked " +:+ path +:+ " deleted but also included a mode.")).
Definition unsupported_mode (path mode : string) : raised := raised_plain (error_of
  ("Issue draft PR file change has unsupported file mode for " +:+ path +:+ ": " +:+ mode)).

(** One turn of the loop: what [seen] and [normalizedChanges] become; the paths of the changes
    are those seen. *)
Definition normalize_change (changes : list FileChange) (item : json) : list FileChange + raised :=
  match item with
  | JObject _ | JArray _ =>
      match normalizePromotionFilePath (text_or_empty (json_get "path" item)) with
      | inr e => inr e
      | inl path =>
          if String.eqb path "" || existsb (String.eqb path) (change_path <$> changes) then inl changes
          else if bool_decide (json_get "status" item = Some (JString "deleted"))
          then if is_truthy (json_get "mode" item) then inr (deleted_with_mode path)
               else inl (changes ++ [Deleted path])
          else
            let content := match json_get "content" item with Some (JString s) => Some s | _ => None end in
            let content_encoding :=
              if bool_decide (json_get "content_encoding" item = Some (JString "base64")) then Some Base64
              else if bool_decide (json_get "content_encoding" item = Some (JString "utf-8")) then Some Utf8 else None in
            let rawMode := trim (text_or_empty (json_get "mode" item)) in
            let mode := fileMode rawMode in
            if negb (String.eqb rawMode "") && is_null mode then inr (unsupported_mode path rawMode)
            else match content, content_encoding with
                 | Some content, Some content_encoding => inl (changes ++ [Upsert path content content_encoding mode])
                 | _, _ => inl changes
                 end
      end
  | _ => inl changes
  end.

Fixpoint normalize_changes (changes : list FileChange) (items : list json) : list FileChange + raised :=
  match items with
  | [] => inl changes
  | item :: rest => match normalize_change changes item with
                    | inl changes' => normalize_changes changes' rest
                    | inr e => inr e
                    end
  end.

Definition normalizePublishableFileChanges (file_changes : option json) : list FileChange + raised :=
  match file_changes with Some (JArray items) => normalize_changes [] items | _ => inl [] end.
End Changes.

(** * Git data *)

Record git_commit := { gc_tree : string; gc_parents : list string }.
#[export] Instance git_commit_eq_dec : EqDecision git_commit.
Proof. solve_decision. Defined.

(** A blob in a tree, or the path that is taken out of it. *)
Record DraftTreeElement := { el_path : string; el_mode : FileMode; el_sha : option string }.

Record draft_pull := { dp_number : Z; dp_html_url : string; dp_title : string; dp_body : option string }.

Record pull_request := { pq_title : string; pq_head : string; pq_base : string; pq_body : string }.

Class GitData (G : Type) := {
  defaultBranch : repo_ref → G → outcome_of (option string);
  branchHead : repo_ref → string → G → outcome_of (option string);
  listPulls : repo_ref → string → G → outcome_of (list draft_pull); (** the open ones from a branch of the owner *)
  getCommit : repo_ref → string → G → outcome_of git_commit;
  createBlob : repo_ref → string → TextEncoding → G → outcome_of string * G;
  createTree : repo_ref → string → list DraftTreeElement → G → outcome_of string * G;
  createCommit : repo_ref → string → string → list string → G → outcome_of string * G;
  createRef : repo_ref → string → string → G → outcome_of unit * G;
  getRef : repo_ref → string → G → outcome_of string;
  createPull : repo_ref → pull_request → G → outcome_of draft_pull * G; (** a draft *)
}.

(** What Git and the documentation promise.  The name of a blob, a tree or a commit is
    derived from what it is, so a name stands for one object forever.  A reference is created
    where there is none, with the commit it was asked for, or nothing changes; it was created
    when the request is answered.  A request for a pull request opens one from its branch at
    most, one when it is answered.  Nothing else moves branches or opens pull requests. *)
Class GitDataLaws (G : Type) `{GitData G} := {
  branch_at : repo_ref → string → G → option string;
  open_pulls : repo_ref → string → G → list draft_pull;
  commit_named : string → git_commit;
  blob_of : string → TextEncoding → string;
  tree_of : string → list DraftTreeElement → string;
  same_refs g g' := ∀ r b, branch_at r b g' = branch_at r b g ∧ open_pulls r b g' = open_pulls r b g;
  listPulls_open r b g l : listPulls r b g = inl l → head l = head (open_pulls r b g);
  getCommit_named r s g c : getCommit r s g = inl c → c = commit_named s;
  getRef_at r b g s : getRef r b g = inl s → branch_at r b g = Some s;
  createBlob_names r c e g res g' :
    createBlob r c e g = (res, g') → same_refs g g' ∧ ∀ s, res = inl s → s = blob_of c e;
  createTree_names r base els g res g' :
    createTree r base els g = (res, g') → same_refs g g' ∧ ∀ s, res = inl s → s = tree_of base els;
  createCommit_names r message tree parents g res g' :
    createCommit r message tree parents g = (res, g') →
    same_refs g g' ∧ ∀ s, res = inl s → commit_named s = {| gc_tree := tree; gc_parents := parents |};
  createRef_once r b s g res g' :
    createRef r b s g = (res, g') →
    (∀ r' b', open_pulls r' b' g' = open_pulls r' b' g)
    ∧ (∀ r' b', branch_at r' b' g' = branch_at r' b' g
                ∨ r' = r ∧ b' = b ∧ branch_at r b g = None ∧ branch_at r b g' = Some s)
    ∧ (res = inl tt → branch_at r b g' = Some s);
  createPull_opens r q g res g' :
    createPull r q g = (res, g') →
    (∀ r' b', branch_at r' b' g' = branch_at r' b' g)
    ∧ (∀ r' b', open_pulls r' b' g' = open_pulls r' b' g ∨ r' = r ∧ b' = pq_head q)
    ∧ ∃ opened, open_pulls r (pq_head q) g' = open_pulls r (pq_head q) g ++ opened ∧ (length opened <= 1)%nat
        ∧ ∀ p, res = inl p → opened = [p];
}.

(** * The protocol (draft-pull-request.ts) *)

Section Drafts.
Context {G : Type} `{GitData G}.
Context (env : nat → G * run_rows → G * run_rows).

Definition isBranchAlreadyExists (error : thrown_error) : bool :=
  if negb (bool_decide (te_status error = Some 422)) then false
  else includes "already exists" (toLowerCase (default "" (te_response_message error))).

Record DraftPullRequestPlan := {
  pl_branch_name : string;
  pl_head_sha : string;
  pl_base_branch : string;
  pl_title : string;
  pl_body : string;
  pl_commit_message : string;
  pl_build_tree : act G (list DraftTreeElement);
  pl_empty_tree_message : string;
  pl_mismatch_message : string;
}.

Record PublishedDraftPullRequest := {
  pd_branch_name : string;
  pd_title : string;
  pd_body : string;
  pd_html_url : string;
  pd_number : Z;
  pd_reused : bool;
}.

(** [DeterministicExecutionPublishError]. *)
Definition deterministic_error (message : string) : raised := raised_plain {|
  te_claim_lost := false; te_deterministic := true; te_code := Some "EXECUTION_PUBLISH_NON_RETRYABLE";
  te_status := None; te_message := message; te_retry_after := None; te_rate_remaining := None;
  te_response_message := None |}.

(** The branch that exists carries this result. *)
Definition verify_branch (assert : act G unit) (repo : repo_ref) (plan : DraftPullRequestPlan) (tree_sha : string) : act G unit :=
  assert ;;>
  await existing_sha := remote_get env (getRef repo (pl_branch_name plan)) in
  await existing_commit := remote_get env (getCommit repo existing_sha) in
  if negb (String.eqb (gc_tree existing_commit) tree_sha)
     || negb (bool_decide (gc_parents existing_commit = [pl_head_sha plan]))
  then raise (deterministic_error (pl_mismatch_message plan))
  else pure tt.

Definition create_branch (assert : act G unit) (repo : repo_ref) (plan : DraftPullRequestPlan) (tree_sha commit_sha : string) :
    act G unit :=
  catch
    (assert ;;> remote_post env (createRef repo (pl_branch_name plan) commit_sha))
    (λ e, if negb (isBranchAlreadyExists (ra_error e)) then raise e else verify_branch assert repo plan tree_sha).

Definition publishDraftPullRequest (assert : act G unit) (repo : repo_ref) (plan : DraftPullRequestPlan) :
    act G PublishedDraftPullRequest :=
  await existing := remote_get env (listPulls repo (pl_branch_name plan)) in
  match existing with
  | p :: _ =>
      pure {| pd_branch_name := pl_branch_name plan; pd_title := dp_title p;
              pd_body := default (pl_body plan) (dp_body p); pd_html_url := dp_html_url p;
              pd_number := dp_number p; pd_reused := true |}
  | [] =>
      await head_commit := remote_get env (getCommit repo (pl_head_sha plan)) in
      await tree := pl_build_tree plan in
      if bool_decide (tree = []) then raise (raised_plain (error_of (pl_empty_tree_message plan)))
      else
        assert ;;>
        await tree_sha := remote_post env (createTree repo (gc_tree head_commit) tree) in
        assert ;;>
        await commit_sha := remote_post env (createCommit repo (pl_commit_message plan) tree_sha [pl_head_sha plan]) in
        create_branch assert repo plan tree_sha commit_sha ;;>
        assert ;;>
        await p := remote_post env (createPull repo
          {| pq_title := pl_title plan; pq_head := pl_branch_name plan; pq_base := pl_base_branch plan; pq_body := pl_body plan |}) in
        pure {| pd_branch_name := pl_branch_name plan; pd_title := pl_title plan; pd_body := pl_body plan;
                pd_html_url := dp_html_url p; pd_number := dp_number p; pd_reused := false |}
  end.

(** [buildTreeElementsFromFileChanges], and [buildTreeElements], which checks each path again. *)
Fixpoint buildTreeElements (check_path : string → string + raised) (assert : act G unit) (repo : repo_ref)
    (file_changes : list FileChange) : act G (list DraftTreeElement) :=
  match file_changes with
  | [] => pure []
  | change :: rest =>
      await filePath := computed (check_path (change_path change)) in
      match change with
      | Deleted _ =>
          await elements := buildTreeElements check_path assert repo rest in
          pure ({| el_path := filePath; el_mode := RegularFile; el_sha := None |} :: elements)
      | Upsert _ content content_encoding mode =>
          assert ;;>
          await sha := remote_post env (createBlob repo content content_encoding) in
          await elements := buildTreeElements check_path assert repo rest in
          pure ({| el_path := filePath; el_mode := default RegularFile mode; el_sha := Some sha |} :: elements)
      end
  end.

(** * Issues (default-branch-service.ts, reviews/issues/draft-pr.ts) *)

Definition empty_answer (what : string) : raised := raised_plain (error_of ("GitHub returned an empty " +:+ what)).

Record TrustedDefaultBranch := { tb_default_branch : string; tb_head_sha : string }.

Definition repo_text (repo : repo_ref) : string := owner_login repo +:+ "/" +:+ repo_name repo.

Definition resolveTrustedDefaultBranch (repo : repo_ref) : act G TrustedDefaultBranch :=
  await name := remote_get env (defaultBranch repo) in
  let default_branch := trim (default "" name) in
  if String.eqb default_branch ""
  then raise (empty_answer ("default branch for " +:+ repo_text repo +:+ "."))
  else
    await sha := remote_get env (branchHead repo default_branch) in
    let head_sha := trim (default "" sha) in
    if String.eqb head_sha ""
    then raise (empty_answer ("head SHA for " +:+ repo_text repo +:+ "@" +:+ default_branch +:+ "."))
    else pure {| tb_default_branch := default_branch; tb_head_sha := head_sha |}.

(** The fields of a review record that decide about a draft, of a record that is there. *)
Record IssueReviewRecord := {
  ir_file_changes : list json;
  ir_coverage : option string;
  ir_regression : option string;
  ir_next_step : option string;
}.

Definition hasReviewRecordPatchReadyForPromotion (r : IssueReviewRecord) : bool :=
  Nat.ltb 0 (length (ir_file_changes r)) && opt_eqb (ir_coverage r) (Some "full")
  && existsb (String.eqb (default "" (ir_regression r))) ["passed"; "not-run"; "not-applicable"]
  && opt_eqb (ir_next_step r) (Some "none").

Record IssueContext := { ix_repo : repo_ref; ix_number : Z; ix_title : option string }.

Definition buildDraftPullRequestTitleFromReviewRecord (issue : IssueContext) : string :=
  "[sec] " +:+ match ix_title issue with
               | Some title => if blank title then "Mitigate security issue #" +:+ pretty (ix_number issue) else trim title
               | None => "Mitigate security issue #" +:+ pretty (ix_number issue)
               end.

Section Issue.
Context (to_text : json → string).
(** [buildDraftPullRequestBodyFromReviewRecord]. *)
Context (render_body : IssueContext → IssueReviewRecord → string).

Definition issue_plan (assert : act G unit) (issue : IssueContext) (run_id workspace_ref base : string)
    (file_changes : list FileChange) (r : IssueReviewRecord) : DraftPullRequestPlan := {|
  pl_branch_name := buildDraftBranchName (ix_number issue) run_id;
  pl_head_sha := workspace_ref;
  pl_base_branch := base;
  pl_title := buildDraftPullRequestTitleFromReviewRecord issue;
  pl_body := render_body issue r;
  pl_commit_message := "Mitigate issue #" +:+ pretty (ix_number issue);
  pl_build_tree := buildTreeElements inl assert (ix_repo issue) file_changes;
  pl_empty_tree_message := "Draft PR creation requires at least one changed file.";
  pl_mismatch_message := "Existing draft PR branch does not match the validated result for run " +:+ run_id +:+ "." |}.

Definition createDraftPullRequestFromIssueReviewRecord (assert : act G unit) (issue : IssueContext)
    (run_id workspace_ref : string) (r : IssueReviewRecord) : act G (option PublishedDraftPullRequest) :=
  if negb (hasReviewRecordPatchReadyForPromotion r) then pure None
  else
    await file_changes := computed (normalizePublishableFileChanges to_text (Some (JArray (ir_file_changes r)))) in
    await trusted := resolveTrustedDefaultBranch (ix_repo issue) in
    await published := publishDraftPullRequest assert (ix_repo issue)
      (issue_plan assert issue run_id workspace_ref (tb_default_branch trusted) file_changes r) in
    pure (Some published).
End Issue.

(** * Deliveries (reviews/repositories/delivery-draft-pr.ts, delivery-title.ts) *)

Record RepositoryDelivery := {
  rd_delivery_id : string;
  rd_case_ids : list string;
  rd_case_count : Z;
  rd_file_changes : list FileChange;
}.

(** [fileChangePaths]. *)
Definition fileChangePaths (file_changes : list FileChange) : list string :=
  distinct_texts (List.filter (λ path, negb (String.eqb path "")) (trim ∘ change_path <$> file_changes)).

(** [s.endsWith(tail)]. *)
Definition ends_with (tail s : string) : bool :=
  Nat.leb (String.length tail) (String.length s)
  && String.eqb (slice (String.length s - String.length tail) s) tail.

(** Both other names end so, too. *)
Definition isDocumentationPath (value : string) : bool :=
  let lower := toLowerCase value in
  String.eqb lower "readme.md" || ends_with "/readme.md" lower || ends_with ".md" lower.

Definition primaryFileForDeliveryTitle (delivery : RepositoryDelivery) : string :=
  let changed_files := fileChangePaths (rd_file_changes delivery) in
  match List.find (λ item, negb (isDocumentationPath item)) changed_files with
  | Some item => item
  | None => default "" (head changed_files)
  end.

Definition deliveryTitleSuffix (delivery : RepositoryDelivery) : string :=
  let disambiguator := default (rd_delivery_id delivery) (head (rd_case_ids delivery)) in
  if rd_case_count delivery <=? 1
  then if String.eqb disambiguator "" then "" else " (" +:+ disambiguator +:+ ")"
  else
    let related_count := rd_case_count delivery - 1 in
    let related := "+" +:+ pretty related_count +:+ " related case" +:+ (if related_count =? 1 then "" else "s") in
    " (" +:+ (if String.eqb disambiguator "" then related else disambiguator +:+ " " +:+ related) +:+ ")".

Definition buildDeliveryDraftPrTitle (delivery : RepositoryDelivery) : string :=
  let primaryFile := primaryFileForDeliveryTitle delivery in
  let suffix := deliveryTitleSuffix delivery in
  if String.eqb primaryFile "" then "[sec] Repository security mitigation" +:+ suffix
  else "[sec] Fix security issue in " +:+ primaryFile +:+ suffix.

Definition strip_tag (title : string) : string :=
  if String.prefix "[sec]" (toLowerCase title) then trim_start 0 (slice 5 title) else title.

Definition buildRepositorySecurityDeliveryCommitMessage (delivery : RepositoryDelivery) : string :=
  let title := trim (buildDeliveryDraftPrTitle delivery) in
  let normalizedTitle := trim (collapse_blanks false 0 (strip_tag title)) in
  if String.eqb normalizedTitle "" then "sec: apply security mitigation"
  else if String.prefix "sec:" (toLowerCase normalizedTitle) then normalizedTitle
  else "sec: " +:+ normalizedTitle.

Definition normalizeTargetBranch (value : option string) : string :=
  let raw := trim (default "" value) in
  if String.prefix "refs/heads/" raw then slice 11 raw else raw.

Section Delivery.
(** The SHA-256 of a text in hexadecimal digits. *)
Context (sha256 : string → string).
(** [buildDeliveryDraftPrBody]. *)
Context (render_body : RepositoryDelivery → string).

Definition or_unknown (s : string) : string := if String.eqb s "" then "unknown" else s.

Definition stableBranchSegment (value : string) : string :=
  let raw := or_unknown (trim value) in
  let readable := or_unknown (String.substring 0 48
    (map_chars (λ a, if is_slash a then hyphen else a) (sanitizeBranchSegment raw))) in
  readable +:+ "-" +:+ String.substring 0 12 (sha256 raw).

Definition buildRepositoryDeliveryBranchName (run_id : string) (delivery : RepositoryDelivery) : string :=
  "sec-review-bot/repo-scan/" +:+ stableBranchSegment run_id +:+ "/" +:+ stableBranchSegment (rd_delivery_id delivery).

(** [validateDeliveryFileChangePaths]. *)
Fixpoint validateDeliveryFileChangePaths (file_changes : list FileChange) : unit + raised :=
  match file_changes with
  | [] => inl tt
  | change :: rest =>
      match validateContractPublishableRepoRelativePath (change_path change) with
      | inl _ => validateDeliveryFileChangePaths rest
      | inr e => inr e
      end
  end.

Definition delivery_plan (assert : act G unit) (repo : repo_ref) (run_id workspace_ref : string)
    (target_branch : option string) (default_branch : string) (delivery : RepositoryDelivery) : DraftPullRequestPlan := {|
  pl_branch_name := buildRepositoryDeliveryBranchName run_id delivery;
  pl_head_sha := workspace_ref;
  pl_base_branch := (let target := normalizeTargetBranch target_branch in
                     if String.eqb target "" then default_branch else target);
  pl_title := buildDeliveryDraftPrTitle delivery;
  pl_body := render_body delivery;
  pl_commit_message := buildRepositorySecurityDeliveryCommitMessage delivery;
  pl_build_tree := buildTreeElements validateContractPublishableRepoRelativePath assert repo (rd_file_changes delivery);
  pl_empty_tree_message := "Repository security delivery requires at least one changed file.";
  pl_mismatch_message := "Existing delivery draft PR branch does not match the validated result for "
                         +:+ rd_delivery_id delivery +:+ "." |}.

Definition createRepositoryDeliveryDraftPr (assert : act G unit) (repo : repo_ref) (run_id workspace_ref : string)
    (target_branch : option string) (default_branch : string) (delivery : RepositoryDelivery) :
    act G PublishedDraftPullRequest :=
  computed (validateDeliveryFileChangePaths (rd_file_changes delivery)) ;;>
  publishDraftPullRequest assert repo
    (delivery_plan assert repo run_id workspace_ref target_branch default_branch delivery).
End Delivery.
End Drafts.
Arguments DraftPullRequestPlan : clear implicits.
