(* ===== verification/DraftNames.v ===== *)
(** What a draft pull request is called and what it touches: the paths of its changes are safe, and
    the names of its branches are references of one run. *)

From stdpp Require Import pretty.
From S2P Require Import Prelude Schema Tables Database ConnectorErrors ConnectorSteps Actions GitHub NoticeProperties.
From S2P Require Import Suggestions DraftPulls.

(** * Paths *)

(** Where a path leads from the root of a repository, if it stays inside of it. *)
Fixpoint walk (at_ parts : list string) : option (list string) :=
  match parts with
  | [] => Some (rev at_)
  | part :: rest =>
      if String.eqb part "" || String.eqb part "." then walk at_ rest
      else if String.eqb part ".."
      then match at_ with [] => None | _ :: up => walk up rest end
      else walk (part :: at_) rest
  end.

Definition leads_to (path : string) : option (list string) := walk [] (split_on slash path).

(** Nothing of Git itself, nothing that controls the repository. *)
Definition harmless (place : list string) : Prop :=
  (".git" ∉ place) ∧ (place ∉ [["CODEOWNERS"]; [".github"; "CODEOWNERS"]; ["docs"; "CODEOWNERS"]])
  ∧ ¬ prefix [".github"; "workflows"] place.

Definition safe_path (path : string) : Prop := ∃ place, leads_to path = Some place ∧ place ≠ [] ∧ harmless place.

Lemma walk_plain at_ parts :
  existsb (λ part, String.eqb part "" || String.eqb part "." || String.eqb part "..") parts = false →
  walk at_ parts = Some (rev at_ ++ parts).
Proof.
  revert at_. induction parts as [|p parts IH]; intros at_; simpl; [by rewrite app_nil_r|].
  intros [[[-> ->]%orb_false_iff ->]%orb_false_iff Hr]%orb_false_iff. simpl. rewrite IH by done. simpl. by rewrite <- app_assoc.
Qed.

Lemma split_cons_not_nil sep s : split_on sep s ≠ [].
Proof. destruct s as [|a s]; [done|]. cbn [split_on]. destruct (Ascii.eqb a sep); [done|]. by destruct (split_on sep s). Qed.

Lemma concat_split s : String.concat (String slash "") (split_on slash s) = s.
Proof.
  induction s as [|a s IH]; [done|]. cbn [split_on]. pose proof (split_cons_not_nil slash s) as Hne.
  destruct (Ascii.eqb_spec a slash) as [->|_].
  - destruct (split_on slash s) as [|w ws] eqn:Hs; [done|].
    change (String slash (String.concat (String slash "") (w :: ws)) = String slash s). by rewrite IH.
  - destruct (split_on slash s) as [|w [|w' ws]] eqn:Hs; [done|by rewrite <- IH|].
    change (String a (String.concat (String slash "") (w :: w' :: ws)) = String a s). by rewrite IH.
Qed.

Lemma insensitive_place path : isSensitivePath path = false →
  (split_on slash path ∉ [["CODEOWNERS"]; [".github"; "CODEOWNERS"]; ["docs"; "CODEOWNERS"]])
  ∧ ¬ prefix [".github"; "workflows"] (split_on slash path).
Proof.
  intros Hs. rewrite <- (concat_split path) in Hs. split.
  - intros Hin. repeat (apply elem_of_cons in Hin as [Hin|Hin]; [by rewrite Hin in Hs|]). by apply not_elem_of_nil in Hin.
  - intros [rest Hr]. rewrite Hr in Hs. destruct rest as [|w ws]; [done|].
    assert (Hp : String.prefix ".github/workflows/" (String.concat (String slash "") ([".github"; "workflows"] ++ w :: ws)) = true).
    { change (String.prefix ".github/workflows/" (".github/workflows/" +:+ String.concat (String slash "") (w :: ws)) = true). apply prefix_app. }
    unfold isSensitivePath in Hs. by rewrite Hp, !orb_true_r in Hs.
Qed.

Lemma accepted_path value path :
  refuse_sensitive (validateRepoRelativePathShape value) = inl path → path = value ∧ safe_path path.
Proof.
  unfold validateRepoRelativePathShape. destruct (_ || _) eqn:Hshape; [done|]. destruct (existsb (String.eqb ".git") _) eqn:Hgit; [done|].
  cbn [refuse_sensitive]. destruct (isSensitivePath value) eqn:Hs; [done|]. intros [= <-]. split; [done|].
  apply orb_false_iff in Hshape as [_ Hparts]. exists (split_on slash value). split; [by apply (walk_plain [])|].
  split; [apply split_cons_not_nil|]. split; [|by apply insensitive_place].
  intros Hin%list_elem_of_In. assert (Ht : existsb (String.eqb ".git") (split_on slash value) = true); [|congruence].
  apply existsb_exists. by exists ".git".
Qed.

Lemma promoted_path filePath path : normalizePromotionFilePath filePath = inl path → path = "" ∨ safe_path path.
Proof.
  unfold normalizePromotionFilePath, validateRepoRelativePath. destruct (String.eqb _ ""); [intros [= <-]; by left|].
  destruct (String.eqb _ _); [intros [= <-]; by left|]. destruct (String.prefix _ _); intros [_ Hs]%accepted_path; by right.
Qed.

Lemma normalized_changes to_text items : ∀ changes changes',
  normalize_changes to_text changes items = inl changes' →
  NoDup (change_path <$> changes) → Forall (λ c, safe_path (change_path c)) changes →
  NoDup (change_path <$> changes') ∧ Forall (λ c, safe_path (change_path c)) changes'.
Proof.
  induction items as [|item items IH]; intros changes changes'; cbn [normalize_changes]; [by intros [= <-]|].
  destruct (normalize_change to_text changes item) as [changes1|] eqn:H1; [|done]. intros Hrest Hnd Hsafe.
  assert (Hstep : NoDup (change_path <$> changes1) ∧ Forall (λ c, safe_path (change_path c)) changes1); [|by eapply IH; [done|apply Hstep..]].
  assert (Hone : ∀ path, normalizePromotionFilePath (text_or_empty to_text (json_get "path" item)) = inl path →
    String.eqb path "" || existsb (String.eqb path) (change_path <$> changes) = false →
    ∀ c, change_path c = path → NoDup (change_path <$> (changes ++ [c])) ∧ Forall (λ c, safe_path (change_path c)) (changes ++ [c])).
  { intros path Hp [He Hnew]%orb_false_iff c Hc. split.
    - rewrite fmap_app. apply NoDup_app. split; [done|]. split; [|apply NoDup_singleton]. intros x Hx ->%list_elem_of_singleton.
      rewrite Hc in Hx. assert (Ht : existsb (String.eqb path) (change_path <$> changes) = true); [|congruence].
      apply existsb_exists. exists path. split; [by apply list_elem_of_In|apply String.eqb_refl].
    - apply Forall_app. split; [done|]. apply Forall_singleton. rewrite Hc.
      destruct (promoted_path _ _ Hp) as [->|Hs]; [done|exact Hs]. }
  revert H1. unfold normalize_change. destruct item as [| | | |l|f]; try (by intros [= <-]).
  all: destruct (normalizePromotionFilePath _) as [path|] eqn:Hp; [|done]; specialize (Hone path eq_refl).
  all: destruct (_ || _) eqn:Hnew; [by intros [= <-]|]; specialize (Hone eq_refl).
  all: destruct (bool_decide _); [destruct (is_truthy _); [done|]; intros [= <-]; by apply Hone|]; cbn zeta.
  all: destruct (_ && _); [done|]; repeat case_match; intros [= <-]; try done; by apply Hone.
Qed.

Lemma validated_changes changes :
  validateDeliveryFileChangePaths changes = inl tt → Forall (λ c, safe_path (change_path c)) changes.
Proof.
  induction changes as [|c changes IH]; cbn [validateDeliveryFileChangePaths]; [by constructor|].
  unfold validateContractPublishableRepoRelativePath. destruct (refuse_sensitive _) as [path|] eqn:Hp; [|done].
  intros Hr. constructor; [|by apply IH]. by apply accepted_path in Hp as [-> Hs].
Qed.

(** C20: no pull request changes a file it must not: every path of a change that is published
    leads, from the root of the repository, to a file inside of it, that is not part of Git's
    own data, and is none of the files and no part of the directory that control what the
    repository runs and who reviews it; the changes of an issue have one path each; and of a
    delivery with any other path nothing at all is sent to GitHub. *)
Theorem published_paths_are_safe {G : Type} `{GitData G} to_text file_changes env sha256 render_body (assert : act G unit) repo run_id
    workspace_ref target_branch default_branch delivery (w : world G) :
  (∀ changes, normalizePublishableFileChanges to_text file_changes = inl changes →
     NoDup (change_path <$> changes) ∧ Forall (λ c, safe_path (change_path c)) changes)
  ∧ (Forall (λ c, safe_path (change_path c)) (rd_file_changes delivery)
     ∨ ∃ e, createRepositoryDeliveryDraftPr env sha256 render_body assert repo run_id workspace_ref target_branch default_branch delivery w
            = Some (inr e, w)).
Proof.
  split.
  - intros changes. unfold normalizePublishableFileChanges.
    assert (Hnil : NoDup (change_path <$> ([] : list FileChange)) ∧ Forall (λ c, safe_path (change_path c)) []) by by split; constructor.
    destruct file_changes as [[]|]; try (by intros [= <-]). intros Hn. by eapply normalized_changes; [exact Hn|apply Hnil..].
  - destruct (validateDeliveryFileChangePaths (rd_file_changes delivery)) as [[]|e] eqn:Hv; [left; by apply validated_changes|].
    right. exists e. unfold createRepositoryDeliveryDraftPr. by rewrite Hv.
Qed.

(** * Branches *)

(** What [git check-ref-format] asks of the name of a branch. *)
Definition ref_char (a : Ascii.ascii) : bool :=
  let n := Ascii.N_of_ascii a in
  (32 <? n)%N && negb (n =? 127)%N && negb (existsb (N.eqb n) [126; 94; 58; 63; 42; 91; 92]%N).

Definition valid_ref (name : string) : bool :=
  all_chars ref_char name
  && forallb (λ part, negb (String.eqb part "") && negb (String.prefix "." part) && negb (ends_with ".lock" part)) (split_on slash name)
  && negb (includes ".." name) && negb (includes "@{" name) && negb (ends_with "." name) && negb (String.eqb name "@").

Lemma chars_app p a b : all_chars p (a +:+ b) = all_chars p a && all_chars p b.
Proof. induction a as [|x a IH]; [done|]. change (p x && all_chars p (a +:+ b) = p x && all_chars p a && all_chars p b). by rewrite IH, andb_assoc. Qed.

Lemma chars_impl (p q : Ascii.ascii → bool) s : (∀ a, p a = true → q a = true) → all_chars p s = true → all_chars q s = true.
Proof. intros Hpq. induction s as [|a s IH]; [done|]. simpl. intros [Ha Hs]%andb_true_iff. by rewrite (Hpq a Ha), IH. Qed.

Lemma chars_split p sep s : all_chars p s = true → Forall (λ w, all_chars p w = true) (split_on sep s).
Proof.
  induction s as [|a s IH]; [by repeat constructor|]. cbn [all_chars split_on]. intros [Ha Hs]%andb_true_iff. specialize (IH Hs).
  destruct (Ascii.eqb a sep); [by constructor|]. destruct (split_on sep s) as [|w ws]; [simpl; repeat constructor; simpl; by rewrite Ha|].
  inversion IH; subst. constructor; [|done]. simpl. by rewrite Ha.
Qed.

(** A text of such characters has no place for another one. *)
Lemma foreign_prefix p a t s : p a = false → all_chars p s = true → String.prefix (String a t) s = false.
Proof.
  intros Ha. destruct s as [|b s]; [done|]. simpl. intros [Hb _]%andb_true_iff. destruct (Ascii.ascii_dec a b) as [->|]; [congruence|done].
Qed.

Lemma foreign_includes p a t s : p a = false → all_chars p s = true → includes (String a t) s = false.
Proof.
  intros Ha. induction s as [|b s IH]; intros Hs; cbn [includes]; [done|].
  rewrite (foreign_prefix p) by done. simpl in Hs. apply andb_true_iff in Hs as [_ Hs]. simpl. by apply IH.
Qed.

Lemma chars_substring p n k s : all_chars p s = true → all_chars p (String.substring n k s) = true.
Proof.
  revert n k. induction s as [|a s IH]; intros [|n] [|k]; simpl; try done; intros [Ha Hs]%andb_true_iff; [by rewrite Ha, IH|by apply IH..].
Qed.

Lemma foreign_end p a t s : p a = false → all_chars p s = true → ends_with (String a t) s = false.
Proof.
  intros Ha Hs. unfold ends_with. apply andb_false_iff. right. apply String.eqb_neq. intros Heq.
  assert (Hp : all_chars p (String a t) = true) by (rewrite <- Heq; by apply chars_substring). simpl in Hp. by rewrite Ha in Hp.
Qed.

Lemma segment_ref_char a : segment_char a = true → ref_char a = true.
Proof. destruct a as [[] [] [] [] [] [] [] []]; vm_compute; done. Qed.

(** ** Slashes *)

Definition starts_slash (s : string) : bool := match s with String a _ => is_slash a | _ => false end.
Definition ends_slash (s : string) : bool := match last_char s with Some a => is_slash a | None => false end.

(** No two slashes meet. *)
Fixpoint apart (s : string) : bool :=
  match s with
  | EmptyString => true
  | String a s' => negb (is_slash a && starts_slash s') && apart s'
  end.

Lemma parts_of s : apart s = true → ends_slash s = false → s ≠ "" →
  ∃ w ws, split_on slash s = w :: ws ∧ (starts_slash s = false → w ≠ "") ∧ Forall (λ w, w ≠ "") ws.
Proof.
  induction s as [|a s IH]; [done|]. cbn [apart starts_slash split_on]. intros [Hm Ha]%andb_true_iff He _.
  change (Ascii.eqb a slash) with (is_slash a). destruct s as [|b s'].
  { unfold ends_slash in He. simpl in He. rewrite He. simpl. by eexists _, []. }
  destruct IH as (w & ws & -> & Hw & Hws); [done|exact He|done|]. destruct (is_slash a) eqn:Hsl.
  - exists "", (w :: ws). split; [done|]. split; [done|]. constructor; [|done]. apply Hw. by destruct (starts_slash _).
  - by exists (String a w), ws.
Qed.

Lemma all_parts s : apart s = true → starts_slash s = false → ends_slash s = false → s ≠ "" →
  Forall (λ w, w ≠ "") (split_on slash s).
Proof. intros Ha Hs He Hn. destruct (parts_of s Ha He Hn) as (w & ws & -> & Hw & Hws). constructor; [by apply Hw|done]. Qed.

Lemma apart_app a b : apart a = true → apart b = true → ends_slash a && starts_slash b = false → apart (a +:+ b) = true.
Proof.
  induction a as [|x a IH]; [done|]. change (String x a +:+ b) with (String x (a +:+ b)). cbn [apart]. intros [Hm Ha]%andb_true_iff Hb He.
  destruct a as [|y a].
  - unfold ends_slash in He. simpl in He. change ("" +:+ b) with b. by rewrite He, Hb.
  - rewrite IH by done. change (starts_slash (String y a +:+ b)) with (starts_slash (String y a)). by rewrite Hm.
Qed.

Lemma last_app a b : b ≠ "" → last_char (a +:+ b) = last_char b.
Proof.
  intros Hb. induction a as [|x a IH]; [done|]. change (String x a +:+ b) with (String x (a +:+ b)). cbn [last_char].
  destruct (a +:+ b) as [|y t] eqn:Hab; [by destruct a|exact IH].
Qed.

(** A name of the characters of a segment, in parts. *)
Lemma segment_ref s : all_chars segment_char s = true → apart s = true → starts_slash s = false → ends_slash s = false → s ≠ "" →
  valid_ref s = true.
Proof.
  intros Hc Ha Hs He Hn. unfold valid_ref. rewrite (chars_impl _ _ _ segment_ref_char Hc).
  rewrite !(foreign_includes segment_char), (foreign_end segment_char) by done.
  destruct (String.eqb_spec s "@") as [->|_]; [discriminate Hc|]. rewrite !andb_true_r. apply forallb_forall.
  intros w Hw%list_elem_of_In. pose proof (proj1 (Forall_forall _ _) (chars_split _ slash _ Hc) w Hw) as Hwc.
  pose proof (proj1 (Forall_forall _ _) (all_parts s Ha Hs He Hn) w Hw) as Hne. apply String.eqb_neq in Hne. rewrite Hne.
  by rewrite (foreign_prefix segment_char), (foreign_end segment_char).
Qed.

(** ** Segments *)

Lemma runs_chars (p q : Ascii.ascii → bool) by_ s : q by_ = true →
  ∀ inside, (∀ a, p a = false → q a = true) ∨ all_chars q s = true → all_chars q (replace_runs p by_ inside s) = true.
Proof.
  intros Hby. induction s as [|a s IH]; intros inside Hq; [done|]. cbn [replace_runs].
  assert (Hs : (∀ a, p a = false → q a = true) ∨ all_chars q s = true).
  { destruct Hq as [Hq|Hq]; [by left|]. right. simpl in Hq. by apply andb_true_iff in Hq as [_ ?]. }
  destruct (p a) eqn:Ha.
  - destruct inside; [by apply IH|]. simpl. by rewrite Hby, IH.
  - simpl. rewrite IH, andb_true_r by done. destruct Hq as [Hq|Hq]; [by apply Hq|]. simpl in Hq. by apply andb_true_iff in Hq as [-> _].
Qed.

Lemma runs_apart s : ∀ inside,
  apart (replace_runs is_slash slash inside s) = true
  ∧ (inside = true → starts_slash (replace_runs is_slash slash inside s) = false).
Proof.
  induction s as [|a s IH]; intros inside; [done|]. cbn [replace_runs]. destruct (is_slash a) eqn:Ha.
  - destruct inside; [apply (IH true)|]. destruct (IH true) as [H1 H2]. split; [|done]. cbn [apart]. by rewrite H2, H1.
  - destruct (IH false) as [H1 _]. cbn [apart starts_slash]. by rewrite Ha, H1.
Qed.

Lemma start_chars p q s : all_chars q s = true → all_chars q (strip_start p s) = true.
Proof. induction s as [|a s IH]; [done|]. cbn [strip_start]. intros Hs. destruct (p a); [|done]. simpl in Hs. apply andb_true_iff in Hs as [_ Hs]. by apply IH. Qed.
Lemma start_apart p s : apart s = true → apart (strip_start p s) = true.
Proof. induction s as [|a s IH]; [done|]. cbn [strip_start]. intros Hs. destruct (p a); [|done]. cbn [apart] in Hs. apply andb_true_iff in Hs as [_ Hs]. by apply IH. Qed.
Lemma start_edge p s : match strip_start p s with String a _ => p a = false | _ => True end.
Proof. induction s as [|a s IH]; [done|]. cbn [strip_start]. by destruct (p a) eqn:Ha. Qed.

Lemma end_start p s : match strip_end p s, s with String a _, String b _ => a = b | String _ _, _ => False | _, _ => True end.
Proof. destruct s as [|a s]; [done|]. cbn [strip_end]. by destruct (all_chars p (String a s)). Qed.
Lemma end_chars p q s : all_chars q s = true → all_chars q (strip_end p s) = true.
Proof.
  induction s as [|a s IH]; [done|]. cbn [strip_end]. intros Hs. destruct (all_chars p (String a s)); [done|].
  simpl in Hs |- *. apply andb_true_iff in Hs as [-> Hs]. by apply IH.
Qed.
Lemma end_apart p s : apart s = true → apart (strip_end p s) = true.
Proof.
  induction s as [|a s IH]; [done|]. cbn [strip_end]. intros Hs. destruct (all_chars p (String a s)); [done|].
  cbn [apart] in Hs |- *. apply andb_true_iff in Hs as [Hm Hs]. rewrite IH, andb_true_r by done.
  pose proof (end_start p s) as He. destruct (strip_end p s) as [|b t]; [by rewrite andb_false_r|]. destruct s as [|b' s']; [done|]. by subst b'.
Qed.
Lemma end_edge p s : match last_char (strip_end p s) with Some a => p a = false | None => True end.
Proof.
  induction s as [|a s IH]; [done|]. cbn [strip_end]. destruct (all_chars p (String a s)) eqn:Hp; [done|].
  destruct (strip_end p s) as [|b t] eqn:Ht; [|exact IH]. simpl. simpl in Hp. destruct (p a) eqn:Ha; [|done].
  destruct s as [|b s']; [done|]. cbn [strip_end] in Ht. simpl in Hp. simpl in Ht. by rewrite Hp in Ht.
Qed.

Lemma sanitized v : let s := sanitizeBranchSegment v in
  all_chars segment_char s = true ∧ apart s = true ∧ starts_slash s = false ∧ ends_slash s = false.
Proof.
  unfold sanitizeBranchSegment. set (r1 := replace_runs (λ a, negb (segment_char a)) hyphen false (toLowerCase v)).
  set (r2 := replace_runs is_hyphen hyphen false r1). set (r3 := replace_runs is_slash slash false r2).
  assert (H1 : all_chars segment_char r1 = true) by (apply runs_chars; [done|left; intros a; by intros ?%negb_false_iff]).
  assert (H2 : all_chars segment_char r2 = true) by (apply runs_chars; [done|by right]).
  assert (H3 : all_chars segment_char r3 = true) by (apply runs_chars; [done|by right]).
  destruct (runs_apart r2 false) as [A3 _]. fold r3 in A3. set (t := strip_start segment_edge r3).
  pose proof (start_edge segment_edge r3) as E1. fold t in E1. split; [by apply end_chars, start_chars|]. split; [by apply end_apart, start_apart|]. split.
  - pose proof (end_start segment_edge t) as Hst. destruct (strip_end segment_edge t) as [|a u]; [done|]. destruct t as [|b t']; [done|]. subst b.
    simpl. unfold segment_edge in E1. by apply orb_false_iff in E1 as [_ ?].
  - pose proof (end_edge segment_edge t) as E2. unfold ends_slash. destruct (last_char _) as [a|]; [|done].
    unfold segment_edge in E2. by apply orb_false_iff in E2 as [_ ?].
Qed.

(** ** Numbers *)

Definition digit_char (a : Ascii.ascii) : bool := let n := Ascii.N_of_ascii a in ((48 <=? n) && (n <=? 57))%N.

Lemma digits_go x : ∀ s, all_chars digit_char s = true → all_chars digit_char (pretty_N_go x s) = true.
Proof.
  induction (N.lt_wf_0 x) as [x _ IH]; intros s Hs.
  assert (x = 0 ∨ 0 < x)%N as [->|Hx] by lia; [by rewrite pretty_N_go_0|].
  rewrite pretty_N_go_step by done. apply IH; [by apply N.div_lt|]. cbn [all_chars]. rewrite Hs, andb_true_r.
  unfold pretty_N_char. by repeat case_match.
Qed.

Lemma pretty_digits n : 0 <= n → all_chars digit_char (pretty n) = true.
Proof.
  destruct n as [|p|p]; [done| |lia]. intros _. change (all_chars digit_char (pretty (N.pos p)) = true).
  unfold pretty, pretty_N. destruct (decide _); [done|]. by apply digits_go.
Qed.

(** What comes before the first hyphen is told apart. *)
Lemma hyphen_split a b s t : all_chars digit_char a = true → all_chars digit_char b = true →
  a +:+ String hyphen s = b +:+ String hyphen t → a = b ∧ s = t.
Proof.
  revert b. induction a as [|x a IH]; intros [|y b]; simpl; intros Ha Hb Heq.
  - by injection Heq.
  - apply andb_true_iff in Hb as [Hy _]. change (String hyphen s = String y (b +:+ String hyphen t)) in Heq. injection Heq as <- _. discriminate Hy.
  - apply andb_true_iff in Ha as [Hx _]. change (String x (a +:+ String hyphen s) = String hyphen t) in Heq. injection Heq as -> _. discriminate Hx.
  - apply andb_true_iff in Ha as [_ Ha], Hb as [_ Hb].
    change (String x (a +:+ String hyphen s) = String y (b +:+ String hyphen t)) in Heq. injection Heq as -> Heq.
    by destruct (IH b Ha Hb Heq) as [-> ->].
Qed.

Definition plain_char (a : Ascii.ascii) : bool := segment_char a && negb (is_slash a).

Lemma plain_segment s : all_chars plain_char s = true →
  all_chars segment_char s = true ∧ apart s = true ∧ starts_slash s = false ∧ ends_slash s = false.
Proof.
  intros Hs. split; [by eapply chars_impl; [|exact Hs]; intros a [? _]%andb_true_iff|].
  induction s as [|a s IH]; [done|]. simpl in Hs. apply andb_true_iff in Hs as [[_ Ha%negb_true_iff]%andb_true_iff Hs].
  destruct (IH Hs) as (H1 & H2 & H3). cbn [apart starts_slash]. rewrite Ha, H1. split; [done|]. split; [done|].
  unfold ends_slash in *. destruct s as [|b s]; [done|exact H3].
Qed.

Lemma append_empty a : a +:+ "" = a.
Proof. induction a as [|x a IH]; [done|]. change (String x (a +:+ "") = String x a). by rewrite IH. Qed.

Lemma starts_app a b : a ≠ "" → starts_slash (a +:+ b) = starts_slash a.
Proof. by destruct a. Qed.

Lemma ends_app a b : b ≠ "" → ends_slash (a +:+ b) = ends_slash b.
Proof. intros Hb. unfold ends_slash. by rewrite last_app. Qed.

(** Part of a branch name: it neither begins nor ends with a slash. *)
Definition segment_ok (s : string) : Prop :=
  all_chars segment_char s = true ∧ apart s = true ∧ starts_slash s = false ∧ ends_slash s = false.

(** A text in front of such a part, that may end with a slash if the part is not empty. *)
Lemma segment_after pre s :
  all_chars segment_char pre = true → apart pre = true → starts_slash pre = false → pre ≠ "" →
  segment_ok s → (s = "" → ends_slash pre = false) → segment_ok (pre +:+ s).
Proof.
  intros Pc Pa Ps Pn (Sc & Sa & Ss & Se) Hem. split; [by rewrite chars_app, Pc, Sc|].
  split; [apply apart_app; [done|done|]; by rewrite Ss, andb_false_r|]. split; [by rewrite starts_app|].
  destruct s as [|a s]; [by rewrite append_empty, Hem|]. by rewrite ends_app.
Qed.

Lemma segment_ok_ref s : segment_ok s → s ≠ "" → valid_ref s = true.
Proof. intros (Hc & Ha & Hs & He) Hn. by apply segment_ref. Qed.

Lemma stable_plain sha256 v :
  (∀ s, all_chars plain_char (sha256 s) = true) → all_chars plain_char (stableBranchSegment sha256 v) = true ∧ stableBranchSegment sha256 v ≠ "".
Proof.
  intros Hsha. unfold stableBranchSegment.
  assert (Hr : ∀ s, all_chars plain_char s = true → all_chars plain_char (or_unknown s) = true) by (intros s Hs; unfold or_unknown; by destruct (String.eqb s "")).
  split.
  - rewrite !chars_app, (chars_substring _ _ _ _ (Hsha _)), andb_true_r. apply Hr, chars_substring.
    destruct (sanitized (or_unknown (trim v))) as [Hc _]. induction (sanitizeBranchSegment _) as [|a s IH]; [done|].
    simpl in Hc |- *. apply andb_true_iff in Hc as [Ha Hc]. rewrite IH, andb_true_r by done.
    unfold plain_char. destruct (is_slash a) eqn:Hsl; [done|]. by rewrite Ha, Hsl.
  - unfold or_unknown. destruct (String.eqb_spec (String.substring 0 48 (map_chars (λ a, if is_slash a then hyphen else a)
      (sanitizeBranchSegment (if String.eqb (trim v) "" then "unknown" else trim v)))) ""); [done|]. by destruct (String.substring _ _ _).
Qed.

(** C33: the branch of a result is one that Git accepts, whatever the ids say, and that of one run:
    the names of the branches of issues and of deliveries pass Git's check of references, for
    any run id and any delivery id; and the drafts of two issues or of two runs have two
    branches, for run ids that need no cleaning, as UUIDs do not. *)
Theorem branches_are_references_of_runs issue_number issue_number' run_id run_id' sha256 delivery :
  0 <= issue_number → 0 <= issue_number' → (∀ s, all_chars plain_char (sha256 s) = true) →
  valid_ref (buildDraftBranchName issue_number run_id) = true
  ∧ valid_ref (buildRepositoryDeliveryBranchName sha256 run_id delivery) = true
  ∧ (sanitizeBranchSegment run_id = run_id → sanitizeBranchSegment run_id' = run_id' →
     buildDraftBranchName issue_number run_id = buildDraftBranchName issue_number' run_id' →
     issue_number = issue_number' ∧ run_id = run_id').
Proof.
  intros Hn Hn' Hsha. split; [|split].
  - unfold buildDraftBranchName. destruct (sanitized run_id) as (Sc & Sa & Ss & Se).
    assert (Hnum : segment_ok (pretty issue_number)).
    { apply plain_segment. eapply chars_impl; [|by apply pretty_digits]. intros [[] [] [] [] [] [] [] []]; vm_compute; done. }
    destruct Hnum as (Nc & Na & Ns & Ne). apply segment_ok_ref; [|done].
    apply segment_after; [reflexivity|reflexivity|reflexivity|discriminate| |reflexivity].
    assert (Hseg : segment_ok ("-" +:+ sanitizeBranchSegment run_id)).
    { by apply segment_after; [reflexivity|reflexivity|reflexivity|discriminate|apply sanitized|]. }
    destruct (String.eqb_spec (pretty issue_number) "") as [->|Hne]; [exact Hseg|].
    by apply segment_after.
  - unfold buildRepositoryDeliveryBranchName.
    destruct (stable_plain sha256 run_id Hsha) as [H1 N1], (stable_plain sha256 (rd_delivery_id delivery) Hsha) as [H2 N2].
    apply plain_segment in H1 as (C1 & A1 & S1 & E1), H2 as (C2 & A2 & S2 & E2).
    set (a := stableBranchSegment sha256 run_id) in *. set (b := stableBranchSegment sha256 (rd_delivery_id delivery)) in *.
    assert (Hab : segment_ok (a +:+ "/" +:+ b)).
    { split; [by rewrite chars_app, C1; change (all_chars segment_char b = true)|]. split.
      - apply apart_app; [done| |by rewrite E1]. change (negb (starts_slash b) && apart b = true). by rewrite S2, A2.
      - split; [by rewrite starts_app|]. rewrite ends_app by done. change (ends_slash ("/" +:+ b) = false). by rewrite ends_app. }
    apply segment_ok_ref; [|done]. apply segment_after; [done..|exact Hab|]. by destruct a.
  - intros Hs Hs' Heq. unfold buildDraftBranchName in Heq. rewrite Hs, Hs' in Heq.
    assert (Hinj : ∀ pre x y, pre +:+ x = pre +:+ y → x = y).
    { intros pre x y. induction pre as [|c pre IH]; [done|]. intros Hxy. apply IH. by injection Hxy. }
    apply Hinj in Heq. destruct (hyphen_split (pretty issue_number) (pretty issue_number') run_id run_id') as [Hp ->];
      [by apply pretty_digits..|exact Heq|]. by simplify_eq.
Qed.

(** * Witnesses *)

Lemma published_paths_are_safe_witness :
  ∃ changes, normalizePublishableFileChanges (λ _, "")
      (Some (JArray [JObject [("path", JString "/workspace/src/a.c"); ("status", JString "deleted")];
                     JObject [("path", JString "src\a.c"); ("status", JString "deleted")]])) = inl changes
    ∧ length changes = 1%nat ∧ NoDup (change_path <$> changes) ∧ Forall (λ c, safe_path (change_path c)) changes.
Proof.
  eexists. split; [vm_compute; reflexivity|]. split; [reflexivity|].
  exact (proj1 (published_paths_are_safe (G := unit)
    (H := {| defaultBranch _ _ := inl None; branchHead _ _ _ := inl None; listPulls _ _ _ := inl [];
             getCommit _ _ _ := inr metadata_error; createBlob _ _ _ g := (inr metadata_error, g);
             createTree _ _ _ g := (inr metadata_error, g); createCommit _ _ _ _ g := (inr metadata_error, g);
             createRef _ _ _ g := (inr metadata_error, g); getRef _ _ _ := inr metadata_error;
             createPull _ _ g := (inr metadata_error, g) |})
    (λ _, "") (Some (JArray [JObject [("path", JString "/workspace/src/a.c"); ("status", JString "deleted")];
                             JObject [("path", JString "src\a.c"); ("status", JString "deleted")]]))
    (λ _ gt, gt) (λ s, s) (λ _, "") (pure tt) {| owner_login := ""; repo_name := "" |} "" "" None ""
    {| rd_delivery_id := ""; rd_case_ids := []; rd_case_count := 0; rd_file_changes := [] |}
    {| w_calls := 0; w_remote := tt; w_rows := no_rows 0 0; w_lost := false; w_trace := [] |}) _ eq_refl).
Defined.

Lemma branches_are_references_of_runs_witness :
  valid_ref (buildDraftBranchName 7 "0b9e..Run 1.lock") = true
  ∧ valid_ref (buildRepositoryDeliveryBranchName (λ _, "0123456789abcdef") "Run//1" 
      {| rd_delivery_id := ".lock"; rd_case_ids := []; rd_case_count := 0; rd_file_changes := [] |}) = true.
Proof.
  assert (H7 : 0 <= 7) by (vm_compute; discriminate).
  split.
  - exact (proj1 (branches_are_references_of_runs 7 7 "0b9e..Run 1.lock" "" (λ _, "0123456789abcdef")
      {| rd_delivery_id := ".lock"; rd_case_ids := []; rd_case_count := 0; rd_file_changes := [] |} H7 H7 (λ _, eq_refl))).
  - exact (proj1 (proj2 (branches_are_references_of_runs 7 7 "Run//1" "" (λ _, "0123456789abcdef")
      {| rd_delivery_id := ".lock"; rd_case_ids := []; rd_case_count := 0; rd_file_changes := [] |} H7 H7 (λ _, eq_refl)))).
Defined.
