(* ===== verification/DraftProperties.v ===== *)
(** What the publication of a draft pull request guarantees: it carries the result it was opened
    for, and nothing else is ever presented as it; its writes follow renewals of the claim; the
    paths it changes are safe; its branch belongs to one run. *)

From stdpp Require Import pretty.
From S2P Require Import Prelude Schema Tables Database PublicationStore ConnectorErrors.
From S2P Require Import ConnectorSteps ConnectorOutcomes Actions GitHub System SystemSpecs Scenario Hub NoticeOutcomes NoticeProperties.
From S2P Require Import Suggestions PullReviews DraftPulls.

(** * The branch and its pull request *)

Section Protocol.
Context {G : Type} `{GitDataLaws G}.
Context (env : nat → G * run_rows → G * run_rows).
Context (repo : repo_ref) (branch head_sha : string) (elements : list DraftTreeElement).

Abbreviation pulls := (open_pulls repo branch).
Abbreviation tip := (branch_at repo branch).

(** The commit of the result: its changes on the head it was produced from. *)
Definition result_commit (c : git_commit) : Prop :=
  c = {| gc_tree := tree_of (gc_tree (commit_named head_sha)) elements; gc_parents := [head_sha] |}.

#[export] Instance result_commit_dec c : Decision (result_commit c).
Proof. unfold result_commit. apply _. Defined.

Definition carries (g : G) : Prop := ∃ s, tip g = Some s ∧ result_commit (commit_named s).

(** One pull request at most, of this result. *)
Definition sound (g : G) : Prop := (length (pulls g) <= 1)%nat ∧ (pulls g ≠ [] → carries g).

(** What others do: they may create the branch, with anything in it, but do not move it; and
    they may close pull requests, but open none from it. *)
Definition others (g g' : G) : Prop :=
  (∀ s, tip g = Some s → tip g' = Some s) ∧ sublist (pulls g') (pulls g).

Lemma others_refl g : others g g.
Proof. done. Qed.
Lemma others_trans g1 g2 g3 : others g1 g2 → others g2 g3 → others g1 g3.
Proof. intros [B1 P1] [B2 P2]. split; [auto|]. by etrans. Qed.

Lemma carries_others g g' : carries g → others g g' → carries g'.
Proof. intros (s & Hs & Hc) [Hb _]. exists s. auto. Qed.

Lemma none_others g g' : pulls g = [] → others g g' → pulls g' = [].
Proof. intros Hp [_ Hs]. rewrite Hp in Hs. by apply sublist_nil_r in Hs. Qed.

Lemma sound_others g g' : sound g → others g g' → sound g'.
Proof.
  intros [Hl Hc] Ho. split; [destruct Ho as [_ Hs%sublist_length]; lia|].
  intros Hne. eapply carries_others; [apply Hc|done]. intros Hn. by apply Hne, (none_others g).
Qed.

(** What an attempt leaves: it is sound, and the branch is where it was, if it was there. *)
Definition safe (g g' : G) : Prop := sound g' ∧ ∀ s, tip g = Some s → tip g' = Some s.

Lemma safe_others g g' : sound g → others g g' → safe g g'.
Proof. intros Hs Ho. split; [by eapply sound_others|apply Ho]. Qed.

Lemma carries_safe g g' : carries g → safe g g' → carries g'.
Proof. intros (s & Hs & Hc) [_ Hb]. exists s. auto. Qed.

Lemma same_others g g' : same_refs g g' → others g g'.
Proof. intros Hs. destruct (Hs repo branch) as [Hb Hp]. split; [intros s; by rewrite Hb|]. by rewrite Hp. Qed.

(** A routine that does no more than others do. *)
Definition modest {A} (m : act G A) : Prop :=
  ∀ w, ends m (λ _ w', others (w_remote w) (w_remote w')) (λ _ w', others (w_remote w) (w_remote w')) w.

Lemma modest_then {A B} (m : act G A) (k : A → act G B) : modest m → (∀ a, modest (k a)) → modest (andThen m k).
Proof.
  intros Hm Hk w. apply ends_then. eapply ends_mono; [apply Hm| |done]. intros a w1 H1.
  eapply ends_mono; [apply Hk| |]; intros ? w2 H2; exact (others_trans _ _ _ H1 H2).
Qed.
Lemma modest_pure {A} (a : A) : modest (pure a).
Proof. intros w. apply others_refl. Qed.
Lemma modest_raise {A} e : modest (raise (A := A) e).
Proof. intros w. apply others_refl. Qed.
Lemma modest_computed {A} (r : A + raised) : modest (computed r).
Proof. intros w. by apply ends_computed. Qed.

Context (Henv : ∀ i g t, others g (env i (g, t)).1).

Lemma disturb_others w : others (w_remote w) (w_remote (disturb env w)).
Proof. unfold disturb. pose proof (Henv (w_calls w) (w_remote w) (w_rows w)). by destruct (env _ _). Qed.

(** After a step [m] that others could have made, go on knowing what it answered. *)
Lemma then_others {A B} (m : act G A) (k : A → act G B) (P : A → G → Prop) Q E w :
  ends m (λ a w', others (w_remote w) (w_remote w') ∧ P a (w_remote w')) (λ _ w', others (w_remote w) (w_remote w')) w →
  (∀ a w', others (w_remote w) (w_remote w') → P a (w_remote w') → ends (k a) Q E w') →
  (∀ e w', others (w_remote w) (w_remote w') → E e w') →
  ends (andThen m k) Q E w.
Proof.
  intros Hm Hk He. apply ends_then. eapply ends_mono; [exact Hm| |exact He]. intros a w' [Ho Hp]. by apply Hk.
Qed.

Lemma get_knows {A} (f : G → outcome_of A) (P : A → G → Prop) w :
  (∀ g a, f g = inl a → P a g) →
  ends (remote_get env f) (λ a w', others (w_remote w) (w_remote w') ∧ P a (w_remote w'))
    (λ _ w', others (w_remote w) (w_remote w')) w.
Proof.
  intros Hf. unfold ends, remote_get. pose proof (disturb_others w). destruct (f _) as [a|e] eqn:Ha; simpl; [|done]. split; [done|by apply Hf].
Qed.

Lemma post_knows {A} (f : G → outcome_of A * G) (P : A → G → Prop) w :
  (∀ g r g', f g = (r, g') → others g g' ∧ ∀ a, r = inl a → P a g') →
  ends (remote_post env f) (λ a w', others (w_remote w) (w_remote w') ∧ P a (w_remote w'))
    (λ _ w', others (w_remote w) (w_remote w')) w.
Proof.
  intros Hf. unfold ends, remote_post. pose proof (disturb_others w) as Hd. destruct (f _) as [r g] eqn:Ha.
  destruct (Hf _ _ _ Ha) as [Ho Hp]. assert (Hw : others (w_remote w) g) by exact (others_trans _ _ _ Hd Ho).
  destruct r as [a|e]; [|done]. split; [done|by apply Hp].
Qed.

(** ** The steps of the protocol *)

Context (assert : act G unit) (Hassert : modest assert).

(** Go on after the claim was renewed. *)
Lemma assert_then {B} (k : act G B) Q E w :
  (∀ w', others (w_remote w) (w_remote w') → ends k Q E w') →
  (∀ e w', others (w_remote w) (w_remote w') → E e w') → ends (assert ;;> k) Q E w.
Proof. intros Hk He. apply ends_then. eapply ends_mono; [apply Hassert| |exact He]. intros []. apply Hk. Qed.

Lemma createRef_others s g r g' : createRef repo branch s g = (r, g') → others g g' ∧ ∀ a, r = inl a → tip g' = Some s.
Proof.
  intros (Hp & Hb & Hs)%createRef_once. split; [|intros []; exact Hs]. split; [|by rewrite Hp].
  intros s' Hs'. destruct (Hb repo branch) as [Hu|(_ & _ & Hn & _)]; congruence.
Qed.

Section Plan.
Context (plan : DraftPullRequestPlan G).
Context (Hbranch : pl_branch_name plan = branch) (Hhead : pl_head_sha plan = head_sha).
Context (Hbuild : ∀ w, ends (pl_build_tree plan)
  (λ t w', others (w_remote w) (w_remote w') ∧ t = elements) (λ _ w', others (w_remote w) (w_remote w')) w).

Abbreviation wanted := (tree_of (gc_tree (commit_named head_sha)) elements).

Lemma verified w :
  ends (verify_branch env assert repo plan wanted)
    (λ _ w', others (w_remote w) (w_remote w') ∧ carries (w_remote w')) (λ _ w', others (w_remote w) (w_remote w')) w.
Proof.
  unfold verify_branch. rewrite Hbranch, Hhead. apply assert_then; [|done]. intros w0 Hw0.
  apply (then_others _ _ (λ s g, tip g = Some s)); [apply (get_knows _ (λ s g, tip g = Some s)); intros g s; apply getRef_at| |intros e w1 H1; exact (others_trans _ _ _ Hw0 H1)].
  intros s w1 H1%(others_trans _ _ _ Hw0) Hs.
  apply (then_others _ _ (λ c _, c = commit_named s));
    [apply (get_knows _ (λ c _, c = commit_named s)); intros g c; apply getCommit_named| |intros e w2 H2; exact (others_trans _ _ _ H1 H2)].
  intros c w2 H2 ->. pose proof (others_trans _ _ _ H1 H2) as Hw2.
  destruct (String.eqb_spec (gc_tree (commit_named s)) wanted) as [Ht|]; [|by apply ends_raise].
  destruct (bool_decide_reflect (gc_parents (commit_named s) = [head_sha])) as [Hps|]; [|by apply ends_raise].
  apply ends_pure. split; [done|]. exists s. split; [by apply H2|]. unfold result_commit.
  destruct (commit_named s). simpl in *. congruence.
Qed.

Lemma branched s w :
  result_commit (commit_named s) →
  ends (create_branch env assert repo plan wanted s)
    (λ _ w', others (w_remote w) (w_remote w') ∧ carries (w_remote w')) (λ _ w', others (w_remote w) (w_remote w')) w.
Proof.
  intros Hs. unfold create_branch. apply ends_catch. rewrite Hbranch.
  assert (Hhandle : ∀ e w', others (w_remote w) (w_remote w') →
    ends (if negb (isBranchAlreadyExists (ra_error e)) then raise e else verify_branch env assert repo plan wanted)
      (λ _ w', others (w_remote w) (w_remote w') ∧ carries (w_remote w')) (λ _ w', others (w_remote w) (w_remote w')) w').
  { intros e w' Hw'. destruct (negb _); [by apply ends_raise|]. eapply ends_mono; [apply verified| |].
    - intros ? w2 [H2 Hc]. split; [exact (others_trans _ _ _ Hw' H2)|done].
    - intros ? w2 H2. exact (others_trans _ _ _ Hw' H2). }
  apply assert_then; [|exact Hhandle]. intros w0 Hw0.
  eapply ends_mono; [apply (post_knows _ (λ _ g, tip g = Some s)); intros g r g'; apply createRef_others| |].
  - intros ? w1 [H1 Hb]. split; [exact (others_trans _ _ _ Hw0 H1)|]. by exists s.
  - intros e w1 H1. apply Hhandle. exact (others_trans _ _ _ Hw0 H1).
Qed.

(** The request for the pull request, when the branch carries the result and none is open. *)
Lemma opened q w :
  pq_head q = branch → pulls (w_remote w) = [] → carries (w_remote w) →
  ends (remote_post env (createPull repo q))
    (λ p w', safe (w_remote w) (w_remote w') ∧ carries (w_remote w') ∧ p ∈ pulls (w_remote w'))
    (λ _ w', safe (w_remote w) (w_remote w')) w.
Proof.
  intros Hq Hn Hc. unfold ends, remote_post. pose proof (disturb_others w) as Hd.
  pose proof (none_others _ _ Hn Hd) as Hn1. pose proof (carries_others _ _ Hc Hd) as Hc1.
  destruct (createPull repo q _) as [r g] eqn:Hr. apply createPull_opens in Hr as (Hb & _ & l & Hp & Hl & Hr).
  rewrite Hq, Hn1 in Hp. simpl in Hp.
  assert (Hcg : carries g) by (destruct Hc1 as (s & Hs & Hrc); exists s; by rewrite Hb).
  assert (Hsg : safe (w_remote w) g).
  { split; [split; [by rewrite Hp|done]|]. intros s Hs. rewrite Hb. by apply Hd. }
  destruct r as [p|e]; [|done]. split; [done|]. split; [done|]. simpl. rewrite Hp, (Hr p eq_refl). left.
Qed.

(** An attempt keeps what is sound, and what it names is open and carries the result. *)
Lemma attempt_sound w :
  sound (w_remote w) →
  ends (publishDraftPullRequest env assert repo plan)
    (λ pub w', safe (w_remote w) (w_remote w') ∧ carries (w_remote w')
       ∧ ∃ p, p ∈ pulls (w_remote w') ∧ pd_number pub = dp_number p ∧ pd_html_url pub = dp_html_url p)
    (λ _ w', safe (w_remote w) (w_remote w')) w.
Proof.
  intros Hw. unfold publishDraftPullRequest. rewrite Hbranch, Hhead.
  apply (then_others _ _ (λ l g, head l = head (pulls g))); [apply (get_knows _ (λ l g, head l = head (pulls g))); intros g l; apply listPulls_open| |].
  2: { intros e w' Ho. by apply safe_others. }
  intros [|p l] w1 H1 Hl; pose proof (sound_others _ _ Hw H1) as Hs1.
  2: { apply ends_pure. cbn [head] in Hl. destruct (pulls (w_remote w1)) as [|p' l'] eqn:Hp; [done|]. injection Hl as <-.
       split; [by apply safe_others|]. split; [apply Hs1; by rewrite Hp|]. exists p. split; [left|done]. }
  assert (Hnone : pulls (w_remote w1) = []) by by destruct (pulls (w_remote w1)).
  assert (Hstop : ∀ w2, others (w_remote w1) (w_remote w2) →
    ∀ (e : raised) w', others (w_remote w2) (w_remote w') → safe (w_remote w) (w_remote w')).
  { intros w2 H2 e w' Ho. apply safe_others; [done|]. exact (others_trans _ _ _ H1 (others_trans _ _ _ H2 Ho)). }
  apply (then_others _ _ (λ c _, c = commit_named head_sha));
    [apply (get_knows _ (λ c _, c = commit_named head_sha)); intros g c; apply getCommit_named| |by apply Hstop].
  intros c w2 H2 ->. apply (then_others _ _ (λ t _, t = elements)); [apply Hbuild| |by apply Hstop].
  intros t w3 H3%(others_trans _ _ _ H2) ->.
  destruct (bool_decide (elements = [])); [by apply ends_raise, (Hstop w1 (others_refl _) (raised_plain metadata_error))|].
  apply assert_then; [|by apply Hstop]. intros w4 H4%(others_trans _ _ _ H3).
  apply (then_others _ _ (λ s _, s = wanted)); [| |by apply Hstop].
  { apply (post_knows _ (λ s _, s = wanted)). intros g r g' (Hsame & Hr)%createTree_names. split; [by apply same_others|done]. }
  intros s w5 H5%(others_trans _ _ _ H4) ->. apply assert_then; [|by apply Hstop].
  intros w6 H6%(others_trans _ _ _ H5). apply (then_others _ _ (λ s _, result_commit (commit_named s))); [| |by apply Hstop].
  { apply (post_knows _ (λ s _, result_commit (commit_named s))).
    intros g r g' (Hsame & Hr)%createCommit_names. split; [by apply same_others|done]. }
  intros s w7 H7%(others_trans _ _ _ H6) Hs. apply (then_others _ _ (λ _ g, carries g)); [by apply branched| |by apply Hstop].
  intros _ w8 H8%(others_trans _ _ _ H7) Hc. apply assert_then; [|by apply Hstop].
  intros w9 H9. pose proof (carries_others _ _ Hc H9) as Hc9. apply (others_trans _ _ _ H8) in H9. apply ends_then.
  assert (Hafter : ∀ g, safe (w_remote w9) g → safe (w_remote w) g).
  { intros g [Hg Ht]. split; [done|]. intros s' Hs'. apply Ht, H9, H1, Hs'. }
  eapply ends_mono; [apply opened; [done|by eapply none_others|done]| |intros e w10; apply Hafter].
  intros p w10 (Hso & Hca & Hin). apply ends_pure. split; [by apply Hafter|]. split; [done|]. by exists p.
Qed.
End Plan.
End Protocol.

(** * The changes of a result *)

Definition element_of {G : Type} `{GitDataLaws G} (c : FileChange) : DraftTreeElement :=
  match c with
  | Deleted path => {| el_path := path; el_mode := RegularFile; el_sha := None |}
  | Upsert path content content_encoding mode =>
      {| el_path := path; el_mode := default RegularFile mode; el_sha := Some (blob_of content content_encoding) |}
  end.

Section Attempts.
Context {G : Type} `{GitDataLaws G}.
Context (env : nat → G * run_rows → G * run_rows).
Context (repo : repo_ref) (branch : string).
Context (Henv : ∀ i g t, others repo branch g (env i (g, t)).1).

Abbreviation others := (others repo branch).
Abbreviation modest := (modest repo branch).

Lemma built check assert changes :
  modest assert → Forall (λ c, check (change_path c) = inl (change_path c)) changes →
  ∀ w, ends (buildTreeElements env check assert repo changes)
    (λ t w', others (w_remote w) (w_remote w') ∧ t = element_of <$> changes) (λ _ w', others (w_remote w) (w_remote w')) w.
Proof.
  intros Hassert Hc. induction Hc as [|c changes Hc _ IH]; intros w; cbn [buildTreeElements fmap list_fmap].
  { by apply ends_pure. }
  rewrite Hc. apply ends_then, ends_computed; [|done]. intros ? [= <-].
  assert (Hrest : ∀ x w1, others (w_remote w) (w_remote w1) →
    ends (await elements := buildTreeElements env check assert repo changes in pure (x :: elements))
      (λ t w', others (w_remote w) (w_remote w') ∧ t = x :: (element_of <$> changes))
      (λ _ w', others (w_remote w) (w_remote w')) w1).
  { intros x w1 H1. apply ends_then. eapply ends_mono; [apply IH| |].
    - intros t w2 [H2 ->]. apply ends_pure. split; [|done]. exact (others_trans _ _ _ _ _ H1 H2).
    - intros e w2 H2. exact (others_trans _ _ _ _ _ H1 H2). }
  destruct c as [path|path content enc mode]; [by apply Hrest|].
  apply (assert_then _ _ _ Hassert); [|done]. intros w0 Hw0.
  apply (then_others repo branch _ _ (λ s _, s = blob_of content enc)).
  - apply (post_knows env repo branch Henv _ (λ s _, s = blob_of content enc)).
    intros g r g' (Hsame & Hr)%createBlob_names. split; [by apply same_others|done].
  - intros s w1 H1 ->. apply Hrest. exact (others_trans _ _ _ _ _ Hw0 H1).
  - intros e w1 H1. exact (others_trans _ _ _ _ _ Hw0 H1).
Qed.

Context (now : nat → Z) (net : nat → transport) (message_of : failure → string) (run_id token : string).

Lemma modest_assert : modest (assertPublicationClaim now env net message_of run_id token).
Proof.
  apply modest_then; [by intros w|]. intros []; [by intros w|]. intros w. apply ends_catch.
  assert (Hstop : ∀ w', others (w_remote w) (w_remote w') →
    ends (mark_lost ;;> raise (A := unit) (publication_lost run_id)) (λ _ w', others (w_remote w) (w_remote w'))
      (λ _ w', others (w_remote w) (w_remote w')) w') by (intros w' Hw'; exact Hw').
  apply ends_then. unfold ends at 1, store_call.
  pose proof (disturb_others env repo branch Henv w) as Hd. destruct (request _ _ _ _ _ _ _) as [[[]|e] t].
  - exact Hd.
  - by apply ends_raise, Hstop.
  - by apply Hstop.
Qed.
End Attempts.

(** * Attempts at an issue's draft *)

(** One attempt of some worker. *)
Record draft_round (G : Type) := {
  dr_now : nat → Z;
  dr_env : nat → G * run_rows → G * run_rows;
  dr_net : nat → transport;
  dr_token : string;
}.
Arguments dr_now {G}. Arguments dr_env {G}. Arguments dr_net {G}. Arguments dr_token {G}.

Section IssueDrafts.
Context {G : Type} `{GitDataLaws G}.
Context (message_of : failure → string) (to_text : json → string) (render_body : IssueContext → IssueReviewRecord → string).
Context (issue : IssueContext) (run_id workspace_ref : string) (r : IssueReviewRecord).

(** The attempts one after the other, with their answers. *)
Fixpoint draft_rounds (rounds : list (draft_round G)) (g : G) (t : run_rows) :
    option (list (option PublishedDraftPullRequest + raised) * G * run_rows) :=
  match rounds with
  | [] => Some ([], g, t)
  | rd :: rest =>
      match createDraftPullRequestFromIssueReviewRecord (dr_env rd) to_text render_body
              (assertPublicationClaim (dr_now rd) (dr_env rd) (dr_net rd) message_of run_id (dr_token rd))
              issue run_id workspace_ref r
              {| w_calls := 0; w_remote := g; w_rows := t; w_lost := false; w_trace := [] |} with
      | Some (answer, w) =>
          match draft_rounds rest (w_remote w) (w_rows w) with
          | Some (answers, g', t') => Some (answer :: answers, g', t')
          | None => None
          end
      | None => None
      end
  end.

Abbreviation branch := (buildDraftBranchName (ix_number issue) run_id).
Abbreviation others := (others (ix_repo issue) branch).

Context (changes : list FileChange).
Context (Hchanges : normalizePublishableFileChanges to_text (Some (JArray (ir_file_changes r))) = inl changes).

Abbreviation sound := (sound (ix_repo issue) branch workspace_ref (element_of <$> changes)).
Abbreviation carries := (carries (ix_repo issue) branch workspace_ref (element_of <$> changes)).
Abbreviation safe := (safe (ix_repo issue) branch workspace_ref (element_of <$> changes)).

Lemma issue_attempt env now net token w :
  (∀ i g t, others g (env i (g, t)).1) → sound (w_remote w) →
  ends (createDraftPullRequestFromIssueReviewRecord env to_text render_body
      (assertPublicationClaim now env net message_of run_id token) issue run_id workspace_ref r)
    (λ pub w', safe (w_remote w) (w_remote w') ∧ (is_Some pub → carries (w_remote w')))
    (λ _ w', safe (w_remote w) (w_remote w')) w.
Proof.
  intros Henv Hw. unfold createDraftPullRequestFromIssueReviewRecord.
  assert (Hsafe : safe (w_remote w) (w_remote w)) by by apply safe_others.
  destruct (negb _); [by apply ends_pure; split; [|intros []]|].
  rewrite Hchanges. apply ends_then, ends_computed; [|done]. intros ? [= <-]. apply ends_then.
  assert (Htrusted : modest (ix_repo issue) branch (resolveTrustedDefaultBranch env (ix_repo issue))).
  { assert (Hget : ∀ A (f : G → outcome_of A), modest (ix_repo issue) branch (remote_get env f)).
    { intros A f w0. pose proof (disturb_others env _ _ Henv w0). unfold ends, remote_get. by destruct (f _). }
    apply modest_then; [apply Hget|]. intros name. cbn zeta. destruct (String.eqb _ ""); [apply modest_raise|].
    apply modest_then; [apply Hget|]. intros sha. cbn zeta. destruct (String.eqb _ ""); [apply modest_raise|apply modest_pure]. }
  eapply ends_mono; [apply Htrusted| |intros e w1 H1; by apply safe_others].
  intros trusted w1 H1. apply ends_then.
  assert (Hafter : ∀ g, safe (w_remote w1) g → safe (w_remote w) g).
  { intros g [Hg Ht]. split; [done|]. intros s Hs. by apply Ht, H1. }
  eapply ends_mono.
  - apply (attempt_sound env (ix_repo issue) branch workspace_ref (element_of <$> changes) Henv);
      [by apply modest_assert|done|done| |by eapply sound_others].
    apply (built env _ _ Henv); [by apply modest_assert|]. apply Forall_forall. by intros.
  - intros pub w2 (Hs & Hc & _). apply ends_pure. split; [by apply Hafter|done].
  - intros e w2. apply Hafter.
Qed.

Lemma issue_attempt_returns env now net token :
  returns (createDraftPullRequestFromIssueReviewRecord env to_text render_body
      (assertPublicationClaim now env net message_of run_id token) issue run_id workspace_ref r).
Proof.
  assert (Hassert : returns (assertPublicationClaim now env net message_of run_id token)).
  { apply returns_then; [auto with acts|]. intros []; [auto with acts|]. apply returns_catch; [|by intros e; eexists].
    apply returns_then; [auto with acts|]. intros []; auto with acts. }
  assert (Hbuild : ∀ l, returns (buildTreeElements env inl (assertPublicationClaim now env net message_of run_id token) (ix_repo issue) l)).
  { intros l. induction l as [|c l IH]; cbn [buildTreeElements]; [auto with acts|].
    apply returns_then; [auto with acts|]. intros path. destruct c.
    - by apply returns_then; [|auto with acts].
    - apply returns_then; [done|]. intros _. apply returns_then; [auto with acts|]. intros sha. by apply returns_then; [|auto with acts]. }
  unfold createDraftPullRequestFromIssueReviewRecord, resolveTrustedDefaultBranch, publishDraftPullRequest, create_branch, verify_branch.
  repeat (first [apply returns_then; [|intros ?] | apply returns_catch; [|intros ?] | apply returns_if | apply Hassert
                | apply Hbuild | progress cbn zeta | progress cbn [pl_build_tree issue_plan] | (case_match; []) | solve [auto with acts]
                | case_match]).
Qed.
End IssueDrafts.

(** C12: the draft pull request of a run is the result of the run, however often its publication
    is tried: over any number of attempts by any workers, with any loss of messages and of
    answers, while others may create the branch of the run with whatever they like in it and
    may close pull requests, every attempt ends; there is one open pull request of the branch
    at most; and when there is one, or an attempt has answered with one, the branch carries
    exactly the validated changes, on the commit the run was given. *)
Theorem draft_is_the_result {G : Type} `{GitDataLaws G} message_of to_text render_body issue run_id workspace_ref r changes
    (rounds : list (draft_round G)) g t :
  let branch := buildDraftBranchName (ix_number issue) run_id in
  let carries := carries (ix_repo issue) branch workspace_ref (element_of <$> changes) in
  normalizePublishableFileChanges to_text (Some (JArray (ir_file_changes r))) = inl changes →
  Forall (λ rd, ∀ i g t, others (ix_repo issue) branch g (dr_env rd i (g, t)).1) rounds →
  sound (ix_repo issue) branch workspace_ref (element_of <$> changes) g →
  ∃ answers g' t', draft_rounds message_of to_text render_body issue run_id workspace_ref r rounds g t = Some (answers, g', t')
    ∧ length answers = length rounds
    ∧ (length (open_pulls (ix_repo issue) branch g') <= 1)%nat
    ∧ (open_pulls (ix_repo issue) branch g' ≠ [] → carries g')
    ∧ ∀ pub, inl (Some pub) ∈ answers → carries g'.
Proof.
  intros branch carries Hch Hr Hg.
  assert (Hall : ∃ answers g' t', draft_rounds message_of to_text render_body issue run_id workspace_ref r rounds g t = Some (answers, g', t')
    ∧ length answers = length rounds ∧ safe (ix_repo issue) branch workspace_ref (element_of <$> changes) g g'
    ∧ ∀ pub, inl (Some pub) ∈ answers → carries g').
  2: { destruct Hall as (answers & g' & t' & Heq & Hlen & [[H1 H2] _] & Ha). by exists answers, g', t'. }
  revert g t Hg. induction Hr as [|rd rest Hrd _ IH]; intros g t Hg; cbn [draft_rounds].
  { exists [], g, t. split; [done|]. split; [done|]. split; [by apply safe_others|]. by intros ? ?%not_elem_of_nil. }
  match goal with |- context [createDraftPullRequestFromIssueReviewRecord _ _ _ _ _ _ _ _ ?w0] =>
    pose proof (issue_attempt message_of to_text render_body issue run_id workspace_ref r changes Hch
      (dr_env rd) (dr_now rd) (dr_net rd) (dr_token rd) w0 Hrd Hg) as Ha;
    destruct (issue_attempt_returns message_of to_text render_body issue run_id workspace_ref r
      (dr_env rd) (dr_now rd) (dr_net rd) (dr_token rd) w0) as [[a w] Hret] end.
  unfold ends in Ha. rewrite Hret in Ha |- *.
  assert (Hs : safe (ix_repo issue) branch workspace_ref (element_of <$> changes) g (w_remote w)) by by destruct a as [o|e]; [destruct Ha|].
  destruct (IH (w_remote w) (w_rows w)) as (answers & g' & t' & Heq & Hlen & Hsafe & Hcar); [apply Hs|].
  rewrite Heq. exists (a :: answers), g', t'. split; [done|]. split; [simpl; by rewrite Hlen|]. split.
  - destruct Hsafe as [H1 H2]. split; [done|]. intros s Hs'. by apply H2, Hs.
  - intros pub [Hp|Hin]%elem_of_cons; [|by eapply Hcar]. subst a. destruct Ha as [_ Hc].
    eapply carries_safe; [by apply Hc|exact Hsafe].
Qed.

(** * How an undisturbed attempt ends *)

Section Undisturbed.
Context {G : Type} `{GitDataLaws G}.

(** [m] ends, with what is said of its value or of its exception. *)
Definition results {A} (m : act G A) (Q : A → world G → Prop) (E : raised → world G → Prop) (w : world G) : Prop :=
  match m w with
  | Some (inl a, w') => Q a w'
  | Some (inr e, w') => E e w'
  | None => False
  end.

Lemma results_then {A B} (m : act G A) (k : A → act G B) Q E w :
  results m (λ a, results (k a) Q E) E w → results (andThen m k) Q E w.
Proof. unfold results, andThen. by destruct (m w) as [[[] ?]|]. Qed.
Lemma results_catch {A} (m : act G A) h Q E w :
  results m Q (λ e, results (h e) Q E) w → results (catch m h) Q E w.
Proof. unfold results, catch. by destruct (m w) as [[[] ?]|]. Qed.
Lemma results_get {A} (f : G → outcome_of A) a Q E w :
  f (w_remote w) = inl a → (∀ w', w_remote w' = w_remote w → Q a w') → results (remote_get quiet_world f) Q E w.
Proof. intros Hf Hq. unfold results, remote_get. cbn [disturb quiet_world w_remote]. rewrite Hf. by apply Hq. Qed.
Lemma results_post {A} (f : G → outcome_of A * G) r g Q E w :
  f (w_remote w) = (r, g) →
  match r with inl a => ∀ w', w_remote w' = g → Q a w' | inr e => ∀ w', w_remote w' = g → E (raised_plain e) w' end →
  results (remote_post quiet_world f) Q E w.
Proof. intros Hf Hq. unfold results, remote_post. cbn [disturb quiet_world w_remote]. rewrite Hf. destruct r; by apply Hq. Qed.

Context (repo : repo_ref) (branch head_sha : string) (elements : list DraftTreeElement).

(** GitHub answers every request it is documented to serve. *)
Record answers_all : Prop := {
  aa_pulls g : listPulls repo branch g = inl (open_pulls repo branch g);
  aa_head g : getCommit repo head_sha g = inl (commit_named head_sha);
  aa_tip g s : branch_at repo branch g = Some s → getRef repo branch g = inl s ∧ getCommit repo s g = inl (commit_named s);
  aa_tree base g : ∃ g', createTree repo base elements g = (inl (tree_of base elements), g');
  aa_commit message g : ∃ s g', createCommit repo message (tree_of (gc_tree (commit_named head_sha)) elements) [head_sha] g = (inl s, g');
  aa_ref s g : branch_at repo branch g = None → ∃ g', createRef repo branch s g = (inl tt, g');
  aa_taken s s' g : branch_at repo branch g = Some s' →
    ∃ e g', createRef repo branch s g = (inr e, g') ∧ te_status e = Some 422
      ∧ te_response_message e = Some "Reference already exists";
  aa_open q g : pq_head q = branch → is_Some (branch_at repo branch g) → open_pulls repo branch g = [] →
    ∃ p g', createPull repo q g = (inl p, g');
}.
Context (Hall : answers_all) (assert : act G unit) (Hassert : ∀ w, results assert (λ _ w', w_remote w' = w_remote w) (λ _ _, False) w).

Lemma results_assert {B} (k : act G B) Q E w :
  (∀ w', w_remote w' = w_remote w → results k Q E w') → results (assert ;;> k) Q E w.
Proof.
  intros Hk. apply results_then. pose proof (Hassert w) as Ha. unfold results in Ha |- * at 1.
  destruct (assert w) as [[[[]|e] w']|]; [by apply Hk|done|done].
Qed.

Context (plan : DraftPullRequestPlan G).
Context (Hbranch : pl_branch_name plan = branch) (Hhead : pl_head_sha plan = head_sha).
Context (Hbuild : ∀ w, results (pl_build_tree plan) (λ t w', t = elements ∧ same_refs (w_remote w) (w_remote w')) (λ _ _, False) w).

Abbreviation pulls := (open_pulls repo branch).
Abbreviation tip := (branch_at repo branch).

(** The ends of an attempt, by what there is when it starts. *)
Definition draft_end (g : G) (r : PublishedDraftPullRequest + raised) (g' : G) : Prop :=
  match pulls g with
  | p :: _ =>
      same_refs g g' ∧ r = inl {| pd_branch_name := branch; pd_title := dp_title p; pd_body := default (pl_body plan) (dp_body p);
                                  pd_html_url := dp_html_url p; pd_number := dp_number p; pd_reused := true |}
  | [] =>
      if bool_decide (elements = [])
      then same_refs g g' ∧ r = inr (raised_plain (error_of (pl_empty_tree_message plan)))
      else if match tip g with Some s => bool_decide (result_commit head_sha elements (commit_named s)) | None => true end
      then carries repo branch head_sha elements g' ∧ (∀ s, tip g = Some s → tip g' = Some s)
        ∧ ∃ p, pulls g' = [p]
          ∧ r = inl {| pd_branch_name := branch; pd_title := pl_title plan; pd_body := pl_body plan;
                       pd_html_url := dp_html_url p; pd_number := dp_number p; pd_reused := false |}
      else same_refs g g' ∧ r = inr (deterministic_error (pl_mismatch_message plan))
  end.

Lemma branch_results s w :
  result_commit head_sha elements (commit_named s) →
  results (create_branch quiet_world assert repo plan (tree_of (gc_tree (commit_named head_sha)) elements) s)
    (λ _ w', carries repo branch head_sha elements (w_remote w') ∧ pulls (w_remote w') = pulls (w_remote w)
       ∧ (∀ s', tip (w_remote w) = Some s' → tip (w_remote w') = Some s' ∧ result_commit head_sha elements (commit_named s')))
    (λ e w', same_refs (w_remote w) (w_remote w') ∧ e = deterministic_error (pl_mismatch_message plan)
       ∧ ∃ s', tip (w_remote w) = Some s' ∧ ¬ result_commit head_sha elements (commit_named s')) w.
Proof.
  intros Hs. unfold create_branch. rewrite Hbranch. apply results_catch, (results_assert). intros w1 E1.
  destruct (tip (w_remote w)) as [s'|] eqn:Ht.
  - rewrite <- E1 in Ht. destruct (aa_taken Hall s s' (w_remote w1) Ht) as (e & g2 & H2 & He1 & He2).
    assert (He : isBranchAlreadyExists e = true) by (unfold isBranchAlreadyExists; rewrite He1, He2; reflexivity).
    apply (results_post _ _ _ _ _ _ H2). intros w2 E2. cbn [ra_error raised_plain]. rewrite He. cbn [negb].
    assert (Hsame : same_refs (w_remote w) (w_remote w2)).
    { apply createRef_once in H2 as (Hp & Hb & _). intros r b. rewrite E2, Hp, E1. split; [|done].
      destruct (Hb r b) as [->|(-> & -> & Hn & _)]; [by rewrite E1|congruence]. }
    unfold verify_branch. rewrite Hbranch, Hhead. apply results_assert. intros w3 E3.
    assert (Ht3 : tip (w_remote w3) = Some s') by (rewrite E3; destruct (Hsame repo branch) as [-> _]; by rewrite <- E1).
    destruct (aa_tip Hall _ _ Ht3) as [Hr Hc]. apply results_then. eapply results_get; [exact Hr|]. intros w4 E4.
    rewrite <- E4 in Hc. apply results_then. eapply results_get; [exact Hc|]. intros w5 E5.
    rewrite <- E3, <- E4, <- E5 in Hsame.
    destruct (String.eqb_spec (gc_tree (commit_named s')) (tree_of (gc_tree (commit_named head_sha)) elements)) as [Htr|Htr];
      [destruct (bool_decide_reflect (gc_parents (commit_named s') = [head_sha])) as [Hps|Hps]|].
    + assert (Hres : result_commit head_sha elements (commit_named s')).
      { unfold result_commit. destruct (commit_named s'). simpl in *. congruence. }
      assert (Htip : tip (w_remote w5) = Some s') by by rewrite E5, E4.
      split; [by exists s'|]. split; [by destruct (Hsame repo branch)|]. by intros ? [= <-].
    + split; [done|]. split; [done|]. exists s'. split; [done|]. intros Hr'. apply Hps. by rewrite Hr'.
    + split; [done|]. split; [done|]. exists s'. split; [done|]. intros Hr'. apply Htr. by rewrite Hr'.
  - rewrite <- E1 in Ht. destruct (aa_ref Hall s (w_remote w1) Ht) as [g2 H2].
    apply (results_post _ _ _ _ _ _ H2). intros w2 E2. apply createRef_once in H2 as (Hp & _ & Hb). rewrite <- E2 in *.
    split; [exists s; split; [by apply Hb|done]|]. split; [by rewrite Hp, E1|done].
Qed.

End Undisturbed.


(** * Under a fresh claim *)

(** Right before every write the claim of the publication was renewed: the rows the renewal left
    show it owned by the token. *)
Definition fresh_publication (token : string) (trace : list event) : Prop :=
  ∀ l1 l2, trace = l1 ++ Wrote :: l2 → ∃ t l3, l2 = Renewed t :: l3 ∧ owned_by token t = true.

Lemma renewal_owned now token t t' : renewPublicationClaim now token t = Ok (true, t') → owned_by token t' = true.
Proof.
  unfold renewPublicationClaim, bind, sql_update, owned_by. simpl. destruct (t_pub t) as [u|]; [|by intros [=]].
  destruct (owns_publication token u) eqn:Ho; [|by intros [=]]. destruct (pub_check _); [|by intros [=]].
  intros [= <-]. exact Ho.
Qed.

Section Fresh.
Context {G : Type} (now : nat → Z) (env : nat → G * run_rows → G * run_rows) (net : nat → transport).
Context (message_of : failure → string) (run_id token : string).

Definition fresh (w : world G) : Prop := fresh_publication token (w_trace w).
Definition armed (w : world G) : Prop :=
  fresh w ∧ ∃ t tr, w_trace w = Renewed t :: tr ∧ owned_by token t = true.

Abbreviation assert := (assertPublicationClaim now env net message_of run_id token).

Lemma trace_kept w : w_trace (disturb env w) = w_trace w.
Proof. unfold disturb. by destruct (env _ _). Qed.

Lemma fresh_get {A} (f : G → outcome_of A) : keeps_world fresh (remote_get env f).
Proof. intros w Hw. unfold ends, remote_get, fresh. by destruct (f _); simpl; rewrite trace_kept. Qed.

Lemma assert_armed w : fresh w → ends assert (λ _, armed) (λ _, fresh) w.
Proof.
  intros Hw. unfold assertPublicationClaim. apply ends_then. unfold ends at 1, read_lost.
  destruct (w_lost w); [done|]. unfold renewPublication. apply ends_catch, ends_then.
  assert (Hstop : ∀ w', fresh w' → ends (mark_lost ;;> raise (publication_lost run_id)) (λ _ : unit, armed) (λ _, fresh) w') by done.
  unfold ends at 1, store_call. destruct (request _ _ _ _ _ _ _) as [r t] eqn:Hreq.
  assert (Hf : ∀ t, fresh {| w_calls := w_calls (disturb env w); w_remote := w_remote (disturb env w);
      w_rows := t; w_lost := w_lost (disturb env w); w_trace := w_trace (disturb env w) |}).
  { intros t'. unfold fresh. simpl. by rewrite trace_kept. }
  destruct r as [[]|e]; cbn [thrown_or]; [|apply ends_raise, Hstop, Hf|apply Hstop, Hf].
  assert (Ho : owned_by token t = true).
  { revert Hreq. unfold request, serve, transaction. destruct (net _); [|by intros [=]..].
    destruct (renewPublicationClaim _ token _) as [[b t']|f] eqn:Hr; [|by intros [=]].
    intros [= -> ->]. by eapply renewal_owned. }
  unfold ends, confirm, armed, fresh. simpl. split; [|by exists t, (w_trace (disturb env w))].
  intros [|e l1] l2; [done|]. intros [= <- Heq]. by eapply (Hf t).
Qed.

Lemma fresh_post {A} (f : G → outcome_of A * G) : keeps_world fresh (assert ;;> remote_post env f).
Proof.
  intros w Hw. apply ends_then. eapply ends_mono; [by apply assert_armed| |done].
  intros [] w1 (H1 & t & tr & Htr & Ho). unfold ends, remote_post. destruct (f _) as [r g].
  assert (Hall : fresh_publication token (Wrote :: w_trace (disturb env w1))).
  { rewrite trace_kept. intros [|e l1] l2; [intros [= <-]; rewrite Htr; by exists t, tr|]. intros [= <- Heq]. by eapply H1. }
  by destruct r.
Qed.

Lemma fresh_assert : keeps_world fresh assert.
Proof. intros w Hw. eapply ends_mono; [by apply assert_armed|by intros ? ? []|done]. Qed.

(** A write whose answer goes on to [k]. *)
Lemma fresh_post_then {A B} (f : G → outcome_of A * G) (k : A → act G B) :
  (∀ a, keeps_world fresh (k a)) → keeps_world fresh (assert ;;> await a := remote_post env f in k a).
Proof.
  intros Hk w Hw. pose proof (fresh_post f w Hw) as Hp. revert Hp. unfold ends, andThen.
  destruct (assert w) as [[[u|e] w1]|]; [|done..]. destruct (remote_post env f w1) as [[[a|e] w2]|]; [|done..].
  intros Hp. exact (Hk a w2 Hp).
Qed.

Lemma fresh_search {A} n page (f : Z → G → outcome_of (list A)) matches :
  keeps_world fresh (search_pages n (λ p, remote_get env (f p)) matches page).
Proof.
  revert page. induction n as [|n IH]; intros page; [by intros w Hw|]. cbn [search_pages].
  apply keeps_then; [apply fresh_get|]. intros [|a items]; [auto with acts|]. apply keeps_then; [auto with acts|].
  intros [c|]; [auto with acts|]. destruct (Nat.ltb _ _); auto with acts.
Qed.

Lemma fresh_build `{GitData G} check repo changes : keeps_world fresh (buildTreeElements env check assert repo changes).
Proof.
  induction changes as [|c changes IH]; cbn [buildTreeElements]; [auto with acts|]. apply keeps_computed_then. intros path _.
  destruct c; [by apply keeps_then; auto with acts|]. apply fresh_post_then. intros sha. by apply keeps_then; auto with acts.
Qed.

Lemma fresh_draft `{GitData G} repo plan :
  keeps_world fresh (pl_build_tree plan) → keeps_world fresh (publishDraftPullRequest env assert repo plan).
Proof.
  intros Hb. unfold publishDraftPullRequest. apply keeps_then; [apply fresh_get|]. intros [|p l]; [|auto with acts].
  apply keeps_then; [apply fresh_get|]. intros c. apply keeps_then; [done|]. intros tree. apply keeps_if; [auto with acts|].
  apply fresh_post_then. intros t. apply fresh_post_then. intros s. apply keeps_then; [|intros _].
  - apply keeps_catch; [apply fresh_post|]. intros e. apply keeps_if; [auto with acts|]. apply keeps_then; [apply fresh_assert|]. intros _.
    apply keeps_then; [apply fresh_get|]. intros s'. apply keeps_then; [apply fresh_get|]. intros c'. by apply keeps_if; auto with acts.
  - apply fresh_post_then. auto with acts.
Qed.
End Fresh.

(** C10: nothing is written to GitHub for a publication whose claim was not renewed right before,
    and confirmed: a draft of an issue or of a delivery, with the blobs, trees, commits and
    branches it takes, and a review of a pull request, on every way they can end, whatever
    others and the network do. *)
Theorem publication_writes_under_fresh_claim {G : Type} `{GitData G} `{PullReviews G} now env net message_of run_id token to_text
    render_body issue workspace_ref (r : IssueReviewRecord) sha256 render_delivery repo target_branch default_branch delivery
    bot fuel response_errors decode_utf8 generated_at render pr files record (w : world G) :
  let assert := assertPublicationClaim now env net message_of run_id token in
  let safely {A} (m : act G A) := ends m (λ _, fresh token) (λ _, fresh token) w in
  fresh token w →
  safely (createDraftPullRequestFromIssueReviewRecord env to_text render_body assert issue run_id workspace_ref r)
  ∧ safely (createRepositoryDeliveryDraftPr env sha256 render_delivery assert repo run_id workspace_ref target_branch default_branch delivery)
  ∧ safely (publishPullRequestReviewSideEffect now env net message_of bot fuel response_errors decode_utf8 generated_at render
              run_id token pr files record).
Proof.
  intros assert safely Hw. split; [|split].
  - apply (keeps_if (fresh token)); [auto with acts| |done]. apply keeps_computed_then. intros changes _.
    apply keeps_then; [|intros trusted; apply keeps_then; [|auto with acts]].
    + apply keeps_then; [apply fresh_get|]. intros name. apply keeps_if; [auto with acts|].
      apply keeps_then; [apply fresh_get|]. intros sha. by apply keeps_if; auto with acts.
    + apply fresh_draft, fresh_build.
  - apply (keeps_computed_then (fresh token)); [|done]. intros _ _. apply fresh_draft, fresh_build.
  - apply (keeps_computed_then (fresh token)); [|done]. intros event _. apply keeps_then; [|auto with acts].
    apply keeps_then; [apply fresh_search|]. intros [c|]; [auto with acts|].
    apply keeps_then; [|auto with acts]. apply keeps_catch; [apply fresh_post|]. intros e. apply keeps_if; [auto with acts|apply fresh_post].
Qed.

(** * Witnesses *)

(** Branches and open pull requests; where [lossy], the answer to the first request for a pull
    request is lost. *)
Record forge (lossy : bool) := {
  fg_branches : gmap (string * string * string) string;
  fg_pulls : gmap (string * string * string) (list draft_pull);
}.
Arguments fg_branches {lossy}. Arguments fg_pulls {lossy}.

Definition branch_key (r : repo_ref) (b : string) : string * string * string := (owner_login r, repo_name r, b).

Definition caret : Ascii.ascii := Ascii.ascii_of_N 94.

(** The name of a commit spells its tree and its parent. *)
Definition spelled (name : string) : git_commit :=
  match split_on caret name with
  | [tree; parent] => {| gc_tree := tree; gc_parents := [parent] |}
  | _ => {| gc_tree := name; gc_parents := [] |}
  end.

Definition tree_text (base : string) (els : list DraftTreeElement) : string :=
  foldl (λ t el, t +:+ "+" +:+ el_path el +:+ "=" +:+ default "" (el_sha el)) base els.

Definition taken_error : thrown_error := {|
  te_claim_lost := false; te_deterministic := false; te_code := None; te_status := Some 422;
  te_message := "Validation Failed"; te_retry_after := None; te_rate_remaining := None;
  te_response_message := Some "Reference already exists" |}.

Definition forge_pulls {lossy} (r : repo_ref) (b : string) (g : forge lossy) : list draft_pull := default [] (fg_pulls g !! branch_key r b).

#[export] Instance forge_git lossy : GitData (forge lossy) := {
  defaultBranch _ _ := inl (Some "main");
  branchHead _ _ _ := inl (Some "head");
  listPulls r b g := inl (forge_pulls r b g);
  getCommit _ s _ := inl (spelled s);
  createBlob _ content _ g := (inl content, g);
  createTree _ base els g := (inl (tree_text base els), g);
  createCommit _ _ tree parents g :=
    let name := tree +:+ String caret (String.concat "," parents) in
    (if bool_decide (spelled name = {| gc_tree := tree; gc_parents := parents |}) then inl name
     else inr (status_error 422 "Validation Failed"), g);
  createRef r b s g :=
    match fg_branches g !! branch_key r b with
    | Some _ => (inr taken_error, g)
    | None => (inl tt, {| fg_branches := <[branch_key r b := s]> (fg_branches g); fg_pulls := fg_pulls g |})
    end;
  getRef r b g := match fg_branches g !! branch_key r b with Some s => inl s | None => inr (status_error 404 "Not Found") end;
  createPull r q g :=
    match forge_pulls r (pq_head q) g with
    | [] =>
        let p := {| dp_number := 1; dp_html_url := "https://github.com/pull"; dp_title := pq_title q; dp_body := Some (pq_body q) |} in
        (if lossy && bool_decide (fg_pulls g = ∅) then inr (status_error 502 "Bad Gateway") else inl p,
         {| fg_branches := fg_branches g; fg_pulls := <[branch_key r (pq_head q) := [p]]> (fg_pulls g) |})
    | _ => (inr (status_error 422 "Validation Failed"), g)
    end;
}.

#[export] Instance forge_laws lossy : GitDataLaws (forge lossy).
Proof.
  refine {| branch_at r b (g : forge lossy) := fg_branches g !! branch_key r b; open_pulls := forge_pulls;
            commit_named := spelled; blob_of c _ := c; tree_of := tree_text |}.
  - by intros r b g l [= <-].
  - by intros r s g c [= <-].
  - intros r b g s. simpl. destruct (_ !! _); [|done]. by intros [= <-].
  - intros r c e g res g' [= <- <-]. split; [done|]. by intros s [= <-].
  - intros r base els g res g' [= <- <-]. split; [done|]. by intros s [= <-].
  - intros r message tree parents g res g' [= <- <-]. split; [done|]. intros s.
    destruct (bool_decide_reflect (spelled (tree +:+ String caret (String.concat "," parents)) = {| gc_tree := tree; gc_parents := parents |}));
      [|done]. by intros [= <-].
  - intros r b s g res g'. cbn [createRef forge_git]. destruct (fg_branches g !! branch_key r b) eqn:Hb; intros [= <- <-].
    { split; [done|]. split; [by left|done]. }
    split; [done|]. split; [|intros _; apply lookup_insert_eq]. intros r' b'. cbn [fg_branches].
    destruct (decide (branch_key r' b' = branch_key r b)) as [Heq|Hne]; [|left; by apply lookup_insert_ne].
    right. destruct r, r'. injection Heq as -> -> ->. split; [done|]. split; [done|]. split; [done|apply lookup_insert_eq].
  - intros r q g res g'. cbn [createPull forge_git]. destruct (forge_pulls r (pq_head q) g) as [|p l] eqn:Hp; intros [= <- <-].
    + split; [done|]. split.
      * intros r' b'. destruct (decide (branch_key r' b' = branch_key r (pq_head q))) as [Heq|Hne].
        -- right. destruct r, r'. by injection Heq as -> -> ->.
        -- left. unfold forge_pulls. cbn [fg_pulls]. by rewrite lookup_insert_ne.
      * eexists [_]. split; [unfold forge_pulls at 1; cbn [fg_pulls]; by rewrite lookup_insert_eq|]. split; [simpl; lia|].
        intros p. destruct (_ && _); [done|]. by intros [= <-].
    + split; [done|]. split; [by left|]. exists []. rewrite app_nil_r. split; [done|]. split; [simpl; lia|done].
Defined.

Definition issue7 : IssueContext := {|
  ix_repo := {| owner_login := "octo"; repo_name := "app" |}; ix_number := 7; ix_title := Some "Injection" |}.

Definition fixed_record : IssueReviewRecord := {|
  ir_file_changes := [JObject [("path", JString "src/a.c"); ("status", JString "upsert"); ("content", JString "int a;");
                               ("content_encoding", JString "utf-8")]];
  ir_coverage := Some "full"; ir_regression := Some "passed"; ir_next_step := Some "none" |}.

Definition fixed_changes : list FileChange := [Upsert "src/a.c" "int a;" Utf8 None].

Definition draft_attempt : draft_round (forge true) := {|
  dr_now := λ _, minute 9; dr_env := quiet_world; dr_net := reliable; dr_token := "pub-1" |}.

Definition empty_forge : forge true := {| fg_branches := ∅; fg_pulls := ∅ |}.
Definition draft_branch : string := "sec-review-bot/issue-7-run-1".

Definition two_drafts (t : run_rows) : option (list (option PublishedDraftPullRequest + raised) * forge true * run_rows) :=
  draft_rounds (λ _, "") (λ _, "") (λ _ _, "Fixed.") issue7 "run-1" "head" fixed_record [draft_attempt; draft_attempt] empty_forge t.

(** The answer to the request for the pull request is lost; the second attempt finds it. *)
Lemma draft_is_the_result_witness :
  ∃ t answers g' t' pub, two_drafts t = Some (answers, g', t') ∧ length answers = 2%nat ∧ inl (Some pub) ∈ answers
    ∧ (length (open_pulls (ix_repo issue7) draft_branch g') <= 1)%nat
    ∧ carries (ix_repo issue7) draft_branch "head" (element_of (G := forge true) <$> fixed_changes) g'.
Proof.
  assert (Hall : match two_drafts (stored publish_script) with
    | Some ([inr _; inl (Some _)], _, _) => true | _ => false end = true) by (vm_compute; reflexivity).
  revert Hall. generalize (stored publish_script) as t. intros t Hall.
  assert (Hquiet : Forall (λ rd : draft_round (forge true), ∀ i g t,
      others (ix_repo issue7) (buildDraftBranchName (ix_number issue7) "run-1") g (dr_env rd i (g, t)).1) [draft_attempt; draft_attempt]).
  { constructor; [|constructor; [|constructor]]; intros i g u; apply others_refl. }
  assert (Hsound : sound (ix_repo issue7) (buildDraftBranchName (ix_number issue7) "run-1") "head"
      (element_of (G := forge true) <$> fixed_changes) empty_forge).
  { split; [apply Nat.le_0_l|]. intros Hn. by destruct Hn. }
  destruct (draft_is_the_result (λ _, "") (λ _, "") (λ _ _, "Fixed.") issue7 "run-1" "head" fixed_record fixed_changes
    [draft_attempt; draft_attempt] empty_forge t eq_refl Hquiet Hsound) as (answers & g' & t' & Heq & Hlen & Hone & _ & Hcar).
  unfold two_drafts in *. rewrite Heq in Hall. destruct answers as [|[|] [|[[pub|]|] [|]]]; try discriminate Hall.
  eexists t, _, g', t', pub. split; [exact Heq|]. split; [exact Hlen|].
  split; [exact (list_elem_of_further _ _ _ (list_elem_of_here _ _))|]. split; [exact Hone|].
  exact (Hcar pub (list_elem_of_further _ _ _ (list_elem_of_here _ _))).
Defined.

(** Somebody else's branch has the name of the run's. *)
Definition foreign_forge : forge false := {|
  fg_branches := {[ branch_key (ix_repo issue7) draft_branch := "other^base" ]}; fg_pulls := ∅ |}.

Definition fixed_elements : list DraftTreeElement := element_of (G := forge false) <$> fixed_changes.

Definition fixed_plan : DraftPullRequestPlan (forge false) :=
  issue_plan quiet_world (λ _ _, "Fixed.") (pure tt) issue7 "run-1" "head" "main" fixed_changes fixed_record.

Lemma forge_answers : answers_all (G := forge false) (ix_repo issue7) draft_branch "head" fixed_elements.
Proof.
  split.
  - done.
  - done.
  - intros g s Hs. change (fg_branches g !! branch_key (ix_repo issue7) draft_branch = Some s) in Hs. split; [|done]. unfold getRef, forge_git. by rewrite Hs.
  - intros base g. by exists g.
  - intros message g. eexists _, g. cbn [createCommit forge_git]. rewrite bool_decide_eq_true_2 by (vm_compute; reflexivity). reflexivity.
  - intros s g Hn. change (fg_branches g !! branch_key (ix_repo issue7) draft_branch = None) in Hn. unfold createRef, forge_git. rewrite Hn. eauto.
  - intros s s' g Hs. change (fg_branches g !! branch_key (ix_repo issue7) draft_branch = Some s') in Hs. unfold createRef, forge_git. rewrite Hs. by exists taken_error, g.
  - intros q g Hq _ Hn. change (forge_pulls (ix_repo issue7) draft_branch g = []) in Hn. unfold createPull, forge_git. rewrite Hq, Hn. simpl. eauto.
Qed.


#[export] Instance no_reviews lossy : PullReviews (forge lossy) := {
  listReviews _ _ _ _ := inl [];
  createReview _ _ _ g := (inr (status_error 403 "Forbidden"), g);
}.

Lemma publication_writes_under_fresh_claim_witness :
  let w := {| w_calls := 0; w_remote := empty_forge; w_rows := stored publish_script; w_lost := false; w_trace := [] |} in
  fresh "pub-1" w
  ∧ ends (createDraftPullRequestFromIssueReviewRecord quiet_world (λ _, "") (λ _ _, "Fixed.")
      (assertPublicationClaim (λ _, minute 9) quiet_world reliable (λ _, "") "run-1" "pub-1") issue7 "run-1" "head" fixed_record)
      (λ _, fresh "pub-1") (λ _, fresh "pub-1") w.
Proof.
  intros w. assert (Hw : fresh "pub-1" w) by (intros [|e l1] l2 Heq; discriminate Heq). split; [exact Hw|].
  exact (proj1 (publication_writes_under_fresh_claim (λ _, minute 9) quiet_world reliable (λ _, "") "run-1" "pub-1" (λ _, "")
    (λ _ _, "Fixed.") issue7 "head" fixed_record (λ s, s) (λ _, "") (ix_repo issue7) None "main"
    {| rd_delivery_id := "d"; rd_case_ids := []; rd_case_count := 0; rd_file_changes := [] |} None 1 (λ _, []) inl "now" (λ _, "")
    {| pp_target := ix_repo issue7; pp_number := 1; pp_head_sha := ""; pp_author := None |} []
    {| rr_verdict := ""; rr_mitigation := None |} w Hw)).
Defined.
